(* ===== verification/_CoqProject ===== *)
-Q . S2P
Prelude.v
Common.v
Sync.v
Monitor.v
MonitorRace.v
HashCal.v
Links.v
Store.v
Chain.v
ChainSpec.v
Reader.v
Verifier.v
VerifierSpec.v
BCPool.v
BCPoolSpec.v
AppendSpec.v
JoinSpec.v
PoolRun.v
PoolChains.v
Pools.v
PoolsSpec.v
PoolLife.v
Consensus.v
Ledger.v
LedgerSpec.v
LedgerRun.v
Profile.v
P2p.v
P2pSpec.v
Boot.v
BootSpec.v
Syncer.v
SyncerSpec.v
WireSpec.v
CatchUp.v
Transfer.v
Miner.v
MinerSpec.v
Node.v
NodeSpec.v
Shell.v
ShellSpec.v
V0_1.v
V0_1Spec.v
