(* ===== verification/Prelude.v ===== *)
(** * naive-vite: a verification library

    The program under [src/] is a node of a block-lattice ledger written in Go.
    Every account has a chain of its own, one snapshot chain orders them by
    listing, in each of its blocks, the heads of account chains.  This library
    models the node and proves what its parts promise to each other.

    ** The program, and the file that models each part

    - Data: blocks, hash/height pairs, snapshot points ([common/types.go],
      [common/face/syncer.go]): [Common].  Locks, the component life cycle and the
      fork version ([common/lock.go], [common/lifecycle.go],
      [version/version.go]): [Sync].  Metrics ([monitor/]): [Monitor], and their
      goroutines [MonitorRace].  Block hashes, SHA-256 included ([tools/hashcal.go]):
      [HashCal].
    - Chains: the block store ([store/block_store.go]) is [Store]; the snapshot
      chain, the account chains and the chain of chains ([chain/]) are the modules
      of [Chain].  The other parts read them through the interface [ChainReader]
      ([common/face/chain.go]): [Reader].
    - Verification ([verifier/]): [Verifier].  A verifier answers a verdict and,
      when referred blocks are missing, a task that names them.
    - Pools ([pool/]): the generic pool of [bc_pool.go] is [BCPool], over a disk
      chain behind the interface [ChainRw]; [PoolChains] gives the two disk
      chains; the account pools, the snapshot pool and the pool of pools are
      [Pools]; their goroutines, started and stopped, are [PoolLife].
    - Consensus ([consensus/]): [Consensus].  Ledger, request pool and wallet
      ([ledger/], [wallet/]): [Ledger].  Miner ([miner/]): [Miner].
    - Network ([p2p/]): [P2p]; the boot node and its linkers: [Boot].  Synchroniser
      ([syncer/]): [Syncer], which reaches the network through the interface [P2P]
      and the pool through [PoolWriter].
    - The node that wires them together ([node/node.go]): [Node]; the command line
      that an operator drives it with ([cmd/node/main.go]): [Shell].  A load test that
      drives one ledger ([cmd/profile/profile.go]): [Profile].
    - The first version of the chain, a server of its own ([examples/v0_1.go]):
      [V0_1].

    A block arrives through [Syncer], waits in [BCPool] as a loose block, becomes
    part of a snippet, then of an in-memory chain, is verified by [Verifier]
    against [Chain] and is written there; [Chain] tells the request pool of
    [Ledger].  The functions of Go keep their names; a method [m] of a type [t]
    is [m] in a module named for [t], or [t_m] where [m] is not unique.

    ** Conventions

    - A Go function is a function into [outcome]: it returns, panics or runs out
      of the fuel of a loop ([Diverge]).  The errors it returns are values.  Waiting
      for ever (a lock never released, a goroutine never done) is [Diverge] too.
    - Pointers that are shared and mutated are names in a store: account chains,
      in-memory chains, snippets, peers, goroutines.
    - Range loops over Go maps visit them in any order: the order is an argument,
      constrained by [range_order]; the theorems hold for every order.
    - Times are nanoseconds; [int64] and [int32] arithmetic wraps ([wrap64],
      [wrap32]) wherever it can be reached; [float64] is Stdlib's [SpecFloat].
    - Concurrency: threads are step relations ([Sync], [PoolRun], [P2pSpec]) or
      machines that run on sequences of labelled events ([V0_1], [PoolLife],
      [MonitorRace], [Profile], [BootSpec], [NodeSpec], [ShellSpec]).  A step is an
      atomic operation in [Sync] and [MonitorRace]; what happens up to the next
      blocking point in [V0_1] and [PoolLife]; half a call of the ledger, up to and
      from the moment the account's mutex is taken, in [Profile].  Elsewhere it is a
      whole call, handler, round of a loop or end of a connection.  That is the grain
      of the model: the code's locks do not always ensure it.  An account's chain is
      made in one step ([Blockchain.selfAc]) though the code looks and stores in two
      ([LedgerRun.selfAc_race_loses_value]); the end of a connection is one step
      ([P2p.loopRead_end]) though it is three deferred calls, of which the second
      writes the table without its lock; a direct insertion and a compaction of one
      account pool share no lock ([Pools]).
    - Go's [int] heights of blocks are [Z] without a bound.

    ** Fuel

    The loops that are not structural have a bound computed from their arguments:
    [cutSnippet] the number of blocks of the snippet, [merge_loop] the number of
    heads, the loops over heights the difference of the heights, the walk along
    chain references [chain_fuel], one more than the number of chains.  The walks of
    [V0_1] have two steps more than stored blocks, which its invariant proves enough.
    Theorems that say "returns" ([... = Ret ...]) prove the bound enough; those about
    a pool ask that its counter of chain ids, an [int32], has room.

    ** What the theorems show

    - Chains ([ChainSpec], [Store], [Reader]): the store with the two kinds of
      chain refines lists of hash-linked blocks; stored blocks are read back;
      reading is invisible; snapshotted blocks cannot be removed.
    - Verification ([VerifierSpec]): a verdict of success is equivalent to
      declarative conditions on the chain, and implies the exact amounts.
    - Pools: operations of a pool on the sequences of blocks they stand for
      ([BCPoolSpec]); snippets join the tree of chains without loss
      ([AppendSpec]); the pool as a state machine only grows what can be read
      along its chains ([PoolRun]); joining is complete ([JoinSpec]); only verified
      blocks are written ([PoolsSpec]); stopped pools rest, but for loops that
      begin late ([PoolLife]); the snapshot chain is a lawful disk
      chain; the account chain keeps the laws of reading and insertion, not that
      of removal ([PoolChains]).
    - Metrics ([Monitor], [MonitorRace]): the ring is a bounded history, and the
      monitor reports the events of the last minute if nothing overlaps; when its
      goroutines interleave, what is reported and what is lost account exactly for
      what was recorded.
    - Consensus ([Consensus]): a producer is accepted exactly in its slots; a slot
      is notified once.
    - Network and synchroniser ([P2pSpec], [BootSpec], [SyncerSpec]): the peer
      table; nodes that link to one boot node find each other; each
      message reaches one handler; requests are answered with the blocks asked
      for; retries are paced; the first synchronisation ends, once; what is
      sent is well typed, whatever arrives ([WireSpec]).
    - The whole: a node that is behind asks its peer, and one round of
      its snapshot pool later its chain is the peer's ([CatchUp]).  A transfer
      between two nodes completes ([Transfer]): the request is written at one node
      and broadcast, one round of the peer's account loops puts it on the peer's
      chain, the answer crosses back in the same way, and both nodes again hold
      the same account chains; the two accounts have at least one block each.
    - Ledger, miner, node ([LedgerSpec], [MinerSpec], [NodeSpec]): the answer to a
      request verifies; a miner can be started and stopped for ever; a node under
      its operator's commands follows a
      machine of five states, in which a miner that is notified hangs.  Runs of the ledger
      ([LedgerRun]): over any history of transfers the balances and the open
      requests add up to the opening amounts, and the receipt that opens an account
      can be replayed; the load test, which answers only what it finds
      listed, conserves value however the halves of its calls interleave ([Profile]);
      a chain that two goroutines make at once loses a block.  A session at the command
      line follows a machine of what the operator sees ([ShellSpec]).
    - The first version ([V0_1Spec]): its books balance under every interleaving of
      its goroutines, and its channels can form a cycle that nobody leaves.

    Several theorems describe what the code does where that differs from what it
    means to do: heads that stay on a removed block, a write lock that is never
    released, a miner that never returns, value created by blocks of an unknown
    type, one send received twice, panics that a peer can cause.

    ** Interfaces to code outside [src/]

    The stack of snapshot points (class [Stack], laws [StackLaws]), the JSON codec
    (class [Json], laws [JsonLaws]) and the sockets (arguments of the steps of
    [P2p]).  Each theorem that uses the laws has an instance next to it.  That a
    message is sent rests on [SyncerSpec.encodable]: the codec encodes a message whose
    times are dated before the year 10000, and the theorems ask that of the blocks.

    ** Not modelled

    Sockets, HTTP servers and the console behind [cmd/]; log lines; tickers and the scheduling of goroutines beyond the steps they take;
    the JSON form of [monitor/]; dumps for debugging such as [printChains];
    functions whose body is empty or only returns a field.  [examples/v0_12.go] does not compile
    against the packages of this commit: it names functions and types that do not
    exist, and has no behaviour to model. *)

From stdpp Require Export base gmap strings list fin_maps sorting pretty.
From Stdlib Require Export ZArith SpecFloat.

#[global] Open Scope Z_scope.

(** ** Outcomes of Go code

    A Go function returns, panics (an explicit [panic], a nil dereference or an
    index out of range end the process: the program never recovers), or does not
    return within the fuel a loop was given.  Errors that the code returns are
    ordinary values ([option string], [None] for [nil]). *)

Inductive outcome (A : Type) : Type :=
| Ret (a : A)
| Panic (why : string)
| Diverge.
Arguments Ret {A} _.
Arguments Panic {A} _.
Arguments Diverge {A}.

#[export] Instance outcome_ret : MRet outcome := fun A a => Ret a.
#[export] Instance outcome_bind : MBind outcome := fun A B f m =>
  match m with
  | Ret a => f a
  | Panic w => Panic w
  | Diverge => Diverge
  end.

#[export] Instance outcome_eq_dec `{EqDecision A} : EqDecision (outcome A).
Proof. solve_decision. Defined.

(** [deref p w] reads a pointer that may be nil. *)
Definition deref {A} (p : option A) (w : string) : outcome A :=
  match p with Some a => Ret a | None => Panic w end.

(** [close(ch)] of a channel that may be closed already. *)
Definition close_chan (closed : bool) : outcome bool :=
  if closed then Panic "close of closed channel" else Ret true.

Definition returns {A} (m : outcome A) : Prop := exists a, m = Ret a.

Abbreviation error := (option string) (only parsing).

Lemma bind_ret_inv {A B} (m : outcome A) (f : A -> outcome B) b :
  (m ≫= f) = Ret b -> exists a, m = Ret a /\ f a = Ret b.
Proof. destruct m; cbn; intros; try done. eauto. Qed.

Lemma bind_ret_l {A B} (a : A) (f : A -> outcome B) : (Ret a ≫= f) = f a.
Proof. done. Qed.

(** The result of a computation that is known to return. *)
Definition or_else {A} (m : outcome A) (a : A) : A := match m with Ret a => a | _ => a end.
Definition is_Ret {A} (m : outcome A) : bool := match m with Ret _ => true | _ => false end.

Lemma or_else_Ret {A} (m : outcome A) a : is_Ret m = true -> m = Ret (or_else m a).
Proof. by destruct m. Qed.

Lemma deref_ret_inv {A} (p : option A) w a : deref p w = Ret a -> p = Some a.
Proof. destruct p; cbn; congruence. Qed.

(** ** Fixed-width signed integers

    Go's [int32] and [int64] ([int] on the 64-bit targets) wrap around. *)

Definition wrap (bits : Z) (z : Z) : Z :=
  let m := 2 ^ bits in
  let r := z `mod` m in
  if decide (r < 2 ^ (bits - 1)) then r else r - m.

Definition wrap32 (z : Z) : Z := wrap 32 z.
Definition wrap64 (z : Z) : Z := wrap 64 z.

Definition in32 (z : Z) : Prop := - 2 ^ 31 <= z < 2 ^ 31.
Definition in64 (z : Z) : Prop := - 2 ^ 63 <= z < 2 ^ 63.

Lemma wrap_bounds bits z :
  0 < bits -> - 2 ^ (bits - 1) <= wrap bits z < 2 ^ (bits - 1).
Proof.
  intros Hb. unfold wrap.
  assert (E : 2 ^ bits = 2 * 2 ^ (bits - 1)).
  { replace bits with (Z.succ (bits - 1)) at 1 by lia. apply Z.pow_succ_r. lia. }
  pose proof (Z.pow_pos_nonneg 2 (bits - 1) ltac:(lia) ltac:(lia)).
  pose proof (Z.mod_pos_bound z (2 ^ bits) ltac:(lia)).
  case_decide; lia.
Qed.

Lemma wrap_id bits z :
  0 < bits -> - 2 ^ (bits - 1) <= z < 2 ^ (bits - 1) -> wrap bits z = z.
Proof.
  intros Hb Hz. unfold wrap.
  assert (E : 2 ^ bits = 2 * 2 ^ (bits - 1)).
  { replace bits with (Z.succ (bits - 1)) at 1 by lia. apply Z.pow_succ_r. lia. }
  destruct (Z_lt_le_dec z 0).
  - replace (z `mod` 2 ^ bits) with (z + 2 ^ bits).
    + case_decide; lia.
    + apply Z.mod_unique with (-1); lia.
  - rewrite Z.mod_small by lia. case_decide; lia.
Qed.

Lemma wrap_mod bits z : 0 < bits -> wrap bits z `mod` 2 ^ bits = z `mod` 2 ^ bits.
Proof.
  intros Hb. unfold wrap.
  pose proof (Z.pow_pos_nonneg 2 bits ltac:(lia) ltac:(lia)).
  case_decide.
  - by rewrite Z.mod_mod by lia.
  - replace (z `mod` 2 ^ bits - 2 ^ bits) with (z `mod` 2 ^ bits + (-1) * 2 ^ bits) by lia.
    rewrite Z.mod_add by lia. by rewrite Z.mod_mod by lia.
Qed.

(** [wrap] only depends on the residue, so wrapped additions compose. *)
Lemma wrap_congr bits a b : a `mod` 2 ^ bits = b `mod` 2 ^ bits -> wrap bits a = wrap bits b.
Proof. intros H. unfold wrap. by rewrite H. Qed.

Lemma wrap_add_wrap bits a b : 0 < bits -> wrap bits (wrap bits a + b) = wrap bits (a + b).
Proof.
  intros Hb. apply wrap_congr.
  rewrite Z.add_mod, wrap_mod by lia. by rewrite <- Z.add_mod by lia.
Qed.

Lemma wrap32_bounds z : in32 (wrap32 z).
Proof. apply (wrap_bounds 32); lia. Qed.
Lemma wrap64_bounds z : in64 (wrap64 z).
Proof. apply (wrap_bounds 64); lia. Qed.
Lemma wrap32_id z : in32 z -> wrap32 z = z.
Proof. intros H. apply (wrap_id 32); [lia | exact H]. Qed.
Lemma wrap64_id z : in64 z -> wrap64 z = z.
Proof. intros H. apply (wrap_id 64); [lia | exact H]. Qed.
Lemma wrap32_add a b : wrap32 (wrap32 a + b) = wrap32 (a + b).
Proof. apply (wrap_add_wrap 32); lia. Qed.
Lemma wrap64_add a b : wrap64 (wrap64 a + b) = wrap64 (a + b).
Proof. apply (wrap_add_wrap 64); lia. Qed.
Lemma wrap64_add_both a b : wrap64 (wrap64 a + wrap64 b) = wrap64 (a + b).
Proof. by rewrite wrap64_add, Z.add_comm, wrap64_add, Z.add_comm. Qed.

(** [float64(z)], in binary64 with rounding to nearest even. *)
Definition float64 (z : Z) : spec_float := binary_normalize 53 1024 z 0 false.

(** ** Strings

    Go compares strings byte by byte. *)
Definition string_le (s1 s2 : string) : Prop := String.leb s1 s2 = true.
#[export] Instance string_le_dec s1 s2 : Decision (string_le s1 s2).
Proof. unfold string_le. apply _. Defined.

#[export] Instance string_le_total : Total string_le.
Proof. intros s1 s2. unfold string_le. destruct (String.leb_total s1 s2); auto. Qed.

(** ** Sums *)
Definition zsum (l : list Z) : Z := foldr Z.add 0 l.

Lemma zsum_perm l l' : l ≡ₚ l' -> zsum l = zsum l'.
Proof. unfold zsum. induction 1; cbn in *; lia. Qed.

(** A change at one place of a list without repetitions. *)
Lemma zsum_update (f g : string -> Z) x l :
  NoDup l -> x ∈ l -> (forall y, y <> x -> g y = f y) ->
  zsum (g <$> l) = zsum (f <$> l) + (g x - f x).
Proof.
  intros Hnd Hx Hg. apply list_elem_of_split in Hx as (l1 & l2 & ->).
  assert (E : forall l : list string, x ∉ l -> g <$> l = f <$> l).
  { intros l Hl. apply list_fmap_ext. intros i y Hy. apply Hg. intros ->.
    by apply list_elem_of_lookup_2 in Hy. }
  apply NoDup_app in Hnd as (_ & Hd & Hnd). apply NoDup_cons in Hnd as [H2 _].
  assert (H1 : x ∉ l1) by (intros H; apply (Hd x H); left).
  unfold zsum. rewrite !fmap_app, !foldr_app, !fmap_cons; cbn. rewrite (E l2 H2), (E l1 H1).
  clear. induction l1; cbn; lia.
Qed.

Lemma zsum_cons x l : zsum (x :: l) = x + zsum l.
Proof. done. Qed.
Lemma zsum_insert {A} (f : A -> Z) (l : list A) i x y :
  l !! i = Some x -> zsum (f <$> <[i:=y]> l) = zsum (f <$> l) - f x + f y.
Proof.
  revert i. induction l as [|z l IH]; intros [|i] H; try done.
  - injection H as ->. change (<[0%nat:=y]> (x :: l)) with (y :: l). rewrite !fmap_cons, !zsum_cons. lia.
  - change (<[S i:=y]> (z :: l)) with (z :: <[i:=y]> l). rewrite !fmap_cons, !zsum_cons, (IH i H). lia.
Qed.
Lemma zsum_app {A} (f : A -> Z) (l l' : list A) : zsum (f <$> l ++ l') = zsum (f <$> l) + zsum (f <$> l').
Proof. induction l as [|x l IH]; [done|]. rewrite <- app_comm_cons, !fmap_cons, !zsum_cons, IH. lia. Qed.

(** ** Reachability *)

(** An invariant of every step is an invariant of every run. *)
Lemma rtc_preserves {A} (R : A -> A -> Prop) (P : A -> Prop) :
  (forall x y, R x y -> P x -> P y) -> forall x y, rtc R x y -> P x -> P y.
Proof. intros Hstep x y Hr. induction Hr; eauto. Qed.

(** The same with a side invariant [Q] that every step may use. *)
Lemma rtc_preserves2 {A} (R : A -> A -> Prop) (P Q : A -> Prop) :
  (forall x y, R x y -> Q x -> Q y) ->
  (forall x y, R x y -> Q x -> P x -> P y) ->
  forall x y, rtc R x y -> Q x -> P x -> P y.
Proof. intros HQ HP x y Hr. induction Hr; eauto. Qed.

(** ** Slices

    A Go slice is a list; an index outside it panics. *)
Definition index {A} (l : list A) (i : Z) : outcome A :=
  if decide (i < 0) then Panic "index out of range"
  else deref (l !! Z.to_nat i) "index out of range".

Definition set_index {A} (l : list A) (i : Z) (x : A) : outcome (list A) :=
  if decide (0 <= i < Z.of_nat (length l)) then Ret (<[Z.to_nat i := x]> l)
  else Panic "index out of range".

Lemma index_Ret {A} (l : list A) i x : 0 <= i -> l !! Z.to_nat i = Some x -> index l i = Ret x.
Proof. intros Hi Hl. unfold index. case_decide; [lia|]. by rewrite Hl. Qed.

Lemma set_index_Ret {A} (l : list A) i x :
  0 <= i < Z.of_nat (length l) -> set_index l i x = Ret (<[Z.to_nat i := x]> l).
Proof. intros Hi. unfold set_index. by case_decide. Qed.

(** A [range] over a Go map visits its entries in an unspecified order:
    [range_order f] says that [f] picks, for every map, one such order. *)
Definition range_order {A} (f : gmap string A -> list (string * A)) : Prop :=
  forall m, f m ≡ₚ map_to_list m.

Lemma range_order_elem {A} (f : gmap string A -> list (string * A)) m k v :
  range_order f -> (k, v) ∈ f m <-> m !! k = Some v.
Proof. intros Hf. rewrite (Hf m). apply elem_of_map_to_list. Qed.

Lemma range_order_map_to_list {A} : range_order (fun m : gmap string A => map_to_list m).
Proof. intros m. done. Qed.
