(* ===== verification/Common.v ===== *)
(** * Common: the data every component shares

    [common/types.go] (hash/height pairs, snapshot points, account and snapshot
    blocks, their constructors and the [Block] interface), [common/face/syncer.go]
    (the fetch request) and [common/config/miner.go] (addresses).

    A [time.Time] is its number of nanoseconds since the Unix epoch; a nil
    pointer is [None].  Heights are unbounded integers, amounts are [int64]
    values with Go's wrap-around. *)
From S2P Require Import Prelude.

(** ** The [Block] interface ([common/types.go:8-14]) *)
Class Block (B : Type) := {
  Height : B -> Z;
  Hash : B -> string;
  PreHash : B -> string;
  Signer : B -> string;
  Timestamp : B -> Z
}.

#[global] Hint Mode Block ! : typeclass_instances.

Record HashHeight := mkHashHeight { hh_Hash : string; hh_Height : Z }.

Record AccountHashH := mkAccountHashH { ah_Hash : string; ah_Height : Z; ah_Addr : string }.

Definition NewAccountHashH (address hash : string) (height : Z) : AccountHashH :=
  {| ah_Addr := address; ah_Hash := hash; ah_Height := height |}.

Record SnapshotPoint := mkSnapshotPoint {
  SnapshotHeight : Z;
  SnapshotHash : string;
  AccountHeight : Z;
  AccountHash : string
}.

#[export] Instance HashHeight_eq_dec : EqDecision HashHeight.
Proof. solve_decision. Defined.
#[export] Instance AccountHashH_eq_dec : EqDecision AccountHashH.
Proof. solve_decision. Defined.
#[export] Instance SnapshotPoint_eq_dec : EqDecision SnapshotPoint.
Proof. solve_decision. Defined.

(** [SnapshotPoint.Equals]: the argument may be a nil pointer. *)
Definition SnapshotPoint_Equals (self : SnapshotPoint) (peer : option SnapshotPoint) : bool :=
  match peer with
  | None => false
  | Some peer =>
      if bool_decide (SnapshotHash self = SnapshotHash peer) &&
         (SnapshotHeight self =? SnapshotHeight peer) &&
         (AccountHeight self =? AccountHeight peer) &&
         bool_decide (AccountHash self = AccountHash peer)
      then true
      else false
  end.

(** [strconv.Itoa] *)
Definition Itoa (z : Z) : string := pretty z.

Definition SnapshotPoint_String (self : SnapshotPoint) : string :=
  "[" +:+ Itoa (SnapshotHeight self) +:+ "][" +:+ SnapshotHash self +:+ "][" +:+
  Itoa (AccountHeight self) +:+ "][" +:+ AccountHash self +:+ "]".

(** ** Block types and message types *)
Abbreviation BlockType := Z (only parsing).
Definition GENESIS : BlockType := 0.
Definition SEND : BlockType := 1.
Definition RECEIVED : BlockType := 2.

Definition txStr : gmap Z string :=
  {[ SEND := "send tx"; RECEIVED := "received tx" ]}.

Definition BlockType_String (self : BlockType) : string :=
  match txStr !! self with Some s => s | None => "Unknown" end.

Abbreviation NetMsgType := Z (only parsing).
Definition PeerConnected : NetMsgType := 1.
Definition PeerClosed : NetMsgType := 2.
Definition State : NetMsgType := 101.
Definition RequestAccountHash : NetMsgType := 102.
Definition RequestSnapshotHash : NetMsgType := 103.
Definition RequestAccountBlocks : NetMsgType := 104.
Definition RequestSnapshotBlocks : NetMsgType := 105.
Definition AccountHashes : NetMsgType := 121.
Definition SnapshotHashes : NetMsgType := 122.
Definition AccountBlocks : NetMsgType := 123.
Definition SnapshotBlocks : NetMsgType := 124.

Definition netMsgTypeStr : gmap Z string :=
  {[ State := "State";
     RequestAccountHash := "RequestAccountHash";
     RequestSnapshotHash := "RequestSnapshotHash";
     RequestAccountBlocks := "RequestAccountBlocks";
     RequestSnapshotBlocks := "RequestSnapshotBlocks";
     AccountHashes := "AccountHashes";
     SnapshotHashes := "SnapshotHashes";
     AccountBlocks := "AccountBlocks";
     SnapshotBlocks := "SnapshotBlocks" ]}.

Definition NetMsgType_String (self : NetMsgType) : string :=
  match netMsgTypeStr !! self with Some s => s | None => "Unknown" end.

(** ** Blocks *)
Record Tblock := mkTblock {
  Theight : Z;
  Thash : string;
  TpreHash : string;
  Tsigner : string;
  Ttimestamp : Z
}.

Record AccountStateBlock := mkAccountStateBlock {
  a_Tblock : Tblock;
  Amount : Z;               (* the balance *)
  ModifiedAmount : Z;
  a_SnapshotHeight : Z;
  a_SnapshotHash : string;
  a_BlockType : BlockType;
  From : string;
  To : string;
  SourceHash : string;
  SourceHeight : Z
}.

Record SnapshotBlock := mkSnapshotBlock {
  s_Tblock : Tblock;
  Accounts : list AccountHashH
}.

#[export] Instance Tblock_eq_dec : EqDecision Tblock.
Proof. solve_decision. Defined.
#[export] Instance AccountStateBlock_eq_dec : EqDecision AccountStateBlock.
Proof. solve_decision. Defined.
#[export] Instance SnapshotBlock_eq_dec : EqDecision SnapshotBlock.
Proof. solve_decision. Defined.

#[export] Instance Tblock_Block : Block Tblock := {|
  Height := Theight; Hash := Thash; PreHash := TpreHash;
  Signer := Tsigner; Timestamp := Ttimestamp |}.
#[export] Instance AccountStateBlock_Block : Block AccountStateBlock := {|
  Height b := Theight (a_Tblock b); Hash b := Thash (a_Tblock b);
  PreHash b := TpreHash (a_Tblock b); Signer b := Tsigner (a_Tblock b);
  Timestamp b := Ttimestamp (a_Tblock b) |}.
#[export] Instance SnapshotBlock_Block : Block SnapshotBlock := {|
  Height b := Theight (s_Tblock b); Hash b := Thash (s_Tblock b);
  PreHash b := TpreHash (s_Tblock b); Signer b := Tsigner (s_Tblock b);
  Timestamp b := Ttimestamp (s_Tblock b) |}.

Definition Tblock_SetHash (self : Tblock) (hash : string) : Tblock :=
  {| Theight := Theight self; Thash := hash; TpreHash := TpreHash self;
     Tsigner := Tsigner self; Ttimestamp := Ttimestamp self |}.

(** [SetHash] through the embedded [Tblock]. *)
Definition a_SetHash (b : AccountStateBlock) (hash : string) : AccountStateBlock :=
  {| a_Tblock := Tblock_SetHash (a_Tblock b) hash;
     Amount := Amount b; ModifiedAmount := ModifiedAmount b;
     a_SnapshotHeight := a_SnapshotHeight b; a_SnapshotHash := a_SnapshotHash b;
     a_BlockType := a_BlockType b; From := From b; To := To b;
     SourceHash := SourceHash b; SourceHeight := SourceHeight b |}.
Definition s_SetHash (b : SnapshotBlock) (hash : string) : SnapshotBlock :=
  {| s_Tblock := Tblock_SetHash (s_Tblock b) hash; Accounts := Accounts b |}.

Definition NewSnapshotBlock (height : Z) (hash preHash signer : string) (timestamp : Z)
    (accounts : list AccountHashH) : SnapshotBlock :=
  {| s_Tblock := {| Theight := height; Thash := hash; TpreHash := preHash;
                    Tsigner := signer; Ttimestamp := timestamp |};
     Accounts := accounts |}.

Definition NewAccountBlock (height : Z) (hash preHash signer : string) (timestamp : Z)
    (amount modifiedAmount snapshotHeight : Z) (snapshotHash : string)
    (blockType : BlockType) (from to sourceHash : string) (sourceHeight : Z)
    : AccountStateBlock :=
  {| a_Tblock := {| Theight := height; Thash := hash; TpreHash := preHash;
                    Tsigner := signer; Ttimestamp := timestamp |};
     Amount := amount; ModifiedAmount := modifiedAmount;
     a_SnapshotHeight := snapshotHeight; a_SnapshotHash := snapshotHash;
     a_BlockType := blockType; From := from; To := to;
     SourceHash := sourceHash; SourceHeight := sourceHeight |}.

(** [NewAccountBlockFrom]: the next block of an account, or its first one (at
    height 1) when the account has no head. *)
Definition NewAccountBlockFrom (accountBlock : option AccountStateBlock) (signer : string)
    (timestamp modifiedAmount : Z) (snapshotBlock : SnapshotBlock) (blockType : BlockType)
    (from to sourceHash : string) (sourceHeight : Z) : AccountStateBlock :=
  let '(theight, tprehash, amount) :=
    match accountBlock with
    | None => (1, "", modifiedAmount)
    | Some ab => (Height ab + 1, Hash ab, wrap64 (Amount ab + modifiedAmount))
    end in
  {| a_Tblock := {| Theight := theight; Thash := ""; TpreHash := tprehash;
                    Tsigner := signer; Ttimestamp := timestamp |};
     Amount := amount; ModifiedAmount := modifiedAmount;
     a_SnapshotHeight := Height snapshotBlock; a_SnapshotHash := Hash snapshotBlock;
     a_BlockType := blockType; From := from; To := to;
     SourceHash := sourceHash; SourceHeight := sourceHeight |}.

(** ** Fetch requests and addresses *)
Record FetchRequest := mkFetchRequest {
  fr_Chain : string;
  fr_Height : Z;
  fr_Hash : string;
  fr_PrevCnt : Z
}.

#[export] Instance FetchRequest_eq_dec : EqDecision FetchRequest.
Proof. solve_decision. Defined.

Definition FetchRequest_String (self : FetchRequest) : string :=
  fr_Chain self +:+ "," +:+ Itoa (fr_Height self) +:+ "," +:+ fr_Hash self +:+ "," +:+
  Itoa (fr_PrevCnt self).

Abbreviation Address := (list Ascii.ascii) (only parsing).
Definition HexToAddress (hexStr : string) : Address := String.list_ascii_of_string hexStr.
Definition Address_String (self : Address) : string := String.string_of_list_ascii self.

(** ** Lemmas *)

Lemma SnapshotPoint_Equals_spec self peer :
  SnapshotPoint_Equals self peer = true <-> peer = Some self.
Proof.
  destruct self as [h1 s1 a1 b1], peer as [[h2 s2 a2 b2]|]; cbn; [|split; congruence].
  destruct (bool_decide_reflect (s1 = s2)), (Z.eqb_spec h1 h2), (Z.eqb_spec a1 a2),
    (bool_decide_reflect (b1 = b2)); cbn; split; naive_solver.
Qed.

Lemma Address_String_HexToAddress s : Address_String (HexToAddress s) = s.
Proof. apply String.string_of_list_ascii_of_string. Qed.

Lemma HexToAddress_String a : HexToAddress (Address_String a) = a.
Proof. apply String.list_ascii_of_string_of_list_ascii. Qed.

Lemma BlockType_String_inj_known b1 b2 :
  BlockType_String b1 = BlockType_String b2 -> BlockType_String b1 <> "Unknown" -> b1 = b2.
Proof.
  unfold BlockType_String, txStr, SEND, RECEIVED.
  rewrite !lookup_insert, !lookup_singleton.
  intros H1 H2. repeat (case_decide; simplify_eq); done.
Qed.
