(* ===== verification/Sync.v ===== *)
(** * Sync: the atomics the components are built on

  [common/lock.go] (the non-blocking lock and the reader/writer lock),
  [common/lifecycle.go] (the component life cycle), the miner's life cycle
  ([miner/miner.go:23-45]) and [version/version.go] (the fork version).

  Every field is an [int32] that is only touched by [CompareAndSwapInt32] and
  plain reads.  A compare-and-swap loop is modelled by one iteration, given the
  value [i] the iteration read before its compare-and-swap: other threads may
  have changed the field in between, so [i] is arbitrary. *)
From S2P Require Import Prelude.
From S2P Require Import Common.

Definition CompareAndSwapInt32 (addr old new : Z) : Z * bool :=
if decide (addr = old) then (new, true) else (addr, false).

Module NonBlockLock.
Record NonBlockLock := mk { b : Z }.

Definition zero : NonBlockLock := {| b := 0 |}.

Definition TryLock (self : NonBlockLock) : NonBlockLock * bool :=
  let '(v, ok) := CompareAndSwapInt32 (b self) 0 1 in ({| b := v |}, ok).
Definition UnLock (self : NonBlockLock) : NonBlockLock * bool :=
  let '(v, ok) := CompareAndSwapInt32 (b self) 1 0 in ({| b := v |}, ok).

(** The clients' protocol ([accountPool.Compact], [accountPool.TryInsert]): a
    thread that gets the lock releases it once, on its way out. *)
Inductive step : NonBlockLock * gset nat -> NonBlockLock * gset nat -> Prop :=
| step_try_ok l l' hs t :
    t ∉ hs -> TryLock l = (l', true) -> step (l, hs) (l', {[t]} ∪ hs)
| step_try_fail l l' hs t :
    t ∉ hs -> TryLock l = (l', false) -> step (l, hs) (l', hs)
| step_unlock l l' hs t r :
    t ∈ hs -> UnLock l = (l', r) -> step (l, hs) (l', hs ∖ {[t]}).

Definition inv (s : NonBlockLock * gset nat) : Prop :=
  (b s.1 = 0 /\ s.2 = ∅) \/ (b s.1 = 1 /\ exists t, s.2 = {[t]}).

Lemma step_inv s s' : step s s' -> inv s -> inv s'.
Proof.
  intros Hs Hi.
  destruct Hs as [l l' hs t Ht E | l l' hs t Ht E | l l' hs t r Ht E];
    unfold inv, TryLock, UnLock, CompareAndSwapInt32 in *; cbn in *;
    case_decide; simplify_eq; cbn.
  - destruct Hi as [[_ ->]|[? _]]; [|lia]. right. split; [done|].
    exists t. set_solver.
  - exact Hi.
  - destruct Hi as [[? ->]|[_ [t' ->]]]; [set_solver|]. left. split; [done|].
    set_solver.
  - destruct Hi as [[? ->]|[? _]]; [set_solver|lia].
Qed.

(** Mutual exclusion of the compaction lock.  In every state the threads
    of a pool can reach, at most one of them is between its successful
    [TryLock] and its [UnLock]. *)
Theorem mutual_exclusion l hs :
  rtc step (zero, ∅) (l, hs) ->
  forall t1 t2, t1 ∈ hs -> t2 ∈ hs -> t1 = t2.
Proof.
  intros Hr t1 t2 H1 H2.
  assert (Hi : inv (l, hs)).
  { eapply rtc_preserves; [apply step_inv | exact Hr |]. left. done. }
  destruct Hi as [[_ E]|[_ [t E]]]; cbn in E; subst; set_solver.
Qed.

Lemma mutual_exclusion_witness :
  rtc step (zero, ∅) ({| b := 1 |}, {[7%nat]}) /\
  forall t1 t2, t1 ∈ ({[7%nat]} : gset nat) -> t2 ∈ ({[7%nat]} : gset nat) -> t1 = t2.
Proof.
  assert (Hr : rtc step (zero, ∅) ({| b := 1 |}, {[7%nat]})).
  { eapply rtc_l; [|apply rtc_refl]. rewrite <- (right_id_L ∅ (∪) {[7%nat]}).
    apply step_try_ok; [set_solver|reflexivity]. }
  split; [exact Hr | exact (mutual_exclusion _ _ Hr)].
Defined.
End NonBlockLock.

Module RWLock.
Record RWLock := mk { r : Z; w : Z }.

Definition zero : RWLock := {| r := 0; w := 0 |}.

(** One iteration of the loop; [None] means: go round again. *)
Definition TryRLock_iter (i : Z) (self : RWLock) : RWLock * option bool :=
  if decide (i < 0) then (self, Some false)
  else
    let j := wrap32 (i + 1) in
    let '(v, ok) := CompareAndSwapInt32 (r self) i j in
    ({| r := v; w := w self |}, if ok then Some true else None).

Definition UnRLock_iter (i : Z) (self : RWLock) : RWLock * option bool :=
  if decide (i < 0) then (self, Some false)
  else
    let j := wrap32 (i - 1) in
    let '(v, ok) := CompareAndSwapInt32 (r self) i j in
    ({| r := v; w := w self |}, if ok then Some true else None).

(** [TryWLock] first tests [self.r > 0] on the value [i] it read. *)
Definition TryWLock (i : Z) (self : RWLock) : RWLock * bool :=
  if decide (0 < i) then (self, false)
  else
    let '(v, ok) := CompareAndSwapInt32 (r self) 0 (-1) in
    ({| r := v; w := w self |}, ok).

Definition WLock_iter (self : RWLock) : RWLock * option bool :=
  let '(v, ok) := CompareAndSwapInt32 (r self) 0 (-1) in
  ({| r := v; w := w self |}, if ok then Some true else None).

Definition UnWLock (self : RWLock) : RWLock * bool :=
  let '(v, ok) := CompareAndSwapInt32 (w self) (-1) 0 in
  ({| r := r self; w := v |}, ok).

(** Any thread runs any of the operations, on any value it may have read. *)
Inductive step (l : RWLock) : RWLock -> Prop :=
| step_TryRLock i : step l (TryRLock_iter i l).1
| step_UnRLock i : step l (UnRLock_iter i l).1
| step_TryWLock i : step l (TryWLock i l).1
| step_WLock : step l (WLock_iter l).1
| step_UnWLock : step l (UnWLock l).1.

Ltac crush := unfold TryRLock_iter, UnRLock_iter, TryWLock, WLock_iter, UnWLock,
  CompareAndSwapInt32 in *; repeat case_decide; cbn in *; try lia; try done.

Lemma step_w0 l l' : step l l' -> w l = 0 -> w l' = 0.
Proof. intros [] H; crush. Qed.

Lemma step_stuck l l' : step l l' -> w l = 0 -> r l = -1 -> r l' = -1.
Proof. intros [] Hw Hr; crush. Qed.

(** Readers exclude a writer: [TryRLock] succeeds only on a non-negative [r],
    and a writer gets in only on [r = 0]. *)
Lemma TryRLock_excludes_writer i l l' :
  TryRLock_iter i l = (l', Some true) -> 0 <= r l.
Proof. intros H. crush. Qed.

(** A write lock is never released.  From the zero value, in whatever way
    threads interleave: [UnWLock] returns false and changes nothing (it swaps
    [w], which no operation ever sets), and once a writer is in ([r = -1])
    every later state still has [r = -1], where [TryRLock] and [TryWLock] fail
    and [WLock] goes round its loop again. *)
Theorem write_lock_is_forever l :
  rtc step zero l ->
  UnWLock l = (l, false) /\
  (r l = -1 -> forall l', rtc step l l' ->
     r l' = -1 /\ TryRLock_iter (r l') l' = (l', Some false) /\
     (TryWLock (r l') l').2 = false /\ WLock_iter l' = (l', None)).
Proof.
  intros Hr.
  assert (Hw : w l = 0). { exact (rtc_preserves step (fun l => w l = 0) step_w0 _ _ Hr eq_refl). }
  split.
  { destruct l; crush. }
  intros Hl l' Hl'.
  assert (Hr' : r l' = -1).
  { exact (rtc_preserves2 step (fun l => r l = -1) (fun l => w l = 0)
             step_w0 step_stuck l l' Hl' Hw Hl). }
  destruct l'; cbn in *; subst; crush.
Qed.

Lemma write_lock_is_forever_witness :
  rtc step zero {| r := -1; w := 0 |} /\
  UnWLock {| r := -1; w := 0 |} = ({| r := -1; w := 0 |}, false).
Proof.
  assert (H : rtc step zero {| r := -1; w := 0 |}).
  { eapply rtc_l; [apply step_WLock | apply rtc_refl]. }
  split; [exact H |]. apply (write_lock_is_forever _ H).
Defined.

(** An unpaired [UnRLock] on the free lock takes it for writing. *)
Lemma UnRLock_unpaired : UnRLock_iter 0 zero = ({| r := -1; w := 0 |}, Some true).
Proof. reflexivity. Qed.
End RWLock.

(** ** The component life cycle ([common/lifecycle.go]) *)
Module Lifecycle.
Definition Origin : Z := 0.
Definition PreInit_ : Z := 1.
Definition PostInit_ : Z := 2.
Definition PreStart_ : Z := 3.
Definition PostStart_ : Z := 4.
Definition PreStop_ : Z := 5.
Definition PostStop_ : Z := 6.

(** [LifecycleStatus] is its only field [S]. *)
Abbreviation LifecycleStatus := Z (only parsing).

Definition panicFailMsg (self : LifecycleStatus) (prefix : string) : string :=
  prefix +:+ " fail. status:" +:+ Itoa self.

(** [if CAS(&S, old, new) { return self }; panic(...)] *)
Definition advance (self : LifecycleStatus) (old new : Z) (prefix : string)
    : outcome LifecycleStatus :=
  let '(s, ok) := CompareAndSwapInt32 self old new in
  if (ok : bool) then Ret s else Panic (panicFailMsg s prefix).

Definition PreInit (self : LifecycleStatus) := advance self Origin PreInit_ "PreInit".
Definition PostInit (self : LifecycleStatus) := advance self PreInit_ PostInit_ "PostInit".
Definition PreStart (self : LifecycleStatus) := advance self PostInit_ PreStart_ "PreStart".
Definition PostStart (self : LifecycleStatus) := advance self PreStart_ PostStart_ "PostStart".
Definition PreStop (self : LifecycleStatus) := advance self PostStart_ PreStop_ "PreStop".
Definition PostStop (self : LifecycleStatus) := advance self PreStop_ PostStop_ "PostStop".

Definition Stopped (self : LifecycleStatus) : bool := self =? 6.
Definition Status (self : LifecycleStatus) : Z := self.

(** The six methods that move the status, as one datatype of calls. *)
Inductive call := CPreInit | CPostInit | CPreStart | CPostStart | CPreStop | CPostStop.

Definition exec (c : call) (self : LifecycleStatus) : outcome LifecycleStatus :=
  match c with
  | CPreInit => PreInit self
  | CPostInit => PostInit self
  | CPreStart => PreStart self
  | CPostStart => PostStart self
  | CPreStop => PreStop self
  | CPostStop => PostStop self
  end.

Fixpoint run (cs : list call) (self : LifecycleStatus) : outcome LifecycleStatus :=
  match cs with
  | [] => Ret self
  | c :: cs => self' ← exec c self; run cs self'
  end.

Definition all_calls : list call :=
  [CPreInit; CPostInit; CPreStart; CPostStart; CPreStop; CPostStop].

Lemma advance_Ret s old new p s' :
  advance s old new p = Ret s' <-> s = old /\ s' = new.
Proof.
  unfold advance, CompareAndSwapInt32. case_decide; naive_solver.
Qed.

(** A call succeeds exactly when it is the next one of the order. *)
Lemma exec_Ret c s s' :
  exec c s = Ret s' <->
  exists n : nat, s = Z.of_nat n /\ all_calls !! n = Some c /\ s' = s + 1.
Proof.
  split.
  - destruct c; cbn; unfold PreInit, PostInit, PreStart, PostStart, PreStop, PostStop;
      rewrite advance_Ret; intros [-> ->];
      [exists 0%nat | exists 1%nat | exists 2%nat | exists 3%nat | exists 4%nat | exists 5%nat];
      done.
  - intros (n & -> & Hc & ->).
    do 6 (destruct n as [|n]; [cbn in Hc; by simplify_eq|]). done.
Qed.

Lemma run_from n cs s :
  run cs (Z.of_nat n) = Ret s <->
  cs = take (length cs) (drop n all_calls) /\ s = Z.of_nat n + Z.of_nat (length cs).
Proof.
  revert n. induction cs as [|c cs IH]; intros n; cbn [run length take].
  { split; [intros H; simplify_eq; split; [done|lia] | intros [_ ->]; f_equal; lia]. }
  split.
  - intros (s1 & H1 & H2)%bind_ret_inv.
    apply exec_Ret in H1 as (m & Hm & Hc & ->).
    assert (m = n) as -> by lia.
    replace (Z.of_nat n + 1) with (Z.of_nat (S n)) in H2 by lia.
    apply IH in H2 as [Hcs ->].
    rewrite (drop_S _ _ _ Hc); cbn. split; [by f_equal | lia].
  - intros [Hcs ->].
    destruct (drop n all_calls) as [|c' l] eqn:E; cbn in Hcs; [done|].
    injection Hcs as -> Hcs.
    assert (Hc : all_calls !! n = Some c').
    { rewrite <- (Nat.add_0_r n), <- lookup_drop, E. done. }
    assert (E2 : exec c' (Z.of_nat n) = Ret (Z.of_nat (S n))).
    { apply exec_Ret. exists n. split; [done|]. split; [done|lia]. }
    rewrite E2; cbn. apply IH. split; [|lia].
    rewrite (drop_S _ _ _ Hc) in E. injection E as <-. exact Hcs.
Qed.

(** A component that has not panicked made its life-cycle calls in the one
    order [PreInit, PostInit, PreStart, PostStart, PreStop, PostStop], each at
    most once, and its status counts them.  Every other sequence panics, so a
    stopped component never restarts. *)
Theorem lifecycle_calls_in_order cs s :
  run cs Origin = Ret s <->
  cs = take (length cs) all_calls /\ s = Z.of_nat (length cs).
Proof. rewrite (run_from 0). cbn [drop]. by rewrite Z.add_0_l. Qed.
End Lifecycle.

(** ** The miner's life cycle ([miner/miner.go]): restart and destruction *)
Module MinerLifecycle.
Definition PreDestroy (self : Z) : Z * bool := CompareAndSwapInt32 self 6 7.
Definition PostDestroy (self : Z) : Z * bool := CompareAndSwapInt32 self 7 8.

(** [CAS(2,3) || CAS(6,3)]: the second swap runs only if the first fails. *)
Definition PreStart (self : Z) : Z * bool :=
  let '(s, ok) := CompareAndSwapInt32 self 2 3 in
  if (ok : bool) then (s, true) else CompareAndSwapInt32 s 6 3.
Definition PostStart (self : Z) : Z * bool := CompareAndSwapInt32 self 3 4.

(** The methods a miner offers, [PreInit], [PostInit], [PreStop] and [PostStop]
    being those of the embedded [LifecycleStatus]. *)
Inductive step (s : Z) : Z -> Prop :=
| step_PreInit s' : Lifecycle.PreInit s = Ret s' -> step s s'
| step_PostInit s' : Lifecycle.PostInit s = Ret s' -> step s s'
| step_PreStart : step s (PreStart s).1
| step_PostStart : step s (PostStart s).1
| step_PreStop s' : Lifecycle.PreStop s = Ret s' -> step s s'
| step_PostStop s' : Lifecycle.PostStop s = Ret s' -> step s s'
| step_PreDestroy : step s (PreDestroy s).1
| step_PostDestroy : step s (PostDestroy s).1.

Lemma step_cases s s' :
  step s s' ->
  s' = s \/ (s' = s + 1 /\ 0 <= s <= 7) \/ (s = 6 /\ s' = 3).
Proof.
  intros []; try match goal with
    | H : _ = Ret _ |- _ => apply Lifecycle.advance_Ret in H as [-> ->]; right; left; done
    end;
  unfold PreStart, PostStart, PreDestroy, PostDestroy, CompareAndSwapInt32;
  repeat (case_decide; cbn; try lia).
Qed.

(** The miner's status stays within 0..8, moves only one step forward or
    from stopped (6) back to starting (3), and a destroyed miner (8) never
    changes again, in particular it cannot be started. *)
Theorem miner_lifecycle_reachable s s' :
  rtc step 0 s -> rtc step s s' ->
  0 <= s' <= 8 /\ (s = 8 -> s' = 8) /\ (PreStart s).2 = bool_decide (s = 2 \/ s = 6).
Proof.
  intros H1 H2.
  assert (HI : forall x y, step x y -> 0 <= x <= 8 -> 0 <= y <= 8).
  { intros x y ?%step_cases ?. lia. }
  assert (HB : forall x y, rtc step x y -> 0 <= x <= 8 -> 0 <= y <= 8)
    by exact (rtc_preserves step (fun x => 0 <= x <= 8) HI).
  assert (Hs : 0 <= s <= 8) by (apply (HB _ _ H1); lia).
  split; [by apply (HB _ _ H2)|]. split.
  - intros ->. refine (rtc_preserves step (fun x => x = 8) _ _ _ H2 eq_refl).
    intros x y ?%step_cases ->. lia.
  - unfold PreStart, CompareAndSwapInt32.
    destruct (decide (s = 2)), (decide (s = 6)), (bool_decide_reflect (s = 2 \/ s = 6));
      done || lia.
Qed.

Lemma miner_lifecycle_reachable_witness :
  rtc step 0 1 /\ rtc step 1 2 /\ 0 <= 2 <= 8.
Proof.
  assert (H1 : rtc step 0 1) by (apply rtc_once, step_PreInit; reflexivity).
  assert (H2 : rtc step 1 2) by (apply rtc_once, step_PostInit; reflexivity).
  split; [exact H1|]. split; [exact H2|].
  exact (proj1 (miner_lifecycle_reachable 1 2 H1 H2)).
Defined.
End MinerLifecycle.

(** ** The fork version ([version/version.go]) *)
Module Version.
Record Version := mk { version : Z }.

(** One iteration of [Inc]'s loop, which read [i]; [true]: it returns. *)
Definition Inc_iter (i : Z) (self : Version) : Version * bool :=
  let '(v, ok) := CompareAndSwapInt32 (version self) i (wrap32 (i + 1)) in
  ({| version := v |}, ok).

(** Without another thread the first iteration succeeds. *)
Definition Inc (self : Version) : Version := (Inc_iter (version self) self).1.

Definition Val (self : Version) : Z := version self.
Definition Version_String (self : Version) : string := Itoa (version self).

(** A thread of the system: before its read, after it (with the value read), or
    done. *)
Inductive thread := Ready | Loaded (i : Z) | Finished.

Inductive step : Version * list thread -> Version * list thread -> Prop :=
| step_load v ts1 ts2 :
    step (v, ts1 ++ Ready :: ts2) (v, ts1 ++ Loaded (version v) :: ts2)
| step_swap v v' i ts1 ts2 :
    Inc_iter i v = (v', true) ->
    step (v, ts1 ++ Loaded i :: ts2) (v', ts1 ++ Finished :: ts2)
| step_retry v v' i ts1 ts2 :
    Inc_iter i v = (v', false) ->
    step (v, ts1 ++ Loaded i :: ts2) (v', ts1 ++ Ready :: ts2).

Definition is_finished (t : thread) : bool :=
  match t with Finished => true | _ => false end.
Fixpoint finished (ts : list thread) : Z :=
  match ts with
  | [] => 0
  | t :: ts => (if is_finished t then 1 else 0) + finished ts
  end.

Lemma finished_app_cons ts1 t ts2 :
  finished (ts1 ++ t :: ts2) =
  finished ts1 + finished ts2 + (if is_finished t then 1 else 0).
Proof. induction ts1 as [|t' ts1 IH]; cbn in *; lia. Qed.

Lemma finished_all ts :
  Forall (fun t => t = Finished) ts -> finished ts = Z.of_nat (length ts).
Proof. intros Hall. induction Hall as [|t ts -> _ IH]; cbn in *; lia. Qed.

Lemma step_count v0 s s' :
  step s s' ->
  version s.1 = wrap32 (v0 + finished s.2) ->
  version s'.1 = wrap32 (v0 + finished s'.2).
Proof.
  intros [v ts1 ts2|v v' i ts1 ts2 E|v v' i ts1 ts2 E]; cbn;
    rewrite !finished_app_cons; cbn; intros H.
  - rewrite H. f_equal; lia.
  - unfold Inc_iter, CompareAndSwapInt32 in E. case_decide; [|done]. simplify_eq; cbn.
    rewrite H, wrap32_add. f_equal; lia.
  - unfold Inc_iter, CompareAndSwapInt32 in E. case_decide; [done|]. simplify_eq; cbn.
    rewrite H. f_equal; lia.
Qed.

(** No increment of the fork version is lost.  From [n] threads about to
    call [Inc] on the version [v0], in every interleaving of their reads and
    compare-and-swaps, the version is [v0] plus the number of calls that have
    returned (modulo the [int32] width): [v0 + n] when all have. *)
Theorem inc_is_atomic v0 n v ts :
  in32 v0 ->
  rtc step ({| version := v0 |}, replicate n Ready) (v, ts) ->
  version v = wrap32 (v0 + finished ts) /\
  (Forall (fun t => t = Finished) ts -> length ts = n -> version v = wrap32 (v0 + Z.of_nat n)).
Proof.
  intros H0 Hr.
  assert (E : version v = wrap32 (v0 + finished ts)).
  { apply (rtc_preserves step (fun s => version s.1 = wrap32 (v0 + finished s.2))
             (step_count v0) _ _ Hr).
    cbn. assert (Hf : finished (replicate n Ready) = 0).
    { clear. induction n as [|n IH]; [done|]. exact IH. }
    rewrite Hf, Z.add_0_r. by rewrite wrap32_id. }
  split; [exact E|]. intros Hall <-. by rewrite E, finished_all.
Qed.

Lemma inc_is_atomic_witness :
  exists ts, rtc step ({| version := 3 |}, replicate 2 Ready) ({| version := 5 |}, ts) /\
    5 = wrap32 (3 + Z.of_nat 2).
Proof.
  assert (H : rtc step ({| version := 3 |}, replicate 2 Ready)
                       ({| version := 5 |}, [Finished; Finished])).
  { eapply rtc_l; [apply (step_load _ [] [Ready])|].
    eapply rtc_l; [apply (step_load _ [Loaded 3] [])|].
    eapply rtc_l; [apply (step_swap _ {| version := 4 |} 3 [] [Loaded 3]); reflexivity|].
    eapply rtc_l; [apply (step_retry _ {| version := 4 |} 3 [Finished] []); reflexivity|].
    eapply rtc_l; [apply (step_load _ [Finished] [])|].
    eapply rtc_l; [apply (step_swap _ {| version := 5 |} 4 [Finished] []); reflexivity|].
    apply rtc_refl. }
  exists [Finished; Finished]. split; [exact H|].
  apply (inc_is_atomic 3 2 _ _ ltac:(split; done) H); [|reflexivity].
  repeat constructor.
Defined.
End Version.
