(* ===== verification/Monitor.v ===== *)
(** * Monitor: the metrics ring ([monitor/ring.go]) and counters ([monitor/monitor.go])

    The ring's mutex makes each of its methods one atomic step. *)
From S2P Require Import Prelude.

Module Ring.
Section ring.
Context {A : Type}.

(** [datas] holds [interface{}] values, nil ([None]) before the first [add]. *)
Record ring := mkRing { cap : Z; datas : list (option A); i : Z }.

Definition newRing (n : nat) : ring :=
  {| cap := 0; i := 0; datas := replicate n None |}.

Definition lastI (self : ring) (i : Z) : Z :=
  if decide (i = 0) then Z.of_nat (length (datas self)) - 1 else i - 1.

Definition nextI (self : ring) (i : Z) : Z :=
  let l := Z.of_nat (length (datas self)) in
  let i := i + 1 in
  if decide (l <= i) then 0 else i.

Definition add (self : ring) (data : A) : outcome ring :=
  datas' ← set_index (datas self) (i self) (Some data);
  let self1 := {| cap := cap self; datas := datas'; i := i self |} in
  let self2 := {| cap := cap self; datas := datas'; i := nextI self1 (i self) |} in
  Ret (if decide (cap self2 < Z.of_nat (length (datas self2)))
       then {| cap := cap self2 + 1; datas := datas self2; i := i self2 |}
       else self2).

Definition reset (self : ring) : ring :=
  {| cap := 0; datas := datas self; i := 0 |}.

(** The loop of [all], with [n] slots of [result] still to fill, from the back;
    [acc] is the part already filled. *)
Fixpoint all_loop (self : ring) (n : nat) (j : Z) (acc : list (option A))
    : outcome (list (option A)) :=
  match n with
  | O => Ret acc
  | S n =>
      let j := lastI self j in
      x ← index (datas self) j;
      all_loop self n j (x :: acc)
  end.

Definition all (self : ring) : outcome (list (option A)) :=
  all_loop self (Z.to_nat (cap self)) (i self) [].

(** ** Specification: a bounded history

    [repr r l]: the ring was made with at least one slot, and since its last
    [reset] exactly the elements of [l] were added, in that order. *)
Definition repr (r : ring) (l : list A) : Prop :=
  let n := Z.of_nat (length (datas r)) in
  let k := Z.of_nat (length l) in
  0 < n /\ cap r = Z.min k n /\ i r = k `mod` n /\
  forall p x, k - n <= Z.of_nat p < k -> l !! p = Some x ->
    datas r !! Z.to_nat (Z.of_nat p `mod` n) = Some (Some x).

(** The last [n] elements of a list. *)
Definition last_n (n : nat) (l : list A) : list A := drop (length l - n) l.

Lemma repr_newRing n : (0 < n)%nat -> repr (newRing n) [].
Proof.
  intros Hn. unfold repr, newRing; cbn. rewrite length_replicate.
  split; [lia|]. split; [lia|]. split; [rewrite Zmod_0_l; done|]. intros p x ? [=].
Qed.

Lemma repr_reset r l : repr r l -> repr (reset r) [].
Proof.
  intros (Hn & _). unfold repr, reset; cbn.
  split; [lia|]. split; [lia|]. split; [rewrite Zmod_0_l; done|]. intros p x ? [=].
Qed.

Lemma mod_distinct p k n :
  0 < n -> k - n < p < k -> p `mod` n <> k `mod` n.
Proof.
  intros Hn Hp E.
  assert (H : (k - p) `mod` n = 0).
  { rewrite Zminus_mod, E, Z.sub_diag. apply Zmod_0_l. }
  rewrite Z.mod_small in H by lia. lia.
Qed.

Lemma succ_mod k n : 0 < n ->
  (k + 1) `mod` n = if decide (n <= k `mod` n + 1) then 0 else k `mod` n + 1.
Proof.
  intros Hn. pose proof (Z.mod_pos_bound k n Hn). pose proof (Z.div_mod k n ltac:(lia)).
  case_decide.
  - symmetry. apply Z.mod_unique_pos with (k / n + 1); lia.
  - symmetry. apply Z.mod_unique_pos with (k / n); lia.
Qed.

Lemma repr_add r l x :
  repr r l -> exists r', add r x = Ret r' /\ repr r' (l ++ [x]) /\
    length (datas r') = length (datas r).
Proof.
  intros (Hn & Hc & Hi & Hd). unfold add.
  pose proof (Z.mod_pos_bound (Z.of_nat (length l)) _ Hn) as Hm.
  rewrite set_index_Ret by (rewrite Hi; lia). rewrite bind_ret_l. cbn.
  set (n := Z.of_nat (length (datas r))) in *.
  set (k := Z.of_nat (length l)) in *.
  eexists; split; [done|].
  assert (Hrep : repr {| cap := Z.min (k + 1) n; datas := <[Z.to_nat (i r) := Some x]> (datas r);
                         i := (k + 1) `mod` n |} (l ++ [x])).
  { unfold repr; cbn. rewrite length_insert, length_app; cbn.
    replace (Z.of_nat (length l + 1)) with (k + 1) by lia. fold n.
    split; [done|]. split; [done|]. split; [done|].
    intros p y Hp Hy. destruct (decide (Z.of_nat p = k)) as [E|E].
    - assert (p = length l) as -> by lia.
      rewrite lookup_app_r, Nat.sub_diag in Hy by lia. injection Hy as <-.
      fold k. rewrite <- Hi. apply list_lookup_insert_eq. rewrite Hi. lia.
    - rewrite lookup_app_l in Hy by lia.
      pose proof (mod_distinct (Z.of_nat p) k n Hn ltac:(lia)).
      pose proof (Z.mod_pos_bound (Z.of_nat p) n Hn).
      rewrite list_lookup_insert_ne by (rewrite Hi; lia). apply Hd; [lia | done]. }
  unfold nextI; cbn. rewrite length_insert. fold n. rewrite Hi, <- succ_mod by done.
  split; [|case_decide; cbn; by rewrite length_insert].
  case_decide; cbn.
  - replace (cap r + 1) with (Z.min (k + 1) n) by lia. rewrite <- Hi at 1. exact Hrep.
  - replace (cap r) with (Z.min (k + 1) n) by lia. rewrite <- Hi at 1. exact Hrep.
Qed.

Lemma all_loop_repr r l c acc :
  repr r l ->
  let n := Z.of_nat (length (datas r)) in
  let k := Z.of_nat (length l) in
  forall p : nat, Z.of_nat p <= k -> Z.of_nat c <= Z.of_nat p -> k - n <= Z.of_nat p - Z.of_nat c ->
  all_loop r c (Z.of_nat p `mod` n) acc = Ret (map Some (drop (p - c) (take p l)) ++ acc).
Proof.
  intros Hr n k. revert acc. induction c as [|c IH]; intros acc p Hp Hcp Hb; cbn.
  { rewrite drop_ge by (rewrite length_take; lia). done. }
  destruct Hr as (Hn & Hc & Hi & Hd).
  destruct p as [|p]; [lia|].
  assert (Hx : exists x, l !! p = Some x) by (apply lookup_lt_is_Some; lia).
  destruct Hx as [x Hx].
  assert (Hl : lastI r (Z.of_nat (S p) `mod` n) = Z.of_nat p `mod` n).
  { pose proof (succ_mod (Z.of_nat p) n Hn) as Hs.
    pose proof (Z.mod_pos_bound (Z.of_nat p) n Hn).
    replace (Z.of_nat (S p)) with (Z.of_nat p + 1) by lia.
    rewrite Hs. unfold lastI. fold n. repeat case_decide; lia. }
  rewrite Hl.
  pose proof (Z.mod_pos_bound (Z.of_nat p) n Hn).
  rewrite (index_Ret _ _ (Some x)) by first [lia | apply Hd; [lia | done]].
  rewrite bind_ret_l.
  rewrite IH by lia.
  f_equal. rewrite (take_S_r _ _ _ Hx). cbn.
  rewrite drop_app_le by (rewrite length_take; lia).
  by rewrite map_app, <- app_assoc.
Qed.

Lemma all_repr r l :
  repr r l -> all r = Ret (map Some (last_n (length (datas r)) l)).
Proof.
  intros Hr. pose proof Hr as (Hn & Hc & Hi & _). unfold all. rewrite Hc, Hi.
  pose proof (all_loop_repr r l (Z.to_nat (Z.min (Z.of_nat (length l)) (Z.of_nat (length (datas r)))))
                [] Hr (length l)) as Hloop. cbn zeta in Hloop.
  rewrite Hloop by lia. rewrite app_nil_r, firstn_all. unfold last_n. do 3 f_equal. lia.
Qed.

(** The ring is a bounded history.  In a ring made with [n > 0] slots,
    whatever was added and reset before, once the elements of [l] have been added
    after the last reset, [all] returns (it never indexes out of range) the last
    [n] of them, oldest first, and [add] never fails. *)
Theorem ring_all_is_last_n r l :
  repr r l ->
  all r = Ret (map Some (last_n (length (datas r)) l)) /\
  repr (reset r) [] /\
  forall x, exists r', add r x = Ret r' /\ repr r' (l ++ [x]) /\
    all r' = Ret (map Some (last_n (length (datas r)) (l ++ [x]))).
Proof.
  intros Hr. split; [by apply all_repr|]. split; [by eapply repr_reset|].
  intros x. destruct (repr_add r l x Hr) as (r' & Ha & Hr' & Hl).
  exists r'. split; [done|]. split; [done|]. rewrite <- Hl. by apply all_repr.
Qed.
End ring.
Arguments ring A : clear implicits.

Lemma ring_all_is_last_n_witness :
  exists r : ring nat, (r1 ← add (newRing 2) 7%nat; r2 ← add r1 8%nat; add r2 9%nat) = Ret r /\
    all r = Ret [Some 8%nat; Some 9%nat].
Proof.
  destruct (repr_add (newRing 2) [] 7%nat (repr_newRing 2 ltac:(lia))) as (r1 & E1 & R1 & L1).
  destruct (repr_add r1 _ 8%nat R1) as (r2 & E2 & R2 & L2).
  destruct (repr_add r2 _ 9%nat R2) as (r3 & E3 & R3 & L3).
  exists r3. rewrite E1. cbn. rewrite E2. cbn. split; [exact E3|].
  rewrite (proj1 (ring_all_is_last_n r3 _ R3)), L3, L2, L1. reflexivity.
Defined.
End Ring.

(** ** Counters ([monitor/monitor.go])

    A tick of the one-second loop is [tick]; its log line and the JSON form of the
    statistics are not modelled. *)
Module Counters.
Import Ring.

Record msg := mkMsg { Group : string; Type_ : Z; Name : string; Cnt : Z; Sum : Z }.

Definition msg_add (self : msg) (i : Z) : msg :=
  {| Group := Group self; Type_ := Type_ self; Name := Name self;
     Cnt := wrap64 (Cnt self + 1); Sum := wrap64 (Sum self + i) |}.
Definition msg_reset (self : msg) : msg :=
  {| Group := Group self; Type_ := Type_ self; Name := Name self; Cnt := 0; Sum := 0 |}.
Definition msg_snapshot (self : msg) : msg := self.
Definition newMsg (g name : string) (t : Z) : msg :=
  {| Group := g; Type_ := t; Name := name; Cnt := 0; Sum := 0 |}.

Definition key (t name : string) : string := t +:+ "-" +:+ name.

Record monitor := mkMonitor { ms : gmap string msg; r : ring (gmap string msg) }.

Definition initMonitor : monitor := {| ms := ∅; r := newRing 60 |}.

(** A call that nothing interrupts ([MonitorRace.log_alone]). *)
Definition log (m : monitor) (g name : string) (t i : Z) : monitor :=
  let k := key g name in
  match ms m !! k with
  | Some value => {| ms := <[k := msg_add value i]> (ms m); r := r m |}
  | None => {| ms := <[k := msg_add (newMsg g name t) i]> (ms m); r := r m |}
  end.

Definition LogEvent (m : monitor) (t name : string) : monitor := log m t name 1 1.
Definition LogTime (m : monitor) (t name : string) (tm now : Z) : monitor :=
  log m t name 2 (wrap64 (now - tm)).
Definition LogDuration (m : monitor) (t name : string) (duration : Z) : monitor :=
  log m t name 2 duration.

(** One tick of [loop] that nothing interrupts: copy every counter into a snapshot,
    reset it, and push the snapshot on the ring.  The code does so a counter at a time
    while calls of [log] run: [MonitorRace.step] has each read and write on its own,
    and [MonitorRace.tick_alone] shows that this is a run of such steps. *)
Definition tick (m : monitor) : outcome monitor :=
  let snapshot := msg_snapshot <$> ms m in
  r' ← add (r m) snapshot;
  Ret {| ms := msg_reset <$> ms m; r := r' |}.

Record Stat := mkStat {
  st_Name : string; st_Type : string; st_Cnt : Z; st_Sum : Z;
  st_Avg : spec_float; st_CntMean : spec_float; st_Cap : Z }.

Definition merge (self : Stat) (ms : msg) : Stat :=
  {| st_Name := st_Name self; st_Type := st_Type self;
     st_Cnt := wrap64 (st_Cnt self + Cnt ms); st_Sum := wrap64 (st_Sum self + Sum ms);
     st_Avg := st_Avg self; st_CntMean := st_CntMean self;
     st_Cap := wrap32 (st_Cap self + 1) |}.

Definition avg (self : Stat) : Stat :=
  {| st_Name := st_Name self; st_Type := st_Type self; st_Cnt := st_Cnt self; st_Sum := st_Sum self;
     st_Avg := if decide (0 < st_Cnt self)
               then SFdiv 53 1024 (float64 (st_Sum self)) (float64 (st_Cnt self))
               else st_Avg self;
     st_CntMean := if decide (0 < st_Cap self)
                   then SFdiv 53 1024 (float64 (st_Cnt self)) (float64 (st_Cap self))
                   else st_CntMean self;
     st_Cap := st_Cap self |}.

(** A fresh [Stat] with its name and type: the other fields are Go's zero values. *)
Definition zeroStat (v : msg) : Stat :=
  {| st_Name := Name v; st_Type := Group v; st_Cnt := 0; st_Sum := 0;
     st_Avg := S754_zero false; st_CntMean := S754_zero false; st_Cap := 0 |}.

(** The inner loop body: entry [(k2, v2)] of a snapshot. *)
Definition stats_entry (msgs : gmap string Stat) (e : string * msg) : gmap string Stat :=
  let '(k2, v2) := e in
  if decide (Cnt v2 <= 0) then msgs
  else match msgs !! k2 with
       | Some tmpM => <[k2 := merge tmpM v2]> msgs
       | None => <[k2 := merge (zeroStat v2) v2]> msgs
       end.

#[local] Arguments stats_entry : simpl never.

Section stats.
Context (order : gmap string msg -> list (string * msg)).

Definition stats (m : monitor) : outcome (gmap string Stat) :=
  l ← all (r m);
  snaps ← mapM (fun v => deref v "interface conversion") l;
  Ret (avg <$> foldl (fun msgs msgM => foldl stats_entry msgs (order msgM)) ∅ snaps).
End stats.

Definition byStr_Less (a b : Stat) : bool :=
  if decide (st_Type a = st_Type b) then String.ltb (st_Name a) (st_Name b)
  else String.ltb (st_Type a) (st_Type b).

(** [sort.Sort] puts a slice in an order in which no element is less than one
    before it. *)
Definition byStr_le (a b : Stat) : Prop := byStr_Less b a = false.
#[global] Instance byStr_le_dec a b : Decision (byStr_le a b).
Proof. unfold byStr_le. apply _. Defined.

Definition Stats (order : gmap string msg -> list (string * msg))
    (orderS : gmap string Stat -> list (string * Stat)) (m : monitor) : outcome (list Stat) :=
  msgs ← stats order m;
  let r := snd <$> orderS msgs in
  Ret (merge_sort byStr_le r).

(** The reference: what one key's counters in the successive snapshots add up to. *)
Definition aggregate1 (o : option Stat) (v : msg) : option Stat :=
  if decide (Cnt v <= 0) then o
  else Some (merge (match o with Some s => s | None => zeroStat v end) v).
Definition aggregate (k : string) (snaps : list (gmap string msg)) : option Stat :=
  foldl (fun o m => match m !! k with Some v => aggregate1 o v | None => o end) None snaps.

Lemma stats_entry_lookup msgs k2 v2 k :
  stats_entry msgs (k2, v2) !! k =
  if decide (k2 = k) then aggregate1 (msgs !! k) v2 else msgs !! k.
Proof.
  unfold stats_entry, aggregate1. destruct (decide (k2 = k)) as [->|Hne].
  - case_decide; [done|]. destruct (msgs !! k); by rewrite lookup_insert_eq.
  - case_decide; [done|]. destruct (msgs !! k2); by rewrite lookup_insert_ne.
Qed.

Lemma stats_entries_lookup l msgs k :
  NoDup l.*1 ->
  foldl stats_entry msgs l !! k =
  match list_to_map (M := gmap string msg) l !! k with
  | Some v => aggregate1 (msgs !! k) v
  | None => msgs !! k
  end.
Proof.
  revert msgs. induction l as [|[k2 v2] l IH]; intros msgs Hnd; cbn; [done|].
  inversion Hnd as [|? ? Hk2 Hnd']; subst. rewrite IH by done.
  rewrite stats_entry_lookup. destruct (decide (k2 = k)) as [->|Hne].
  - rewrite lookup_insert_eq, not_elem_of_list_to_map_1 by done. done.
  - by rewrite lookup_insert_ne.
Qed.

Lemma range_lookup {A} (f : gmap string A -> list (string * A)) (m : gmap string A) :
  range_order f -> NoDup (f m).*1 /\ list_to_map (f m) = m.
Proof.
  intros Hf. pose proof (Hf m) as Hp.
  assert (Hnd : NoDup (f m).*1).
  { apply (NoDup_Permutation_proper _ _ (fmap_Permutation fst _ _ Hp)), NoDup_fst_map_to_list. }
  split; [done|]. etrans; [apply list_to_map_proper; [done|exact Hp]|].
  apply list_to_map_to_list.
Qed.

Lemma stats_snaps_lookup order snaps msgs k :
  range_order order ->
  foldl (fun msgs msgM => foldl stats_entry msgs (order msgM)) msgs snaps !! k =
  foldl (fun o m => match m !! k with Some v => aggregate1 o v | None => o end)
    (msgs !! k) snaps.
Proof.
  intros Ho. revert msgs. induction snaps as [|m snaps IH]; intros msgs; cbn; [done|].
  rewrite IH. destruct (range_lookup order m Ho) as [Hnd Hm].
  by rewrite stats_entries_lookup, Hm.
Qed.

Lemma mapM_deref {A} (l : list A) w : mapM (M := outcome) (fun v => deref v w) (map Some l) = Ret l.
Proof. induction l as [|x l IH]; cbn; [done|]. by rewrite IH. Qed.

(** Whatever order Go ranges over the snapshot maps in, the statistics of a key
    aggregate its counters in the retained snapshots, in ring order. *)
Lemma stats_aggregates order m l :
  range_order order -> repr (r m) l ->
  exists res, stats order m = Ret res /\
    forall k, res !! k = avg <$> aggregate k (last_n (length (datas (r m))) l).
Proof.
  intros Ho Hr. unfold stats.
  rewrite (all_repr _ _ Hr), bind_ret_l, mapM_deref, bind_ret_l.
  eexists. split; [done|]. intros k. by rewrite lookup_fmap, stats_snaps_lookup.
Qed.

(** ** A run of the monitor

    One second is the list of the events recorded in it; the run starts from the
    initial monitor and ticks after every second. *)
Record event := mkEvent { ev_Group : string; ev_Name : string; ev_Type : Z; ev_Val : Z }.

Definition log_event (m : monitor) (e : event) : monitor :=
  log m (ev_Group e) (ev_Name e) (ev_Type e) (ev_Val e).
Definition second (m : monitor) (l : list event) : outcome monitor := tick (foldl log_event m l).
Fixpoint seconds (m : monitor) (h : list (list event)) : outcome monitor :=
  match h with
  | [] => Ret m
  | l :: h => m' ← second m l; seconds m' h
  end.

(** The events of a key, and what they come to. *)
Definition ev_key (e : event) : string := key (ev_Group e) (ev_Name e).
Definition of_key (k : string) (l : list event) : list event := filter (fun e => ev_key e = k) l.
Definition total (l : list event) : Z := foldr Z.add 0 (ev_Val <$> l).

(** What a counter holds: its group, name and type come from the first event of
    its key ever, its count and sum from the events [l] since the last tick. *)
Definition counter (e : event) (l : list event) : msg :=
  {| Group := ev_Group e; Type_ := ev_Type e; Name := ev_Name e;
     Cnt := wrap64 (Z.of_nat (length l)); Sum := wrap64 (total l) |}.
Definition counters (past now : list event) (k : string) : option msg :=
  e ← head (of_key k (past ++ now)); Some (counter e (of_key k now)).

Lemma of_key_app k l l' : of_key k (l ++ l') = of_key k l ++ of_key k l'.
Proof. apply filter_app. Qed.
Lemma of_key_one k e : of_key k [e] = if decide (ev_key e = k) then [e] else [].
Proof. reflexivity. Qed.

Lemma total_app l l' : total (l ++ l') = total l + total l'.
Proof. unfold total. rewrite fmap_app, foldr_app. induction l; cbn in *; lia. Qed.

Lemma counter_add e l e' :
  msg_add (counter e l) (ev_Val e') = counter e (l ++ [e']).
Proof.
  unfold counter, msg_add; cbn. rewrite !wrap64_add, length_app, total_app.
  unfold total; cbn. do 2 f_equal; lia.
Qed.

(** Recording the events [now] after a history [past] whose counters are reset. *)
Lemma log_events past now m :
  (forall k, ms m !! k = counters past [] k) ->
  r (foldl log_event m now) = r m /\
  forall k, ms (foldl log_event m now) !! k = counters past now k.
Proof.
  intros Hm. induction now as [|e now [IHr IH]] using rev_ind; [done|].
  rewrite foldl_app; cbn [foldl]. set (m' := foldl log_event m now) in *.
  assert (Hlog : r (log_event m' e) = r m' /\ forall k, ms (log_event m' e) !! k =
    if decide (ev_key e = k)
    then Some (msg_add (default (newMsg (ev_Group e) (ev_Name e) (ev_Type e)) (ms m' !! k)) (ev_Val e))
    else ms m' !! k).
  { unfold log_event, log. fold (ev_key e).
    destruct (ms m' !! ev_key e) eqn:E; (split; [done|]); intros k; cbn;
      case_decide as Hk; subst; rewrite ?lookup_insert_eq, ?lookup_insert_ne, ?E by done; done. }
  destruct Hlog as [Hr Hk]. split; [congruence|]. intros k. rewrite Hk, IH. unfold counters.
  rewrite app_assoc, (of_key_app k (past ++ now) [e]), (of_key_app k now [e]), of_key_one.
  case_decide as Ek; [|by rewrite !app_nil_r].
  destruct (of_key k (past ++ now)) as [|e0 t] eqn:E; cbn; f_equal.
  - rewrite of_key_app in E. apply app_eq_nil in E as [_ ->].
    apply (counter_add e []).
  - apply counter_add.
Qed.

(** One second: the tick stores the counters of the second and resets them. *)
Lemma second_spec past now m l :
  (forall k, ms m !! k = counters past [] k) -> repr (r m) l ->
  exists m' snap, second m now = Ret m' /\ repr (r m') (l ++ [snap]) /\
    length (datas (r m')) = length (datas (r m)) /\
    (forall k, snap !! k = counters past now k) /\
    (forall k, ms m' !! k = counters (past ++ now) [] k).
Proof.
  intros Hm Hr. destruct (log_events past now m Hm) as [Er Ek].
  unfold second, tick. rewrite Er.
  destruct (repr_add (r m) l (msg_snapshot <$> ms (foldl log_event m now)) Hr) as (r' & -> & Hr' & Hl).
  rewrite bind_ret_l. do 2 eexists. split_and!; [done..| |].
  - intros k. rewrite lookup_fmap, Ek. by destruct (counters past now k).
  - intros k. cbn. rewrite lookup_fmap, Ek. unfold counters. rewrite app_nil_r.
    by destruct (of_key k (past ++ now)).
Qed.

(** The snapshots of a run: second [i] holds the counters of its events. *)
Inductive snapshots : list event -> list (list event) -> list (gmap string msg) -> Prop :=
  | snapshots_nil past : snapshots past [] []
  | snapshots_cons past now h snap snaps :
      (forall k, snap !! k = counters past now k) ->
      snapshots (past ++ now) h snaps ->
      snapshots past (now :: h) (snap :: snaps).

Lemma seconds_spec h past m l :
  (forall k, ms m !! k = counters past [] k) -> repr (r m) l ->
  exists m' snaps, seconds m h = Ret m' /\ repr (r m') (l ++ snaps) /\
    length (datas (r m')) = length (datas (r m)) /\ snapshots past h snaps.
Proof.
  revert past m l. induction h as [|now h IH]; intros past m l Hm Hr.
  { exists m, []. rewrite app_nil_r. split_and!; [done..|constructor]. }
  destruct (second_spec past now m l Hm Hr) as (m1 & snap & E1 & R1 & L1 & S1 & M1).
  destruct (IH _ m1 _ M1 R1) as (m2 & snaps & E2 & R2 & L2 & S2).
  exists m2, (snap :: snaps). cbn. rewrite E1, bind_ret_l, E2.
  split_and!; [done | by rewrite <- app_assoc in R2 | congruence | by constructor].
Qed.

Lemma snapshots_drop n past h snaps :
  snapshots past h snaps ->
  snapshots (past ++ concat (take n h)) (drop n h) (drop n snaps).
Proof.
  intros H. revert n. induction H as [past | past now h snap snaps Hs Hsn IH]; intros [|n];
    rewrite ?app_nil_r; [constructor | constructor | by constructor|].
  cbn. rewrite app_assoc. apply IH.
Qed.

Lemma snapshots_length past h snaps : snapshots past h snaps -> length snaps = length h.
Proof. induction 1; cbn; congruence. Qed.

(** The reference: the statistics of key [k] over the seconds [w], whose name and
    type are those of the event [e]. *)
Definition active (k : string) (l : list event) : Prop := of_key k l <> [].
#[global] Instance active_dec k l : Decision (active k l).
Proof. unfold active. destruct (of_key k l); [right; auto | left; done]. Defined.

Definition stat_of (k : string) (e : event) (w : list (list event)) : Stat :=
  {| st_Name := ev_Name e; st_Type := ev_Group e;
     st_Cnt := wrap64 (Z.of_nat (length (of_key k (concat w))));
     st_Sum := wrap64 (total (of_key k (concat w)));
     st_Avg := S754_zero false; st_CntMean := S754_zero false;
     st_Cap := wrap32 (Z.of_nat (length (filter (active k) w))) |}.
(** [w] are the seconds of the window, [past] the events before it. *)
Definition window_stat (k : string) (past : list event) (w : list (list event)) : option Stat :=
  if decide (of_key k (concat w) = []) then None
  else e ← head (of_key k (past ++ concat w)); Some (stat_of k e w).

Lemma concat_snoc {A} (w : list (list A)) l : concat (w ++ [l]) = concat w ++ l.
Proof. rewrite concat_app; cbn. by rewrite app_nil_r. Qed.

Lemma stat_of_inactive k e w l : ~ active k l -> stat_of k e (w ++ [l]) = stat_of k e w.
Proof.
  intros Hl. unfold stat_of. rewrite concat_snoc, of_key_app, filter_app.
  rewrite (filter_cons_False _ _ _ Hl). destruct (decide (of_key k l = [])) as [->|]; [|done].
  cbn. by rewrite !app_nil_r.
Qed.

Lemma merge_stat_of k e e' w l :
  active k l ->
  merge (stat_of k e w) (counter e' (of_key k l)) = stat_of k e (w ++ [l]).
Proof.
  intros Hl. unfold stat_of, merge, counter; cbn.
  rewrite concat_snoc, of_key_app, filter_app, (filter_cons_True _ _ _ Hl), filter_nil.
  rewrite !length_app, total_app, !wrap64_add_both, wrap32_add. cbn. do 2 f_equal; lia.
Qed.

Lemma zeroStat_of k e l l' : of_key k (concat l') = [] -> zeroStat (counter e l) = stat_of k e l'.
Proof.
  intros H. unfold zeroStat, stat_of. rewrite H.
  assert (E : filter (active k) l' = []).
  { induction l' as [|x l' IH]; [done|].
    change (concat (x :: l')) with (x ++ concat l') in H. rewrite of_key_app in H.
    apply app_eq_nil in H as [Hx H]. rewrite filter_cons_False by (intros Ha; by destruct Ha). auto. }
  by rewrite E.
Qed.

Lemma aggregate_second k past w l (snap : gmap string msg) :
  Z.of_nat (length l) < 2 ^ 63 ->
  snap !! k = counters (past ++ concat w) l k ->
  match snap !! k with Some v => aggregate1 (window_stat k past w) v | None => window_stat k past w end
  = window_stat k past (w ++ [l]).
Proof.
  intros Hl ->. unfold counters. unfold window_stat at 3.
  rewrite concat_snoc, app_assoc, (of_key_app k (concat w) l), (of_key_app k _ l).
  destruct (decide (active k l)) as [Ha|Ha].
  - rewrite decide_False by (intros [_ ?]%app_eq_nil; by destruct Ha).
    destruct (head (of_key k (past ++ concat w) ++ of_key k l)) as [e|] eqn:He; cbn.
    2:{ destruct Ha. by destruct (of_key k (past ++ concat w)), (of_key k l). }
    unfold aggregate1. rewrite decide_False.
    2:{ cbn. rewrite wrap64_id.
        - destruct (of_key k l) eqn:E; [by destruct Ha|]. cbn. lia.
        - pose proof (length_filter (fun e => ev_key e = k) l). unfold of_key, in64. lia. }
    rewrite <- (merge_stat_of k e e w l Ha). f_equal. f_equal. unfold window_stat.
    destruct (decide (of_key k (concat w) = [])) as [E|E]; [by apply zeroStat_of|].
    rewrite of_key_app in *. destruct (of_key k past) eqn:Ep; cbn in *; [|congruence].
    destruct (of_key k (concat w)); [done|]. cbn in *. congruence.
  - destruct (decide (of_key k l = [])) as [E|]; [|done]. rewrite E, !app_nil_r.
    unfold window_stat. destruct (head (of_key k (past ++ concat w))) as [e|]; cbn; [|done].
    unfold aggregate1, counter; cbn. rewrite stat_of_inactive by done. done.
Qed.

Lemma aggregate_window k h snaps past w :
  Forall (fun l => Z.of_nat (length l) < 2 ^ 63) h ->
  snapshots (past ++ concat w) h snaps ->
  foldl (fun o m => match m !! k with Some v => aggregate1 o v | None => o end)
    (window_stat k past w) snaps = window_stat k past (w ++ h).
Proof.
  revert snaps w. induction h as [|l h IH]; intros snaps w Hb Hs; inversion Hs; subst; cbn.
  { by rewrite app_nil_r. }
  apply Forall_cons in Hb as [Hl Hb].
  rewrite (aggregate_second k past w l) by auto.
  rewrite IH by (rewrite ?concat_snoc, ?app_assoc; done). by rewrite <- app_assoc.
Qed.

(** ** The sorted listing *)
Lemma ltb_asym s1 s2 : String.ltb s1 s2 = true -> String.ltb s2 s1 = false.
Proof.
  unfold String.ltb. rewrite (String.compare_antisym s1 s2). by destruct (String.compare s2 s1).
Qed.

#[global] Instance byStr_le_total : Total byStr_le.
Proof.
  intros a b. unfold byStr_le, byStr_Less. destruct (decide (st_Type a = st_Type b)) as [E|E].
  - rewrite E, decide_True by done.
    destruct (String.ltb (st_Name a) (st_Name b)) eqn:L; [left; by apply ltb_asym | by right].
  - rewrite decide_False by congruence.
    destruct (String.ltb (st_Type a) (st_Type b)) eqn:L; [left; by apply ltb_asym | by right].
Qed.

(** The monitor reports the last minute, when no call of it overlaps a tick or
    another call (what changes when they do is [MonitorRace]).  However many seconds
    it has run, and whatever order Go ranges over its maps in, no step of it fails, and the
    statistics of a key are the number, sum, averages and active seconds of the
    events recorded under it in the last sixty seconds, under the name and group
    of the first event ever recorded under the key; a key without an event in the
    last minute has none; and the listing holds exactly these statistics, sorted
    by group and name. *)
Theorem monitor_reports_last_minute order orderS h :
  range_order order -> range_order orderS ->
  Forall (fun l => Z.of_nat (length l) < 2 ^ 63) h ->
  exists m res lst, seconds initMonitor h = Ret m /\ stats order m = Ret res /\
    Stats order orderS m = Ret lst /\
    (forall k, res !! k =
       avg <$> window_stat k (concat (take (length h - 60) h)) (last_n 60 h)) /\
    lst ≡ₚ snd <$> map_to_list res /\ Sorted byStr_le lst.
Proof.
  intros Ho HoS Hb.
  destruct (seconds_spec h [] initMonitor []) as (m & snaps & E & R & L & S).
  { intros k. apply lookup_empty. }
  { apply repr_newRing. lia. }
  destruct (stats_aggregates order m snaps Ho R) as (res & Es & Hk).
  exists m, res, (merge_sort byStr_le (snd <$> orderS res)).
  split_and!; [done | done | by unfold Stats; rewrite Es | | |].
  - intros k. rewrite Hk. unfold aggregate, last_n. rewrite L; cbn [initMonitor r newRing datas length].
    rewrite length_replicate, (snapshots_length _ _ _ S). f_equal.
    apply (aggregate_window k _ _ _ []); [by apply Forall_drop|].
    rewrite app_nil_r. by apply (snapshots_drop _ []).
  - rewrite merge_sort_Permutation. f_equiv. apply HoS.
  - apply Sorted_merge_sort, _.
Qed.
Lemma monitor_reports_last_minute_witness :
  let e v := mkEvent "pool" "insert" 2 v in
  exists m res lst, seconds initMonitor ([e 7] :: replicate 59 [] ++ [[e 1; e 2]; [e 4]]) = Ret m /\
    stats map_to_list m = Ret res /\ Stats map_to_list map_to_list m = Ret lst /\
    res !! "pool-insert" =
      Some (mkStat "insert" "pool" 3 7 (SFdiv 53 1024 (float64 7) (float64 3))
              (SFdiv 53 1024 (float64 3) (float64 2)) 2).
Proof.
  intros e.
  destruct (monitor_reports_last_minute map_to_list map_to_list
    ([e 7] :: replicate 59 [] ++ [[e 1; e 2]; [e 4]])) as (m & res & lst & E & Es & El & Hk & _).
  - apply range_order_map_to_list.
  - apply range_order_map_to_list.
  - apply Forall_forall. intros l Hl. cbn in Hl.
    assert ((length l <= 2)%nat); [|lia]. revert l Hl. apply Forall_forall. vm_compute.
    repeat constructor.
  - exists m, res, lst. rewrite Hk. split_and!; [done..|]. vm_compute. reflexivity.
Defined.

(** Two counters whose group and name join to the same key are mixed. *)
Lemma key_collides :
  key "a-b" "c" = key "a" "b-c".
Proof. reflexivity. Qed.
End Counters.
