(* ===== verification/MonitorRace.v ===== *)
(** * MonitorRace: the monitor's goroutines, interleaved ([monitor/monitor.go])

    Any number of goroutines record events while one goroutine ticks.  The counters
    are objects that several goroutines hold; each atomic operation of [log], and
    each read and write of the tick, is a step of its own.  What is recorded and what
    is reported differ by what falls between the two, exactly. *)
From S2P Require Import Prelude.
From S2P Require Import Monitor.
Import Ring Counters.

(** ** Steps *)
Inductive field := FCnt | FSum.
#[global] Instance field_eq_dec : EqDecision field.
Proof. solve_decision. Defined.
Definition get (f : field) (m : msg) : Z := match f with FCnt => Cnt m | FSum => Sum m end.
Definition put (f : field) (v : Z) (m : msg) : msg :=
  match f with
  | FCnt => {| Group := Group m; Type_ := Type_ m; Name := Name m; Cnt := v; Sum := Sum m |}
  | FSum => {| Group := Group m; Type_ := Type_ m; Name := Name m; Cnt := Cnt m; Sum := v |}
  end.
(** [atomic.AddInt64] on a counter. *)
Definition atomic_add (f : field) (v : Z) (m : msg) : msg := put f (wrap64 (get f m + v)) m.
(** What [add] adds for an event. *)
Definition weight (f : field) (e : event) : Z := match f with FCnt => 1 | FSum => ev_Val e end.

(** A call of [log]: it has loaded the counter of its key, if there is one; it has
    counted the event and still has to add its value. *)
Inductive logpc := Looked (e : event) (o : option nat) | Counted (e : event) (o : nat).

(** What the tick does with a counter: its count was read; it was copied; its sum
    was reset. *)
Inductive stage := CntRead (c : Z) | Copied (m : msg) | SumReset (m : msg).

(** The tick waits for its second, or ranges over the counters: [must] are the keys
    there when the range began, [at_] the counter it is at. *)
Inductive tickpc := Waits | Ranges (must : gset string) (snapshot : gmap string msg) (at_ : option (string * nat * stage)).

(** [heap]: the counters; [table]: [monitor.ms]; [calls]: the calls of [log] that run.
    The rest is history, which no step reads: [added], what was added to counters so
    far; [late], how much of it to a counter that the tick had copied and not yet
    reset; [pushed], the snapshots. *)
Record race := mkRace {
  heap : gmap nat msg;
  table : gmap string nat;
  ring_ : ring (gmap string msg);
  calls : gmap nat logpc;
  ticker : tickpc;
  added : field -> string -> Z;
  late : field -> string -> Z;
  pushed : list (gmap string msg)
}.

Definition start : race :=
  mkRace ∅ ∅ (Counters.r initMonitor) ∅ Waits (fun _ _ => 0) (fun _ _ => 0) [].

(** Is the field copied and not yet reset? *)
Definition in_window (f : field) (st : stage) : option Z :=
  match f, st with
  | FCnt, CntRead c => Some c
  | FCnt, (Copied m | SumReset m) => Some (Cnt m)
  | FSum, Copied m => Some (Sum m)
  | FSum, _ => None
  end.
Definition window (s : race) (f : field) (o : nat) : option Z :=
  match ticker s with
  | Ranges _ _ (Some (_, o', st)) => if decide (o' = o) then in_window f st else None
  | _ => None
  end.

Definition bump (h : field -> string -> Z) (f : field) (k : string) (v : Z) : field -> string -> Z :=
  fun f' k' => match f, f' with
               | FCnt, FCnt | FSum, FSum => if decide (k' = k) then h f' k' + v else h f' k'
               | _, _ => h f' k'
               end.

Definition set_calls (s : race) (c : gmap nat logpc) : race :=
  mkRace (heap s) (table s) (ring_ s) c (ticker s) (added s) (late s) (pushed s).
Definition set_ticker (s : race) (t : tickpc) : race :=
  mkRace (heap s) (table s) (ring_ s) (calls s) t (added s) (late s) (pushed s).
Definition set_heap (s : race) (h : gmap nat msg) : race :=
  mkRace h (table s) (ring_ s) (calls s) (ticker s) (added s) (late s) (pushed s).

(** [AddInt64] of the event [e] on the counter [o]. *)
Definition add_field (f : field) (e : event) (o : nat) (s : race) : race :=
  mkRace (alter (atomic_add f (weight f e)) o (heap s)) (table s) (ring_ s) (calls s) (ticker s)
    (bump (added s) f (ev_key e) (weight f e))
    (match window s f o with Some _ => bump (late s) f (ev_key e) (weight f e) | None => late s end)
    (pushed s).

(** [Store] of a new counter that holds the event [e]; a counter of this key that
    was stored in the meantime is replaced. *)
Definition store_new (e : event) (s : race) : race :=
  let o := fresh (dom (heap s)) in
  mkRace (<[o := msg_add (newMsg (ev_Group e) (ev_Name e) (ev_Type e)) (ev_Val e)]> (heap s))
    (<[ev_key e := o]> (table s)) (ring_ s) (calls s) (ticker s)
    (bump (bump (added s) FCnt (ev_key e) 1) FSum (ev_key e) (ev_Val e)) (late s) (pushed s).

Inductive action :=
| ACall (g : nat) (e : event)    (* a call of [log] begins: [Load] *)
| AGo (g : nat)                  (* it goes on *)
| ATick                          (* a second is over: the range begins *)
| AVisit (k : string)            (* the range comes to a key; its count is read *)
| AReset                         (* it goes on with this key *)
| APush.                         (* the range is over: [r.add] *)

(** [None]: not possible now. *)
Definition step (a : action) (s : race) : option (outcome race) :=
  match a with
  | ACall g e =>
      match calls s !! g with
      | Some _ => None
      | None => Some (Ret (set_calls s (<[g := Looked e (table s !! ev_key e)]> (calls s))))
      end
  | AGo g =>
      match calls s !! g with
      | None => None
      | Some (Looked e None) => Some (Ret (set_calls (store_new e s) (delete g (calls s))))
      | Some (Looked e (Some o)) => Some (Ret (set_calls (add_field FCnt e o s) (<[g := Counted e o]> (calls s))))
      | Some (Counted e o) => Some (Ret (set_calls (add_field FSum e o s) (delete g (calls s))))
      end
  | ATick => match ticker s with Waits => Some (Ret (set_ticker s (Ranges (dom (table s)) ∅ None))) | _ => None end
  | AVisit k =>
      match ticker s, table s !! k with
      | Ranges must snapshot None, Some o =>
          match snapshot !! k, heap s !! o with
          | None, Some m => Some (Ret (set_ticker s (Ranges must snapshot (Some (k, o, CntRead (Cnt m))))))
          | _, _ => None
          end
      | _, _ => None
      end
  | AReset =>
      match ticker s with
      | Ranges must snapshot (Some (k, o, st)) =>
          match heap s !! o with
          | None => None
          | Some m =>
              Some (Ret (match st with
                | CntRead c => set_ticker s (Ranges must snapshot (Some (k, o, Copied (put FCnt c m))))
                | Copied sm =>
                    set_heap (set_ticker s (Ranges must snapshot (Some (k, o, SumReset sm))))
                      (<[o := put FSum 0 m]> (heap s))
                | SumReset sm =>
                    set_heap (set_ticker s (Ranges must (<[k := sm]> snapshot) None)) (<[o := put FCnt 0 m]> (heap s))
                end))
          end
      | _ => None
      end
  | APush =>
      match ticker s with
      | Ranges must snapshot None =>
          if decide (must ⊆ dom snapshot) then
            Some (r' ← add (ring_ s) snapshot;
                  Ret (mkRace (heap s) (table s) r' (calls s) Waits (added s) (late s) (pushed s ++ [snapshot])))
          else None
      | _ => None
      end
  end.

Fixpoint run (acts : list action) (s : race) : option (outcome race) :=
  match acts with
  | [] => Some (Ret s)
  | a :: acts => match step a s with Some (Ret s) => run acts s | x => x end
  end.

(** A run in which no call adds to a counter between its copy and its reset, and no
    counter is replaced. *)
Definition calm_step (a : action) (s : race) : bool :=
  match a with
  | AGo g =>
      match calls s !! g with
      | Some (Looked e None) => bool_decide (table s !! ev_key e = None)
      | Some (Looked _ (Some o)) => bool_decide (window s FCnt o = None)
      | Some (Counted _ o) => bool_decide (window s FSum o = None)
      | None => true
      end
  | _ => true
  end.
Fixpoint calm (acts : list action) (s : race) : bool :=
  match acts with
  | [] => true
  | a :: acts => calm_step a s && match step a s with Some (Ret s) => calm acts s | _ => true end
  end.

(** ** Sums over the counters *)
Section hsum.
Implicit Types (g : nat -> msg -> Z) (h : gmap nat msg).
Definition hsum g h : Z := map_fold (fun o m a => g o m + a) 0 h.

Lemma hsum_insert g h o m : h !! o = None -> hsum g (<[o := m]> h) = g o m + hsum g h.
Proof. intros Ho. unfold hsum. rewrite map_fold_insert_L; [done| |done]. intros. lia. Qed.
Lemma hsum_delete g h o m : h !! o = Some m -> hsum g h = g o m + hsum g (delete o h).
Proof. intros Ho. rewrite <- hsum_insert by apply lookup_delete_eq. by rewrite insert_delete_id. Qed.
Lemma hsum_ext g g' h : (forall o m, h !! o = Some m -> g o m = g' o m) -> hsum g h = hsum g' h.
Proof.
  induction h as [|o m h Ho IH] using map_ind; intros He; [done|]. rewrite !hsum_insert by done.
  rewrite (He o m) by apply lookup_insert_eq. f_equal. apply IH. intros o' m' Ho'. apply He.
  rewrite lookup_insert_ne; [done|]. by intros ->; rewrite Ho in Ho'.
Qed.
Lemma hsum_zero g h : (forall o m, h !! o = Some m -> g o m = 0) -> hsum g h = 0.
Proof.
  intros He. rewrite (hsum_ext g (fun _ _ => 0)) by done. clear He.
  induction h as [|o m h Ho IH] using map_ind; [done|]. by rewrite hsum_insert.
Qed.

Lemma alter_at (f : msg -> msg) h o m : h !! o = Some m -> alter f o h = <[o := f m]> h.
Proof.
  intros Ho. apply map_eq. intros i. destruct (decide (i = o)) as [->|Hne].
  - by rewrite lookup_alter_eq, lookup_insert_eq, Ho.
  - by rewrite lookup_alter_ne, lookup_insert_ne.
Qed.

(** One counter changes, and the weights of it. *)
Lemma hsum_update g g' h o m m' :
  h !! o = Some m -> (forall o' m2, o' <> o -> g' o' m2 = g o' m2) ->
  hsum g' (<[o := m']> h) = hsum g h - g o m + g' o m'.
Proof.
  intros Ho He. rewrite (hsum_delete g h o m Ho), <- insert_delete_eq, hsum_insert by apply lookup_delete_eq.
  rewrite (hsum_ext g' g (delete o h)); [lia|]. intros o' m2 Hm. apply He. intros ->. by rewrite lookup_delete_eq in Hm.
Qed.
End hsum.

(** ** The account of a run *)
Definition mkey (m : msg) : string := key (Group m) (Name m).
Definition of_msg (f : field) (m : option msg) : Z := from_option (get f) 0 m.

(** What the pushed snapshots hold of a key. *)
Definition reported (f : field) (k : string) (snaps : list (gmap string msg)) : Z :=
  zsum ((fun s => of_msg f (s !! k)) <$> snaps).

(** What the table's counter of a key holds, and what the counters hold that were
    replaced in the table. *)
Definition live (f : field) (k : string) (s : race) : Z := of_msg f (table s !! k ≫= fun o => heap s !! o).
Definition replaced (f : field) (k : string) (s : race) : Z :=
  hsum (fun _ m => if decide (mkey m = k) then get f m else 0)
    (match table s !! k with Some o => delete o (heap s) | None => heap s end).

(** What a counter still has to report: while it is copied and not reset, the copy. *)
Definition owed (f : field) (k : string) (s : race) (o : nat) (m : msg) : Z :=
  if decide (mkey m = k) then match window s f o with Some c => c | None => get f m end else 0.

(** What the tick has taken from the counters and not yet pushed. *)
Definition taken (f : field) (k : string) (s : race) : Z :=
  match ticker s with
  | Waits => 0
  | Ranges _ snapshot at_ =>
      of_msg f (snapshot !! k) +
      match at_, f with
      | Some (k', _, SumReset m), FSum => if decide (k' = k) then Sum m else 0
      | _, _ => 0
      end
  end.

Definition on_heap (s : race) (k : string) (o : nat) : Prop := exists m, heap s !! o = Some m /\ mkey m = k.

Definition well_placed (s : race) : Prop :=
  (forall k o, table s !! k = Some o -> on_heap s k o) /\
  (forall g e o, calls s !! g = Some (Looked e (Some o)) \/ calls s !! g = Some (Counted e o) -> on_heap s (ev_key e) o) /\
  (forall must snapshot k o st, ticker s = Ranges must snapshot (Some (k, o, st)) ->
     on_heap s k o /\ snapshot !! k = None).

(** Counts and sums are [int64]: accounts agree up to multiples of [2 ^ 64]. *)
Definition agree (a b : Z) : Prop := exists q, a = b + q * 2 ^ 64.
Lemma agree_wrap64 a b : agree a b -> wrap64 a = wrap64 b.
Proof. intros [q ->]. apply wrap_congr. by rewrite Z.mod_add by lia. Qed.
Lemma wrap64_agree z : agree (wrap64 z) z.
Proof.
  exists (wrap64 z / 2 ^ 64 - z / 2 ^ 64). pose proof (wrap_mod 64 z ltac:(lia)) as E. fold (wrap64 z) in E.
  pose proof (Z.div_mod (wrap64 z) (2 ^ 64) ltac:(lia)). pose proof (Z.div_mod z (2 ^ 64) ltac:(lia)). lia.
Qed.

Record race_ok (s : race) : Prop := {
  ro_ring : repr (ring_ s) (pushed s) /\ length (datas (ring_ s)) = 60%nat;
  ro_placed : well_placed s;
  ro_account f k : agree (added s f k) (reported f k (pushed s) + taken f k s + hsum (owed f k s) (heap s) + late s f k)
}.

Lemma start_ok : race_ok start.
Proof.
  constructor.
  - split; [apply repr_newRing; lia|done].
  - split_and!; cbn; intros; try done. by destruct H.
  - intros f k. exists 0. cbn. unfold hsum. by rewrite map_fold_empty.
Qed.

Lemma mkey_put f v m : mkey (put f v m) = mkey m.
Proof. by destruct f. Qed.
Lemma get_put f f' v m : get f (put f' v m) = match f, f' with FCnt, FCnt | FSum, FSum => v | _, _ => get f m end.
Proof. by destruct f, f'. Qed.

Lemma bump_eq h f k v : bump h f k v f k = h f k + v.
Proof. unfold bump. destruct f; by rewrite decide_True. Qed.
Lemma bump_ne h f k v f' k' : f' <> f \/ k' <> k -> bump h f k v f' k' = h f' k'.
Proof. unfold bump. intros Hn. destruct f, f'; try done; rewrite decide_False; naive_solver. Qed.

(** A counter changes in place: everything stays where it is. *)
Lemma placed_heap s s' :
  well_placed s -> table s' = table s ->
  (forall k o, on_heap s k o -> on_heap s' k o) ->
  (forall g e o, calls s' !! g = Some (Looked e (Some o)) \/ calls s' !! g = Some (Counted e o) -> on_heap s (ev_key e) o) ->
  (forall must snapshot k o st, ticker s' = Ranges must snapshot (Some (k, o, st)) ->
     on_heap s k o /\ snapshot !! k = None) -> well_placed s'.
Proof.
  intros (P1 & _ & _) Et Hh Hc Ht. split_and!.
  - intros k o Hk. apply Hh, P1. by rewrite <- Et.
  - intros g e o Hg. by eapply Hh, Hc.
  - intros must snapshot k o st E. destruct (Ht _ _ _ _ _ E) as [H1 H2]. by split; [apply Hh|].
Qed.

Lemma on_heap_insert s h o m m' :
  heap s !! o = Some m -> mkey m' = mkey m -> h = <[o := m']> (heap s) ->
  forall k o', on_heap s k o' -> exists m2, h !! o' = Some m2 /\ mkey m2 = k.
Proof.
  intros Ho Em -> k o' (m2 & Hm2 & Ek). destruct (decide (o' = o)) as [->|Hne].
  - exists m'. rewrite lookup_insert_eq. split; [done|]. rewrite Ho in Hm2. injection Hm2 as <-. by rewrite Em.
  - exists m2. by rewrite lookup_insert_ne.
Qed.

(** *** The steps of [log] *)
Lemma add_field_ok f e o s c :
  race_ok s -> on_heap s (ev_key e) o ->
  (forall g e' o', c !! g = Some (Looked e' (Some o')) \/ c !! g = Some (Counted e' o') -> on_heap s (ev_key e') o') ->
  race_ok (set_calls (add_field f e o s) c).
Proof.
  intros [R P A] (m & Ho & Ek) Hc. constructor; [exact R| |].
  - destruct P as (P1 & P2 & P3). apply (placed_heap s); [by split_and!|done| |exact Hc|exact P3].
    apply (on_heap_insert s _ o m (atomic_add f (weight f e) m)); [done|apply mkey_put|].
    cbn. by rewrite (alter_at _ _ _ m).
  - intros f' k. specialize (A f' k).
    change (agree (bump (added s) f (ev_key e) (weight f e) f' k)
      (reported f' k (pushed s) + taken f' k s +
       hsum (owed f' k s) (alter (atomic_add f (weight f e)) o (heap s)) +
       (match window s f o with Some _ => bump (late s) f (ev_key e) (weight f e) | None => late s end) f' k)).
    rewrite (alter_at _ _ _ m) by done.
    rewrite (hsum_update (owed f' k s) (owed f' k s) _ o m) by done.
    assert (Em : mkey (atomic_add f (weight f e) m) = ev_key e) by (rewrite <- Ek; apply mkey_put).
    unfold owed at 2 3. rewrite Em, Ek. unfold atomic_add at 1. rewrite get_put.
    destruct (decide (f' = f /\ k = ev_key e)) as [[-> ->]|Hn].
    + rewrite bump_eq, !decide_True by done. destruct A as [q A].
      destruct (window s f o) as [c0|]; [rewrite bump_eq; exists q; lia|].
      destruct (wrap64_agree (get f m + weight f e)) as [q' E].
      exists (q - q'). destruct f; rewrite E; lia.
    + assert (Hb : forall h, bump h f (ev_key e) (weight f e) f' k = h f' k) by
        (intros h; apply bump_ne; destruct (decide (f' = f)); [right; intros ->; tauto|by left]).
      rewrite Hb. destruct A as [q A]. exists q.
      replace ((match window s f o with Some _ => bump (late s) f (ev_key e) (weight f e) | None => late s end) f' k)
        with (late s f' k) by (destruct (window s f o); by rewrite ?Hb).
      destruct (decide (ev_key e = k)) as [Ek'|]; [|lia]. destruct (window s f' o); [lia|].
      destruct f', f; try lia; destruct Hn; done.
Qed.

Lemma store_new_ok e s c :
  race_ok s ->
  (forall g e' o', c !! g = Some (Looked e' (Some o')) \/ c !! g = Some (Counted e' o') -> on_heap s (ev_key e') o') ->
  race_ok (set_calls (store_new e s) c).
Proof.
  intros [R P A] Hc. set (o := fresh (dom (heap s))).
  assert (Ho : heap s !! o = None) by (apply not_elem_of_dom, is_fresh).
  set (m := msg_add (newMsg (ev_Group e) (ev_Name e) (ev_Type e)) (ev_Val e)).
  assert (Hw : forall f, window s f o = None).
  { intros f. unfold window. destruct (ticker s) as [|must snap [[[k' o'] st]|]] eqn:Et; try done.
    rewrite decide_False; [done|]. intros ->. destruct (proj2 (proj2 P) _ _ _ _ _ Et) as [(m' & Hm' & _) _].
    by rewrite Ho in Hm'. }
  assert (Hkeep : forall k o', on_heap s k o' -> exists m2, <[o := m]> (heap s) !! o' = Some m2 /\ mkey m2 = k).
  { intros k o' (m2 & Hm2 & Ek). exists m2. rewrite lookup_insert_ne; [done|]. intros <-. by rewrite Ho in Hm2. }
  constructor; [exact R| |].
  - destruct P as (P1 & P2 & P3). split_and!.
    + intros k o' Hk. change (<[ev_key e := o]> (table s) !! k = Some o') in Hk. change (exists m2, <[o := m]> (heap s) !! o' = Some m2 /\ mkey m2 = k).
      destruct (decide (k = ev_key e)) as [->|Hne].
      * rewrite lookup_insert_eq in Hk. injection Hk as <-. exists m. by rewrite lookup_insert_eq.
      * rewrite lookup_insert_ne in Hk by done. by apply Hkeep, P1.
    + intros g e' o' Hg. by eapply Hkeep, Hc.
    + intros must snapshot k o' st E. destruct (P3 _ _ _ _ _ E) as [H1 H2]. split; [by apply Hkeep|done].
  - intros f k. specialize (A f k).
    change (agree (bump (bump (added s) FCnt (ev_key e) 1) FSum (ev_key e) (ev_Val e) f k)
      (reported f k (pushed s) + taken f k s + hsum (owed f k s) (<[o := m]> (heap s)) + late s f k)).
    rewrite hsum_insert by done. unfold owed at 1. rewrite Hw. change (mkey m) with (ev_key e).
    destruct A as [q A]. destruct (decide (ev_key e = k)) as [<-|Hne].
    + destruct f.
      * rewrite bump_ne by by left. rewrite bump_eq. exists q. change (get FCnt m) with 1. lia.
      * rewrite bump_eq. rewrite bump_ne by by left.
        destruct (wrap64_agree (0 + ev_Val e)) as [q' E]. exists (q - q'). change (get FSum m) with (wrap64 (0 + ev_Val e)). lia.
    + rewrite !bump_ne by (right; congruence). exists q. lia.
Qed.

(** *** The steps of the tick *)
Lemma reported_snoc f k snaps s : reported f k (snaps ++ [s]) = reported f k snaps + of_msg f (s !! k).
Proof. unfold reported. rewrite zsum_app. unfold zsum. cbn. lia. Qed.

(** The tick goes on with the counter [o] of the key [k]: what it owes and what is
    taken change against each other. *)
Lemma tick_account f k s s' o m m' :
  race_ok s -> heap s !! o = Some m -> mkey m' = mkey m -> heap s' = <[o := m']> (heap s) ->
  added s' = added s -> late s' = late s -> pushed s' = pushed s ->
  (forall o', o' <> o -> window s' f o' = window s f o') ->
  taken f k s' + owed f k s' o m' = taken f k s + owed f k s o m ->
  agree (added s' f k) (reported f k (pushed s') + taken f k s' + hsum (owed f k s') (heap s') + late s' f k).
Proof.
  intros [_ _ A] Ho _ Eh -> -> -> Hw Et. specialize (A f k). rewrite Eh.
  rewrite (hsum_update (owed f k s) (owed f k s') _ o m) by first [done|intros o' m2 Hne; unfold owed; by rewrite Hw].
  destruct A as [q A]. exists q. lia.
Qed.

Lemma window_far s f o o' must snapshot k st :
  ticker s = Ranges must snapshot (Some (k, o, st)) -> o' <> o -> window s f o' = None.
Proof. intros E Hne. unfold window. rewrite E. by rewrite decide_False. Qed.
Lemma window_at s f o must snapshot k st :
  ticker s = Ranges must snapshot (Some (k, o, st)) -> window s f o = in_window f st.
Proof. intros E. unfold window. by rewrite E, decide_True. Qed.

(** What the steps of the tick keep. *)
Lemma tick_placed s s' o m m' :
  race_ok s -> heap s !! o = Some m -> mkey m' = mkey m -> heap s' = <[o := m']> (heap s) ->
  table s' = table s -> calls s' = calls s ->
  (forall must snapshot k o st, ticker s' = Ranges must snapshot (Some (k, o, st)) ->
     on_heap s k o /\ snapshot !! k = None) -> well_placed s'.
Proof.
  intros [_ P _] Ho Em Eh Et Ec Hp. destruct P as (P1 & P2 & P3).
  apply (placed_heap s); [by split_and!|done|by apply (on_heap_insert s _ o m m')| |exact Hp].
  intros g e o'. rewrite Ec. apply P2.
Qed.

Lemma visit_ok s must snapshot k o m :
  race_ok s -> ticker s = Ranges must snapshot None -> table s !! k = Some o -> snapshot !! k = None ->
  heap s !! o = Some m -> race_ok (set_ticker s (Ranges must snapshot (Some (k, o, CntRead (Cnt m))))).
Proof.
  intros I Et Hk Hs Ho. pose proof I as [R P A]. set (s' := set_ticker s _).
  assert (Eh : heap s' = <[o := m]> (heap s)) by (by rewrite insert_id).
  constructor; [exact R| |].
  - apply (tick_placed s s' o m m); try done. intros must' snap' k' o' st' [= <- <- <- <- <-].
    split; [|done]. by apply (proj1 P).
  - intros f k2. apply (tick_account f k2 s s' o m m); try done.
    + intros o' Hne. rewrite (window_far s' f o o' must snapshot k (CntRead (Cnt m))) by done.
      unfold window. by rewrite Et.
    + unfold owed, taken. rewrite (window_at s' f o must snapshot k (CntRead (Cnt m))) by done.
      cbn [s' set_ticker ticker]. rewrite Et. unfold window. rewrite Et. by destruct f.
Qed.

Lemma go_on_ok s must snapshot k o st m s' :
  race_ok s -> ticker s = Ranges must snapshot (Some (k, o, st)) -> heap s !! o = Some m ->
  step AReset s = Some (Ret s') -> race_ok s'.
Proof.
  intros I Et Ho. cbn. rewrite Et, Ho. intros [= <-]. pose proof I as [R P A].
  destruct (proj2 (proj2 P) _ _ _ _ _ Et) as [Hon Hsn]. pose proof Hon as (m2 & Hm2 & Ek).
  rewrite Ho in Hm2. injection Hm2 as <-.
  destruct st as [c|sm|sm].
  - set (s' := set_ticker s _). assert (Eh : heap s' = <[o := m]> (heap s)) by (by rewrite insert_id).
    constructor; [exact R| |].
    + apply (tick_placed s s' o m m); try done. by intros ????? [= <- <- <- <- <-].
    + intros f k2. apply (tick_account f k2 s s' o m m); try done.
      * intros o' Hne. by rewrite (window_far s f o o' _ _ _ _ Et), (window_far s' f o o' must snapshot k (Copied (put FCnt c m))).
      * unfold owed, taken. rewrite (window_at s f o _ _ _ _ Et), (window_at s' f o must snapshot k (Copied (put FCnt c m))) by done.
        cbn [s' set_ticker ticker]. rewrite Et. by destruct f.
  - set (s' := set_heap _ _). constructor; [exact R| |].
    + apply (tick_placed s s' o m (put FSum 0 m)); try done. by intros ????? [= <- <- <- <- <-].
    + intros f k2. apply (tick_account f k2 s s' o m (put FSum 0 m)); try done.
      * intros o' Hne. by rewrite (window_far s f o o' _ _ _ _ Et), (window_far s' f o o' must snapshot k (SumReset sm)).
      * unfold owed, taken. rewrite (window_at s f o _ _ _ _ Et), (window_at s' f o must snapshot k (SumReset sm)) by done.
        cbn [s' set_ticker set_heap ticker]. rewrite Et, mkey_put, Ek. destruct f; cbn; [done|]. case_decide; lia.
  - set (s' := set_heap _ _). constructor; [exact R| |].
    + by apply (tick_placed s s' o m (put FCnt 0 m)).
    + intros f k2. apply (tick_account f k2 s s' o m (put FCnt 0 m)); try done.
      * intros o' Hne. by rewrite (window_far s f o o' _ _ _ _ Et).
      * unfold owed, taken. rewrite (window_at s f o _ _ _ _ Et). cbn [s' set_ticker set_heap ticker window].
        rewrite Et, mkey_put, Ek. destruct (decide (k = k2)) as [->|Hne].
        -- rewrite lookup_insert_eq, Hsn. destruct f; cbn; lia.
        -- rewrite lookup_insert_ne by done. destruct f; cbn; lia.
Qed.

Lemma push_ok s must snapshot r' :
  race_ok s -> ticker s = Ranges must snapshot None -> add (ring_ s) snapshot = Ret r' ->
  race_ok (mkRace (heap s) (table s) r' (calls s) Waits (added s) (late s) (pushed s ++ [snapshot])).
Proof.
  intros [[R L] P A] Et E. destruct (repr_add (ring_ s) (pushed s) snapshot R) as (r2 & E2 & R2 & L2).
  rewrite E in E2. injection E2 as <-. constructor.
  - split; [exact R2|]. cbn [ring_]. lia.
  - destruct P as (P1 & P2 & P3). split_and!; [exact P1|exact P2|by intros].
  - intros f k. specialize (A f k). cbn [added pushed late heap]. rewrite reported_snoc. unfold taken in *. rewrite Et in A. cbn [ticker].
    destruct A as [q A]. exists q.
    rewrite (hsum_ext (owed f k _) (owed f k s)); [destruct f; lia|]. intros o m _. unfold owed, window. by rewrite Et.
Qed.

Lemma begin_tick_ok s :
  race_ok s -> ticker s = Waits -> race_ok (set_ticker s (Ranges (dom (table s)) ∅ None)).
Proof.
  intros [R P A] Et. constructor; [exact R| |].
  - destruct P as (P1 & P2 & P3). split_and!; [exact P1|exact P2|by intros].
  - intros f k. specialize (A f k). unfold taken in *. rewrite Et in A. destruct A as [q A]. exists q.
    cbn [set_ticker added pushed late heap ticker]. rewrite lookup_empty.
    rewrite (hsum_ext (owed f k _) (owed f k s)); [destruct f; cbn; lia|]. intros o m _. unfold owed, window. by rewrite Et.
Qed.

(** No step fails, and each keeps the account. *)
Lemma step_ok a s x : race_ok s -> step a s = Some x -> exists s', x = Ret s' /\ race_ok s'.
Proof.
  intros I E. pose proof I as [R P A]. destruct a as [g e|g| |k| |]; cbn [step] in E.
  - destruct (calls s !! g); [done|]. injection E as <-. eexists. split; [reflexivity|].
    constructor; [exact R| |exact A]. destruct P as (P1 & P2 & P3). split_and!; [exact P1| |exact P3].
    intros g' e' o' Hg. cbn [set_calls calls] in Hg. destruct (decide (g' = g)) as [->|Hne].
    + rewrite lookup_insert_eq in Hg. destruct Hg as [[= <- Ho]|Hg]; [by apply P1|done].
    + rewrite lookup_insert_ne in Hg by done. by apply (P2 g').
  - destruct (calls s !! g) as [pc|] eqn:Eg; [|done].
    assert (Hd : forall g' e' o', delete g (calls s) !! g' = Some (Looked e' (Some o')) \/
      delete g (calls s) !! g' = Some (Counted e' o') -> on_heap s (ev_key e') o').
    { intros g' e' o' Hg. apply (proj1 (proj2 P) g' e' o').
      destruct (decide (g' = g)) as [->|Hne]; [by rewrite lookup_delete_eq in Hg; destruct Hg|].
      by rewrite lookup_delete_ne in Hg. }
    destruct pc as [e [o|]|e o]; injection E as <-; (eexists; split; [reflexivity|]).
    + assert (Ho : on_heap s (ev_key e) o) by (apply (proj1 (proj2 P) g); by left).
      apply add_field_ok; [done|done|]. intros g' e' o' Hg. destruct (decide (g' = g)) as [->|Hne].
      * rewrite lookup_insert_eq in Hg. destruct Hg as [Hg|[= <- <-]]; [done|exact Ho].
      * rewrite lookup_insert_ne in Hg by done. by apply (proj1 (proj2 P) g').
    + by apply store_new_ok.
    + apply add_field_ok; [done| |exact Hd]. apply (proj1 (proj2 P) g). by right.
  - destruct (ticker s) eqn:Et; [|done]. injection E as <-. eexists. split; [reflexivity|]. by apply begin_tick_ok.
  - destruct (ticker s) as [|must snap [|]] eqn:Et; try done. destruct (table s !! k) as [o|] eqn:Ek; [|done].
    destruct (snap !! k) eqn:Es; [done|]. destruct (heap s !! o) as [m|] eqn:Ho; [|done]. injection E as <-.
    eexists. split; [reflexivity|]. by apply visit_ok.
  - destruct (ticker s) as [|must snap [[[k o] st]|]] eqn:Et; try done.
    destruct (heap s !! o) as [m|] eqn:Ho; [|done]. injection E as <-. eexists. split; [reflexivity|].
    apply (go_on_ok s must snap k o st m); [done..|]. cbn. by rewrite Et, Ho.
  - destruct (ticker s) as [|must snap [|]] eqn:Et; try done. case_decide; [|done]. injection E as <-.
    destruct (repr_add (ring_ s) (pushed s) snap (proj1 R)) as (r' & Er & _). rewrite Er, bind_ret_l.
    eexists. split; [reflexivity|]. by apply (push_ok s must snap).
Qed.

Lemma run_ok acts s x : race_ok s -> run acts s = Some x -> exists s', x = Ret s' /\ race_ok s'.
Proof.
  revert s. induction acts as [|a acts IH]; intros s I E; cbn in E; [injection E as <-; by exists s|].
  destruct (step a s) as [y|] eqn:Ea; [|done]. destruct (step_ok a s y I Ea) as (s' & -> & I'). by apply (IH s').
Qed.

(** A calm run loses nothing: every counter is in the table. *)
Definition nothing_lost (s : race) : Prop :=
  (forall f k, late s f k = 0) /\ (forall o m, heap s !! o = Some m -> table s !! mkey m = Some o).

Lemma calm_step_ok a s s' :
  race_ok s -> nothing_lost s -> calm_step a s = true -> step a s = Some (Ret s') -> nothing_lost s'.
Proof.
  intros I [Hl Hh] Hc E. pose proof I as [_ P _]. destruct a as [g e|g| |k| |]; cbn [step calm_step] in E, Hc.
  - destruct (calls s !! g); [done|]. injection E as <-. by split.
  - destruct (calls s !! g) as [[e [o|]|e o]|] eqn:Eg; [| | |done]; injection E as <-; apply bool_decide_eq_true in Hc.
    + split; [intros f k; cbn; by rewrite Hc|]. intros o' m' Ho'. cbn in Ho' |- *. destruct (decide (o' = o)) as [->|Hne].
      * rewrite lookup_alter_eq in Ho'. destruct (heap s !! o) as [m|] eqn:Ho; [|done]. injection Ho' as <-.
        exact (Hh _ _ Ho).
      * rewrite lookup_alter_ne in Ho' by done. by apply Hh.
    + split; [exact Hl|]. intros o' m' Ho'. cbn in Ho' |- *. destruct (decide (o' = fresh (dom (heap s)))) as [->|Hne].
      * rewrite lookup_insert_eq in Ho'. injection Ho' as <-. apply lookup_insert_eq.
      * rewrite lookup_insert_ne in Ho' by done. specialize (Hh _ _ Ho'). rewrite lookup_insert_ne; [done|]. congruence.
    + split; [intros f k; cbn; by rewrite Hc|]. intros o' m' Ho'. cbn in Ho' |- *. destruct (decide (o' = o)) as [->|Hne].
      * rewrite lookup_alter_eq in Ho'. destruct (heap s !! o) as [m|] eqn:Ho; [|done]. injection Ho' as <-.
        exact (Hh _ _ Ho).
      * rewrite lookup_alter_ne in Ho' by done. by apply Hh.
  - destruct (ticker s); [|done]. injection E as <-. by split.
  - destruct (ticker s) as [|must snap [|]]; try done. destruct (table s !! k) as [o|]; [|done].
    destruct (snap !! k); [done|]. destruct (heap s !! o); [|done]. injection E as <-. by split.
  - destruct (ticker s) as [|must snap [[[k o] st]|]]; try done. destruct (heap s !! o) as [m|] eqn:Ho; [|done].
    injection E as <-. destruct st; split; try done; intros o' m' Ho'; cbn in Ho' |- *;
      (destruct (decide (o' = o)) as [->|Hne];
        [rewrite lookup_insert_eq in Ho'; injection Ho' as <-; exact (Hh _ _ Ho)
        |rewrite lookup_insert_ne in Ho' by done; by apply Hh]).
  - destruct (ticker s) as [|must snap [|]]; try done. case_decide; [|done]. injection E as E.
    apply bind_ret_inv in E as (r' & _ & [= <-]). by split.
Qed.

Lemma calm_ok acts s s' :
  race_ok s -> nothing_lost s -> calm acts s = true -> run acts s = Some (Ret s') -> nothing_lost s'.
Proof.
  revert s. induction acts as [|a acts IH]; intros s I L Hc E; cbn in E, Hc; [by injection E as <-|].
  apply andb_prop in Hc as [Ha Hc]. destruct (step a s) as [y|] eqn:Ea; [|done].
  destruct (step_ok a s y I Ea) as (s1 & -> & I1). apply (IH s1); [done|by apply (calm_step_ok a s s1)|done|done].
Qed.

(** Between two ticks, what a key's counters hold is the table's and the replaced. *)
Lemma owed_split f k s :
  race_ok s -> ticker s = Waits -> hsum (owed f k s) (heap s) = live f k s + replaced f k s.
Proof.
  intros [_ P _] Et. rewrite (hsum_ext _ (fun _ m => if decide (mkey m = k) then get f m else 0)).
  2: { intros o m _. unfold owed, window. by rewrite Et. }
  unfold live, replaced. destruct (table s !! k) as [o|] eqn:Ek; cbn; [|done].
  destruct (proj1 P k o Ek) as (m & Ho & Em). rewrite Ho. cbn. rewrite (hsum_delete _ _ o m Ho).
  by rewrite decide_True.
Qed.

(** ** Calls that run alone

    A call of [log], or a tick, that no other goroutine overlaps does what [log] and
    [tick] of [Monitor] do. *)
Definition view (s : race) (k : string) : option msg := table s !! k ≫= fun o => heap s !! o.
Definition models (s : race) (m : monitor) : Prop :=
  ticker s = Waits /\ ring_ s = Counters.r m /\ forall k, view s k = ms m !! k.

Lemma view_insert s k o m m' :
  race_ok s -> table s !! k = Some o -> heap s !! o = Some m ->
  forall k', (table s !! k' ≫= fun o' => <[o := m']> (heap s) !! o') = if decide (k' = k) then Some m' else view s k'.
Proof.
  intros [_ P _] Hk Ho k'. case_decide as E; [subst; by rewrite Hk; cbn; rewrite lookup_insert_eq|].
  unfold view. destruct (table s !! k') as [o'|] eqn:Hk'; [|done]. cbn. rewrite lookup_insert_ne; [done|].
  intros <-. destruct (proj1 P _ _ Hk) as (m1 & H1 & E1), (proj1 P _ _ Hk') as (m2 & H2 & E2). congruence.
Qed.

Lemma log_alone s m g e :
  race_ok s -> models s m -> calls s !! g = None ->
  exists acts s', run acts s = Some (Ret s') /\ models s' (log_event m e) /\ calls s' = calls s.
Proof.
  intros I (Et & Er & Hv) Hg. pose proof I as [_ P _]. unfold log_event, log. fold (ev_key e).
  destruct (table s !! ev_key e) as [o|] eqn:Ek.
  - destruct (proj1 P _ _ Ek) as (c & Ho & _). exists [ACall g e; AGo g; AGo g]. cbn [run step]. rewrite Hg, Ek.
    cbn [set_calls calls]. rewrite lookup_insert_eq. cbn [set_calls calls]. rewrite lookup_insert_eq.
    eexists. split; [reflexivity|]. cbn [set_calls add_field calls]. split.
    2: { rewrite insert_insert_eq. by apply delete_insert_id. }
    assert (E1 : ms m !! ev_key e = Some c) by (rewrite <- Hv; unfold view; rewrite Ek; exact Ho).
    rewrite E1. split; [done|]. split; [done|]. intros k. unfold view. cbn [table heap set_calls add_field Counters.ms].
    rewrite (alter_at _ (heap s) o c Ho), (alter_at _ _ o (atomic_add FCnt (weight FCnt e) c)) by apply lookup_insert_eq.
    rewrite insert_insert_eq. rewrite (view_insert s (ev_key e) o c) by done.
    destruct (decide (k = ev_key e)) as [->|Hne]; [by rewrite lookup_insert_eq|]. by rewrite lookup_insert_ne, Hv.
  - exists [ACall g e; AGo g]. cbn [run step]. rewrite Hg, Ek. cbn [set_calls calls]. rewrite lookup_insert_eq.
    eexists. split; [reflexivity|]. cbn [set_calls store_new calls]. split; [|by apply delete_insert_id].
    assert (E1 : ms m !! ev_key e = None) by (rewrite <- Hv; unfold view; by rewrite Ek).
    rewrite E1. split; [done|]. split; [done|]. intros k. unfold view. cbn [table heap set_calls store_new Counters.ms].
    destruct (decide (k = ev_key e)) as [->|Hne]; [by rewrite !lookup_insert_eq; cbn; rewrite lookup_insert_eq|].
    rewrite !(lookup_insert_ne _ (ev_key e)) by done. rewrite <- Hv. unfold view.
    destruct (table s !! k) as [o'|] eqn:Hk'; [|done]. cbn. destruct (proj1 P _ _ Hk') as (m2 & H2 & _).
    rewrite lookup_insert_ne; [done|]. intros <-. revert H2.
    assert (Hf : heap s !! fresh (dom (heap s)) = None) by (apply not_elem_of_dom, is_fresh). by rewrite Hf.
Qed.

(** One key of the range. *)
Lemma visit_alone s must snap k o c :
  race_ok s -> ticker s = Ranges must snap None -> table s !! k = Some o -> heap s !! o = Some c -> snap !! k = None ->
  exists s', run [AVisit k; AReset; AReset; AReset] s = Some (Ret s') /\
    ticker s' = Ranges must (<[k := c]> snap) None /\ table s' = table s /\ ring_ s' = ring_ s /\ calls s' = calls s /\
    forall k', view s' k' = if decide (k' = k) then Some (msg_reset c) else view s k'.
Proof.
  intros I Et Hk Ho Hs. cbn [run step]. rewrite Et, Hk, Hs, Ho. cbn [set_ticker ticker heap]. rewrite Ho.
  cbn [set_ticker ticker heap]. rewrite Ho. cbn [set_ticker set_heap ticker heap]. rewrite lookup_insert_eq.
  eexists. split; [reflexivity|]. cbn [set_ticker set_heap ticker heap table ring_ calls].
  split; [by destruct c|]. split; [done|]. split; [done|]. split; [done|]. intros k'. unfold view at 1.
  cbn [set_ticker set_heap heap table]. rewrite insert_insert_eq. rewrite (view_insert s k o c) by done. by case_decide.
Qed.

Lemma run_app a b s : run (a ++ b) s = match run a s with Some (Ret s) => run b s | x => x end.
Proof. revert s. induction a as [|x a IH]; intros s; [done|]. cbn. destruct (step x s) as [[| |]|]; [apply IH|done..]. Qed.

Lemma range_alone ks s must snap :
  race_ok s -> ticker s = Ranges must snap None -> NoDup ks ->
  (forall k, k ∈ ks -> is_Some (table s !! k) /\ snap !! k = None) ->
  exists acts s' snap', run acts s = Some (Ret s') /\ race_ok s' /\
    ticker s' = Ranges must snap' None /\ ring_ s' = ring_ s /\ calls s' = calls s /\
    (forall k, snap' !! k = if decide (k ∈ ks) then view s k else snap !! k) /\
    (forall k, view s' k = if decide (k ∈ ks) then msg_reset <$> view s k else view s k).
Proof.
  revert s snap. induction ks as [|k ks IH]; intros s snap I Et Hn Hks.
  - exists [], s, snap. split_and!; try done.
  - apply NoDup_cons in Hn as [Hk Hn]. destruct (Hks k ltac:(by left)) as [[o Ho] Hsk].
    destruct (proj1 (ro_placed _ I) _ _ Ho) as (c & Hc & _).
    destruct (visit_alone s must snap k o c I Et Ho Hc Hsk) as (s1 & E1 & Et1 & Etab & Er1 & Ec1 & Hv1).
    destruct (run_ok _ _ _ I E1) as (s1' & [= <-] & I1).
    destruct (IH s1 (<[k := c]> snap) I1 Et1 Hn) as (acts & s2 & snap2 & E2 & I2 & Et2 & Er2 & Ec2 & Hs2 & Hv2).
    { intros k' Hk'. destruct (Hks k' ltac:(by right)) as [H1 H2]. rewrite Etab. split; [done|].
      rewrite lookup_insert_ne; [done|]. by intros ->. }
    assert (Hck : view s k = Some c) by (unfold view; rewrite Ho; exact Hc).
    exists ([AVisit k; AReset; AReset; AReset] ++ acts), s2, snap2. rewrite run_app, E1.
    split_and!; [done|done|done|congruence|congruence| |].
    + intros k'. rewrite Hs2, Hv1. destruct (decide (k' = k)) as [->|Hne].
      * rewrite decide_False by done. rewrite decide_True by by left. by rewrite lookup_insert_eq.
      * rewrite lookup_insert_ne by done. do 2 case_decide; try done; set_solver.
    + intros k'. rewrite Hv2, Hv1. destruct (decide (k' = k)) as [->|Hne].
      * rewrite decide_False by done. rewrite decide_True by by left. by rewrite Hck.
      * do 2 case_decide; try done; set_solver.
Qed.

Lemma tick_alone s m :
  race_ok s -> models s m ->
  exists acts s' m', run acts s = Some (Ret s') /\ tick m = Ret m' /\ models s' m' /\ calls s' = calls s.
Proof.
  intros I (Et & Er & Hv). pose proof (begin_tick_ok s I Et) as I0. set (s0 := set_ticker s _) in I0.
  destruct (range_alone (elements (dom (table s))) s0 (dom (table s)) ∅ I0) as (acts & s1 & snap & E & I1 & Et1 & Er1 & Ec1 & Hs & Hv1).
  { done. } { apply NoDup_elements. }
  { intros k Hk%elem_of_elements%elem_of_dom. by split. }
  assert (Hin : forall k, k ∈ elements (dom (table s)) <-> is_Some (view s k)).
  { intros k. rewrite elem_of_elements, elem_of_dom. unfold view. split.
    - intros [o Ho]. destruct (proj1 (ro_placed _ I) _ _ Ho) as (c & Hc & _). rewrite Ho. cbn. by exists c.
    - destruct (table s !! k); [by eexists|]. by intros [? ?]. }
  assert (Esnap : snap = ms m).
  { apply map_eq. intros k. rewrite Hs, <- Hv. case_decide as Hk; [done|].
    destruct (view s k) eqn:Ek; [|done]. destruct Hk. apply Hin. by eexists. }
  destruct (repr_add (ring_ s1) (pushed s1) snap (proj1 (ro_ring _ I1))) as (r' & Er' & _).
  exists (ATick :: acts ++ [APush]), (mkRace (heap s1) (table s1) r' (calls s1) Waits (added s1) (late s1) (pushed s1 ++ [snap])),
    (mkMonitor (msg_reset <$> ms m) r').
  split_and!; [| |split; [done|split; [done|]]|exact Ec1].
  - cbn [run step]. rewrite Et. rewrite run_app. fold s0. rewrite E. cbn [run step]. rewrite Et1.
    rewrite decide_True, Er'; [done|]. intros k Hk. apply elem_of_dom. rewrite Esnap, <- Hv. apply Hin.
    by apply elem_of_elements.
  - unfold tick. rewrite <- Er, <- Esnap. change (ring_ s0) with (ring_ s) in Er1. rewrite <- Er1.
    replace (msg_snapshot <$> snap) with snap by (symmetry; apply map_fmap_id). by rewrite Er'.
  - intros k. change (view s1 k = (msg_reset <$> ms m) !! k). rewrite Hv1, lookup_fmap, <- Hv.
    change (view s0 k) with (view s k). case_decide as Hk; [done|].
    destruct (view s k) eqn:Ek; [|done]. destruct Hk. apply Hin. by eexists.
Qed.

(** C30: what the monitor reports, whatever its goroutines do.  Let any number of
    goroutines record events under any keys while the ticks copy the counters, reset
    them and push their snapshots, all interleaved at each load, store, atomic addition
    and read.  Nothing fails, and the statistics merge the last sixty snapshots pushed.
    Between two ticks, for each key, the counts and the sums that were added are
    those in the snapshots, those in the key's counter, and two that are never
    reported: what was added to a counter after it was copied and before it was reset,
    and what is in counters that a second first event of the key replaced (as [int64],
    modulo 2 ^ 64).  If no addition falls there and no counter is replaced, nothing is
    lost. *)
Theorem monitor_accounts acts x :
  run acts start = Some x ->
  exists s, x = Ret s /\
    all (ring_ s) = Ret (map Some (last_n 60 (pushed s))) /\
    (forall order ms, range_order order -> exists res, stats order (mkMonitor ms (ring_ s)) = Ret res /\
       forall k, res !! k = avg <$> aggregate k (last_n 60 (pushed s))) /\
    (ticker s = Waits -> forall f k,
       wrap64 (added s f k) = wrap64 (reported f k (pushed s) + live f k s + (late s f k + replaced f k s))) /\
    (calm acts start = true -> forall f k, late s f k = 0 /\ replaced f k s = 0).
Proof.
  intros E. destruct (run_ok acts start x start_ok E) as (s & -> & I). pose proof I as [[R L] P A].
  exists s. split; [done|]. split; [rewrite <- L; by apply all_repr|]. split_and!.
  - intros order ms Ho. rewrite <- L. by apply (stats_aggregates order (mkMonitor ms (ring_ s))).
  - intros Et f k. apply agree_wrap64. specialize (A f k). rewrite (owed_split f k s I Et) in A.
    unfold taken in A. rewrite Et in A. destruct A as [q A]. exists q. lia.
  - intros Hc f k. destruct (calm_ok acts start s start_ok) as [Hl Hh]; [by split|done|done|].
    split; [done|]. apply hsum_zero. intros o m Ho. case_decide as Ek; [|done].
    assert (Hm : heap s !! o = Some m) by (destruct (table s !! k); [by apply lookup_delete_Some in Ho as [_ Ho]|done]).
    apply Hh in Hm. rewrite Ek in Hm. rewrite Hm in Ho. by rewrite lookup_delete_eq in Ho.
Qed.

(** Two goroutines record the first events of a key at once; a third event falls
    into a tick: of the three, one is reported. *)
Definition racing : list action :=
  let e := mkEvent "pool" "insert" 1 1 in
  [ACall 1 e; ACall 2 e; AGo 1; AGo 2; ACall 3 e; ATick; AVisit "pool-insert"; AReset; AGo 3; AGo 3; AReset; AReset; APush].

Lemma monitor_accounts_witness :
  exists s, run racing start = Some (Ret s) /\
    added s FCnt "pool-insert" = 3 /\ reported FCnt "pool-insert" (pushed s) = 1 /\
    late s FCnt "pool-insert" = 1 /\ replaced FCnt "pool-insert" s = 1 /\
    all (ring_ s) = Ret (map Some (last_n 60 (pushed s))).
Proof.
  assert (E : exists s, run racing start = Some (Ret s)) by (vm_compute; by eexists).
  destruct E as [s E]. destruct (monitor_accounts racing _ E) as (s' & [= <-] & Ha & _).
  exists s. split; [exact E|].
  assert (C : match run racing start with
    | Some (Ret s) => (added s FCnt "pool-insert", reported FCnt "pool-insert" (pushed s), late s FCnt "pool-insert",
        replaced FCnt "pool-insert" s) | _ => (0, 0, 0, 0) end = (3, 1, 1, 1)) by (vm_compute; reflexivity).
  rewrite E in C. injection C as -> -> -> ->. split_and!; try done.
Defined.
