(* ===== verification/HashCal.v ===== *)
(** * HashCal: the block hashes ([tools/hashcal.go])

    [crypto/sha256] and [encoding/hex] are Go's standard library: [Sha256] models
    them (FIPS 180-4 on lists of bytes), executable so that hashes of concrete
    blocks can be computed inside Rocq. *)
From S2P Require Import Prelude.
From S2P Require Import Common.

Module Sha256.
(** Bytes and 32-bit words are [Z] values in their range. *)
Definition word (z : Z) : Z := Z.land z 0xffffffff.
Definition add32 (a b : Z) : Z := word (a + b).
Definition rotr (n x : Z) : Z := Z.lor (Z.shiftr x n) (word (Z.shiftl x (32 - n))).
Definition not32 (x : Z) : Z := Z.lxor x 0xffffffff.

Definition ch x y z := Z.lxor (Z.land x y) (Z.land (not32 x) z).
Definition maj x y z := Z.lxor (Z.lxor (Z.land x y) (Z.land x z)) (Z.land y z).
Definition bsig0 x := Z.lxor (Z.lxor (rotr 2 x) (rotr 13 x)) (rotr 22 x).
Definition bsig1 x := Z.lxor (Z.lxor (rotr 6 x) (rotr 11 x)) (rotr 25 x).
Definition ssig0 x := Z.lxor (Z.lxor (rotr 7 x) (rotr 18 x)) (Z.shiftr x 3).
Definition ssig1 x := Z.lxor (Z.lxor (rotr 17 x) (rotr 19 x)) (Z.shiftr x 10).

(** The constants are the leading 32 bits of the fractional parts of the cube
    roots and square roots of the first primes. *)
Definition is_prime (n : Z) : bool :=
  forallb (fun d => negb (n `mod` Z.of_nat d =? 0)) (seq 2 (Z.to_nat n - 2)).
Definition primes_below (n : nat) : list Z :=
  filter (fun p => is_prime p = true) (Z.of_nat <$> seq 2 (n - 2)).

(** The integer cube root below [r + 2^n], one bit at a time. *)
Fixpoint cube_root (n : nat) (x r : Z) : Z :=
  match n with
  | O => r
  | S n => let r' := r + 2 ^ Z.of_nat n in cube_root n x (if r' ^ 3 <=? x then r' else r)
  end.

(** The first 64 primes are those below 312. *)
Definition K : list Z := Eval vm_compute in
  map (fun p => word (cube_root 36 (p * 2 ^ 96) 0)) (primes_below 312).

Record state := mkState { h0 : Z; h1 : Z; h2 : Z; h3 : Z; h4 : Z; h5 : Z; h6 : Z; h7 : Z }.

Definition init : state := Eval vm_compute in
  match map (fun p => word (Z.sqrt (p * 2 ^ 64))) (primes_below 20) with
  | [a; b; c; d; e; f; g; h] => mkState a b c d e f g h
  | _ => mkState 0 0 0 0 0 0 0 0
  end.

(** The message schedule: [ws] holds the last sixteen words, oldest first. *)
Fixpoint schedule (n : nat) (ws : list Z) : list Z :=
  match n with
  | O => []
  | S n =>
      let w i := nth i ws 0 in
      let w' := add32 (add32 (ssig1 (w 14%nat)) (w 9%nat)) (add32 (ssig0 (w 1%nat)) (w 0%nat)) in
      w 0%nat :: schedule n (tail ws ++ [w'])
  end.

Definition round (s : state) (kw : Z * Z) : state :=
  let '(k, w) := kw in
  let t1 := add32 (add32 (add32 (h7 s) (bsig1 (h4 s))) (add32 (ch (h4 s) (h5 s) (h6 s)) k)) w in
  let t2 := add32 (bsig0 (h0 s)) (maj (h0 s) (h1 s) (h2 s)) in
  mkState (add32 t1 t2) (h0 s) (h1 s) (h2 s) (add32 (h3 s) t1) (h4 s) (h5 s) (h6 s).

Definition compress (s : state) (block : list Z) : state :=
  let s' := foldl round s (zip K (schedule 64 block)) in
  mkState (add32 (h0 s) (h0 s')) (add32 (h1 s) (h1 s')) (add32 (h2 s) (h2 s'))
          (add32 (h3 s) (h3 s')) (add32 (h4 s) (h4 s')) (add32 (h5 s) (h5 s'))
          (add32 (h6 s) (h6 s')) (add32 (h7 s) (h7 s')).

(** Big-endian bytes of a [n]-byte number, and words of a byte string. *)
Fixpoint be_bytes (n : nat) (z : Z) : list Z :=
  match n with
  | O => []
  | S n => be_bytes n (Z.shiftr z 8) ++ [Z.land z 0xff]
  end.

Fixpoint be_words (bs : list Z) : list Z :=
  match bs with
  | a :: b :: c :: d :: bs =>
      (Z.shiftl a 24 + Z.shiftl b 16 + Z.shiftl c 8 + d) :: be_words bs
  | _ => []
  end.

Definition padding (len : nat) : list Z :=
  let zeros := Z.to_nat ((55 - Z.of_nat len) `mod` 64) in
  0x80 :: replicate zeros 0 ++ be_bytes 8 (8 * Z.of_nat len).

Fixpoint blocks (n : nat) (ws : list Z) : list (list Z) :=
  match n with
  | O => []
  | S n => take 16 ws :: blocks n (drop 16 ws)
  end.

Definition sum256 (bs : list Z) : list Z :=
  let padded := be_words (bs ++ padding (length bs)) in
  let s := foldl compress init (blocks (length padded / 16) padded) in
  concat (map (be_bytes 4) [h0 s; h1 s; h2 s; h3 s; h4 s; h5 s; h6 s; h7 s]).

(** [[]byte(s)] *)
Definition bytes_of_string (s : string) : list Z :=
  map (fun c => Z.of_nat (Ascii.nat_of_ascii c)) (String.list_ascii_of_string s).

(** [hex.EncodeToString] *)
Definition hex_digit (z : Z) : Ascii.ascii :=
  Ascii.ascii_of_nat (Z.to_nat (if decide (z < 10) then 48 + z else 87 + z)).

Fixpoint EncodeToString (bs : list Z) : string :=
  match bs with
  | [] => ""
  | b :: bs => String (hex_digit (Z.shiftr b 4)) (String (hex_digit (Z.land b 15)) (EncodeToString bs))
  end.
End Sha256.

Definition calculateHash (s : string) : string :=
  Sha256.EncodeToString (Sha256.sum256 (Sha256.bytes_of_string s)).

(** [Time.Unix]: whole seconds, rounded down. *)
Definition Unix (t : Z) : Z := t / 1000000000.

Definition blockStr {B} `{Block B} (block : B) : string :=
  Itoa (Unix (Timestamp block)) +:+ Signer block +:+ PreHash block +:+ Itoa (Height block).

(** What [CalculateAccountHash] hashes. *)
Definition accountRecord (block : AccountStateBlock) : string :=
  blockStr block +:+ Itoa (Amount block) +:+ Itoa (ModifiedAmount block) +:+
  Itoa (a_SnapshotHeight block) +:+ a_SnapshotHash block +:+
  BlockType_String (a_BlockType block) +:+ From block +:+ To block +:+
  SourceHash block +:+ Itoa (SourceHeight block).

Definition CalculateAccountHash (block : AccountStateBlock) : string :=
  calculateHash (accountRecord block).

Definition CalculateSnapshotHash (block : SnapshotBlock) : string :=
  let accStr := foldl (fun accStr account =>
    accStr +:+ Itoa (ah_Height account) +:+ ah_Hash account +:+ ah_Addr account)
    "" (Accounts block) in
  let record := blockStr block +:+ accStr in
  calculateHash record.

(** ** Properties *)

(** FIPS 180-4 test vectors. *)
Example sha256_empty :
  calculateHash "" = "e3b0c44298fc1c149afbf4c8996fb92427ae41e4649b934ca495991b7852b855".
Proof. vm_compute. reflexivity. Qed.
Example sha256_abc :
  calculateHash "abc" = "ba7816bf8f01cfea414140de5dae2223b00361a396177a9cb410ff61f20015ad".
Proof. vm_compute. reflexivity. Qed.
Example sha256_two_blocks :
  calculateHash "abcdbcdecdefdefgefghfghighijhijkijkljklmklmnlmnomnopnopq" =
  "248d6a61d20638b8e5c026930c3e6039a33ce45964ff2167f6ecedd419db06c1".
Proof. vm_compute. reflexivity. Qed.

Lemma length_be_bytes n z : length (Sha256.be_bytes n z) = n.
Proof. revert z. induction n as [|n IH]; intros z; cbn; [done|]. rewrite length_app, IH; cbn. lia. Qed.

Lemma length_EncodeToString bs : String.length (Sha256.EncodeToString bs) = (2 * length bs)%nat.
Proof. induction bs as [|b bs IH]; cbn; [done|]. rewrite IH. lia. Qed.

Lemma length_sum256 bs : length (Sha256.sum256 bs) = 32%nat.
Proof.
  unfold Sha256.sum256. cbn [map concat]. rewrite !length_app, !length_be_bytes. done.
Qed.

(** Every hash has 64 hexadecimal digits; in particular none is empty. *)
Lemma calculateHash_length s : String.length (calculateHash s) = 64%nat.
Proof. unfold calculateHash. by rewrite length_EncodeToString, length_sum256. Qed.

(** The hash does not depend on the hash field it is stored in: computing it and
    then calling [SetHash] leaves a block whose hash field is its hash. *)
Lemma CalculateAccountHash_SetHash b h :
  CalculateAccountHash (a_SetHash b h) = CalculateAccountHash b.
Proof. done. Qed.
Lemma CalculateSnapshotHash_SetHash b h :
  CalculateSnapshotHash (s_SetHash b h) = CalculateSnapshotHash b.
Proof. done. Qed.

(** Replacing the two amounts of a block. *)
Definition with_amounts (b : AccountStateBlock) (amount modifiedAmount : Z) : AccountStateBlock :=
  {| a_Tblock := a_Tblock b; Amount := amount; ModifiedAmount := modifiedAmount;
     a_SnapshotHeight := a_SnapshotHeight b; a_SnapshotHash := a_SnapshotHash b;
     a_BlockType := a_BlockType b; From := From b; To := To b;
     SourceHash := SourceHash b; SourceHeight := SourceHeight b |}.

(** The account hash does not bind the amounts.  The hashed record
    concatenates the decimal fields without separators, so every block has the
    same hash with amount 11, modified amount 1 as with amount 1, modified amount
    11: two different balances under one hash, for any hash function. *)
Theorem account_hash_ambiguous b :
  with_amounts b 11 1 <> with_amounts b 1 11 /\
  CalculateAccountHash (with_amounts b 11 1) = CalculateAccountHash (with_amounts b 1 11).
Proof. split; [intros [=]|]. reflexivity. Qed.

(** Hashes are computed by [vm_compute] only. *)
#[global] Opaque calculateHash.
