(* ===== verification/Links.v ===== *)
(** * Links: sequences of hash-linked blocks

    What a block chain promises, whichever component holds it: consecutive
    heights, and every block naming the hash of the one before it.  [linked th h
    bs] says that [bs] continues a chain whose last block has hash [th] and
    height [h]; [tip th h bs] is the hash and height it then ends with. *)
From S2P Require Import Prelude.
From S2P Require Import Common.

Section links.
Context {B : Type} `{Block B}.

Fixpoint linked (th : string) (h : Z) (bs : list B) : Prop :=
  match bs with
  | [] => True
  | b :: bs => PreHash b = th /\ Height b = h + 1 /\ linked (Hash b) (h + 1) bs
  end.

Fixpoint tip (th : string) (h : Z) (bs : list B) : string * Z :=
  match bs with
  | [] => (th, h)
  | b :: bs => tip (Hash b) (h + 1) bs
  end.

Lemma tip_app th h bs1 bs2 :
  tip th h (bs1 ++ bs2) = tip (tip th h bs1).1 (tip th h bs1).2 bs2.
Proof. revert th h. induction bs1 as [|b bs1 IH]; intros th h; cbn; [done|]. by rewrite IH. Qed.

Lemma linked_app th h bs1 bs2 :
  linked th h (bs1 ++ bs2) <->
  linked th h bs1 /\ linked (tip th h bs1).1 (tip th h bs1).2 bs2.
Proof.
  revert th h. induction bs1 as [|b bs1 IH]; intros th h; cbn; [tauto|]. rewrite IH. tauto.
Qed.

Lemma tip_height th h bs : (tip th h bs).2 = h + Z.of_nat (length bs).
Proof. revert th h. induction bs as [|b bs IH]; intros th h; cbn [tip length snd]; [lia|]. rewrite IH. lia. Qed.

Lemma tip_snoc th h bs b : tip th h (bs ++ [b]) = (Hash b, h + Z.of_nat (length bs) + 1).
Proof. rewrite tip_app. cbn. by rewrite tip_height. Qed.

Lemma tip_last th h bs :
  (tip th h bs).1 = match last bs with Some b => Hash b | None => th end.
Proof.
  destruct bs as [|b bs _] using rev_ind; [done|]. by rewrite tip_snoc, last_snoc.
Qed.

Lemma linked_lookup th h bs i b :
  linked th h bs -> bs !! i = Some b -> Height b = h + 1 + Z.of_nat i.
Proof.
  revert th h i. induction bs as [|b0 bs IH]; intros th h i Hl Hi; [done|].
  destruct Hl as (_ & Hh & Hl). destruct i as [|i]; cbn in Hi.
  - injection Hi as <-. lia.
  - rewrite (IH _ _ _ Hl Hi). lia.
Qed.

(** The previous block of the block at index [i + 1] is the one at index [i]. *)
Lemma linked_prev th h bs i b b' :
  linked th h bs -> bs !! i = Some b -> bs !! S i = Some b' -> PreHash b' = Hash b.
Proof.
  revert th h i. induction bs as [|b0 bs IH]; intros th h i Hl Hi Hi'; [done|].
  destruct Hl as (_ & _ & Hl). destruct i as [|i]; cbn in Hi, Hi'.
  - injection Hi as <-. destruct bs as [|b1 bs]; [done|]. injection Hi' as <-. apply Hl.
  - eauto.
Qed.

Lemma linked_height_inj th h bs b b' :
  linked th h bs -> b ∈ bs -> b' ∈ bs -> Height b = Height b' -> b = b'.
Proof.
  intros Hl [i Hi]%list_elem_of_lookup [j Hj]%list_elem_of_lookup E.
  rewrite (linked_lookup _ _ _ _ _ Hl Hi), (linked_lookup _ _ _ _ _ Hl Hj) in E.
  assert (i = j) as -> by lia. by simplify_eq.
Qed.

Lemma linked_snoc th h bs b :
  linked th h (bs ++ [b]) <->
  linked th h bs /\ PreHash b = (tip th h bs).1 /\ Height b = h + Z.of_nat (length bs) + 1.
Proof. rewrite linked_app; cbn. rewrite tip_height. tauto. Qed.
End links.
Create Rewrite HintDb links.
#[export] Hint Rewrite @tip_app @tip_snoc @linked_app @linked_snoc @tip_height : links.
