(* ===== verification/Store.v ===== *)
(** * Store: the in-memory block store ([store/block_store.go])

    Each [sync.Map] is a [gmap]; its operations are atomic, so a store value is
    the state between two of them.  The two mutexes [sMu], [aMu] are never used. *)
From Stdlib Require Import Ascii.
From S2P Require Import Prelude.
From S2P Require Import Common.
From S2P Require Import HashCal.

Record blockMemoryStore := mkStore {
  snapshotHeight : gmap Z SnapshotBlock;
  snapshotHash : gmap string SnapshotBlock;
  accountHeight : gmap string AccountStateBlock;
  accountHash : gmap string AccountStateBlock;
  sourceHash : gmap string AccountStateBlock;   (* source hash -> received block *)
  head : gmap string HashHeight
}.

Definition emptyStore : blockMemoryStore := mkStore ∅ ∅ ∅ ∅ ∅ ∅.

Definition snapshotHeadKey : string := "s_head_key".

Definition genKey (address : string) (height : Z) : string :=
  address +:+ "_" +:+ Itoa height.

Definition GetSnapshotHead (self : blockMemoryStore) : option HashHeight :=
  head self !! snapshotHeadKey.

Definition GetAccountHead (self : blockMemoryStore) (address : string) : option HashHeight :=
  head self !! address.

Definition set_head (self : blockMemoryStore) (h : gmap string HashHeight) : blockMemoryStore :=
  mkStore (snapshotHeight self) (snapshotHash self) (accountHeight self) (accountHash self)
    (sourceHash self) h.

Definition SetSnapshotHead (self : blockMemoryStore) (hashH : option HashHeight) : blockMemoryStore :=
  match hashH with
  | None => set_head self (delete snapshotHeadKey (head self))
  | Some hashH => set_head self (<[snapshotHeadKey := hashH]> (head self))
  end.

Definition SetAccountHead (self : blockMemoryStore) (address : string) (hashH : option HashHeight)
    : blockMemoryStore :=
  match hashH with
  | None => set_head self (delete address (head self))
  | Some hashH => set_head self (<[address := hashH]> (head self))
  end.

Definition DeleteSnapshot (self : blockMemoryStore) (hashH : HashHeight) : blockMemoryStore :=
  mkStore (delete (hh_Height hashH) (snapshotHeight self))
    (delete (hh_Hash hashH) (snapshotHash self))
    (accountHeight self) (accountHash self) (sourceHash self) (head self).

Definition DeleteAccount (self : blockMemoryStore) (address : string) (hashH : HashHeight)
    : blockMemoryStore :=
  mkStore (snapshotHeight self) (snapshotHash self)
    (delete (genKey address (hh_Height hashH)) (accountHeight self))
    (delete (hh_Hash hashH) (accountHash self)) (sourceHash self) (head self).

Definition PutSnapshot (self : blockMemoryStore) (block : SnapshotBlock) : blockMemoryStore :=
  mkStore (<[Height block := block]> (snapshotHeight self))
    (<[Hash block := block]> (snapshotHash self))
    (accountHeight self) (accountHash self) (sourceHash self) (head self).

Definition PutAccount (self : blockMemoryStore) (address : string) (block : AccountStateBlock)
    : blockMemoryStore :=
  mkStore (snapshotHeight self) (snapshotHash self)
    (<[genKey address (Height block) := block]> (accountHeight self))
    (<[Hash block := block]> (accountHash self)) (sourceHash self) (head self).

Definition GetSnapshotByHash (self : blockMemoryStore) (hash : string) : option SnapshotBlock :=
  snapshotHash self !! hash.
Definition GetSnapshotByHeight (self : blockMemoryStore) (height : Z) : option SnapshotBlock :=
  snapshotHeight self !! height.
Definition GetAccountByHash (self : blockMemoryStore) (hash : string) : option AccountStateBlock :=
  accountHash self !! hash.
Definition GetAccountBySourceHash (self : blockMemoryStore) (hash : string)
    : option AccountStateBlock :=
  sourceHash self !! hash.
Definition GetAccountByHeight (self : blockMemoryStore) (address : string) (height : Z)
    : option AccountStateBlock :=
  accountHeight self !! genKey address height.

Definition set_sourceHash (self : blockMemoryStore) (m : gmap string AccountStateBlock)
    : blockMemoryStore :=
  mkStore (snapshotHeight self) (snapshotHash self) (accountHeight self) (accountHash self)
    m (head self).
Definition PutSourceHash (self : blockMemoryStore) (hash : string) (block : AccountStateBlock)
    : blockMemoryStore :=
  set_sourceHash self (<[hash := block]> (sourceHash self)).
Definition DeleteSourceHash (self : blockMemoryStore) (hash : string) : blockMemoryStore :=
  set_sourceHash self (delete hash (sourceHash self)).

Definition genesisAccounts : list string := ["viteshan"; "jie"].

(** The body of [NewMemoryStore]'s loop: the genesis block of account [a]. *)
Definition genesisAccountBlock (a : string) : AccountStateBlock :=
  let genesis := NewAccountBlock 0 "" "" a 0 200 0 0 "" GENESIS a a "" (-1) in
  a_SetHash genesis (CalculateAccountHash genesis).

Definition NewMemoryStore (snapshotGenesis : SnapshotBlock) : blockMemoryStore :=
  foldl (fun self a =>
    let genesis := genesisAccountBlock a in
    let self := PutAccount self a genesis in
    SetAccountHead self a (Some (mkHashHeight (Hash genesis) (Height genesis))))
    emptyStore genesisAccounts.

(** ** The height keys are unambiguous *)

Definition has_underscore (s : string) : Prop :=
  exists s1 s2, s = s1 +:+ "_" +:+ s2.

Lemma string_app_nil_r (s : string) : s +:+ "" = s.
Proof. induction s as [|c s IH]; [done|]. exact (f_equal (String c) IH). Qed.

Lemma string_app_assoc (s1 s2 s3 : string) : (s1 +:+ s2) +:+ s3 = s1 +:+ s2 +:+ s3.
Proof. induction s1 as [|c s IH]; [done|]. exact (f_equal (String c) IH). Qed.

Lemma pretty_N_char_underscore n : pretty_N_char n <> "_"%char.
Proof. unfold pretty_N_char. by repeat case_match. Qed.

Lemma has_underscore_cons c s : has_underscore (String c s) <-> c = "_"%char \/ has_underscore s.
Proof.
  split.
  - intros (s1 & s2 & E). destruct s1 as [|c' s1]; cbn in E; injection E as -> ->; [by left|].
    right. by exists s1, s2.
  - intros [->|(s1 & s2 & ->)]; [by exists "", s | by exists (String c s1), s2].
Qed.

Lemma pretty_N_go_underscore n s : ~ has_underscore s -> ~ has_underscore (pretty_N_go n s).
Proof.
  revert s. induction (N.lt_wf_0 n) as [n _ IH]; intros s Hs.
  destruct (decide (n = 0)%N) as [->|Hn]; [by rewrite pretty_N_go_0|].
  rewrite pretty_N_go_step by lia. apply IH; [apply N.div_lt; lia|].
  rewrite has_underscore_cons. intros [H|H]; [|done]. by apply pretty_N_char_underscore in H.
Qed.

Lemma Itoa_underscore z : ~ has_underscore (Itoa z).
Proof.
  assert (Hnil : ~ has_underscore "") by (intros ([|??] & ? & [=])).
  assert (HN : forall n, ~ has_underscore (pretty (A := N) n)).
  { intros n. unfold pretty, pretty_N. case_decide; [|by apply pretty_N_go_underscore].
    rewrite has_underscore_cons. intros [[=]|?]; done. }
  unfold Itoa. destruct z as [|p|p]; unfold pretty, pretty_Z.
  - rewrite has_underscore_cons. intros [[=]|?]; done.
  - apply HN.
  - change (~ has_underscore (String "-" (pretty p))).
    rewrite has_underscore_cons. intros [[=]|?]; by eapply HN.
Qed.

(** The part after the last underscore determines the split. *)
Lemma underscore_split_inj a1 a2 t1 t2 :
  ~ has_underscore t1 -> ~ has_underscore t2 ->
  a1 +:+ "_" +:+ t1 = a2 +:+ "_" +:+ t2 -> a1 = a2 /\ t1 = t2.
Proof.
  intros H1 H2. revert a2. induction a1 as [|c1 a1 IH]; intros [|c2 a2] E; cbn in E.
  - injection E as E. done.
  - injection E as _ E. destruct H1. by exists a2, t2.
  - injection E as _ E. destruct H2. by exists a1, t1.
  - injection E as -> E. by destruct (IH a2 E) as [-> ->].
Qed.

Lemma genKey_inj a1 h1 a2 h2 : genKey a1 h1 = genKey a2 h2 -> a1 = a2 /\ h1 = h2.
Proof.
  intros E. apply underscore_split_inj in E as [-> E]; [|apply Itoa_underscore..].
  split; [done|]. by apply (inj pretty).
Qed.

Lemma genKey_ne a1 h1 a2 h2 : (a1, h1) <> (a2, h2) -> genKey a1 h1 <> genKey a2 h2.
Proof. intros Hne [-> ->]%genKey_inj. done. Qed.

(** ** Lookups after an update, as rewriting rules *)

Lemma GetAccountByHeight_Put st a b a' h :
  GetAccountByHeight (PutAccount st a b) a' h =
  if decide ((a, Height b) = (a', h)) then Some b else GetAccountByHeight st a' h.
Proof.
  unfold GetAccountByHeight, PutAccount; cbn [accountHeight]. case_decide as E.
  - simplify_eq. apply lookup_insert_eq.
  - by rewrite lookup_insert_ne by by apply genKey_ne.
Qed.

Lemma GetAccountByHash_Put st a b h :
  GetAccountByHash (PutAccount st a b) h =
  if decide (Hash b = h) then Some b else GetAccountByHash st h.
Proof. unfold GetAccountByHash, PutAccount; cbn [accountHash]. apply lookup_insert. Qed.

Lemma GetAccountByHeight_Delete st a hh a' h :
  GetAccountByHeight (DeleteAccount st a hh) a' h =
  if decide ((a, hh_Height hh) = (a', h)) then None else GetAccountByHeight st a' h.
Proof.
  unfold GetAccountByHeight, DeleteAccount; cbn [accountHeight]. case_decide as E.
  - simplify_eq. apply lookup_delete_eq.
  - by rewrite lookup_delete_ne by by apply genKey_ne.
Qed.

Lemma GetAccountByHash_Delete st a hh h :
  GetAccountByHash (DeleteAccount st a hh) h =
  if decide (hh_Hash hh = h) then None else GetAccountByHash st h.
Proof. unfold GetAccountByHash, DeleteAccount; cbn [accountHash]. apply lookup_delete. Qed.

Lemma GetAccountHead_Set st a o a' :
  GetAccountHead (SetAccountHead st a o) a' = if decide (a = a') then o else GetAccountHead st a'.
Proof.
  unfold GetAccountHead, SetAccountHead, set_head. destruct o; cbn [head];
    [apply lookup_insert | apply lookup_delete].
Qed.

Lemma GetSnapshotByHash_Put st b h :
  GetSnapshotByHash (PutSnapshot st b) h =
  if decide (Hash b = h) then Some b else GetSnapshotByHash st h.
Proof. apply lookup_insert. Qed.

Lemma GetSnapshotByHeight_Put st b h :
  GetSnapshotByHeight (PutSnapshot st b) h =
  if decide (Height b = h) then Some b else GetSnapshotByHeight st h.
Proof. apply lookup_insert. Qed.

Lemma GetSnapshotByHash_Delete st hh h :
  GetSnapshotByHash (DeleteSnapshot st hh) h =
  if decide (hh_Hash hh = h) then None else GetSnapshotByHash st h.
Proof. apply lookup_delete. Qed.

Lemma GetSnapshotByHeight_Delete st hh h :
  GetSnapshotByHeight (DeleteSnapshot st hh) h =
  if decide (hh_Height hh = h) then None else GetSnapshotByHeight st h.
Proof. apply lookup_delete. Qed.

Lemma GetSnapshotHead_Set st o : GetSnapshotHead (SetSnapshotHead st o) = o.
Proof. destruct o; [apply lookup_insert_eq | apply lookup_delete_eq]. Qed.

Lemma GetSnapshotHead_SetAccountHead st a o :
  GetSnapshotHead (SetAccountHead st a o) =
  if decide (a = snapshotHeadKey) then o else GetSnapshotHead st.
Proof.
  unfold GetSnapshotHead, SetAccountHead, set_head. destruct o; cbn [head];
    [apply lookup_insert | apply lookup_delete].
Qed.

Lemma GetAccountHead_SetSnapshotHead st a o :
  GetAccountHead (SetSnapshotHead st o) a =
  if decide (snapshotHeadKey = a) then o else GetAccountHead st a.
Proof.
  unfold GetAccountHead, SetSnapshotHead, set_head. destruct o; cbn [head];
    [apply lookup_insert | apply lookup_delete].
Qed.

(** Updates of one map leave the lookups in the others alone. *)
Lemma SetAccountHead_frame st a o :
  let st' := SetAccountHead st a o in
  snapshotHeight st' = snapshotHeight st /\ snapshotHash st' = snapshotHash st /\
  accountHeight st' = accountHeight st /\ accountHash st' = accountHash st /\
  sourceHash st' = sourceHash st.
Proof. by destruct o. Qed.
Lemma SetSnapshotHead_frame st o :
  let st' := SetSnapshotHead st o in
  snapshotHeight st' = snapshotHeight st /\ snapshotHash st' = snapshotHash st /\
  accountHeight st' = accountHeight st /\ accountHash st' = accountHash st /\
  sourceHash st' = sourceHash st.
Proof. by destruct o. Qed.

(** ** Properties *)

(** C26: storing an account block is a round trip.  After [PutAccount a b] the
    block is found by its hash and by its address and height, no other hash and no
    other address or height is touched (the string keys ["addr_height"] never
    collide, even for addresses that contain underscores), and deleting its hash and
    height removes exactly that entry again, from both maps; neither touches heads,
    the source index or the snapshot blocks. *)
Theorem account_block_roundtrip st a b :
  let st' := PutAccount st a b in
  let st'' := DeleteAccount st' a (mkHashHeight (Hash b) (Height b)) in
  (forall x, GetAccountByHash st' x = if decide (x = Hash b) then Some b else GetAccountByHash st x) /\
  (forall a' h, GetAccountByHeight st' a' h =
     if decide ((a', h) = (a, Height b)) then Some b else GetAccountByHeight st a' h) /\
  (forall x, GetAccountByHash st'' x = if decide (x = Hash b) then None else GetAccountByHash st x) /\
  (forall a' h, GetAccountByHeight st'' a' h =
     if decide ((a', h) = (a, Height b)) then None else GetAccountByHeight st a' h) /\
  Forall (fun s =>
    (forall a', GetAccountHead s a' = GetAccountHead st a') /\ GetSnapshotHead s = GetSnapshotHead st /\
    (forall x, GetAccountBySourceHash s x = GetAccountBySourceHash st x) /\
    (forall x, GetSnapshotByHash s x = GetSnapshotByHash st x) /\
    (forall h, GetSnapshotByHeight s h = GetSnapshotByHeight st h)) [st'; st''].
Proof.
  cbn zeta. split_and!.
  - intros x. rewrite GetAccountByHash_Put. repeat case_decide; congruence.
  - intros a' h. rewrite GetAccountByHeight_Put. repeat case_decide; congruence.
  - intros x. rewrite GetAccountByHash_Delete, GetAccountByHash_Put. cbn [hh_Hash]. repeat case_decide; congruence.
  - intros a' h. rewrite GetAccountByHeight_Delete, GetAccountByHeight_Put. cbn [hh_Height].
    repeat case_decide; congruence.
  - by repeat constructor.
Qed.

(** Account heads and the snapshot head share one map.  Setting the head of
    an account changes the snapshot head exactly when the account's address is
    the reserved string ["s_head_key"]: such an account overwrites the head of
    the snapshot chain, and its own head is then the snapshot's. *)
Theorem head_key_collision st a hh :
  GetSnapshotHead (SetAccountHead st a (Some hh)) =
    (if decide (a = "s_head_key") then Some hh else GetSnapshotHead st) /\
  forall o, GetAccountHead (SetSnapshotHead st o) "s_head_key" = o.
Proof.
  split; [apply GetSnapshotHead_SetAccountHead|].
  intros o. rewrite GetAccountHead_SetSnapshotHead. by case_decide.
Qed.

Lemma NewMemoryStore_account g a h :
  GetAccountByHeight (NewMemoryStore g) a h =
  if decide (h = 0 /\ a ∈ genesisAccounts) then Some (genesisAccountBlock a) else None.
Proof.
  unfold NewMemoryStore, genesisAccounts. cbn [foldl].
  set (b1 := genesisAccountBlock "viteshan"). set (b2 := genesisAccountBlock "jie").
  assert (F : forall st a o a' h', GetAccountByHeight (SetAccountHead st a o) a' h' =
                GetAccountByHeight st a' h') by (intros ?? [] ??; done).
  rewrite F, GetAccountByHeight_Put, F, GetAccountByHeight_Put.
  change (Height b1) with 0. change (Height b2) with 0.
  destruct (decide (h = 0 /\ a ∈ ["viteshan"; "jie"])) as [[-> Ha]|Hn].
  - rewrite !elem_of_cons in Ha. destruct Ha as [->|[->|Ha]]; [done|done|].
    by apply elem_of_nil in Ha.
  - case_decide; simplify_eq; [destruct Hn; set_solver|].
    case_decide; simplify_eq; [destruct Hn; set_solver|].
    unfold GetAccountByHeight. apply lookup_empty.
Qed.

Lemma NewMemoryStore_snapshot g :
  GetSnapshotHead (NewMemoryStore g) = None /\
  (forall h, GetSnapshotByHeight (NewMemoryStore g) h = None) /\
  (forall x, GetSnapshotByHash (NewMemoryStore g) x = None).
Proof.
  unfold NewMemoryStore, genesisAccounts. cbn [foldl].
  split; [|split; intros; apply lookup_empty].
  assert (F : forall st a b, GetSnapshotHead (PutAccount st a b) = GetSnapshotHead st) by done.
  do 2 (rewrite GetSnapshotHead_SetAccountHead, F, decide_False by discriminate).
  apply lookup_empty.
Qed.
