(* ===== verification/Chain.v ===== *)
(** * Chain: the ledger's block chains ([chain/])

    [SnapshotChain] models [chain/snapshot_chain.go], [AccountChain]
    [chain/account_chain.go] and [Blockchain] [chain/chain.go].  The store is
    shared by all chains and threaded through; the pointers a chain keeps
    ([head]) are optional blocks.

    The stack of snapshot points is the package
    [github.com/golang-collections/collections/stack], which is not part of the
    repository: it is the parameter [Stack], with its documented last-in
    first-out behaviour as [StackLaws].  The listener ([face.ChainListener]) is
    implemented by the ledger's request pool: it is the interface
    [ChainListener]. *)
From S2P Require Import Prelude.
From S2P Require Import Common.
From S2P Require Import HashCal.
From S2P Require Import Store.

(** ** The third-party stack, holding snapshot points *)
Class Stack (St : Type) := {
  stack_New : St;
  stack_Peek : St -> option SnapshotPoint;
  stack_Push : St -> SnapshotPoint -> St;
  stack_Pop : St -> St
}.

(** Last in, first out: a stack behaves as the list of its items, top first. *)
Class StackLaws (St : Type) `{Stack St} := {
  stack_list : St -> list SnapshotPoint;
  stack_list_New : stack_list stack_New = [];
  stack_list_Peek s : stack_Peek s = hd_error (stack_list s);
  stack_list_Push s p : stack_list (stack_Push s p) = p :: stack_list s;
  stack_list_Pop s : stack_list (stack_Pop s) = tail (stack_list s)
}.

(** Lists are such a stack. *)
#[export] Instance list_Stack : Stack (list SnapshotPoint) := {|
  stack_New := [];
  stack_Peek := @hd_error SnapshotPoint;
  stack_Push s p := p :: s;
  stack_Pop := @tail SnapshotPoint
|}.
#[export] Instance list_StackLaws : StackLaws (list SnapshotPoint) := {|
  stack_list s := s;
  stack_list_New := eq_refl;
  stack_list_Peek s := eq_refl;
  stack_list_Push s p := eq_refl;
  stack_list_Pop s := eq_refl
|}.

(** ** The listener of account insertions and removals.  [SnapshotInsertCallback]
    and [SnapshotRemoveCallback] are never called. *)
Class ChainListener (L : Type) := {
  AccountInsertCallback : L -> string -> AccountStateBlock -> outcome L;
  AccountRemoveCallback : L -> string -> AccountStateBlock -> outcome L
}.

(** The listener a chain was created with: the default one, which does nothing,
    or the one registered by [SetChainListener]. *)
Inductive listenerRef := DefaultChainListener | RegisteredListener.

Definition notify_insert {L} `{ChainListener L} (r : listenerRef) (l : L) (address : string)
    (block : AccountStateBlock) : outcome L :=
  match r with
  | DefaultChainListener => Ret l
  | RegisteredListener => AccountInsertCallback l address block
  end.
Definition notify_remove {L} `{ChainListener L} (r : listenerRef) (l : L) (address : string)
    (block : AccountStateBlock) : outcome L :=
  match r with
  | DefaultChainListener => Ret l
  | RegisteredListener => AccountRemoveCallback l address block
  end.

(** ** The snapshot chain *)
Module SnapshotChain.
Record snapshotChain := mk { head : option SnapshotBlock }.

Definition genesisAccounts : list AccountHashH := [
  mkAccountHashH "71cef9aa8a67df1055a0801e2fc251fe14a298b8fc1098a54e27db31f7a75e20" 0 "viteshan";
  mkAccountHashH "c3e7ab31e4834cf18df6705b96c655c845db44f4ee315c6fba5232b4f965fcf0" 0 "jie"].

Definition genesisSnapshot : SnapshotBlock :=
  NewSnapshotBlock 0 "b5a3ee58d163c283e5c8c0f65ff5b26a5cd64cb9dce8119ac4581ebcb54626fd" ""
    "viteshan" (1533550878 * 1000000000) genesisAccounts.

Definition GetGenesisSnapshot : SnapshotBlock := genesisSnapshot.

Definition newSnapshotChain (store : blockMemoryStore) : outcome (blockMemoryStore * snapshotChain) :=
  match GetSnapshotHead store with
  | Some head =>
      storeGenesis ← deref (GetSnapshotByHeight store (Height genesisSnapshot)) "nil dereference";
      if decide (Hash storeGenesis = Hash genesisSnapshot)
      then Ret (store, {| head := GetSnapshotByHeight store (hh_Height head) |})
      else Panic ("error store snapshot hash. code:" +:+ Hash genesisSnapshot +:+ ", store:" +:+
                  Hash storeGenesis)
  | None =>
      let store := PutSnapshot store genesisSnapshot in
      let store := SetSnapshotHead store
        (Some (mkHashHeight (Hash genesisSnapshot) (Height genesisSnapshot))) in
      Ret (store, {| head := Some genesisSnapshot |})
  end.

Definition Head (self : snapshotChain) : option SnapshotBlock := head self.

Definition GetBlockHeight (store : blockMemoryStore) (height : Z) : outcome (option SnapshotBlock) :=
  if decide (height < 0) then Panic ("height:" +:+ Itoa height)
  else Ret (GetSnapshotByHeight store height).

Definition GetBlockByHashH (store : blockMemoryStore) (hashH : HashHeight) : option SnapshotBlock :=
  if decide (hh_Height hashH < 0) then None
  else match GetSnapshotByHeight store (hh_Height hashH) with
       | Some block => if decide (hh_Hash hashH = Hash block) then Some block else None
       | None => None
       end.

Definition getBlockByHash (store : blockMemoryStore) (hash : string) : option SnapshotBlock :=
  GetSnapshotByHash store hash.

Definition insertChain (store : blockMemoryStore) (self : snapshotChain) (block : SnapshotBlock)
    : blockMemoryStore * snapshotChain * error :=
  let store := PutSnapshot store block in
  let self := {| head := Some block |} in
  let store := SetSnapshotHead store (Some (mkHashHeight (Hash block) (Height block))) in
  (store, self, None).

Definition removeChain (store : blockMemoryStore) (self : snapshotChain) (block : SnapshotBlock)
    : blockMemoryStore * snapshotChain * error :=
  let head := GetSnapshotByHash store (PreHash block) in
  let store := DeleteSnapshot store (mkHashHeight (Hash block) (Height block)) in
  let self := {| head := head |} in
  match head with
  | None => (SetSnapshotHead store None, self, None)
  | Some head =>
      (SetSnapshotHead store (Some (mkHashHeight (Hash head) (Height head))), self, None)
  end.
End SnapshotChain.

(** ** Account chains *)
Module AccountChain.
Section account_chain.
Context {St : Type} `{Stack St} {L : Type} `{ChainListener L}.

Record accountChain := mk {
  address : string;
  head : option AccountStateBlock;
  listener : listenerRef;
  snapshotPoint : St
}.

Definition set_head (self : accountChain) (h : option AccountStateBlock) : accountChain :=
  {| address := address self; head := h; listener := listener self;
     snapshotPoint := snapshotPoint self |}.
Definition set_snapshotPoint (self : accountChain) (s : St) : accountChain :=
  {| address := address self; head := head self; listener := listener self; snapshotPoint := s |}.

Definition newAccountChain (address : string) (listener : listenerRef) (store : blockMemoryStore)
    : accountChain :=
  {| address := address;
     head := match GetAccountHead store address with
             | Some head => GetAccountByHeight store address (hh_Height head)
             | None => None
             end;
     listener := listener;
     snapshotPoint := stack_New |}.

Definition Head (self : accountChain) : option AccountStateBlock := head self.

Definition GetBlockByHeight (store : blockMemoryStore) (self : accountChain) (height : Z)
    : option AccountStateBlock :=
  if decide (height < 0) then None else GetAccountByHeight store (address self) height.

Definition GetBlockByHashH (store : blockMemoryStore) (self : accountChain) (hashH : HashHeight)
    : option AccountStateBlock :=
  if decide (hh_Height hashH < 0) then None
  else match GetAccountByHeight store (address self) (hh_Height hashH) with
       | Some block => if decide (Hash block = hh_Hash hashH) then Some block else None
       | None => None
       end.

Definition GetBlockByHash (store : blockMemoryStore) (hash : string) : option AccountStateBlock :=
  GetAccountByHash store hash.

(** [insertChain] never returns an error. *)
Definition insertChain (store : blockMemoryStore) (self : accountChain) (l : L)
    (block : AccountStateBlock) : outcome (blockMemoryStore * accountChain * L * error) :=
  let store := PutAccount store (address self) block in
  let self := set_head self (Some block) in
  l ← notify_insert (listener self) l (address self) block;
  let store := SetAccountHead store (address self) (Some (mkHashHeight (Hash block) (Height block))) in
  let store := if decide (a_BlockType block = RECEIVED)
               then PutSourceHash store (SourceHash block) block else store in
  Ret (store, self, l, None).

Definition peek (self : accountChain) : option SnapshotPoint := stack_Peek (snapshotPoint self).

Definition hasSnapshotPoint (self : accountChain) (accountHeight : Z) (accountHash : string) : bool :=
  match peek self with
  | None => false
  | Some point => if decide (accountHeight <= AccountHeight point) then true else false
  end.

Definition removeChain (store : blockMemoryStore) (self : accountChain) (l : L)
    (block : AccountStateBlock) : outcome (blockMemoryStore * accountChain * L * error) :=
  if hasSnapshotPoint self (Height block) (Hash block)
  then Ret (store, self, l, Some "has snapshot.")
  else
    let head := GetAccountByHash store (Hash block) in
    let store := DeleteAccount store (address self) (mkHashHeight (Hash block) (Height block)) in
    l ← notify_remove (listener self) l (address self) block;
    let self := set_head self head in
    let store :=
      match head with
      | None => SetAccountHead store (address self) None
      | Some head =>
          SetAccountHead store (address self) (Some (mkHashHeight (Hash head) (Height head)))
      end in
    let store := if decide (a_BlockType block = RECEIVED)
                 then DeleteSourceHash store (SourceHash block) else store in
    Ret (store, self, l, None).

(** The loop [for i := head.Height(); i >= 0; i--]; [n] is [i + 1]. *)
Fixpoint findAbove_loop (store : blockMemoryStore) (self : accountChain) (snapshotHeight : Z)
    (n : nat) : outcome (option AccountStateBlock) :=
  match n with
  | O => Ret None
  | S i =>
      block ← deref (GetAccountByHeight store (address self) (Z.of_nat i)) "nil dereference";
      if decide (a_SnapshotHeight block <= snapshotHeight) then Ret (Some block)
      else findAbove_loop store self snapshotHeight i
  end.

Definition findAccountAboveSnapshotHeight (store : blockMemoryStore) (self : accountChain)
    (snapshotHeight : Z) : outcome (option AccountStateBlock) :=
  match head self with
  | None => Ret None
  | Some hd => findAbove_loop store self snapshotHeight (Z.to_nat (Height hd + 1))
  end.

(** The loop [for i := height; i > 0; i--]; [n] is [i]. *)
Fixpoint getBySource_loop (store : blockMemoryStore) (self : accountChain) (sourceHash : string)
    (n : nat) : outcome (option AccountStateBlock) :=
  match n with
  | O => Ret None
  | S n' =>
      v ← deref (GetAccountByHeight store (address self) (Z.of_nat n)) "nil dereference";
      if decide (a_BlockType v = RECEIVED /\ SourceHash v = sourceHash) then Ret (Some v)
      else getBySource_loop store self sourceHash n'
  end.

Definition getBySourceBlock (store : blockMemoryStore) (self : accountChain) (sourceHash : string)
    : outcome (option AccountStateBlock) :=
  match head self with
  | None => Ret None
  | Some hd => getBySource_loop store self sourceHash (Z.to_nat (Height hd))
  end.

Definition NextSnapshotPoint (self : accountChain) : outcome (Z * string) :=
  match peek self with
  | None =>
      match head self with
      | Some hd => Ret (Height hd, Hash hd)
      | None => Ret (-1, "")
      end
  | Some lastPoint =>
      hd ← deref (head self) "nil dereference";
      if decide (AccountHeight lastPoint < Height hd) then Ret (Height hd, Hash hd)
      else Ret (-1, "")
  end.

Definition SnapshotPoint_ (store : blockMemoryStore) (self : accountChain) (snapshotHeight : Z)
    (snapshotHash : string) (h : AccountHashH) : outcome (accountChain * error) :=
  match head self with
  | None => Ret (self, Some ("account[" +:+ address self +:+ "] not exist."))
  | Some _ =>
      let errMsg :=
        match peek self with
        | Some lastPoint =>
            if decide (snapshotHeight <= SnapshotHeight lastPoint \/
                       ah_Height h < AccountHeight lastPoint)
            then Some ("acount snapshot point check fail.sHeight:[" +:+ Itoa snapshotHeight +:+ "], lastSHeight:["
                       +:+ Itoa (SnapshotHeight lastPoint) +:+ "], aHeight:[" +:+ Itoa (ah_Height h)
                       +:+ "], lastAHeight:[" +:+ Itoa (AccountHeight lastPoint) +:+ "]")
            else None
        | None => None
        end in
      match errMsg with
      | Some errMsg => Ret (self, Some errMsg)
      | None =>
        point ← deref (GetBlockByHeight store self (ah_Height h)) "nil dereference";
        if decide (ah_Hash h = Hash point /\ ah_Height h = Height point)
        then Ret (set_snapshotPoint self (stack_Push (snapshotPoint self)
                    (mkSnapshotPoint snapshotHeight snapshotHash (ah_Height h) (ah_Hash h))), None)
        else Ret (self, Some ("account[" +:+ address self +:+ "] state error. accHeight: " +:+ Itoa (ah_Height h)
                              +:+ "accHash:" +:+ ah_Hash h +:+ " expAccHeight:" +:+ Itoa (Height point)
                              +:+ " expAccHash:" +:+ Hash point))
      end
  end.

(** The loop of [RollbackSnapshotPoint]: every round but the last pops a point. *)
Fixpoint rollback_loop (fuel : nat) (self : accountChain) (end_ : SnapshotPoint)
    : outcome (accountChain * error) :=
  match fuel with
  | O => Diverge
  | S fuel =>
      match peek self with
      | None => Ret (self, Some "not exist snapshot point.")
      | Some point =>
          if decide (AccountHeight point <= AccountHeight end_) then
            let self := set_snapshotPoint self (stack_Pop (snapshotPoint self)) in
            if decide (AccountHeight point = AccountHeight end_) then Ret (self, None)
            else rollback_loop fuel self end_
          else Ret (self, None)
      end
  end.

Definition RollbackSnapshotPoint (fuel : nat) (self : accountChain) (start end_ : option SnapshotPoint)
    : outcome (accountChain * error) :=
  match peek self with
  | None => Ret (self, Some "not exist snapshot point.")
  | Some point =>
      if SnapshotPoint_Equals point start then
        end_ ← deref end_ "nil dereference";
        rollback_loop fuel self end_
      else Ret (self, Some "not equals for start")
  end.
End account_chain.
Arguments accountChain St : clear implicits.
End AccountChain.

(** ** The block chain ([chain/chain.go])

    [ac] caches the account chains created so far: [selfAc] adds one on first
    use, so that even the reads return the state they leave behind. *)
Module Blockchain.
Section blockchain.
Context {St : Type} `{Stack St} {L : Type} `{ChainListener L}.

Record blockchain := mk {
  ac : gmap string (AccountChain.accountChain St);
  sc : SnapshotChain.snapshotChain;
  store : blockMemoryStore;
  listener : listenerRef;
  listenerState : L
}.

Definition set_ac (self : blockchain) (m : gmap string (AccountChain.accountChain St)) : blockchain :=
  {| ac := m; sc := sc self; store := store self; listener := listener self;
     listenerState := listenerState self |}.

Definition NewChain (l : L) : outcome blockchain :=
  let store := NewMemoryStore SnapshotChain.GetGenesisSnapshot in
  '(store, sc) ← SnapshotChain.newSnapshotChain store;
  Ret {| ac := ∅; sc := sc; store := store; listener := DefaultChainListener; listenerState := l |}.

(** One step here; the code looks, makes and stores in several
    ([selfAc_make], [selfAc_store]). *)
Definition selfAc (self : blockchain) (addr : string)
    : blockchain * AccountChain.accountChain St :=
  match ac self !! addr with
  | Some chain => (self, chain)
  | None =>
      let c := AccountChain.newAccountChain addr (listener self) (store self) in
      (set_ac self (<[addr := c]> (ac self)), c)
  end.

(** The two halves of [selfAc] for an account without a chain, between which other
    goroutines may run: the chain is made from the store, and it is stored; the look
    is not repeated under the mutex. *)
Definition selfAc_make (self : blockchain) (addr : string) : AccountChain.accountChain St :=
  AccountChain.newAccountChain addr (listener self) (store self).
Definition selfAc_store (self : blockchain) (addr : string) (c : AccountChain.accountChain St) : blockchain :=
  set_ac self (<[addr := c]> (ac self)).

(** Write back a chain, the store and the listener after an operation of [addr]. *)
Definition put_ac (self : blockchain) (addr : string) (store : blockMemoryStore)
    (c : AccountChain.accountChain St) (l : L) : blockchain :=
  {| ac := <[addr := c]> (ac self); sc := sc self; store := store; listener := listener self;
     listenerState := l |}.

Definition set_sc (self : blockchain) (store : blockMemoryStore) (sc : SnapshotChain.snapshotChain)
    : blockchain :=
  {| ac := ac self; sc := sc; store := store; listener := listener self;
     listenerState := listenerState self |}.

(** [SetChainListener] with a non-nil listener, whose state is [l]. *)
Definition SetChainListener (self : blockchain) (l : option L) : blockchain :=
  match l with
  | None => self
  | Some l => {| ac := ac self; sc := sc self; store := store self;
                 listener := RegisteredListener; listenerState := l |}
  end.

Definition GetAccountBySourceHash_ (self : blockchain) (address source : string)
    : outcome (blockchain * option AccountStateBlock) :=
  let b := GetAccountBySourceHash (store self) source in
  let '(self, c) := selfAc self address in
  b2 ← AccountChain.getBySourceBlock (store self) c source;
  match b, b2 with
  | None, None => Ret (self, None)
  | None, Some _ => Ret (self, b2)
  | Some _, None => Ret (self, b2)
  | Some _, Some _ => Ret (self, b2)     (* a difference is only logged *)
  end.

(** [order]: the order in which [ac.Range] visits the account chains. *)
Definition NextAccountSnapshot (order : gmap string (AccountChain.accountChain St) ->
      list (string * AccountChain.accountChain St)) (self : blockchain)
    : outcome (HashHeight * list AccountHashH * error) :=
  accounts ← foldl (fun acc '(k, v) =>
      accounts ← acc;
      '(i, s) ← AccountChain.NextSnapshotPoint v;
      Ret (if decide (i < 0) then accounts else accounts ++ [NewAccountHashH k s i]))
    (Ret []) (order (ac self));
  head ← deref (SnapshotChain.head (sc self)) "nil dereference";
  Ret (mkHashHeight (Hash head) (Height head), accounts, None).

Definition FindAccountAboveSnapshotHeight (self : blockchain) (address : string) (snapshotHeight : Z)
    : outcome (blockchain * option AccountStateBlock) :=
  let '(self, c) := selfAc self address in
  b ← AccountChain.findAccountAboveSnapshotHeight (store self) c snapshotHeight;
  Ret (self, b).

Definition GenesisSnapshot (self : blockchain) : SnapshotBlock * error :=
  (SnapshotChain.GetGenesisSnapshot, None).
Definition HeadSnapshot (self : blockchain) : option SnapshotBlock * error :=
  (SnapshotChain.Head (sc self), None).
Definition GetSnapshotByHashH (self : blockchain) (hashH : HashHeight) : option SnapshotBlock :=
  SnapshotChain.GetBlockByHashH (store self) hashH.
Definition GetSnapshotByHash_ (self : blockchain) (hash : string) : option SnapshotBlock :=
  SnapshotChain.getBlockByHash (store self) hash.
Definition GetSnapshotByHeight_ (self : blockchain) (height : Z) : outcome (option SnapshotBlock) :=
  SnapshotChain.GetBlockHeight (store self) height.

(** The loop of [InsertSnapshotBlock] over the snapshotted accounts. *)
Fixpoint snapshot_points (self : blockchain) (block : SnapshotBlock) (accounts : list AccountHashH)
    : outcome (blockchain * error) :=
  match accounts with
  | [] => Ret (self, None)
  | account :: accounts =>
      let '(self, c) := selfAc self (ah_Addr account) in
      '(c, err) ← AccountChain.SnapshotPoint_ (store self) c (Height block) (Hash block) account;
      let self := put_ac self (ah_Addr account) (store self) c (listenerState self) in
      match err with
      | Some err => Ret (self, Some err)
      | None => snapshot_points self block accounts
      end
  end.

Definition InsertSnapshotBlock (self : blockchain) (block : SnapshotBlock)
    : outcome (blockchain * error) :=
  let '(store, sc, err) := SnapshotChain.insertChain (store self) (sc self) block in
  let self := set_sc self store sc in
  match err with
  | None => snapshot_points self block (Accounts block)
  | Some err => Ret (self, Some err)
  end.

Definition RemoveSnapshotHead (self : blockchain) (block : SnapshotBlock) : blockchain * error :=
  let '(store, sc, err) := SnapshotChain.removeChain (store self) (sc self) block in
  (set_sc self store sc, err).

Definition HeadAccount (self : blockchain) (address : string)
    : blockchain * (option AccountStateBlock * error) :=
  let '(self, c) := selfAc self address in (self, (AccountChain.Head c, None)).
Definition GetAccountByHashH (self : blockchain) (address : string) (hashH : HashHeight)
    : blockchain * option AccountStateBlock :=
  let '(self, c) := selfAc self address in
  (self, AccountChain.GetBlockByHashH (store self) c hashH).
Definition GetAccountByHash_ (self : blockchain) (address hash : string)
    : blockchain * option AccountStateBlock :=
  let '(self, c) := selfAc self address in
  (self, AccountChain.GetBlockByHash (store self) hash).
Definition GetAccountByHeight_ (self : blockchain) (address : string) (height : Z)
    : blockchain * option AccountStateBlock :=
  let '(self, c) := selfAc self address in
  (self, AccountChain.GetBlockByHeight (store self) c height).

Definition InsertAccountBlock (self : blockchain) (address : string) (block : AccountStateBlock)
    : outcome (blockchain * error) :=
  let '(self, c) := selfAc self address in
  '(store, c, l, err) ← AccountChain.insertChain (store self) c (listenerState self) block;
  Ret (put_ac self address store c l, err).

Definition RemoveAccountHead (self : blockchain) (address : string) (block : AccountStateBlock)
    : outcome (blockchain * error) :=
  let '(self, c) := selfAc self address in
  '(store, c, l, err) ← AccountChain.removeChain (store self) c (listenerState self) block;
  Ret (put_ac self address store c l, err).

Definition RollbackSnapshotPoint (fuel : nat) (self : blockchain) (address : string)
    (start end_ : option SnapshotPoint) : outcome (blockchain * error) :=
  let '(self, c) := selfAc self address in
  '(c, err) ← AccountChain.RollbackSnapshotPoint fuel c start end_;
  Ret (put_ac self address (store self) c (listenerState self), err).
End blockchain.
Arguments blockchain St L : clear implicits.
End Blockchain.

(** ** The default chain listener *)
Definition defaultChainListener : Type := unit.
#[export] Instance default_ChainListener : ChainListener unit := {|
  AccountInsertCallback l _ _ := Ret l;
  AccountRemoveCallback l _ _ := Ret l
|}.
