(* ===== verification/ChainSpec.v ===== *)
(** * ChainSpec: what the chains promise, and what the code keeps of it

    The abstract state of a chain is its list of blocks, genesis first.
    [snap_repr] and [acc_repr] relate it to the store and the head a
    [snapshotChain] or an [accountChain] keeps. *)
From S2P Require Import Prelude.
From S2P Require Import Common.
From S2P Require Import HashCal.
From S2P Require Import Links.
From S2P Require Import Store.
From S2P Require Import Chain.

Definition hash_height {B} `{Block B} (b : B) : HashHeight := mkHashHeight (Hash b) (Height b).

(** ** The snapshot chain refines a list of linked blocks *)
Section snapshot.
Import SnapshotChain.

(** [pre] is the previous hash of the genesis block. *)
Record snap_repr (pre : string) (st : blockMemoryStore) (sc : snapshotChain)
    (bs : list SnapshotBlock) : Prop := {
  sr_linked : linked pre (-1) bs;
  sr_nodup : NoDup (Hash <$> bs);
  sr_pre : pre ∉ Hash <$> bs;
  sr_head : head sc = last bs;
  sr_stored : GetSnapshotHead st = hash_height <$> last bs;
  sr_height h : GetSnapshotByHeight st h = if decide (h < 0) then None else bs !! Z.to_nat h;
  sr_hash h b : GetSnapshotByHash st h = Some b <-> b ∈ bs /\ Hash b = h
}.

Lemma snap_repr_height_range pre st sc bs h :
  snap_repr pre st sc bs -> is_Some (GetSnapshotByHeight st h) <-> 0 <= h < Z.of_nat (length bs).
Proof.
  intros R. rewrite (sr_height _ _ _ _ R). case_decide.
  - rewrite is_Some_alt. lia.
  - rewrite lookup_lt_is_Some. lia.
Qed.

Lemma insertChain_repr pre st sc bs b :
  snap_repr pre st sc bs ->
  PreHash b = (tip pre (-1) bs).1 -> Height b = Z.of_nat (length bs) ->
  Hash b ∉ pre :: (Hash <$> bs) ->
  let '(st', sc', err) := insertChain st sc b in
  err = None /\ snap_repr pre st' sc' (bs ++ [b]).
Proof.
  intros R Hp Hh Hf. unfold insertChain. split; [done|].
  apply not_elem_of_cons in Hf as [Hf1 Hf2].
  destruct (SetSnapshotHead_frame (PutSnapshot st b) (Some (hash_height b)))
    as (Fh & Fx & _).
  constructor; cbn [head].
  - apply linked_snoc. split; [apply R|]. split; [done|lia].
  - rewrite fmap_app. apply NoDup_app. split; [apply R|]. split; [set_solver|].
    apply NoDup_singleton.
  - pose proof (sr_pre _ _ _ _ R). rewrite fmap_app. set_solver.
  - by rewrite last_snoc.
  - by rewrite GetSnapshotHead_Set, last_snoc.
  - intros h. unfold GetSnapshotByHeight at 1.
    change (mkHashHeight (Hash b) (Height b)) with (hash_height b). rewrite Fh.
    change (GetSnapshotByHeight (PutSnapshot st b) h = if decide (h < 0) then None
            else (bs ++ [b]) !! Z.to_nat h).
    rewrite GetSnapshotByHeight_Put, (sr_height _ _ _ _ R).
    repeat case_decide; try lia; [|done|].
    + subst. rewrite Hh, Nat2Z.id. by rewrite lookup_app_r, Nat.sub_diag.
    + destruct (decide (Z.to_nat h < length bs)%nat); [by rewrite lookup_app_l|].
      rewrite !lookup_ge_None_2; [done| |lia]. rewrite length_app; cbn; lia.
  - intros h b'. unfold GetSnapshotByHash at 1.
    change (mkHashHeight (Hash b) (Height b)) with (hash_height b). rewrite Fx.
    change (GetSnapshotByHash (PutSnapshot st b) h = Some b' <-> b' ∈ bs ++ [b] /\ Hash b' = h).
    rewrite GetSnapshotByHash_Put, elem_of_app, list_elem_of_singleton.
    case_decide as E.
    + subst. split; [naive_solver|]. intros [[Hb| ->] E]; [|done].
      destruct Hf2. rewrite <- E. by apply list_elem_of_fmap_2.
    + rewrite (sr_hash _ _ _ _ R). naive_solver.
Qed.

Lemma snap_repr_prev pre st sc bs b :
  snap_repr pre st sc (bs ++ [b]) -> GetSnapshotByHash st (PreHash b) = last bs.
Proof.
  intros R. pose proof (sr_linked _ _ _ _ R) as Hl.
  apply linked_snoc in Hl as (Hl & Hp & _). rewrite Hp, tip_last.
  destruct (last bs) as [b0|] eqn:E.
  - apply (sr_hash _ _ _ _ R). split; [|done]. apply elem_of_app. left.
    by apply last_Some_elem_of.
  - destruct (GetSnapshotByHash st pre) as [b1|] eqn:E1; [|done].
    apply (sr_hash _ _ _ _ R) in E1 as [Hb1 <-].
    destruct (sr_pre _ _ _ _ R). by apply list_elem_of_fmap_2.
Qed.

Lemma removeChain_repr pre st sc bs b :
  snap_repr pre st sc (bs ++ [b]) ->
  let '(st', sc', err) := removeChain st sc b in
  err = None /\ snap_repr pre st' sc' bs.
Proof.
  intros R. unfold removeChain. rewrite (snap_repr_prev _ _ _ _ _ R).
  set (st1 := DeleteSnapshot st (mkHashHeight (Hash b) (Height b))).
  pose proof (sr_linked _ _ _ _ R) as Hl. apply linked_snoc in Hl as (Hl & _ & Hh).
  pose proof (sr_nodup _ _ _ _ R) as Hnd. rewrite fmap_app in Hnd.
  apply NoDup_app in Hnd as (Hnd & Hdis & _).
  assert (Hfresh : Hash b ∉ Hash <$> bs) by set_solver.
  assert (R' : forall o, o = hash_height <$> last bs ->
     snap_repr pre (SetSnapshotHead st1 o) {| head := last bs |} bs).
  { intros o ->. destruct (SetSnapshotHead_frame st1 (hash_height <$> last bs)) as (Fh & Fx & _).
    constructor; cbn [head]; try done.
    - pose proof (sr_pre _ _ _ _ R) as Hp. rewrite fmap_app in Hp. set_solver.
    - apply GetSnapshotHead_Set.
    - intros h. unfold GetSnapshotByHeight at 1. rewrite Fh.
      change (GetSnapshotByHeight st1 h = if decide (h < 0) then None else bs !! Z.to_nat h).
      unfold st1. rewrite GetSnapshotByHeight_Delete, (sr_height _ _ _ _ R). cbn [hh_Height].
      repeat case_decide; try done; [rewrite lookup_ge_None_2 by lia; done|].
      destruct (decide (Z.to_nat h < length bs)%nat); [by rewrite lookup_app_l|].
      rewrite !lookup_ge_None_2; [done|lia|]. rewrite length_app; cbn; lia.
    - intros h b'. unfold GetSnapshotByHash at 1. rewrite Fx.
      change (GetSnapshotByHash st1 h = Some b' <-> b' ∈ bs /\ Hash b' = h).
      unfold st1. rewrite GetSnapshotByHash_Delete. cbn [hh_Hash].
      case_decide as E.
      + split; [done|]. intros [Hb' <-]. destruct Hfresh. rewrite E. by apply list_elem_of_fmap_2.
      + rewrite (sr_hash _ _ _ _ R), elem_of_app, list_elem_of_singleton. naive_solver. }
  specialize (R' _ eq_refl). revert R'.
  destruct (last bs) as [b0|]; cbn; intros R'; split; done.
Qed.
End snapshot.

(** C8: the snapshot chain refines a stack of linked blocks.  Represented by the
    block list [bs], the chain's reads are list lookups (a negative height
    panics, a hash that does not match its height gives nil), inserting a block
    that continues the list appends it, and removing the head restores exactly
    the list before it, head and store included; neither returns an error. *)
Theorem snapshot_chain_refines_list pre st sc bs :
  snap_repr pre st sc bs ->
  SnapshotChain.Head sc = last bs /\
  (forall h, SnapshotChain.GetBlockHeight st h =
     if decide (h < 0) then Panic ("height:" +:+ Itoa h) else Ret (bs !! Z.to_nat h)) /\
  (forall x h, SnapshotChain.GetBlockByHashH st (mkHashHeight x h) =
     if decide (h < 0) then None
     else b ← bs !! Z.to_nat h; if decide (x = Hash b) then Some b else None) /\
  (forall b, PreHash b = (tip pre (-1) bs).1 -> Height b = Z.of_nat (length bs) ->
     Hash b ∉ pre :: (Hash <$> bs) ->
     let '(st', sc', err) := SnapshotChain.insertChain st sc b in
     err = None /\ snap_repr pre st' sc' (bs ++ [b])) /\
  (forall b bs', bs = bs' ++ [b] ->
     let '(st', sc', err) := SnapshotChain.removeChain st sc b in
     err = None /\ snap_repr pre st' sc' bs').
Proof.
  intros R. split; [apply R|]. split; [|split; [|split]].
  - intros h. unfold SnapshotChain.GetBlockHeight. rewrite (sr_height _ _ _ _ R).
    by case_decide.
  - intros x h. unfold SnapshotChain.GetBlockByHashH. cbn [hh_Height hh_Hash].
    rewrite (sr_height _ _ _ _ R). case_decide; [done|]. by destruct (bs !! Z.to_nat h).
  - intros b Hp Hh Hf. by apply (insertChain_repr pre st sc bs b).
  - intros b bs' ->. by apply (removeChain_repr pre st sc bs' b).
Qed.

(** ** The genesis state *)

Lemma genesis_repr g :
  exists st sc, SnapshotChain.newSnapshotChain (NewMemoryStore g) = Ret (st, sc) /\
    snap_repr "" st sc [SnapshotChain.genesisSnapshot] /\
    forall a h, GetAccountByHeight st a h = GetAccountByHeight (NewMemoryStore g) a h.
Proof.
  unfold SnapshotChain.newSnapshotChain.
  destruct (NewMemoryStore_snapshot g) as (E & Eh & Ex).
  revert E Eh Ex. generalize (NewMemoryStore g) as S0. intros S0 E Eh Ex. rewrite E.
  do 2 eexists. split; [reflexivity|]. split; [|done].
  constructor.
  - done.
  - apply NoDup_singleton.
  - cbn. rewrite list_elem_of_singleton. done.
  - done.
  - apply GetSnapshotHead_Set.
  - intros h. change (GetSnapshotByHeight (PutSnapshot S0 SnapshotChain.genesisSnapshot) h
      = if decide (h < 0) then None else [SnapshotChain.genesisSnapshot] !! Z.to_nat h).
    rewrite GetSnapshotByHeight_Put. change (Height SnapshotChain.genesisSnapshot) with 0.
    rewrite Eh. repeat case_decide; subst; try done; try lia.
    by rewrite lookup_ge_None_2 by (cbn; lia).
  - intros h b. change (GetSnapshotByHash (PutSnapshot S0 SnapshotChain.genesisSnapshot) h
      = Some b <-> b ∈ [SnapshotChain.genesisSnapshot] /\ Hash b = h).
    rewrite GetSnapshotByHash_Put, list_elem_of_singleton.
    rewrite Ex. case_decide; naive_solver.
Qed.

Lemma snapshot_chain_refines_list_witness :
  exists st sc, snap_repr "" st sc [SnapshotChain.genesisSnapshot] /\
    SnapshotChain.Head sc = Some SnapshotChain.genesisSnapshot.
Proof.
  destruct (genesis_repr SnapshotChain.genesisSnapshot) as (st & sc & _ & R & _).
  exists st, sc. split; [exact R | exact (proj1 (snapshot_chain_refines_list _ _ _ _ R))].
Defined.

(** The genesis constants are consistent.  The hash written in the code for
    the genesis snapshot is the SHA-256 hash of its own record, the account
    hashes it lists are the computed hashes of the genesis account blocks the
    store creates, each found in the new chain's store at its address and
    height, and [NewChain] succeeds with the genesis snapshot as its only
    block. *)
Theorem genesis_is_consistent {L} `{ChainListener L} {St} `{Stack St} (l : L) :
  CalculateSnapshotHash SnapshotChain.genesisSnapshot = Hash SnapshotChain.genesisSnapshot /\
  exists bc : Blockchain.blockchain St L,
    Blockchain.NewChain l = Ret bc /\
    snap_repr "" (Blockchain.store bc) (Blockchain.sc bc) [SnapshotChain.genesisSnapshot] /\
    Forall (fun a => exists b,
       GetAccountByHeight (Blockchain.store bc) (ah_Addr a) (ah_Height a) = Some b /\
       Hash b = ah_Hash a /\ CalculateAccountHash b = ah_Hash a)
      (Accounts SnapshotChain.genesisSnapshot).
Proof.
  split; [vm_compute; reflexivity|].
  unfold Blockchain.NewChain.
  destruct (genesis_repr SnapshotChain.GetGenesisSnapshot) as (st & sc & E & R & F).
  rewrite E, bind_ret_l. eexists. split; [reflexivity|]. split; [exact R|].
  cbn [Blockchain.store].
  assert (G : forall a x, a ∈ genesisAccounts -> CalculateAccountHash (genesisAccountBlock a) = x ->
    exists b, GetAccountByHeight st a 0 = Some b /\ Hash b = x /\ CalculateAccountHash b = x).
  { intros a x Ha Hx. exists (genesisAccountBlock a). rewrite F, NewMemoryStore_account.
    rewrite decide_True by done. split; [done|]. split; [|done]. rewrite <- Hx. done. }
  constructor; [|constructor; [|constructor]]; apply G;
    [unfold genesisAccounts; set_solver | vm_compute; reflexivity
    | unfold genesisAccounts; set_solver | vm_compute; reflexivity].
Qed.

(** ** Account chains *)
Section account.
Context {St : Type} `{HS : Stack St} {L : Type} `{HL : ChainListener L}.
Import AccountChain.
Implicit Types (st : blockMemoryStore) (c : accountChain St) (l : L).

(** [bs] are the account's blocks, from the one at height 0. *)
Record acc_repr st c (bs : list AccountStateBlock) : Prop := {
  ar_linked : linked "" (-1) bs;
  ar_nodup : NoDup (Hash <$> bs);
  ar_head : head c = last bs;
  ar_stored : GetAccountHead st (address c) = hash_height <$> last bs;
  ar_height h : GetAccountByHeight st (address c) h =
                  if decide (h < 0) then None else bs !! Z.to_nat h;
  ar_hash b : b ∈ bs -> GetAccountByHash st (Hash b) = Some b
}.

(** The source index: what [PutSourceHash] does to an account's view. *)
Lemma put_source_frame st x b :
  let st' := PutSourceHash st x b in
  accountHeight st' = accountHeight st /\ accountHash st' = accountHash st /\
  Store.head st' = Store.head st.
Proof. done. Qed.

(** The store an insertion leaves behind. *)
Definition inserted (st : blockMemoryStore) (a : string) (b : AccountStateBlock) : blockMemoryStore :=
  let st := SetAccountHead (PutAccount st a b) a (Some (hash_height b)) in
  if decide (a_BlockType b = RECEIVED) then PutSourceHash st (SourceHash b) b else st.

Lemma inserted_lookups st a b :
  (forall a' h, GetAccountByHeight (inserted st a b) a' h =
     GetAccountByHeight (PutAccount st a b) a' h) /\
  (forall x, GetAccountByHash (inserted st a b) x = GetAccountByHash (PutAccount st a b) x) /\
  (forall a', GetAccountHead (inserted st a b) a' =
     if decide (a = a') then Some (hash_height b) else GetAccountHead st a').
Proof.
  unfold inserted. case_decide; (split; [done|split; [done|]]); intros a';
    exact (GetAccountHead_Set (PutAccount st a b) a (Some (hash_height b)) a').
Qed.

Lemma insertChain_eq st c l b :
  insertChain st c l b =
  (l ← notify_insert (listener c) l (address c) b;
   Ret (inserted st (address c) b, set_head c (Some b), l, None)).
Proof. done. Qed.

Lemma insertChain_acc_repr st c bs b :
  acc_repr st c bs ->
  PreHash b = (tip "" (-1) bs).1 -> Height b = Z.of_nat (length bs) ->
  Hash b ∉ Hash <$> bs ->
  acc_repr (inserted st (address c) b) (set_head c (Some b)) (bs ++ [b]).
Proof.
  intros R Hp Hh Hf. destruct (inserted_lookups st (address c) b) as (Ih & Ix & Ihd).
  constructor; cbn [head address set_head].
  - apply linked_snoc. split; [apply R|]. split; [done|lia].
  - rewrite fmap_app. apply NoDup_app. split; [apply R|]. split; [set_solver|].
    apply NoDup_singleton.
  - by rewrite last_snoc.
  - rewrite Ihd, decide_True by done. by rewrite last_snoc.
  - intros h. rewrite Ih, GetAccountByHeight_Put, (ar_height _ _ _ R).
    destruct (decide (h = Height b)) as [->|Hne].
    + rewrite decide_True by done. rewrite Hh, decide_False by lia.
      by rewrite Nat2Z.id, lookup_app_r, Nat.sub_diag.
    + rewrite decide_False by congruence. case_decide; [done|].
      destruct (decide (Z.to_nat h < length bs)%nat); [by rewrite lookup_app_l|].
      rewrite !lookup_ge_None_2; [done| |lia]. rewrite length_app; cbn; lia.
  - intros b' Hb'. rewrite Ix, GetAccountByHash_Put.
    apply elem_of_app in Hb' as [Hb'|Hb'%list_elem_of_singleton].
    + rewrite decide_False; [by apply R|]. intros E. destruct Hf. rewrite E.
      by apply list_elem_of_fmap_2.
    + subst. by rewrite decide_True.
Qed.

(** Another account's chain does not notice, as long as the inserted block's hash
    is not one of its own. *)
Lemma inserted_other st a b c bs :
  acc_repr st c bs -> a <> address c -> Hash b ∉ Hash <$> bs ->
  acc_repr (inserted st a b) c bs.
Proof.
  intros R Ha Hf. destruct (inserted_lookups st a b) as (Ih & Ix & Ihd).
  constructor; try apply R.
  - rewrite Ihd, decide_False by done. apply R.
  - intros h. rewrite Ih, GetAccountByHeight_Put, decide_False by congruence. apply R.
  - intros b' Hb'. rewrite Ix, GetAccountByHash_Put, decide_False; [by apply R|].
    intros E. destruct Hf. rewrite E. by apply list_elem_of_fmap_2.
Qed.

Lemma findAbove_loop_spec st c bs sh n :
  acc_repr st c bs -> (n <= length bs)%nat ->
  findAbove_loop st c sh n =
  Ret (last (filter (fun b => a_SnapshotHeight b <= sh) (take n bs))).
Proof.
  intros R. induction n as [|n IH]; intros Hn; [done|].
  destruct (lookup_lt_is_Some_2 bs n ltac:(lia)) as [b Hb].
  cbn [findAbove_loop]. rewrite (ar_height _ _ _ R), decide_False, Nat2Z.id, Hb by lia.
  cbn [deref]. rewrite bind_ret_l, (take_S_r _ _ _ Hb), filter_app, filter_cons, filter_nil.
  case_decide; [by rewrite last_snoc|]. rewrite app_nil_r. apply IH. lia.
Qed.

Lemma getBySource_loop_spec st c bs x n :
  acc_repr st c bs -> (S n <= length bs)%nat ->
  getBySource_loop st c x n =
  Ret (last (filter (fun b => a_BlockType b = RECEIVED /\ SourceHash b = x) (take n (drop 1 bs)))).
Proof.
  intros R. induction n as [|n IH]; intros Hn; [done|].
  destruct (lookup_lt_is_Some_2 bs (S n) ltac:(lia)) as [b Hb].
  cbn [getBySource_loop]. rewrite (ar_height _ _ _ R), decide_False, Nat2Z.id, Hb by lia.
  assert (Hb' : drop 1 bs !! n = Some b) by (by rewrite lookup_drop).
  cbn [deref]. rewrite bind_ret_l, (take_S_r _ _ _ Hb'), filter_app, filter_cons, filter_nil.
  case_decide; [by rewrite last_snoc|]. rewrite app_nil_r. apply IH. lia.
Qed.

Lemma acc_repr_head st c bs hd :
  acc_repr st c bs -> head c = Some hd ->
  Height hd = Z.of_nat (length bs) - 1 /\ (0 < length bs)%nat /\ bs !! (length bs - 1)%nat = Some hd.
Proof.
  intros R Hh. rewrite (ar_head _ _ _ R) in Hh.
  rewrite last_lookup in Hh. assert (Hl := lookup_lt_Some _ _ _ Hh).
  rewrite (linked_lookup _ _ _ _ _ (ar_linked _ _ _ R) Hh).
  split; [lia|]. split; [lia|]. by rewrite <- Nat.sub_1_r in Hh.
Qed.

Lemma findAccountAbove_spec st c bs sh :
  acc_repr st c bs ->
  findAccountAboveSnapshotHeight st c sh =
  Ret (last (filter (fun b => a_SnapshotHeight b <= sh) bs)).
Proof.
  intros R. unfold findAccountAboveSnapshotHeight. destruct (head c) as [hd|] eqn:E.
  - destruct (acc_repr_head _ _ _ _ R E) as (Hh & Hl & _).
    rewrite (findAbove_loop_spec _ _ _ _ _ R) by lia.
    rewrite firstn_all2 by lia. done.
  - rewrite (ar_head _ _ _ R) in E. by apply last_None in E as ->.
Qed.

Lemma getBySourceBlock_spec st c bs x :
  acc_repr st c bs ->
  getBySourceBlock st c x =
  Ret (last (filter (fun b => a_BlockType b = RECEIVED /\ SourceHash b = x) (drop 1 bs))).
Proof.
  intros R. unfold getBySourceBlock. destruct (head c) as [hd|] eqn:E.
  - destruct (acc_repr_head _ _ _ _ R E) as (Hh & Hl & _).
    rewrite (getBySource_loop_spec _ _ _ _ _ R) by lia.
    rewrite firstn_all2 by (rewrite length_drop; lia). done.
  - rewrite (ar_head _ _ _ R) in E. by apply last_None in E as ->.
Qed.
End account.


(** The empty chain of a new account, and the genesis chain, are represented. *)
Lemma acc_repr_new {St} `{Stack St} g a r :
  a ∉ genesisAccounts ->
  acc_repr (NewMemoryStore g) (AccountChain.newAccountChain (St := St) a r (NewMemoryStore g)) [].
Proof.
  intros Ha.
  assert (E : GetAccountHead (NewMemoryStore g) a = None).
  { unfold NewMemoryStore, genesisAccounts in *. cbn [foldl].
    assert (F : forall st a' b a, GetAccountHead (PutAccount st a' b) a = GetAccountHead st a) by done.
    do 2 (rewrite GetAccountHead_Set, F, decide_False by set_solver). apply lookup_empty. }
  constructor; cbn [AccountChain.newAccountChain AccountChain.head AccountChain.address].
  - done.
  - apply NoDup_nil_2.
  - by rewrite E.
  - by rewrite E.
  - intros h. rewrite NewMemoryStore_account, decide_False by tauto. by case_decide.
  - intros b Hb. by apply elem_of_nil in Hb.
Qed.


(** Removing an account's head leaves the removed block as the head.
    [removeChain] looks up the new head under the hash of the block it removes
    instead of its previous hash.  So on a chain represented by [bs ++ [b]] with
    no snapshot point at or above [b], it returns no error, but the head of the
    chain and of the store is still [b], which is no longer stored: the searches
    that start at the head then dereference nil and panic. *)
Theorem account_remove_keeps_removed_head {St} `{Stack St} {L} `{ChainListener L}
    st (c : AccountChain.accountChain St) (l l' : L) bs b :
  acc_repr st c (bs ++ [b]) ->
  AccountChain.hasSnapshotPoint c (Height b) (Hash b) = false ->
  notify_remove (AccountChain.listener c) l (AccountChain.address c) b = Ret l' ->
  exists st' c', AccountChain.removeChain st c l b = Ret (st', c', l', None) /\
    AccountChain.Head c' = Some b /\
    GetAccountHead st' (AccountChain.address c) = Some (hash_height b) /\
    GetAccountByHeight st' (AccountChain.address c) (Height b) = None /\
    GetAccountByHash st' (Hash b) = None /\
    (forall sh, AccountChain.findAccountAboveSnapshotHeight st' c' sh = Panic "nil dereference") /\
    (0 < Height b -> forall x, AccountChain.getBySourceBlock st' c' x = Panic "nil dereference").
Proof.
  intros R Hs Hn. unfold AccountChain.removeChain. rewrite Hs, Hn, bind_ret_l.
  rewrite (ar_hash _ _ _ R b) by set_solver.
  pose proof (ar_linked _ _ _ R) as Hl. apply linked_snoc in Hl as (_ & _ & Hh).
  set (a := AccountChain.address c).
  set (st1 := DeleteAccount st a (mkHashHeight (Hash b) (Height b))).
  set (st2 := SetAccountHead st1 a (Some (hash_height b))).
  set (st' := if decide (a_BlockType b = RECEIVED) then DeleteSourceHash st2 (SourceHash b) else st2).
  set (c' := AccountChain.set_head c (Some b)).
  exists st', c'.
  assert (F : GetAccountByHeight st' a (Height b) = None).
  { assert (E : GetAccountByHeight st' a (Height b) = GetAccountByHeight st1 a (Height b))
      by (unfold st'; case_decide; done).
    rewrite E. unfold st1. rewrite GetAccountByHeight_Delete. by rewrite decide_True. }
  split; [done|]. split; [done|]. split; [|split; [exact F|split; [|split]]].
  - assert (E : GetAccountHead st' a = GetAccountHead st2 a) by (unfold st'; case_decide; done).
    rewrite E. unfold st2. rewrite GetAccountHead_Set. by rewrite decide_True.
  - assert (E : GetAccountByHash st' (Hash b) = GetAccountByHash st1 (Hash b))
      by (unfold st'; case_decide; done).
    rewrite E. unfold st1. rewrite GetAccountByHash_Delete. by rewrite decide_True.
  - intros sh. unfold AccountChain.findAccountAboveSnapshotHeight. change (AccountChain.head c') with (Some b). cbv iota beta.
    replace (Z.to_nat (Height b + 1)) with (S (Z.to_nat (Height b))) by lia.
    cbn [AccountChain.findAbove_loop]. change (AccountChain.address c') with a.
    rewrite Z2Nat.id by lia. by rewrite F.
  - intros Hpos x. unfold AccountChain.getBySourceBlock. change (AccountChain.head c') with (Some b). cbv iota beta.
    destruct (Z.to_nat (Height b)) as [|n] eqn:En; [lia|].
    cbn [AccountChain.getBySource_loop]. change (AccountChain.address c') with a.
    replace (Z.of_nat (S n)) with (Height b) by lia. by rewrite F.
Qed.

(** A concrete account chain of one block. *)
Definition bob_block : AccountStateBlock :=
  NewAccountBlock 0 "h1" "" "bob" 0 100 100 0 "" RECEIVED "jie" "bob" "h0" 0.
Definition bob_store : blockMemoryStore :=
  inserted (NewMemoryStore SnapshotChain.genesisSnapshot) "bob" bob_block.
Definition bob_chain : AccountChain.accountChain (list SnapshotPoint) :=
  AccountChain.mk "bob" (Some bob_block) DefaultChainListener [].

Lemma bob_repr : acc_repr bob_store bob_chain ([] ++ [bob_block]).
Proof.
  refine (insertChain_acc_repr (NewMemoryStore SnapshotChain.genesisSnapshot)
    (AccountChain.newAccountChain "bob" DefaultChainListener
       (NewMemoryStore SnapshotChain.genesisSnapshot)) [] bob_block _ eq_refl eq_refl _).
  - apply acc_repr_new. unfold genesisAccounts. rewrite !elem_of_cons, elem_of_nil. intros [?|[?|?]]; done.
  - intros Hb. by apply elem_of_nil in Hb.
Qed.

Lemma account_remove_keeps_removed_head_witness :
  exists st' c', AccountChain.removeChain bob_store bob_chain tt bob_block = Ret (st', c', tt, None) /\
    AccountChain.Head c' = Some bob_block /\ GetAccountByHash st' "h1" = None.
Proof.
  destruct (account_remove_keeps_removed_head (H := list_Stack) (H0 := default_ChainListener)
    bob_store bob_chain tt tt [] bob_block bob_repr eq_refl eq_refl) as (st' & c' & E & Hh & _ & _ & Hx & _).
  exists st', c'. split; [exact E|]. split; [exact Hh | exact Hx].
Defined.

(** ** Snapshot points *)
Section points.
Context {St : Type} `{HS : Stack St, !StackLaws St} {L : Type} `{HL : ChainListener L}.
Import AccountChain.
Implicit Types (st : blockMemoryStore) (c : accountChain St) (l : L).

Definition points c : list SnapshotPoint := stack_list (snapshotPoint c).

(** The newest point first: snapshot heights strictly decrease and account
    heights do not increase down the stack. *)
Definition newer (p q : SnapshotPoint) : Prop :=
  SnapshotHeight q < SnapshotHeight p /\ AccountHeight q <= AccountHeight p.
Definition points_ordered c : Prop := StronglySorted newer (points c).

Lemma peek_points c : peek c = hd_error (points c).
Proof. apply stack_list_Peek. Qed.

Lemma points_set c s : points (set_snapshotPoint c s) = stack_list s.
Proof. done. Qed.

Lemma hasSnapshotPoint_spec c h x :
  points_ordered c ->
  hasSnapshotPoint c h x = true <-> exists p, p ∈ points c /\ h <= AccountHeight p.
Proof.
  intros Ho. unfold hasSnapshotPoint. rewrite peek_points. unfold points_ordered in Ho.
  destruct (points c) as [|p ps] eqn:E; cbn [hd_error].
  - split; [done|]. intros (p & Hp & _). by apply elem_of_nil in Hp.
  - inversion Ho as [|? ? _ Hall]; subst. rewrite Forall_forall in Hall. case_decide.
    + split; [|done]. intros _. exists p. set_solver.
    + split; [done|]. intros (q & Hq & Hle).
      apply elem_of_cons in Hq as [->|Hq%Hall]; [lia|]. destruct Hq. lia.
Qed.

(** What a successful [SnapshotPoint] establishes. *)
Lemma SnapshotPoint_Ret st c sh sx h c' :
  SnapshotPoint_ st c sh sx h = Ret (c', None) ->
  points c' = mkSnapshotPoint sh sx (ah_Height h) (ah_Hash h) :: points c /\
  (forall p, hd_error (points c) = Some p ->
     SnapshotHeight p < sh /\ AccountHeight p <= ah_Height h) /\
  address c' = address c /\ head c' = head c /\ listener c' = listener c /\
  exists b, GetAccountByHeight st (address c) (ah_Height h) = Some b /\
    Hash b = ah_Hash h /\ Height b = ah_Height h.
Proof.
  unfold SnapshotPoint_. destruct (head c) as [hd|] eqn:Eh; [|done].
  rewrite peek_points.
  assert (K : forall o : AccountStateBlock -> string, (point ← deref (GetBlockByHeight st c (ah_Height h)) "nil dereference";
     (if decide (ah_Hash h = Hash point /\ ah_Height h = Height point)
      then Ret (set_snapshotPoint c (stack_Push (snapshotPoint c)
                    (mkSnapshotPoint sh sx (ah_Height h) (ah_Hash h))), None)
      else Ret (c, Some (o point)))) = Ret (c', None) ->
     points c' = mkSnapshotPoint sh sx (ah_Height h) (ah_Hash h) :: points c /\
     address c' = address c /\ head c' = head c /\ listener c' = listener c /\
     exists b, GetAccountByHeight st (address c) (ah_Height h) = Some b /\
       Hash b = ah_Hash h /\ Height b = ah_Height h).
  { intros o (b & Hb & E)%bind_ret_inv. apply deref_ret_inv in Hb.
    unfold GetBlockByHeight in Hb. destruct (decide (ah_Height h < 0)); [done|].
    destruct (decide (ah_Hash h = Hash b /\ ah_Height h = Height b)) as [Hm|]; [|done]. destruct Hm as [Hm1 Hm2].
    injection E as <-. rewrite points_set, stack_list_Push.
    split; [done|]. split; [done|]. split; [done|]. split; [done|]. exists b. naive_solver. }
  destruct (hd_error (points c)) as [p|] eqn:Ep.
  - case_decide as Hd; [done|]. intros E.
    destruct (K _ E) as (Hp & Ha & Hh & Hl & Hb).
    split; [done|]. split; [intros q [= <-]; lia|]. rewrite Hh, Eh. auto.
  - intros E. destruct (K _ E) as (Hp & Ha & Hh & Hl & Hb).
    split; [done|]. split; [done|]. rewrite Hh, Eh. auto.
Qed.

Lemma SnapshotPoint_ordered st c sh sx h c' :
  points_ordered c -> SnapshotPoint_ st c sh sx h = Ret (c', None) -> points_ordered c'.
Proof.
  intros Ho (Hp & Hn & _)%SnapshotPoint_Ret. unfold points_ordered in *. rewrite Hp.
  constructor; [done|]. destruct (points c) as [|p ps]; [by constructor|].
  specialize (Hn p eq_refl). inversion Ho as [|? ? _ Hall]; subst.
  constructor; [unfold newer; cbn; lia|].
  eapply Forall_impl; [exact Hall|]. unfold newer; cbn. intros q Hq. lia.
Qed.
End points.

(** C25: a snapshotted account block cannot be removed.  Once [SnapshotPoint] has
    succeeded for the account block [h], the points stay ordered, the snapshotted
    block is in the store under that hash and height, and [removeChain] of every
    block at or below that height returns the error "has snapshot." and changes
    neither store, chain nor listener. *)
Theorem snapshotted_blocks_are_protected {St} `{HS : Stack St, !StackLaws St} {L} `{ChainListener L}
    st (c c' : AccountChain.accountChain St) sh sx h :
  points_ordered c ->
  AccountChain.SnapshotPoint_ st c sh sx h = Ret (c', None) ->
  points_ordered c' /\
  (exists b, GetAccountByHeight st (AccountChain.address c') (ah_Height h) = Some b /\
     Hash b = ah_Hash h) /\
  forall st' (l : L) b, Height b <= ah_Height h ->
    AccountChain.removeChain st' c' l b = Ret (st', c', l, Some "has snapshot.").
Proof.
  intros Ho E. split; [by eapply SnapshotPoint_ordered|].
  destruct (SnapshotPoint_Ret _ _ _ _ _ _ E) as (Hp & _ & Ha & _ & _ & b & Hb & Hx & _).
  split; [exists b; by rewrite Ha|].
  intros st' l b' Hle. unfold AccountChain.removeChain.
  replace (AccountChain.hasSnapshotPoint c' (Height b') (Hash b')) with true; [done|].
  symmetry. apply hasSnapshotPoint_spec; [by eapply SnapshotPoint_ordered|].
  eexists. rewrite Hp. split; [apply elem_of_cons; by left | done].
Qed.

Lemma snapshotted_blocks_are_protected_witness :
  exists c', AccountChain.SnapshotPoint_ bob_store bob_chain 1 "s1" (mkAccountHashH "h1" 0 "bob") = Ret (c', None) /\
    forall l : unit, AccountChain.removeChain bob_store c' l bob_block =
      Ret (bob_store, c', l, Some "has snapshot.").
Proof.
  assert (E : AccountChain.SnapshotPoint_ bob_store bob_chain 1 "s1" (mkAccountHashH "h1" 0 "bob") =
    Ret (AccountChain.set_snapshotPoint bob_chain [mkSnapshotPoint 1 "s1" 0 "h1"], None)).
  { unfold AccountChain.SnapshotPoint_. cbn [AccountChain.head bob_chain AccountChain.peek
      AccountChain.snapshotPoint stack_Peek list_Stack hd_error].
    unfold AccountChain.GetBlockByHeight. cbn [ah_Height]. rewrite decide_False by lia.
    rewrite (ar_height _ _ _ bob_repr). rewrite decide_False by lia. reflexivity. }
  eexists. split; [exact E|]. intros l.
  apply (snapshotted_blocks_are_protected bob_store bob_chain _ 1 "s1" (mkAccountHashH "h1" 0 "bob"));
    [constructor | exact E | cbn; lia].
Defined.

(** ** Rolling snapshot points back *)
Section rollback.
Context {St : Type} `{HS : Stack St, !StackLaws St}.
Import AccountChain.
Implicit Types (c : accountChain St).

Lemma points_pop c : points (set_snapshotPoint c (stack_Pop (snapshotPoint c))) = tail (points c).
Proof. apply stack_list_Pop. Qed.

(** All the points lie below the end point: every one is popped, and the loop
    fails. *)
Lemma rollback_loop_empties fuel c e :
  (length (points c) < fuel)%nat ->
  Forall (fun p => AccountHeight p < AccountHeight e) (points c) ->
  exists c', rollback_loop fuel c e = Ret (c', Some "not exist snapshot point.") /\ points c' = [].
Proof.
  revert c. induction fuel as [|fuel IH]; intros c Hf Hall; [lia|].
  cbn [rollback_loop]. rewrite peek_points.
  destruct (points c) as [|p ps] eqn:E; [by exists c|]. cbn [hd_error].
  inversion Hall; subst. rewrite decide_True, decide_False by lia.
  apply IH; rewrite points_pop, E; cbn in *; [lia|done].
Qed.
End rollback.

(** What rolling back snapshot points does.  On a chain whose points are
    ordered and whose top is the [start] point, with fuel for every point,
    [RollbackSnapshotPoint] returns.  An end point below the top (an older
    snapshot to go back to) pops nothing and still returns no error; an end
    point at the account height of the top pops exactly the top, whatever other
    points share that height; and an end point above the top pops them all and fails. *)
Theorem rollback_snapshot_points {St} `{HS : Stack St, !StackLaws St}
    fuel (c : AccountChain.accountChain St) (top e : SnapshotPoint) ps :
  points_ordered c -> points c = top :: ps -> (length (points c) < fuel)%nat ->
  let r := AccountChain.RollbackSnapshotPoint fuel c (Some top) (Some e) in
  (AccountHeight e < AccountHeight top -> r = Ret (c, None)) /\
  (AccountHeight e = AccountHeight top -> exists c', r = Ret (c', None) /\ points c' = ps) /\
  (AccountHeight top < AccountHeight e ->
     exists c', r = Ret (c', Some "not exist snapshot point.") /\ points c' = []).
Proof.
  intros Ho Hp Hf. unfold AccountChain.RollbackSnapshotPoint.
  rewrite peek_points, Hp. cbn [hd_error].
  assert (Eq : SnapshotPoint_Equals top (Some top) = true) by (by apply SnapshotPoint_Equals_spec).
  rewrite Eq. cbn [deref]. rewrite bind_ret_l. destruct fuel as [|fuel]; [lia|].
  split; [|split].
  - intros Hlt. cbn [AccountChain.rollback_loop]. rewrite peek_points, Hp. cbn [hd_error].
    by rewrite decide_False by lia.
  - intros Heq. cbn [AccountChain.rollback_loop]. rewrite peek_points, Hp. cbn [hd_error].
    rewrite !decide_True by lia. eexists. split; [done|]. by rewrite points_pop, Hp.
  - intros Hlt. apply rollback_loop_empties; [done|].
    unfold points_ordered in Ho. rewrite Hp in *. inversion Ho as [|? ? _ Hall]; subst.
    constructor; [done|]. eapply Forall_impl; [exact Hall|]. intros q [_ Hq]. lia.
Qed.

Lemma rollback_snapshot_points_witness :
  let p1 := mkSnapshotPoint 1 "s1" 0 "h1" in let p2 := mkSnapshotPoint 2 "s2" 5 "h5" in
  let c := AccountChain.mk "bob" None DefaultChainListener [p2; p1] in
  AccountChain.RollbackSnapshotPoint 3 c (Some p2) (Some p1) = Ret (c, None).
Proof.
  intros p1 p2 c.
  apply (rollback_snapshot_points 3 c p2 p1 [p1]); [|reflexivity|cbn; lia|cbn; lia].
  repeat constructor; cbn; lia.
Defined.
