(* ===== verification/Reader.v ===== *)
(** * Reader: what the chain promises to its readers ([common/face/chain.go])

    [ChainReader] is the interface the verifiers, the pools, the miner and the
    syncer read the chain through; [Blockchain] implements it.  Reading creates
    the cached account chain of an address on first use ([selfAc]): the
    equivalence on block chains below forgets that cache, reading does not leave
    its class, and every read respects it. *)
From S2P Require Import Prelude.
From S2P Require Import Common.
From S2P Require Import Store.
From S2P Require Import Chain.

Class ChainReader (R : Type) := {
  reader_GenesisSnapshot : R -> SnapshotBlock * error;
  reader_HeadSnapshot : R -> option SnapshotBlock * error;
  reader_GetSnapshotByHashH : R -> HashHeight -> option SnapshotBlock;
  reader_GetSnapshotByHash : R -> string -> option SnapshotBlock;
  reader_GetSnapshotByHeight : R -> Z -> outcome (option SnapshotBlock);
  reader_HeadAccount : R -> string -> option AccountStateBlock * error;
  reader_GetAccountByHashH : R -> string -> HashHeight -> option AccountStateBlock;
  reader_GetAccountByHash : R -> string -> string -> option AccountStateBlock;
  reader_GetAccountByHeight : R -> string -> Z -> option AccountStateBlock;
  reader_GetAccountBySourceHash : R -> string -> string -> outcome (option AccountStateBlock);
  reader_FindAccountAboveSnapshotHeight : R -> string -> Z -> outcome (option AccountStateBlock)
}.

(** A block found under a hash and height carries that hash. *)
Class ChainReaderLaws (R : Type) `{ChainReader R} := {
  reader_SnapshotByHashH_hash r hh b :
    reader_GetSnapshotByHashH r hh = Some b -> Hash b = hh_Hash hh;
  reader_AccountByHashH_hash r a hh b :
    reader_GetAccountByHashH r a hh = Some b -> Hash b = hh_Hash hh
}.

Section instance.
Context {St : Type} `{Stack St} {L : Type} `{ChainListener L}.
Import Blockchain.
Implicit Types (bc : blockchain St L).

(** The state a read leaves behind is dropped: [reads_invisible] is why this is sound. *)
Definition snd_outcome {A B} (m : outcome (A * B)) : outcome B := '(_, b) ← m; Ret b.

#[export] Instance Blockchain_ChainReader : ChainReader (blockchain St L) := {|
  reader_GenesisSnapshot := GenesisSnapshot;
  reader_HeadSnapshot := HeadSnapshot;
  reader_GetSnapshotByHashH := GetSnapshotByHashH;
  reader_GetSnapshotByHash := GetSnapshotByHash_;
  reader_GetSnapshotByHeight := GetSnapshotByHeight_;
  reader_HeadAccount bc a := snd (HeadAccount bc a);
  reader_GetAccountByHashH bc a hh := snd (GetAccountByHashH bc a hh);
  reader_GetAccountByHash bc a x := snd (GetAccountByHash_ bc a x);
  reader_GetAccountByHeight bc a h := snd (GetAccountByHeight_ bc a h);
  reader_GetAccountBySourceHash bc a x := snd_outcome (GetAccountBySourceHash_ bc a x);
  reader_FindAccountAboveSnapshotHeight bc a h :=
    snd_outcome (FindAccountAboveSnapshotHeight bc a h)
|}.

(** Two block chains that differ only in which account chains they have cached. *)
#[export] Instance blockchain_equiv : Equiv (blockchain St L) := fun bc bc' =>
  sc bc = sc bc' /\ store bc = store bc' /\ listener bc = listener bc' /\
  listenerState bc = listenerState bc' /\
  forall a, snd (selfAc bc a) = snd (selfAc bc' a).

#[export] Instance blockchain_equivalence : Equivalence (≡@{blockchain St L}).
Proof.
  split.
  - intros bc. by repeat split.
  - intros bc bc' (? & ? & ? & ? & E). split_and!; [done..|]. intros a. symmetry. apply E.
  - intros x y z (A1 & A2 & A3 & A4 & A5) (B1 & B2 & B3 & B4 & B5).
    split_and!; [congruence..|]. intros a. by rewrite A5, B5.
Qed.

(** Caching a chain does not change the class. *)
Lemma selfAc_equiv bc a : fst (selfAc bc a) ≡ bc.
Proof.
  unfold selfAc. destruct (ac bc !! a) as [c|] eqn:E; [done|].
  repeat split. intros a'. unfold selfAc. cbn [fst set_ac ac].
  destruct (decide (a = a')) as [<-|Hne]; [by rewrite lookup_insert_eq, E|].
  rewrite lookup_insert_ne by done. by destruct (ac bc !! a').
Qed.

Lemma selfAc_fields bc a :
  sc (fst (selfAc bc a)) = sc bc /\ store (fst (selfAc bc a)) = store bc /\
  listener (fst (selfAc bc a)) = listener bc /\ listenerState (fst (selfAc bc a)) = listenerState bc.
Proof. unfold selfAc. by destruct (ac bc !! a). Qed.

Lemma HeadAccount_eq bc a :
  HeadAccount bc a = (fst (selfAc bc a), (AccountChain.Head (snd (selfAc bc a)), None)).
Proof. unfold HeadAccount. by destruct (selfAc bc a). Qed.

Lemma GetAccountByHeight_eq bc a h :
  snd (GetAccountByHeight_ bc a h) = AccountChain.GetBlockByHeight (store bc) (snd (selfAc bc a)) h.
Proof.
  unfold GetAccountByHeight_. pose proof (selfAc_fields bc a) as (_ & Hs & _).
  destruct (selfAc bc a) as [bc' c]; cbn in *. by rewrite Hs.
Qed.
Lemma GetAccountByHashH_eq bc a h :
  snd (GetAccountByHashH bc a h) = AccountChain.GetBlockByHashH (store bc) (snd (selfAc bc a)) h.
Proof.
  unfold GetAccountByHashH. pose proof (selfAc_fields bc a) as (_ & Hs & _).
  destruct (selfAc bc a) as [bc' c]; cbn in *. by rewrite Hs.
Qed.
Lemma GetAccountByHash_eq bc a x :
  snd (GetAccountByHash_ bc a x) = GetAccountByHash (store bc) x.
Proof.
  unfold GetAccountByHash_. pose proof (selfAc_fields bc a) as (_ & Hs & _).
  destruct (selfAc bc a) as [bc' c]; cbn in *. by rewrite Hs.
Qed.
(** The block of the source index is never returned: only what the backward
    search of the named account finds. *)
Lemma GetAccountBySourceHash_eq bc a x :
  snd_outcome (GetAccountBySourceHash_ bc a x) =
  AccountChain.getBySourceBlock (store bc) (snd (selfAc bc a)) x.
Proof.
  unfold GetAccountBySourceHash_, snd_outcome. pose proof (selfAc_fields bc a) as (_ & Hs & _).
  destruct (selfAc bc a) as [bc' c]; cbn in *. rewrite Hs.
  destruct (AccountChain.getBySourceBlock (store bc) c x) as [[b2|]| |]; cbn; try done;
    by destruct (GetAccountBySourceHash (store bc) x).
Qed.
Lemma FindAccountAbove_eq bc a h :
  snd_outcome (FindAccountAboveSnapshotHeight bc a h) =
  AccountChain.findAccountAboveSnapshotHeight (store bc) (snd (selfAc bc a)) h.
Proof.
  unfold FindAccountAboveSnapshotHeight, snd_outcome. pose proof (selfAc_fields bc a) as (_ & Hs & _).
  destruct (selfAc bc a) as [bc' c]; cbn in *. rewrite Hs.
  by destruct (AccountChain.findAccountAboveSnapshotHeight (store bc) c h).
Qed.

#[export] Instance HeadSnapshot_proper : Proper ((≡) ==> (=)) (reader_HeadSnapshot (R := blockchain St L)).
Proof. intros bc bc' (Hc & _). cbn. unfold HeadSnapshot. by rewrite Hc. Qed.
#[export] Instance HeadAccount_proper :
  Proper ((≡) ==> (=) ==> (=)) (reader_HeadAccount (R := blockchain St L)).
Proof. intros bc bc' (_ & _ & _ & _ & Ha) a ? <-. cbn. by rewrite !HeadAccount_eq, Ha. Qed.
#[export] Instance GetSnapshotByHashH_proper :
  Proper ((≡) ==> (=) ==> (=)) (reader_GetSnapshotByHashH (R := blockchain St L)).
Proof. intros bc bc' (_ & Hs & _) a ? <-. cbn. unfold GetSnapshotByHashH. by rewrite Hs. Qed.
#[export] Instance GetAccountByHeight_proper :
  Proper ((≡) ==> (=) ==> (=) ==> (=)) (reader_GetAccountByHeight (R := blockchain St L)).
Proof.
  intros bc bc' (_ & Hs & _ & _ & Ha) a ? <- h ? <-. cbn. by rewrite !GetAccountByHeight_eq, Hs, Ha.
Qed.
#[export] Instance GetAccountByHash_proper :
  Proper ((≡) ==> (=) ==> (=) ==> (=)) (reader_GetAccountByHash (R := blockchain St L)).
Proof.
  intros bc bc' (_ & Hs & _) a ? <- h ? <-. cbn. by rewrite !GetAccountByHash_eq, Hs.
Qed.
#[export] Instance GetAccountBySourceHash_proper :
  Proper ((≡) ==> (=) ==> (=) ==> (=)) (reader_GetAccountBySourceHash (R := blockchain St L)).
Proof.
  intros bc bc' (_ & Hs & _ & _ & Ha) a ? <- h ? <-. cbn. by rewrite !GetAccountBySourceHash_eq, Hs, Ha.
Qed.

#[export] Instance GetAccountByHashH_proper :
  Proper ((≡) ==> (=) ==> (=) ==> (=)) (reader_GetAccountByHashH (R := blockchain St L)).
Proof.
  intros bc bc' (_ & Hs & _ & _ & Ha) a ? <- h ? <-. cbn. by rewrite !GetAccountByHashH_eq, Hs, Ha.
Qed.
#[export] Instance FindAccountAbove_proper :
  Proper ((≡) ==> (=) ==> (=) ==> (=)) (reader_FindAccountAboveSnapshotHeight (R := blockchain St L)).
Proof.
  intros bc bc' (_ & Hs & _ & _ & Ha) a ? <- h ? <-. cbn. by rewrite !FindAccountAbove_eq, Hs, Ha.
Qed.
#[export] Instance GetSnapshotByHash_proper :
  Proper ((≡) ==> (=) ==> (=)) (reader_GetSnapshotByHash (R := blockchain St L)).
Proof. intros bc bc' (_ & Hs & _) x ? <-. cbn. unfold GetSnapshotByHash_. by rewrite Hs. Qed.
#[export] Instance GetSnapshotByHeight_proper :
  Proper ((≡) ==> (=) ==> (=)) (reader_GetSnapshotByHeight (R := blockchain St L)).
Proof. intros bc bc' (_ & Hs & _) h ? <-. cbn. unfold GetSnapshotByHeight_. by rewrite Hs. Qed.

#[export] Instance Blockchain_ChainReaderLaws : ChainReaderLaws (blockchain St L).
Proof.
  split; cbn.
  - intros bc hh b. unfold GetSnapshotByHashH, SnapshotChain.GetBlockByHashH.
    case_decide; [done|]. destruct (GetSnapshotByHeight _ _) as [b'|]; [|done].
    case_decide as E; [|done]. by intros [= <-].
  - intros bc a hh b. rewrite GetAccountByHashH_eq. unfold AccountChain.GetBlockByHashH.
    case_decide; [done|]. destruct (GetAccountByHeight _ _ _) as [b'|]; [|done].
    case_decide as E; [|done]. by intros [= <-].
Qed.
End instance.

