(* ===== verification/Verifier.v ===== *)
(** * Verifier: what a block must satisfy to enter the chain ([verifier/])

    [AccountVerifier] models [verifier/account_verifier.go], [SnapshotVerifier]
    [verifier/snapshot_verifier.go]; the results and tasks are those of
    [verifier/verifier.go].  The verifiers read the chain through the interface
    [ChainReader]; the fork version and the clock are arguments.  A verification
    whose referred blocks are missing is pending, and its task names the blocks
    to fetch. *)
From S2P Require Import Prelude.
From S2P Require Import Common.
From S2P Require Import Store.
From S2P Require Import Chain.
From S2P Require Import Reader.

(** ** Results and tasks *)
Inductive VerifyResult := PENDING | FAIL | SUCCESS.
#[export] Instance VerifyResult_eq_dec : EqDecision VerifyResult.
Proof. solve_decision. Defined.

Definition VerifyResult_Done (self : VerifyResult) : bool :=
  if decide (self = FAIL \/ self = SUCCESS) then true else false.

Definition Second : Z := 1000000000.

(** [accountPendingTask] and [snapshotPendingTask] keep the result they once found. *)
Inductive pendingTask :=
| accountPendingTask (result : bool) (request : FetchRequest)
| snapshotPendingTask (result : bool) (request : FetchRequest).

Record verifyTask := mkVerifyTask {
  tasks : list pendingTask;
  task_version : Z;
  task_fail : bool;
  task_t : Z
}.

Inductive Task :=
| successTask
| failTask (t : Z)
| aVerifyTask (task : verifyTask).

Definition NewFailTask (now : Z) : Task := failTask now.
Definition NewSuccessTask : Task := successTask.

Definition pendingTask_request (p : pendingTask) : FetchRequest :=
  match p with accountPendingTask _ r | snapshotPendingTask _ r => r end.
Definition pendingTask_Requests (p : pendingTask) : list FetchRequest :=
  match p with
  | accountPendingTask _ request => [request]
  | snapshotPendingTask _ request => [request]
  end.
Definition verifyTask_Requests (self : verifyTask) : list FetchRequest :=
  concat (map pendingTask_Requests (tasks self)).
Definition Task_Requests (t : Task) : list FetchRequest :=
  match t with
  | successTask | failTask _ => []
  | aVerifyTask task => verifyTask_Requests task
  end.

Definition add_task (self : verifyTask) (p : pendingTask) : verifyTask :=
  {| tasks := tasks self ++ [p]; task_version := task_version self;
     task_fail := task_fail self; task_t := task_t self |}.

Definition pendingSnapshot (self : verifyTask) (hash : string) (height : Z) : verifyTask :=
  let request := {| fr_Chain := ""; fr_Hash := hash; fr_Height := height; fr_PrevCnt := 1 |} in
  add_task self (snapshotPendingTask false request).
Definition pendingAccount (self : verifyTask) (addr : string) (height : Z) (hash : string)
    (prevCnt : Z) : verifyTask :=
  let request := {| fr_Chain := addr; fr_Hash := hash; fr_Height := height; fr_PrevCnt := prevCnt |} in
  add_task self (accountPendingTask false request).

Section tasks.
Context {R : Type} `{ChainReader R}.

(** [Done] of the two pending tasks, with the task it leaves behind. *)
Definition pendingTask_Done (reader : R) (self : pendingTask) : pendingTask * bool :=
  match self with
  | accountPendingTask true r => (self, true)
  | accountPendingTask false r =>
      let '(block, e) := reader_HeadAccount reader (fr_Chain r) in
      match e, block with
      | None, Some b => if decide (fr_Height r <= Height b) then (accountPendingTask true r, true)
                        else (self, false)
      | _, _ => (self, false)
      end
  | snapshotPendingTask true r => (self, true)
  | snapshotPendingTask false r =>
      let '(block, e) := reader_HeadSnapshot reader in
      match e, block with
      | None, Some b => if decide (fr_Height r <= Height b) then (snapshotPendingTask true r, true)
                        else (self, false)
      | _, _ => (self, false)
      end
  end.

(** The loop over the pending tasks: it stops at the first that is not done. *)
Fixpoint pending_Done (reader : R) (ts : list pendingTask) : list pendingTask * bool :=
  match ts with
  | [] => ([], true)
  | t :: ts =>
      let '(t, d) := pendingTask_Done reader t in
      if (d : bool) then let '(ts, d) := pending_Done reader ts in (t :: ts, d)
      else (t :: ts, false)
  end.

(** [val] is the current fork version, [now] the time of the call. *)
Definition verifyTask_Done (reader : R) (val now : Z) (self : verifyTask) : verifyTask * bool :=
  if decide (val <> task_version self) then (self, true)
  else if decide (task_t self + 5 * Second < now) then (self, true)
  else if task_fail self then (self, false)
  else
    let '(ts, d) := pending_Done reader (tasks self) in
    ({| tasks := ts; task_version := task_version self; task_fail := task_fail self;
        task_t := task_t self |}, d).

Definition Task_Done (reader : R) (val now : Z) (t : Task) : Task * bool :=
  match t with
  | successTask => (t, true)
  | failTask t0 => (t, if decide (t0 + 3 * Second < now) then true else false)
  | aVerifyTask task => let '(task, d) := verifyTask_Done reader val now task in (aVerifyTask task, d)
  end.
End tasks.

(** ** Account blocks *)
Module AccountVerifier.
Record AccountBlockVerifyStat := mkStat {
  referredSnapshotResult : VerifyResult;
  referredSelfResult : VerifyResult;
  referredFromResult : VerifyResult;
  errMsg : string;
  task : verifyTask
}.

Definition set_snapshotResult (s : AccountBlockVerifyStat) r :=
  mkStat r (referredSelfResult s) (referredFromResult s) (errMsg s) (task s).
Definition set_selfResult (s : AccountBlockVerifyStat) r :=
  mkStat (referredSnapshotResult s) r (referredFromResult s) (errMsg s) (task s).
Definition set_fromResult (s : AccountBlockVerifyStat) r :=
  mkStat (referredSnapshotResult s) (referredSelfResult s) r (errMsg s) (task s).
Definition set_errMsg (s : AccountBlockVerifyStat) m :=
  mkStat (referredSnapshotResult s) (referredSelfResult s) (referredFromResult s) m (task s).
Definition set_task (s : AccountBlockVerifyStat) t :=
  mkStat (referredSnapshotResult s) (referredSelfResult s) (referredFromResult s) (errMsg s) t.

(** [Task]: the task of an account verification is never nil. *)
Definition Task_ (self : AccountBlockVerifyStat) : option Task := Some (aVerifyTask (task self)).
Definition ErrMsg (self : AccountBlockVerifyStat) : string := errMsg self.

Definition VerifyResult_ (self : AccountBlockVerifyStat) : VerifyResult :=
  if decide (referredSelfResult self = FAIL \/ referredFromResult self = FAIL \/
             referredSnapshotResult self = FAIL) then FAIL
  else if decide (referredSelfResult self = SUCCESS /\ referredFromResult self = SUCCESS /\
                  referredSnapshotResult self = SUCCESS) then SUCCESS
  else PENDING.

Definition Reset (self : AccountBlockVerifyStat) : AccountBlockVerifyStat :=
  mkStat PENDING PENDING PENDING (errMsg self) (task self).

(** [val]: the fork version; [now]: the time. *)
Definition newVerifyStat (val now : Z) : AccountBlockVerifyStat :=
  {| referredSnapshotResult := PENDING; referredSelfResult := PENDING;
     referredFromResult := PENDING; errMsg := "";
     task := {| tasks := []; task_version := val; task_fail := false; task_t := now |} |}.

(** The prefix ["block[signer][height][hash]"] of the messages. *)
Definition blockName (block : AccountStateBlock) : string :=
  "block[" +:+ Signer block +:+ "][" +:+ Itoa (Height block) +:+ "][" +:+ Hash block +:+ "]".

Section verifier.
Context {R : Type} `{ChainReader R}.
Implicit Types (reader : R) (block : AccountStateBlock) (stat : AccountBlockVerifyStat).

Definition verifyGenesis reader block stat : AccountBlockVerifyStat * bool :=
  let '(genesis, _) := reader_GenesisSnapshot reader in
  if decide (Exists (fun a => ah_Hash a = Hash block /\ ah_Height a = Height block) (Accounts genesis))
  then (set_snapshotResult (set_selfResult (set_fromResult stat SUCCESS) SUCCESS) SUCCESS, true)
  else (set_selfResult stat FAIL, true).

Definition checkGenesis reader block : VerifyResult :=
  let '(head, _) := reader_HeadAccount reader (Signer block) in
  match head with
  | Some _ => FAIL
  | None =>
      if decide (PreHash block <> "" \/ ModifiedAmount block <> Amount block) then FAIL else SUCCESS
  end.

Definition checkSelfAmount reader block stat : AccountBlockVerifyStat * VerifyResult :=
  let '(last, _) := reader_HeadAccount reader (Signer block) in
  match last with
  | None => (set_errMsg stat (blockName block +:+ " error, last block is nil."), FAIL)
  | Some last =>
      if decide (Hash last <> PreHash block) then
        (set_errMsg stat (blockName block +:+ " preHash[" +:+ PreHash block +:+
           "] error, last block hash is " +:+ Hash last +:+ "."), FAIL)
      else if decide (a_SnapshotHeight block < a_SnapshotHeight last) then
        (set_errMsg stat (blockName block +:+ " snapshot height[" +:+ Itoa (a_SnapshotHeight block) +:+
           "] error, last block snapshot height is " +:+ Itoa (a_SnapshotHeight last) +:+ "."), FAIL)
      else if decide (a_BlockType block = SEND /\ 0 < ModifiedAmount block) then
        (set_errMsg stat ("send " +:+ blockName block +:+ " modifiedAmount[" +:+
           Itoa (ModifiedAmount block) +:+ "] error."), FAIL)
      else if decide (a_BlockType block = RECEIVED /\ ModifiedAmount block < 0) then
        (set_errMsg stat ("RECEIVED " +:+ blockName block +:+ " modifiedAmount[" +:+
           Itoa (ModifiedAmount block) +:+ "] error."), FAIL)
      else if decide (wrap64 (Amount last + ModifiedAmount block) = Amount block /\ 0 < Amount block)
      then (stat, SUCCESS)
      else
        (set_errMsg stat ("block amount[" +:+ Signer block +:+ "][" +:+ Itoa (Height block) +:+ "][" +:+
           Hash block +:+ "] cal error. modifiedAmount:" +:+ Itoa (ModifiedAmount block) +:+
           ", Amount:" +:+ Itoa (Amount block) +:+ ", lastAmount:" +:+ Itoa (Amount last)), FAIL)
  end.

Definition verifySelf reader block stat : outcome (AccountBlockVerifyStat * bool) :=
  if decide (a_BlockType block = RECEIVED /\ Height block = 0) then
    let genesisCheck := checkGenesis reader block in
    let stat := set_selfResult stat genesisCheck in
    if decide (genesisCheck = FAIL) then
      Ret (set_errMsg stat (blockName block +:+ " error, genesis check fail."), true)
    else Ret (stat, false)
  else
    same ← (if decide (a_BlockType block = RECEIVED)
            then reader_GetAccountBySourceHash reader (To block) (SourceHash block)
            else Ret None);
    match same with
    | Some _ =>
        Ret (set_selfResult (set_errMsg stat (blockName block +:+ " error, send block has received."))
               FAIL, true)
    | None =>
        let '(stat, selfAmount) := checkSelfAmount reader block stat in
        let stat := set_selfResult stat selfAmount in
        Ret (stat, if decide (selfAmount = FAIL) then true else false)
    end.

Definition checkFromAmount reader block stat : AccountBlockVerifyStat * VerifyResult :=
  let source := reader_GetAccountByHeight reader (From block) (SourceHeight block) in
  let source2 := reader_GetAccountByHash reader (From block) (SourceHash block) in
  let differ := match source, source2 with
                | Some source, Some source2 => bool_decide (Hash source2 <> Hash source)
                | _, _ => false
                end in
  if differ then (stat, FAIL)
  else match source with
  | None =>
      (set_task stat (pendingAccount (task stat) (From block) (SourceHeight block) (SourceHash block) 1),
       PENDING)
  | Some source =>
      if decide (Hash source <> SourceHash block) then
        (set_errMsg stat (blockName block +:+ " error, source hash[" +:+ SourceHash block +:+ "][" +:+
           Hash source +:+ "] error."), FAIL)
      else if decide (a_SnapshotHeight block < a_SnapshotHeight source) then
        (set_errMsg stat (blockName block +:+ " error, [received snapshot height]" +:+
           Itoa (a_SnapshotHeight block) +:+
           " must be greater or equal to [send snapshot height]" +:+
           Itoa (a_SnapshotHeight source) +:+ "."), FAIL)
      else if decide (wrap64 (ModifiedAmount source + ModifiedAmount block) = 0) then (stat, SUCCESS)
      else
        (set_errMsg stat (blockName block +:+ " error, modifiedAmount[" +:+
           Itoa (ModifiedAmount source) +:+ "][" +:+ Itoa (ModifiedAmount block) +:+ "] cal fail."), FAIL)
  end.

Definition verifyFrom reader block stat : AccountBlockVerifyStat * bool :=
  if decide (a_BlockType block = RECEIVED) then
    let '(stat, fromAmount) := checkFromAmount reader block stat in
    let stat := set_fromResult stat fromAmount in
    (stat, if decide (fromAmount = FAIL) then true else false)
  else (set_fromResult stat SUCCESS, false).

Definition verifySnapshot reader block stat : AccountBlockVerifyStat * bool :=
  let snapshotHeight := a_SnapshotHeight block in
  let snapshotHash := a_SnapshotHash block in
  match reader_GetSnapshotByHashH reader (mkHashHeight snapshotHash snapshotHeight) with
  | Some _ => (set_snapshotResult stat SUCCESS, false)
  | None =>
      (set_task (set_snapshotResult stat PENDING)
         (pendingSnapshot (task stat) snapshotHash snapshotHeight), false)
  end.

Definition VerifyReferred (val now : Z) reader block : outcome AccountBlockVerifyStat :=
  let stat := newVerifyStat val now in
  let '(stat, stop) :=
    if decide (a_BlockType block = GENESIS) then verifyGenesis reader block stat else (stat, false) in
  if (stop : bool) then Ret stat else
  let '(stat, stop) := verifySnapshot reader block stat in
  if (stop : bool) then Ret stat else
  '(stat, stop) ← verifySelf reader block stat;
  if (stop : bool) then Ret stat else
  let '(stat, stop) := verifyFrom reader block stat in
  Ret stat.
End verifier.
End AccountVerifier.

(** ** Snapshot blocks *)
Module SnapshotVerifier.
Record SnapshotBlockVerifyStat := mkStat {
  result : VerifyResult;
  accounts : list AccountHashH;
  results : gmap string VerifyResult;
  errMsg : string;
  task : option verifyTask
}.

Definition Task_ (self : SnapshotBlockVerifyStat) : option Task := aVerifyTask <$> task self.
Definition ErrMsg (self : SnapshotBlockVerifyStat) : string := errMsg self.
Definition Results (self : SnapshotBlockVerifyStat) : gmap string VerifyResult := results self.
Definition VerifyResult_ (self : SnapshotBlockVerifyStat) : VerifyResult := result self.
Definition Reset (self : SnapshotBlockVerifyStat) : SnapshotBlockVerifyStat :=
  mkStat PENDING (accounts self) ∅ (errMsg self) (task self).

Definition newVerifyStat (b : SnapshotBlock) : SnapshotBlockVerifyStat :=
  mkStat PENDING (Accounts b) ∅ "" None.

Section verifier.
Context {R : Type} `{ChainReader R}.
Implicit Types (reader : R).

(** The loop over the accounts: it goes on ([inl]) with the count, the results
    and the task so far, or returns ([inr]) at a wrong block. *)
Fixpoint verify_accounts reader (vs : list AccountHashH) (i : Z) (stat : SnapshotBlockVerifyStat)
    (task : verifyTask) : (Z * SnapshotBlockVerifyStat * verifyTask) + SnapshotBlockVerifyStat :=
  match vs with
  | [] => inl (i, stat, task)
  | v :: vs =>
      let set r := <[ah_Addr v := r]> (results stat) in
      match reader_GetAccountByHeight reader (ah_Addr v) (ah_Height v) with
      | None =>
          verify_accounts reader vs i
            (mkStat (result stat) (accounts stat) (set PENDING) (errMsg stat) (SnapshotVerifier.task stat))
            (pendingAccount task (ah_Addr v) (ah_Height v) (ah_Hash v) 1)
      | Some block =>
          if decide (Hash block = ah_Hash v) then
            verify_accounts reader vs (i + 1)
              (mkStat (result stat) (accounts stat) (set SUCCESS) (errMsg stat) (SnapshotVerifier.task stat))
              task
          else
            inr (mkStat FAIL (accounts stat) (set FAIL)
                   ("account block[" +:+ ah_Addr v +:+ "][" +:+ Itoa (ah_Height v) +:+ "][" +:+
                    ah_Hash v +:+ "] error.") (SnapshotVerifier.task stat))
      end
  end.

Definition VerifyReferred (val now : Z) reader (block : SnapshotBlock) : SnapshotBlockVerifyStat :=
  let stat := newVerifyStat block in
  let task := {| tasks := []; task_version := val; task_fail := false; task_t := now |} in
  match verify_accounts reader (Accounts block) 0 stat task with
  | inr stat => stat
  | inl (i, stat, task) =>
      if decide (i = Z.of_nat (length (Accounts block))) then
        mkStat SUCCESS (accounts stat) (results stat) (errMsg stat) (SnapshotVerifier.task stat)
      else mkStat (result stat) (accounts stat) (results stat) (errMsg stat) (Some task)
  end.
End verifier.
End SnapshotVerifier.
