(* ===== verification/VerifierSpec.v ===== *)
(** * VerifierSpec: what a successful verification establishes

    The verdicts of [Verifier] against declarative conditions on the chain
    ([snapshot_valid], [self_valid], [from_valid]), the arithmetic they imply,
    the two ways they let value be created, and the life of the tasks. *)
From S2P Require Import Prelude.
From S2P Require Import Common.
From S2P Require Import Store.
From S2P Require Import Chain.
From S2P Require Import Reader.
From S2P Require Import Verifier.

Section account.
Context {R : Type} `{ChainReader R}.
Import AccountVerifier.
Implicit Types (reader : R) (b : AccountStateBlock) (stat : AccountBlockVerifyStat).

(** The three conditions of an account block. *)
Definition snapshot_valid reader b : Prop :=
  exists s, reader_GetSnapshotByHashH reader
              (mkHashHeight (a_SnapshotHash b) (a_SnapshotHeight b)) = Some s.

Definition amounts_valid reader b : Prop :=
  exists last, fst (reader_HeadAccount reader (Signer b)) = Some last /\
    Hash last = PreHash b /\ a_SnapshotHeight last <= a_SnapshotHeight b /\
    (a_BlockType b = SEND -> ModifiedAmount b <= 0) /\
    (a_BlockType b = RECEIVED -> 0 <= ModifiedAmount b) /\
    wrap64 (Amount last + ModifiedAmount b) = Amount b /\ 0 < Amount b.

Definition self_valid reader b : Prop :=
  if decide (a_BlockType b = RECEIVED /\ Height b = 0) then
    fst (reader_HeadAccount reader (Signer b)) = None /\ PreHash b = "" /\
    ModifiedAmount b = Amount b
  else
    (a_BlockType b = RECEIVED ->
       reader_GetAccountBySourceHash reader (To b) (SourceHash b) = Ret None) /\
    amounts_valid reader b.

Definition from_valid reader b : Prop :=
  a_BlockType b = RECEIVED ->
  exists source, reader_GetAccountByHeight reader (From b) (SourceHeight b) = Some source /\
    Hash source = SourceHash b /\ a_SnapshotHeight source <= a_SnapshotHeight b /\
    wrap64 (ModifiedAmount source + ModifiedAmount b) = 0 /\
    forall source2, reader_GetAccountByHash reader (From b) (SourceHash b) = Some source2 ->
      Hash source2 = Hash source.

(** The source of a received block has not arrived: it may verify later. *)
Definition from_missing reader b : Prop :=
  a_BlockType b = RECEIVED /\ reader_GetAccountByHeight reader (From b) (SourceHeight b) = None.

(** Only the message of the record changes. *)
Lemma checkSelfAmount_spec reader b stat stat' r :
  checkSelfAmount reader b stat = (stat', r) ->
  referredSnapshotResult stat' = referredSnapshotResult stat /\
  r <> PENDING /\ (r = SUCCESS <-> amounts_valid reader b).
Proof.
  unfold checkSelfAmount, amounts_valid.
  destruct (reader_HeadAccount reader (Signer b)) as [[last|] e]; cbn [fst].
  2: { intros [= <- <-]. split; [done|]. split; [done|]. naive_solver. }
  repeat case_decide; intros [= <- <-]; (split; [done|split; [done|]]); split; try done;
    try (intros (? & [= <-] & ?); exfalso; intuition lia).
  intros _. exists last. split_and!; [done|tauto|lia|intros ?; lia|intros ?; lia|lia|lia].
Qed.

Lemma checkFromAmount_spec reader b stat stat' r :
  a_BlockType b = RECEIVED ->
  checkFromAmount reader b stat = (stat', r) ->
  referredSnapshotResult stat' = referredSnapshotResult stat /\
  referredSelfResult stat' = referredSelfResult stat /\
  (r = SUCCESS <-> from_valid reader b) /\
  (r = PENDING <-> reader_GetAccountByHeight reader (From b) (SourceHeight b) = None).
Proof.
  intros Ht. unfold checkFromAmount, from_valid.
  destruct (reader_GetAccountByHeight reader (From b) (SourceHeight b)) as [source|].
  2: { cbn. intros [= <- <-]. split_and!; try done. naive_solver. }
  destruct (reader_GetAccountByHash reader (From b) (SourceHash b)) as [source2|];
    [case_bool_decide as Hd|].
  1: intros [= <- <-]; split_and!; try done; naive_solver.
  all: repeat case_decide; intros [= <- <-]; (split; [done|split; [done|split; [|done]]]);
    split; try done; try (intros Hv; destruct (Hv Ht) as (? & [= <-] & ?); exfalso; intuition lia).
  all: intros _ _; exists source; split_and!; [done|tauto|lia|done|].
  - intros ? [= <-]. tauto.
  - done.
Qed.

Lemma verifySelf_spec reader b stat stat' stop :
  verifySelf reader b stat = Ret (stat', stop) ->
  referredSnapshotResult stat' = referredSnapshotResult stat /\
  referredSelfResult stat' <> PENDING /\
  (referredSelfResult stat' = SUCCESS <-> self_valid reader b) /\
  (stop = true <-> referredSelfResult stat' = FAIL).
Proof.
  unfold verifySelf, self_valid. case_decide as Hg.
  - unfold checkGenesis.
    destruct (reader_HeadAccount reader (Signer b)) as [[hd|] e]; cbn [fst].
    { intros [= <- <-]. split_and!; try done; naive_solver. }
    destruct (decide (PreHash b <> "" \/ ModifiedAmount b <> Amount b)) as [Hp|Hp];
      intros [= <- <-]; cbn; split_and!; try done.
    + split; [done|]. intros (_ & ? & ?). tauto.
    + split; [|done]. intros _. split; [done|]. split; apply dec_stable; tauto.
  - intros (same & Hs & E)%bind_ret_inv. destruct same as [sb|].
    + injection E as <- <-. cbn. split_and!; try done. split; [done|]. intros [Hr _].
      destruct (decide (a_BlockType b = RECEIVED)) as [Ht|]; [|done].
      rewrite (Hr Ht) in Hs. done.
    + destruct (checkSelfAmount reader b stat) as [s r] eqn:Ec.
      destruct (checkSelfAmount_spec _ _ _ _ _ Ec) as (H1 & H2 & H3).
      injection E as <- <-. cbn. split_and!; [done|done| |].
      * rewrite H3. split; [|tauto]. intros Ha. split; [|done]. intros Ht.
        by rewrite decide_True in Hs.
      * destruct (decide (r = FAIL)); split; naive_solver.
Qed.

Lemma verifyFrom_spec reader b stat stat' stop :
  verifyFrom reader b stat = (stat', stop) ->
  referredSnapshotResult stat' = referredSnapshotResult stat /\
  referredSelfResult stat' = referredSelfResult stat /\
  (referredFromResult stat' = SUCCESS <-> from_valid reader b) /\
  (referredFromResult stat' = PENDING <-> from_missing reader b).
Proof.
  unfold verifyFrom, from_missing. case_decide as Ht.
  - destruct (checkFromAmount reader b stat) as [s r] eqn:Ec. intros [= <- <-]. cbn.
    destruct (checkFromAmount_spec _ _ _ _ _ Ht Ec) as (? & ? & ? & ->). by split_and!; [..|tauto].
  - intros [= <- <-]. cbn. split_and!; try done; (split; [|by intuition]); [|done]. by intros _ ?.
Qed.

Lemma VerifyResult_SUCCESS stat :
  VerifyResult_ stat = SUCCESS <->
  referredSelfResult stat = SUCCESS /\ referredFromResult stat = SUCCESS /\
  referredSnapshotResult stat = SUCCESS.
Proof. unfold VerifyResult_. repeat case_decide; intuition congruence. Qed.

Lemma verifySnapshot_spec reader b stat stat' stop :
  verifySnapshot reader b stat = (stat', stop) ->
  stop = false /\ (referredSnapshotResult stat' = SUCCESS <-> snapshot_valid reader b) /\
  referredSnapshotResult stat' <> FAIL.
Proof.
  unfold verifySnapshot, snapshot_valid.
  destruct (reader_GetSnapshotByHashH _ _) as [s|]; intros [= <- <-]; cbn; split_and!; naive_solver.
Qed.

Lemma VerifyResult_PENDING stat :
  VerifyResult_ stat = PENDING <->
  referredSelfResult stat <> FAIL /\ referredFromResult stat <> FAIL /\ referredSnapshotResult stat <> FAIL /\
  VerifyResult_ stat <> SUCCESS.
Proof.
  rewrite VerifyResult_SUCCESS. unfold VerifyResult_. case_decide; [intuition congruence|].
  case_decide; intuition congruence.
Qed.

(** The verdict against the three conditions. *)
Lemma VerifyReferred_verdict val now reader b stat :
  a_BlockType b <> GENESIS ->
  VerifyReferred val now reader b = Ret stat ->
  (VerifyResult_ stat = SUCCESS <->
   snapshot_valid reader b /\ self_valid reader b /\ from_valid reader b) /\
  (VerifyResult_ stat = PENDING <->
   self_valid reader b /\ (from_valid reader b \/ from_missing reader b) /\
   ~ (snapshot_valid reader b /\ from_valid reader b)).
Proof.
  intros Hg. unfold VerifyReferred. rewrite decide_False by done.
  destruct (verifySnapshot reader b _) as [s1 stop1] eqn:E1.
  destruct (verifySnapshot_spec _ _ _ _ _ E1) as (-> & Hs & Hsf).
  intros ((s2 & stop2) & E2 & E)%bind_ret_inv.
  destruct (verifySelf_spec _ _ _ _ _ E2) as (Hp & Hn & Hv & Hstop).
  rewrite VerifyResult_PENDING, VerifyResult_SUCCESS. destruct stop2.
  - injection E as <-. destruct Hstop as [Hf _]. rewrite Hf in * by done. naive_solver.
  - destruct (verifyFrom reader b s2) as [s3 stop3] eqn:E3.
    destruct (verifyFrom_spec _ _ _ _ _ E3) as (H1 & H2 & H3 & H4).
    assert (Hself : referredSelfResult s2 <> FAIL) by (intros Hf; by apply Hstop in Hf).
    assert (Hself' : self_valid reader b) by (apply Hv; by destruct (referredSelfResult s2)).
    injection E as <-. rewrite H1, H2, Hp, Hs, Hv, H3, <- H4, <- H3.
    split; [tauto|]. destruct (referredFromResult s3); naive_solver.
Qed.

Lemma VerifyReferred_spec val now reader b stat :
  a_BlockType b <> GENESIS ->
  VerifyReferred val now reader b = Ret stat ->
  VerifyResult_ stat = SUCCESS <->
  snapshot_valid reader b /\ self_valid reader b /\ from_valid reader b.
Proof. intros Hg E. by apply (VerifyReferred_verdict val now reader b stat). Qed.
End account.

(** Verification returns as soon as the search for an earlier receipt does. *)
Lemma VerifyReferred_returns {R} `{ChainReader R} val now (reader : R) b :
  a_BlockType b <> GENESIS ->
  returns (reader_GetAccountBySourceHash reader (To b) (SourceHash b)) ->
  returns (AccountVerifier.VerifyReferred val now reader b).
Proof.
  intros Hg [same Hs]. unfold AccountVerifier.VerifyReferred, AccountVerifier.verifySelf. rewrite Hs.
  rewrite (decide_False (P := a_BlockType b = GENESIS)) by done.
  destruct (AccountVerifier.verifySnapshot _ _ _) as [s1 [|]]; [by eexists|].
  assert (K : forall m : outcome (AccountVerifier.AccountBlockVerifyStat * bool), returns m ->
    returns ('(stat, stop) ← m; if (stop : bool) then Ret stat else
      let '(stat, stop) := AccountVerifier.verifyFrom reader b stat in Ret stat)).
  { intros ? [[s [|]] ->]; rewrite bind_ret_l; [by eexists|].
    destruct (AccountVerifier.verifyFrom _ _ _). by eexists. }
  apply K. case_decide; [case_decide; by eexists|].
  case_decide; rewrite bind_ret_l; [destruct same as [|]; [by eexists|]|];
    destruct (AccountVerifier.checkSelfAmount _ _ _); by eexists.
Qed.

(** C5: the verdict on an account block.  For a block that is not of the genesis type
    and any chain whose source search returns, verification returns.  It says SUCCESS
    exactly if three conditions hold.  One: the chain has the referred snapshot block
    under that hash and height.  Two: a received block of height 0 finds its signer
    without a head, has an empty previous hash and the modified amount as amount; any
    other has the head's hash as previous hash, no lower snapshot height, a modified
    amount with the sign of its type and a positive amount that adds up in 64 bits,
    and, if received, finds no earlier receipt of its source hash on the chain of the
    account it is addressed to.  Three: if received, the block at the named height of
    the named account has the named hash, no higher snapshot height and the opposite
    modified amount; its type is not asked.  It says PENDING exactly if two holds,
    three holds or the source block is missing, and it does not succeed; otherwise
    FAIL. *)
Theorem account_verifier_correct {R} `{ChainReader R} val now (reader : R) b :
  a_BlockType b <> GENESIS ->
  returns (reader_GetAccountBySourceHash reader (To b) (SourceHash b)) ->
  exists stat, AccountVerifier.VerifyReferred val now reader b = Ret stat /\
    (AccountVerifier.VerifyResult_ stat = SUCCESS <->
     snapshot_valid reader b /\ self_valid reader b /\ from_valid reader b) /\
    (AccountVerifier.VerifyResult_ stat = PENDING <->
     self_valid reader b /\ (from_valid reader b \/ from_missing reader b) /\
     ~ (snapshot_valid reader b /\ from_valid reader b)).
Proof.
  intros Hg Hs. destruct (VerifyReferred_returns val now reader b Hg Hs) as [stat E].
  exists stat. split; [done|]. by eapply VerifyReferred_verdict.
Qed.

(** C24: amounts of verified blocks are exact.  When a block other than the first
    of its account verifies on a chain whose head block for the account has a
    positive amount, the new amount is the old amount plus the modified amount
    without 64-bit overflow, and is positive; if it is a received block, its source is a
    block of the source account whose modified amount is exactly the opposite. *)
Theorem verified_amounts_exact {R} `{ChainReader R} val now (reader : R) b stat last :
  a_BlockType b <> GENESIS -> Height b <> 0 -> in64 (ModifiedAmount b) ->
  fst (reader_HeadAccount reader (Signer b)) = Some last -> 0 < Amount last -> in64 (Amount last) ->
  AccountVerifier.VerifyReferred val now reader b = Ret stat ->
  AccountVerifier.VerifyResult_ stat = SUCCESS ->
  Amount b = Amount last + ModifiedAmount b /\ 0 < Amount b /\
  (a_BlockType b = RECEIVED ->
     exists source, reader_GetAccountByHeight reader (From b) (SourceHeight b) = Some source /\
       Hash source = SourceHash b /\
       (in64 (ModifiedAmount source) -> ModifiedAmount source = - ModifiedAmount b)).
Proof.
  intros Hg Hh Hm Hl Hpos Hla E Hs.
  apply (VerifyReferred_spec _ _ _ _ _ Hg E) in Hs as (_ & Hself & Hfrom).
  unfold self_valid in Hself. rewrite decide_False in Hself by tauto.
  destruct Hself as (_ & last' & Hl' & _ & _ & _ & Hrecv & Ha & Hap).
  rewrite Hl in Hl'. injection Hl' as <-.
  assert (K : forall z, - 2 ^ 63 <= z < 2 ^ 64 -> 0 <= wrap64 z -> wrap64 z = z).
  { intros z Hz Hw. apply wrap64_id. split; [lia|]. unfold wrap64, wrap in Hw.
    destruct (Z_lt_le_dec z (2 ^ 63)) as [|Hge]; [done|].
    rewrite Z.mod_small in Hw by lia. case_decide; lia. }
  unfold in64 in *. assert (Amount b = Amount last + ModifiedAmount b) as Hsum.
  { rewrite <- Ha. apply K; [lia|]. lia. }
  split; [done|]. split; [done|]. intros Ht.
  destruct (Hfrom Ht) as (source & Hsrc & Hx & _ & Hz & _).
  exists source. split; [done|]. split; [done|]. intros Hsm.
  specialize (Hrecv Ht). rewrite K in Hz by lia. lia.
Qed.

(** C40: a block of an unknown type creates value.  The sign of the modified
    amount is checked for SEND and RECEIVED blocks only, and only a RECEIVED
    block needs a source.  So whatever the chain, an account with a head block
    can add any positive amount that fits to its balance: a block of type 3 that
    continues the account under a known snapshot verifies. *)
Theorem unknown_block_type_mints {R} `{ChainReader R} val now (reader : R) b last m :
  a_BlockType b = 3 -> fst (reader_HeadAccount reader (Signer b)) = Some last ->
  PreHash b = Hash last -> a_SnapshotHeight last <= a_SnapshotHeight b ->
  snapshot_valid reader b ->
  0 <= Amount last -> 0 < m -> Amount last + m < 2 ^ 63 ->
  ModifiedAmount b = m -> Amount b = Amount last + m ->
  exists stat, AccountVerifier.VerifyReferred val now reader b = Ret stat /\
    AccountVerifier.VerifyResult_ stat = SUCCESS.
Proof.
  intros Ht Hl Hp Hsh Hsn H0 Hm Hmax Hmod Ham.
  assert (Hself : self_valid reader b).
  { unfold self_valid. rewrite Ht, decide_False by (intros [? _]; done). split; [done|].
    exists last. rewrite Ht. split_and!; try done; [|lia].
    rewrite Hmod, Ham. apply wrap64_id. unfold in64. lia. }
  assert (Hfrom : from_valid reader b) by (intros Hr; rewrite Ht in Hr; done).
  assert (exists stat, AccountVerifier.VerifyReferred val now reader b = Ret stat) as [stat E].
  { unfold AccountVerifier.VerifyReferred, AccountVerifier.verifySelf. rewrite Ht.
    rewrite (decide_False (P := 3 = GENESIS)) by done.
    destruct (AccountVerifier.verifySnapshot _ _ _) as [s1 [|]]; [by eexists|].
    rewrite (decide_False (P := 3 = RECEIVED /\ Height b = 0)) by (intros [? _]; done).
    rewrite (decide_False (P := 3 = RECEIVED)) by done. rewrite !bind_ret_l.
    destruct (AccountVerifier.checkSelfAmount _ _ _). rewrite bind_ret_l.
    case_decide; [by eexists|]. destruct (AccountVerifier.verifyFrom _ _ _). by eexists. }
  exists stat. split; [done|]. apply (VerifyReferred_spec _ _ _ _ _ ltac:(rewrite Ht; done) E). done.
Qed.

(** ** A concrete chain *)
Definition chain0 : Blockchain.blockchain (list SnapshotPoint) unit :=
  let g := SnapshotChain.genesisSnapshot in
  Blockchain.mk ∅ (SnapshotChain.mk (Some g))
    (SetSnapshotHead (PutSnapshot (NewMemoryStore g) g) (Some (mkHashHeight (Hash g) (Height g))))
    DefaultChainListener tt.

Lemma chain0_NewChain : Blockchain.NewChain tt = Ret chain0.
Proof. vm_compute. reflexivity. Qed.

Definition jie_genesis : string := "c3e7ab31e4834cf18df6705b96c655c845db44f4ee315c6fba5232b4f965fcf0".
Definition viteshan_genesis : string := "71cef9aa8a67df1055a0801e2fc251fe14a298b8fc1098a54e27db31f7a75e20".
Definition snapshot_genesis : string := Hash SnapshotChain.genesisSnapshot.

(** "jie" sends 10 to "viteshan", who receives it. *)
Definition send10 : AccountStateBlock :=
  NewAccountBlock 1 "send" jie_genesis "jie" 0 190 (-10) 0 snapshot_genesis SEND "jie" "viteshan" "" 0.
Definition receive1 : AccountStateBlock :=
  NewAccountBlock 1 "r1" viteshan_genesis "viteshan" 0 210 10 0 snapshot_genesis RECEIVED
    "jie" "viteshan" "send" 1.

(** Verify a block and insert it in its signer's chain. *)
Definition verify_insert {L} `{ChainListener L} (bc : Blockchain.blockchain (list SnapshotPoint) L)
    (b : AccountStateBlock) : option (Blockchain.blockchain (list SnapshotPoint) L) :=
  match AccountVerifier.VerifyReferred 0 0 bc b with
  | Ret stat =>
      if decide (AccountVerifier.VerifyResult_ stat = SUCCESS) then
        match Blockchain.InsertAccountBlock bc (Signer b) b with
        | Ret (bc, None) => Some bc
        | _ => None
        end
      else None
  | _ => None
  end.

Definition returns_b {A} (m : outcome A) : bool := match m with Ret _ => true | _ => false end.

Definition balance {L} `{ChainListener L} (bc : Blockchain.blockchain (list SnapshotPoint) L) (a : string) : Z :=
  match fst (reader_HeadAccount bc a) with Some b => Amount b | None => 0 end.

Lemma default_Some {A} (d : A) (o : option A) : bool_decide (is_Some o) = true -> o = Some (default d o).
Proof. destruct o; done. Qed.

(** The chain after the send block. *)
Definition chain1 := default chain0 (verify_insert chain0 send10).

Lemma account_verifier_correct_witness :
  exists stat, AccountVerifier.VerifyReferred 0 0 chain1 receive1 = Ret stat /\
  AccountVerifier.VerifyResult_ stat = SUCCESS /\
  snapshot_valid chain1 receive1 /\ self_valid chain1 receive1 /\ from_valid chain1 receive1.
Proof.
  destruct (account_verifier_correct 0 0 chain1 receive1) as (stat & E & Hs & _); [done| |].
  - exists None. vm_compute. reflexivity.
  - assert (R : AccountVerifier.VerifyResult_ stat = SUCCESS).
    { assert (K : match AccountVerifier.VerifyReferred 0 0 chain1 receive1 with
                  | Ret st => AccountVerifier.VerifyResult_ st = SUCCESS | _ => False end)
        by (vm_compute; reflexivity).
      by rewrite E in K. }
    exists stat. split; [exact E|]. split; [exact R|]. exact (proj1 Hs R).
Defined.

(** Reading a verdict off by evaluation. *)
Lemma verdict_SUCCESS (m : outcome AccountVerifier.AccountBlockVerifyStat) :
  match m with
  | Ret s => bool_decide (AccountVerifier.VerifyResult_ s = SUCCESS)
  | _ => false
  end = true ->
  exists stat, m = Ret stat /\ AccountVerifier.VerifyResult_ stat = SUCCESS.
Proof. destruct m as [s| |]; [|done..]. intros ?%bool_decide_eq_true. eauto. Qed.

Lemma verified_amounts_exact_witness :
  Amount receive1 = 200 + ModifiedAmount receive1 /\ 0 < Amount receive1.
Proof.
  destruct (verdict_SUCCESS (AccountVerifier.VerifyReferred 0 0 chain1 receive1)) as (stat & E & Hs).
  { vm_compute. reflexivity. }
  destruct (verified_amounts_exact 0 0 chain1 receive1 stat (genesisAccountBlock "viteshan"))
    as (H1 & H2 & _).
  - discriminate.
  - discriminate.
  - split; vm_compute; [discriminate | reflexivity].
  - vm_compute. reflexivity.
  - vm_compute. reflexivity.
  - split; vm_compute; [discriminate | reflexivity].
  - exact E.
  - exact Hs.
  - split; [exact H1 | exact H2].
Defined.

(** A block that adds 1000 to the balance of "jie" without a source. *)
Definition mint1000 : AccountStateBlock :=
  NewAccountBlock 1 "m" jie_genesis "jie" 0 1200 1000 0 snapshot_genesis 3 "" "" "" 0.

Lemma unknown_block_type_mints_witness :
  exists stat, AccountVerifier.VerifyReferred 0 0 chain0 mint1000 = Ret stat /\
  AccountVerifier.VerifyResult_ stat = SUCCESS.
Proof.
  apply (unknown_block_type_mints 0 0 chain0 mint1000 (genesisAccountBlock "jie") 1000).
  - reflexivity.
  - vm_compute. reflexivity.
  - vm_compute. reflexivity.
  - vm_compute. discriminate.
  - exists SnapshotChain.genesisSnapshot. vm_compute. reflexivity.
  - vm_compute. discriminate.
  - lia.
  - vm_compute. reflexivity.
  - reflexivity.
  - vm_compute. reflexivity.
Defined.

(** ** Snapshot blocks *)
Section snapshot.
Context {R : Type} `{ChainReader R}.
Implicit Types (reader : R).
Import SnapshotVerifier.

(** What the chain holds for an account of the block: nothing, the named block, or another one. *)
Definition missing reader (v : AccountHashH) : Prop :=
  reader_GetAccountByHeight reader (ah_Addr v) (ah_Height v) = None.
Definition mismatch reader (v : AccountHashH) : Prop :=
  exists b, reader_GetAccountByHeight reader (ah_Addr v) (ah_Height v) = Some b /\ Hash b <> ah_Hash v.
Definition present reader (v : AccountHashH) : Prop :=
  exists b, reader_GetAccountByHeight reader (ah_Addr v) (ah_Height v) = Some b /\ Hash b = ah_Hash v.

#[export] Instance missing_dec reader v : Decision (missing reader v).
Proof. unfold missing. apply _. Defined.

Definition request_of (v : AccountHashH) : FetchRequest :=
  mkFetchRequest (ah_Addr v) (ah_Height v) (ah_Hash v) 1.

Lemma requests_add t p :
  verifyTask_Requests (add_task t p) = verifyTask_Requests t ++ [pendingTask_request p].
Proof. unfold verifyTask_Requests, add_task; cbn. rewrite map_app, concat_app. by destruct p. Qed.

Lemma verify_accounts_inl reader vs i stat t i' stat' t' :
  verify_accounts reader vs i stat t = inl (i', stat', t') ->
  result stat' = result stat /\ task stat' = task stat /\
  Forall (fun v => ~ mismatch reader v) vs /\
  i' + Z.of_nat (length (filter (missing reader) vs)) = i + Z.of_nat (length vs) /\
  verifyTask_Requests t' = verifyTask_Requests t ++ map request_of (filter (missing reader) vs).
Proof.
  revert i stat t. induction vs as [|v vs IH]; intros i stat t; cbn [verify_accounts].
  { intros [= <- <- <-]. cbn. rewrite app_nil_r. split_and!; by try constructor. }
  destruct (reader_GetAccountByHeight reader (ah_Addr v) (ah_Height v)) as [b|] eqn:Ev.
  - case_decide as Hh; [|done]. intros (H1 & H2 & H3 & H4 & H5)%IH.
    rewrite filter_cons, decide_False by (unfold missing; congruence).
    split_and!; [done|done| |cbn; lia|done]. constructor; [|done]. intros (b' & Hb & Hn). congruence.
  - intros (H1 & H2 & H3 & H4 & H5)%IH. rewrite filter_cons, decide_True by done.
    split_and!; [done|done| |cbn; lia|].
    + constructor; [|done]. intros (b' & Hb & _). congruence.
    + rewrite H5. unfold pendingAccount. rewrite requests_add. by rewrite <- app_assoc.
Qed.

Lemma verify_accounts_inr reader vs i stat t stat' :
  verify_accounts reader vs i stat t = inr stat' ->
  result stat' = FAIL /\ task stat' = task stat /\ Exists (mismatch reader) vs.
Proof.
  revert i stat t. induction vs as [|v vs IH]; intros i stat t; cbn [verify_accounts]; [done|].
  destruct (reader_GetAccountByHeight reader (ah_Addr v) (ah_Height v)) as [b|] eqn:Ev.
  - case_decide as Hh; [|intros [= <-]; split_and!; [done|done|]; left; by exists b].
    intros (H1 & H2 & H3)%IH. split_and!; [done|done|by right].
  - intros (H1 & H2 & H3)%IH. split_and!; [done|done|by right].
Qed.
End snapshot.

(** C6: a snapshot block verifies exactly when the chain holds every account
    block it names.  The verdict is SUCCESS iff each named account block is on
    the chain under its hash, FAIL iff the chain holds a different block at one
    of the named heights, and otherwise PENDING with a task that requests exactly
    the missing account blocks, in order; a decided verification has no task. *)
Theorem snapshot_verifier_correct {R} `{ChainReader R} val now (reader : R) block :
  let stat := SnapshotVerifier.VerifyReferred val now reader block in
  let res := SnapshotVerifier.VerifyResult_ stat in
  (res = SUCCESS <-> Forall (present reader) (Accounts block)) /\
  (res = FAIL <-> Exists (mismatch reader) (Accounts block)) /\
  (res <> PENDING -> SnapshotVerifier.Task_ stat = None) /\
  (res = PENDING -> exists t, SnapshotVerifier.Task_ stat = Some t /\
     Task_Requests t = map request_of (filter (missing reader) (Accounts block))).
Proof.
  intros stat res. subst res stat. unfold SnapshotVerifier.VerifyReferred.
  destruct (SnapshotVerifier.verify_accounts reader (Accounts block) 0 _ _) as [[[i st] t]|st] eqn:E.
  - apply verify_accounts_inl in E as (H1 & H2 & H3 & H4 & H5). cbn in H1, H2.
    assert (Hx : ~ Exists (mismatch reader) (Accounts block)).
    { intros (v & Hv & Hm)%Exists_exists. rewrite Forall_forall in H3. by eapply H3. }
    case_decide as Hi; cbn.
    + split_and!; [|split; [done|by intros]|by rewrite H2|done]. split; [intros _|done].
      assert (Hf : filter (missing reader) (Accounts block) = [])
        by (apply nil_length_inv; lia).
      apply Forall_forall. intros v Hv. rewrite Forall_forall in H3.
      destruct (reader_GetAccountByHeight reader (ah_Addr v) (ah_Height v)) as [b|] eqn:Ev.
      * exists b. split; [done|]. destruct (decide (Hash b = ah_Hash v)); [done|].
        destruct (H3 v Hv). by exists b.
      * assert (Hin : v ∈ filter (missing reader) (Accounts block)) by (by apply list_elem_of_filter).
        rewrite Hf in Hin. by apply elem_of_nil in Hin.
    + unfold SnapshotVerifier.VerifyResult_, SnapshotVerifier.Task_; cbn. rewrite H1.
      split_and!; [|split; [done|by intros]|done|by eexists]. split; [done|]. intros Hp. exfalso.
      destruct (filter (missing reader) (Accounts block)) as [|v l] eqn:Hf; [cbn in H4; lia|].
      assert (Hin : v ∈ filter (missing reader) (Accounts block)) by (rewrite Hf; apply elem_of_cons; by left).
      apply list_elem_of_filter in Hin as [Hm Hv]. rewrite Forall_forall in Hp.
      destruct (Hp v Hv) as (b & Hb & _). unfold missing in Hm. congruence.
  - apply verify_accounts_inr in E as (H1 & H2 & H3). cbn in H2.
    unfold SnapshotVerifier.VerifyResult_, SnapshotVerifier.Task_. rewrite H1, H2.
    split_and!; [|done|done|done]. split; [done|]. intros Hp. exfalso.
    apply Exists_exists in H3 as (v & Hv & b & Hb & Hn). rewrite Forall_forall in Hp.
    destruct (Hp v Hv) as (b' & Hb' & ?). congruence.
Qed.

(** ** Tasks *)
Section done.
Context {R : Type} `{ChainReader R}.
Implicit Types (reader : R).

(** A pending task is satisfied once the chain it waits for has reached the
    requested height, or was found to have reached it before. *)
Definition satisfied reader (p : pendingTask) : Prop :=
  match p with
  | accountPendingTask r q => r = true \/
      exists b, reader_HeadAccount reader (fr_Chain q) = (Some b, None) /\ fr_Height q <= Height b
  | snapshotPendingTask r q => r = true \/
      exists b, reader_HeadSnapshot reader = (Some b, None) /\ fr_Height q <= Height b
  end.
Definition flagged (p : pendingTask) : Prop :=
  match p with accountPendingTask r _ | snapshotPendingTask r _ => r = true end.

Lemma pendingTask_Done_spec reader p p' d :
  pendingTask_Done reader p = (p', d) ->
  (d = true <-> satisfied reader p) /\ pendingTask_request p' = pendingTask_request p /\
  (d = true -> flagged p') /\ (flagged p -> p' = p).
Proof.
  destruct p as [[|] r|[|] r]; cbn; try (intros [= <- <-]; naive_solver).
  - destruct (reader_HeadAccount reader (fr_Chain r)) as [[b|] [e|]];
      [|case_decide| |]; intros [= <- <-]; naive_solver.
  - destruct (reader_HeadSnapshot reader) as [[b|] [e|]];
      [|case_decide| |]; intros [= <- <-]; naive_solver.
Qed.

Lemma pending_Done_spec reader ts ts' d :
  pending_Done reader ts = (ts', d) ->
  (d = true <-> Forall (satisfied reader) ts) /\
  map pendingTask_request ts' = map pendingTask_request ts /\ (d = true -> Forall flagged ts').
Proof.
  revert ts' d. induction ts as [|t ts IH]; intros ts' d; cbn [pending_Done].
  { intros [= <- <-]. done. }
  destruct (pendingTask_Done reader t) as [t1 [|]] eqn:Et;
    destruct (pendingTask_Done_spec _ _ _ _ Et) as (H1 & H2 & H3 & _).
  - destruct (pending_Done reader ts) as [ts1 d1]. destruct (IH ts1 d1 eq_refl) as (J1 & J2 & J3).
    intros [= <- <-]. rewrite Forall_cons, J1. split_and!; [tauto|cbn; congruence|].
    intros Hd. constructor; [by apply H3 | by apply J3, J1].
  - intros [= <- <-]. rewrite Forall_cons. split_and!; [intuition congruence|cbn; congruence|done].
Qed.

Lemma flagged_Done reader ts : Forall flagged ts -> (pending_Done reader ts).2 = true.
Proof.
  intros Hf. destruct (pending_Done reader ts) as [ts' d] eqn:E.
  apply pending_Done_spec in E as (Hd & _). apply Hd. eapply Forall_impl; [exact Hf|].
  intros [r q|r q]; cbn; auto.
Qed.

Lemma requests_map (t : verifyTask) : verifyTask_Requests t = map pendingTask_request (tasks t).
Proof.
  unfold verifyTask_Requests. induction (tasks t) as [|p ps IH]; cbn; [done|]. rewrite IH. by destruct p.
Qed.
End done.

(** When a verification task is done.  [Done] answers yes exactly when the
    fork version has moved, or five seconds have passed since the task was
    made, or the task is not a failed one and the chain has reached every
    requested height; asking never changes what the task requests; and once a
    task is done because its blocks have arrived it stays done, even if the chain
    is rolled back below them. *)
Theorem verify_task_done {R} `{ChainReader R} val now (reader : R) (t t' : verifyTask) d :
  verifyTask_Done reader val now t = (t', d) ->
  (d = true <->
     val <> task_version t \/ task_t t + 5 * Second < now \/
     (task_fail t = false /\ Forall (satisfied reader) (tasks t))) /\
  verifyTask_Requests t' = verifyTask_Requests t /\
  (d = true -> val = task_version t -> now <= task_t t + 5 * Second ->
   forall reader' val' now', (verifyTask_Done reader' val' now' t').2 = true).
Proof.
  unfold verifyTask_Done at 1.
  destruct (decide (val <> task_version t)) as [Hv|Hv]; [intros [= <- <-]; naive_solver|].
  apply dec_stable in Hv.
  destruct (decide (task_t t + 5 * Second < now)) as [Hn|Hn].
  { intros [= <- <-]. split_and!; [naive_solver|done|lia]. }
  destruct (task_fail t) eqn:Hf; [intros [= <- <-]; split_and!; [split; [done|]; naive_solver|done|done]|].
  destruct (pending_Done reader (tasks t)) as [ts d1] eqn:E.
  destruct (pending_Done_spec _ _ _ _ E) as (H1 & H2 & H3). intros [= <- <-].
  split_and!; [naive_solver| |].
  - rewrite !requests_map. done.
  - intros Hd _ _ reader' val' now'. unfold verifyTask_Done. cbn.
    case_decide; [done|]. case_decide; [done|].
    pose proof (flagged_Done reader' ts (H3 Hd)) as Hx.
    by destruct (pending_Done reader' ts).
Qed.

(** A task waiting for the first block of "bob". *)
Definition bob_task : verifyTask :=
  mkVerifyTask [accountPendingTask false (mkFetchRequest "bob" 0 "h1" 1)] 0 false 0.

Lemma verify_task_done_witness :
  verifyTask_Done chain0 0 0 bob_task = (bob_task, false) /\
  ~ Forall (satisfied chain0) (tasks bob_task).
Proof.
  assert (E : verifyTask_Done chain0 0 0 bob_task = (bob_task, false)) by (vm_compute; reflexivity).
  split; [exact E|]. intros Hs.
  destruct (verify_task_done 0 0 chain0 bob_task bob_task false E) as ([_ H1] & _ & _).
  discriminate H1. right; right. split; [reflexivity | exact Hs].
Defined.
