(* ===== verification/BCPool.v ===== *)
(** * BCPool: the generic block pool ([pool/bc_pool.go], [pool/chain.go])

    A pool keeps the blocks that have arrived but are not yet on the chain.
    Loose blocks ([blockPool]) are joined into snippets ([snippetChain]), the
    snippets are appended to or forked off the in-memory chains
    ([forkedChain]), and the current in-memory chain is verified and written to
    the disk chain block by block.

    The pool is generic in its blocks [B] and in the disk chain [W] behind it,
    which it drives through the interface [chainRw] (class [ChainRw]).  A
    [*forkedChain] is named by its chain id: [chains] is the store of the chain
    objects, [current] and the chains a chain refers to are ids in it.  Range
    loops over maps take the visiting order as an argument. *)
From S2P Require Import Prelude.
From S2P Require Import Common.
From S2P Require Import Verifier.

(** ** The disk chain's interface ([pool/chain.go:14-20]) *)
Class ChainRw (B W : Type) := {
  rw_insertChain : W -> B -> Z -> outcome (W * error);
  rw_removeChain : W -> B -> outcome (W * error);
  rw_head : W -> option B;
  rw_getBlock : W -> Z -> outcome (option B)
}.

Section blocks.
Context {B : Type} `{Block B}.

(** ** Pool blocks *)
Record PoolBlock := mkPoolBlock { block : B; forkVersion : Z }.

#[export] Instance PoolBlock_Block : Block PoolBlock := {|
  Height w := Height (block w); Hash w := Hash (block w); PreHash w := PreHash (block w);
  Signer w := Signer (block w); Timestamp w := Timestamp (block w) |}.

(** [val]: the current fork version. *)
Definition checkForkVersion (val : Z) (self : PoolBlock) : bool := bool_decide (forkVersion self = val).
Definition reset (val : Z) (self : PoolBlock) : PoolBlock :=
  {| block := block self; forkVersion := val |}.

(** ** Loose blocks *)
Record blockPool := mkBlockPool {
  freeBlocks : gmap string PoolBlock;
  compoundBlocks : gmap string PoolBlock
}.

Definition blockPool_contains (self : blockPool) (hash : string) (height : Z) : bool :=
  bool_decide (is_Some (freeBlocks self !! hash)) || bool_decide (is_Some (compoundBlocks self !! hash)).
Definition putBlock (self : blockPool) (hash : string) (pool : PoolBlock) : blockPool :=
  {| freeBlocks := <[hash := pool]> (freeBlocks self); compoundBlocks := compoundBlocks self |}.
Definition compound (self : blockPool) (w : PoolBlock) : blockPool :=
  {| freeBlocks := delete (Hash w) (freeBlocks self);
     compoundBlocks := <[Hash w := w]> (compoundBlocks self) |}.

(** [BCPool.AddBlock] *)
Definition AddBlock (val : Z) (self : blockPool) (b : B) : blockPool :=
  let wrapper := {| block := b; forkVersion := val |} in
  if negb (blockPool_contains self (Hash b) (Height b)) then putBlock self (Hash b) wrapper
  else self.

(** ** Snippets *)
Record snippetChain := mkSnippet {
  sn_heightBlocks : gmap Z PoolBlock;
  sn_headHeight : Z;
  sn_tailHeight : Z;
  sn_chainId : string;
  sn_tailHash : string;
  sn_headHash : string
}.

(** [init] of a snippet that has been given its id. *)
Definition snippet_init (chainId : string) (w : PoolBlock) : snippetChain :=
  {| sn_heightBlocks := {[Height w := w]}; sn_headHeight := Height w;
     sn_tailHeight := Height w - 1; sn_chainId := chainId;
     sn_tailHash := PreHash w; sn_headHash := Hash w |}.

Definition snippet_addTail (self : snippetChain) (w : PoolBlock) : snippetChain :=
  {| sn_heightBlocks := <[Height w := w]> (sn_heightBlocks self);
     sn_headHeight := sn_headHeight self; sn_tailHeight := Height w - 1;
     sn_chainId := sn_chainId self; sn_tailHash := PreHash w; sn_headHash := sn_headHash self |}.

Definition deleteTail (self : snippetChain) (newtail : PoolBlock) : snippetChain :=
  {| sn_heightBlocks := delete (Height newtail) (sn_heightBlocks self);
     sn_headHeight := sn_headHeight self; sn_tailHeight := Height newtail;
     sn_chainId := sn_chainId self; sn_tailHash := Hash newtail; sn_headHash := sn_headHash self |}.

Definition remTail (self : snippetChain) : snippetChain * option PoolBlock :=
  match sn_heightBlocks self !! (sn_tailHeight self + 1) with
  | None => (self, None)
  | Some newTail => (deleteTail self newTail, Some newTail)
  end.

Definition merge_snippet (self snippet : snippetChain) : snippetChain :=
  {| sn_heightBlocks := sn_heightBlocks snippet ∪ sn_heightBlocks self;
     sn_headHeight := sn_headHeight self; sn_tailHeight := sn_tailHeight snippet;
     sn_chainId := sn_chainId self; sn_tailHash := sn_tailHash snippet;
     sn_headHash := sn_headHash self |}.

(** ** In-memory chains *)
Inductive heightChainReader := RDisk | RChain (id : string).

Record forkedChain := mkForked {
  fc_heightBlocks : gmap Z PoolBlock;
  fc_headHeight : Z;
  fc_tailHeight : Z;
  fc_chainId : string;
  fc_headHash : string;
  fc_tailHash : string;
  fc_referChain : option heightChainReader
}.

Definition size (self : forkedChain) : Z := fc_headHeight self - fc_tailHeight self.

(** [contains]: as written, the second comparison holds at or above the head. *)
Definition forked_contains (self : forkedChain) (height : Z) : bool :=
  bool_decide (fc_tailHeight self < height) && bool_decide (fc_headHeight self <= height).

Definition set_refer (self : forkedChain) (r : option heightChainReader) : forkedChain :=
  {| fc_heightBlocks := fc_heightBlocks self; fc_headHeight := fc_headHeight self;
     fc_tailHeight := fc_tailHeight self; fc_chainId := fc_chainId self;
     fc_headHash := fc_headHash self; fc_tailHash := fc_tailHash self; fc_referChain := r |}.

(** [init] on a chain with id [chainId] and reference [r]. *)
Definition forked_init (chainId : string) (r : option heightChainReader) (initBlock : B) : forkedChain :=
  {| fc_heightBlocks := ∅; fc_headHeight := Height initBlock; fc_tailHeight := Height initBlock;
     fc_chainId := chainId; fc_headHash := Hash initBlock; fc_tailHash := Hash initBlock;
     fc_referChain := r |}.

Definition addHead (self : forkedChain) (w : PoolBlock) : forkedChain :=
  {| fc_heightBlocks := <[Height w := w]> (fc_heightBlocks self); fc_headHeight := Height w;
     fc_tailHeight := fc_tailHeight self; fc_chainId := fc_chainId self; fc_headHash := Hash w;
     fc_tailHash := fc_tailHash self; fc_referChain := fc_referChain self |}.

Definition removeTail (self : forkedChain) (w : PoolBlock) : forkedChain :=
  {| fc_heightBlocks := delete (Height w) (fc_heightBlocks self); fc_headHeight := fc_headHeight self;
     fc_tailHeight := Height w; fc_chainId := fc_chainId self; fc_headHash := fc_headHash self;
     fc_tailHash := Hash w; fc_referChain := fc_referChain self |}.

Definition addTail (self : forkedChain) (w : PoolBlock) : forkedChain :=
  {| fc_heightBlocks := <[Height w := w]> (fc_heightBlocks self); fc_headHeight := fc_headHeight self;
     fc_tailHeight := Height w - 1; fc_chainId := fc_chainId self; fc_headHash := fc_headHash self;
     fc_tailHash := PreHash w; fc_referChain := fc_referChain self |}.

(** ** The chain pool *)
Record chainPool := mkChainPool {
  poolId : string;
  lastestChainIdx : Z;
  current : string;
  snippetChains : gmap string snippetChain;
  chains : gmap string forkedChain
}.

Definition set_snippets (self : chainPool) (m : gmap string snippetChain) : chainPool :=
  {| poolId := poolId self; lastestChainIdx := lastestChainIdx self; current := current self;
     snippetChains := m; chains := chains self |}.
Definition set_current (self : chainPool) (id : string) : chainPool :=
  {| poolId := poolId self; lastestChainIdx := lastestChainIdx self; current := id;
     snippetChains := snippetChains self; chains := chains self |}.
(** The chain object named by its id has changed, or is new. *)
Definition put_chain (self : chainPool) (c : forkedChain) : chainPool :=
  {| poolId := poolId self; lastestChainIdx := lastestChainIdx self; current := current self;
     snippetChains := snippetChains self; chains := <[fc_chainId c := c]> (chains self) |}.
(** The snippet object has changed: its entry in the map, if it still has one, sees it. *)
Definition put_snippet (self : chainPool) (s : snippetChain) : chainPool :=
  match snippetChains self !! sn_chainId s with
  | Some _ => set_snippets self (<[sn_chainId s := s]> (snippetChains self))
  | None => self
  end.
Definition delete_snippet (self : chainPool) (s : snippetChain) : chainPool :=
  set_snippets self (delete (sn_chainId s) (snippetChains self)).

(** The chain object with id [id]. *)
Definition get_chain (self : chainPool) (id : string) : outcome forkedChain :=
  deref (chains self !! id) "nil dereference".

Definition incChainIdx (self : chainPool) : chainPool * Z :=
  let new := wrap32 (lastestChainIdx self + 1) in
  ({| poolId := poolId self; lastestChainIdx := new; current := current self;
      snippetChains := snippetChains self; chains := chains self |}, new).
Definition genChainId (self : chainPool) : chainPool * string :=
  let '(self, i) := incChainIdx self in (self, poolId self +:+ "-" +:+ Itoa i).

Definition forkChain (self : chainPool) (forked : forkedChain) (snippet : snippetChain)
    : chainPool * forkedChain * error :=
  let '(self, chainId) := genChainId self in
  let new := {| fc_heightBlocks := sn_heightBlocks snippet; fc_headHeight := sn_headHeight snippet;
                fc_tailHeight := sn_tailHeight snippet; fc_chainId := chainId;
                fc_headHash := sn_headHash snippet;
                fc_tailHash := "";     (* never assigned *)
                fc_referChain := Some (RChain (fc_chainId forked)) |} in
  (put_chain self new, new, None).

(** [insert]: the block must continue the head of the chain. *)
Definition insert_head (c : forkedChain) (wrapper : PoolBlock) : forkedChain * error :=
  if decide (Height wrapper = fc_headHeight c + 1) then
    if decide (fc_headHash c = PreHash wrapper) then (addHead c wrapper, None)
    else (c, Some "fork chain.")
  else (c, Some "fork chain.").

(** The loop of [insertSnippet]; [n] iterations are left.  A missing block is a
    nil dereference in [insert]. *)
Fixpoint insertSnippet_loop (n : nat) (i : Z) (c : forkedChain) (snippet : snippetChain)
    : outcome (forkedChain * snippetChain * error) :=
  match n with
  | O => Ret (c, snippet, None)
  | S n =>
      w ← deref (sn_heightBlocks snippet !! i) "nil dereference";
      let '(c, err) := insert_head c w in
      match err with
      | Some err => Ret (c, snippet, Some err)
      | None =>
          let snippet := {| sn_heightBlocks := delete i (sn_heightBlocks snippet);
                            sn_headHeight := sn_headHeight snippet; sn_tailHeight := Height w;
                            sn_chainId := sn_chainId snippet; sn_tailHash := Hash w;
                            sn_headHash := sn_headHash snippet |} in
          insertSnippet_loop n (i + 1) c snippet
      end
  end.

Definition insertSnippet (self : chainPool) (c : forkedChain) (snippet : snippetChain)
    : outcome (chainPool * snippetChain * error) :=
  '(c, snippet, err) ← insertSnippet_loop
     (Z.to_nat (sn_headHeight snippet - sn_tailHeight snippet)) (sn_tailHeight snippet + 1) c snippet;
  let self := put_snippet (put_chain self c) snippet in
  match err with
  | Some err => Ret (self, snippet, Some err)
  | None =>
      Ret (if decide (sn_tailHeight snippet = sn_headHeight snippet)
           then delete_snippet self snippet else self, snippet, None)
  end.

(** [cutSnippet]: every round removes a block, so the number of blocks is fuel enough. *)
Fixpoint cutSnippet_loop (fuel : nat) (snippet : snippetChain) (height : Z) : outcome snippetChain :=
  match fuel with
  | O => Diverge
  | S fuel =>
      match remTail snippet with
      | (snippet, None) => Ret snippet
      | (snippet, Some tail) =>
          if decide (height <= Height tail) then Ret snippet
          else cutSnippet_loop fuel snippet height
      end
  end.
Definition cutSnippet (snippet : snippetChain) (height : Z) : outcome snippetChain :=
  cutSnippet_loop (S (base.size (sn_heightBlocks snippet))) snippet height.
End blocks.
Arguments PoolBlock B : clear implicits.
Arguments blockPool B : clear implicits.
Arguments snippetChain B : clear implicits.
Arguments forkedChain B : clear implicits.
Arguments chainPool B : clear implicits.

Section pool.
Context {B : Type} `{Block B} {W : Type} `{ChainRw B W}.
Implicit Types (w : W) (cp : chainPool B) (c : forkedChain B) (s : snippetChain B) (val : Z).

(** ** The disk chain *)
Definition disk_getBlock w val (height : Z) : outcome (option (PoolBlock B)) :=
  if decide (height < 0) then Ret None
  else
    b ← (rw_getBlock w height : outcome (option B));
    Ret (fmap (M := option) (fun b => {| block := b; forkVersion := val |}) b).

Definition disk_getBlockBetween w (tail head : Z) (refer : bool) : option (PoolBlock B) := None.

Definition disk_contains w (height : Z) : outcome bool :=
  head ← deref (rw_head w : option B) "nil dereference";
  Ret (bool_decide (height <= Height head)).

(** [Head]: a chain without a head answers with its block at height -1. *)
Definition disk_Head w : outcome (option B) :=
  match (rw_head w : option B) with
  | None => rw_getBlock w (-1)
  | Some head => Ret (Some head)
  end.

(** [diskChain.Head()] used as a block. *)
Definition disk_head w : outcome B :=
  h ← disk_Head w; deref h "nil dereference".

Definition disk_id cp : string := poolId cp +:+ "-diskchain".
Definition refer_id cp (r : heightChainReader) : string :=
  match r with RDisk => disk_id cp | RChain id => id end.

(** ** Reading a chain through the chains it refers to

    A chain refers to the disk chain or to another chain; [fuel] bounds the
    number of chains visited. *)
Fixpoint fc_getBlock (fuel : nat) w val cp c (height : Z) (refer : bool)
    : outcome (option (PoolBlock B)) :=
  match fc_heightBlocks c !! height with
  | Some b => Ret (Some b)
  | None =>
      if refer then
        match fc_referChain c with
        | None => Panic "nil dereference"
        | Some RDisk => disk_getBlock w val height
        | Some (RChain id) =>
            match fuel with
            | O => Diverge
            | S fuel => c' ← get_chain cp id; fc_getBlock fuel w val cp c' height refer
            end
        end
      else Ret None
  end.

(** One more than the number of chains: no chain is visited twice. *)
Definition chain_fuel cp : nat := S (base.size (chains cp)).

Definition getBlock w val cp c (height : Z) (refer : bool) : outcome (option (PoolBlock B)) :=
  fc_getBlock (chain_fuel cp) w val cp c height refer.

Definition GetBlock w val cp c (height : Z) : outcome (option B) :=
  b ← getBlock w val cp c height true; Ret (fmap (M := option) block b).

Definition Head w val cp c : outcome (option B) := GetBlock w val cp c (fc_headHeight c).

(** ** The pool's life *)
Definition newBlockPool : blockPool B := mkBlockPool ∅ ∅.

(** [BCPool.init]: the first chain starts at the disk head.  [Id] is the pool's name. *)
Definition chainPool_init (Id : string) w : outcome (chainPool B) :=
  let cp := mkChainPool Id 0 "" ∅ ∅ in
  let '(cp, id) := genChainId cp in
  initBlock ← disk_head w;
  Ret (put_chain (set_current cp id) (forked_init id (Some RDisk) initBlock)).

(** [modifyRefer]: the loop compares with the tail height of [from], which
    [removeTail] has just set to [i]. *)
Fixpoint modifyRefer_loop (fuel : nat) (i : Z) (from to : forkedChain B)
    : outcome (forkedChain B * forkedChain B) :=
  if decide (fc_tailHeight from < i) then
    match fuel with
    | O => Diverge
    | S fuel =>
        b ← deref (fc_heightBlocks from !! i) "nil dereference";
        modifyRefer_loop fuel (i - 1) (removeTail from b) (addTail to b)
    end
  else Ret (from, to).

Definition modifyRefer cp (from to : forkedChain B) : outcome (chainPool B * forkedChain B) :=
  '(from, to) ← modifyRefer_loop (S (Z.to_nat (fc_tailHeight to - fc_tailHeight from)))
                  (fc_tailHeight to) from to;
  let to := set_refer to (fc_referChain from) in
  let from := set_refer from (Some (RChain (fc_chainId to))) in
  Ret (put_chain (put_chain cp from) to, to).

(** The loop of [currentModifyToChain]. *)
Fixpoint referToDisk_loop (fuel : nat) cp c : outcome (chainPool B * forkedChain B) :=
  r ← deref (fc_referChain c) "nil dereference";
  match r with
  | RDisk => Ret (cp, c)
  | RChain id =>
      match fuel with
      | O => Diverge
      | S fuel =>
          from ← get_chain cp id;
          '(cp, c) ← modifyRefer cp from c;
          referToDisk_loop fuel cp c
      end
  end.

Definition currentModifyToChain w val cp c : outcome (chainPool B * error) :=
  head ← disk_head w;
  b ← getBlock w val cp c (Height head) true;
  match b with
  | None => Ret (cp, Some "error")
  | Some b =>
      if decide (Hash b <> Hash head) then Ret (cp, Some "error")
      else
        '(cp, c) ← referToDisk_loop (chain_fuel cp) cp c;
        Ret (set_current cp (fc_chainId c), None)
  end.

(** [currentModify]: a new current chain that starts at a block of the disk chain. *)
Definition chainPool_currentModify cp (initBlock : B) : chainPool B :=
  let '(cp, id) := genChainId cp in
  put_chain (set_current cp id) (forked_init id (Some RDisk) initBlock).

(** ** Where a snippet belongs *)

(** The disk chain and the in-memory chains as a [heightChainReader]. *)
Definition sameChain w val cp s c : outcome bool :=
  h ← Head w val cp c;
  head ← deref h "nil dereference";
  Ret (match sn_heightBlocks s !! Height head with
       | Some b => bool_decide (Hash b = Hash head)
       | None => false
       end).

(** The loop of [findForkPoint] from height [i], [n] rounds left. *)
Fixpoint findForkPoint_loop (n : nat) (i : Z) w val cp s c (refer : bool) (forkpoint : PoolBlock B)
    : outcome (snippetChain B * option (PoolBlock B)) :=
  match n with
  | O => Ret (s, None)
  | S n =>
      uncle ← getBlock w val cp c i refer;
      match uncle with
      | None => Ret (s, None)
      | Some uncle =>
          point ← deref (sn_heightBlocks s !! i) "nil dereference";
          if decide (Hash point <> Hash uncle) then Ret (s, Some forkpoint)
          else findForkPoint_loop n (i + 1) w val cp (deleteTail s point) c refer point
      end
  end.

Definition findForkPoint w val cp s c (refer : bool)
    : outcome (snippetChain B * option (PoolBlock B)) :=
  let tailHeight := sn_tailHeight s in
  let headHeight := sn_headHeight s in
  forkpoint ← getBlock w val cp c tailHeight refer;
  match forkpoint with
  | None => Ret (s, None)
  | Some forkpoint =>
      if decide (Hash forkpoint <> sn_tailHash s) then Ret (s, None)
      else findForkPoint_loop (Z.to_nat (headHeight - tailHeight)) (tailHeight + 1)
             w val cp s c refer forkpoint
  end.

(** What [forky] answers: fork off a chain, append to a chain, or neither. *)
Inductive forkyResult := ForkOff (id : string) | AppendTo (id : string) | Neither.

(** The loop of [forky] over the chains; [inl]: it has returned. *)
Fixpoint forky_loop w val cp s (ids : list string)
    : outcome ((chainPool B * snippetChain B * forkyResult) + snippetChain B) :=
  match ids with
  | [] => Ret (inr s)
  | id :: ids =>
      c ← get_chain cp id;
      if decide (sn_tailHeight s = fc_headHeight c /\ sn_tailHash s = fc_headHash c)
      then Ret (inl (cp, s, AppendTo id))
      else if decide (fc_headHeight c < sn_tailHeight s) then forky_loop w val cp s ids
      else if decide (sn_headHeight s <= fc_headHeight c) then forky_loop w val cp s ids
      else
        same ← sameChain w val cp s c;
        if (same : bool) then
          s ← cutSnippet s (fc_headHeight c);
          if decide (sn_headHeight s = sn_tailHeight s)
          then Ret (inl (delete_snippet cp s, s, Neither))
          else Ret (inl (cp, s, AppendTo id))
        else
          '(s, point) ← findForkPoint w val cp s c false;
          match point with
          | Some _ => Ret (inl (cp, s, ForkOff id))
          | None =>
              if decide (sn_headHeight s = sn_tailHeight s)
              then Ret (inl (delete_snippet cp s, s, Neither))
              else forky_loop w val cp s ids
          end
  end.

Definition forky w val cp s (ids : list string)
    : outcome (chainPool B * snippetChain B * forkyResult) :=
  r ← forky_loop w val cp s ids;
  match r with
  | inl r => Ret r
  | inr s =>
      head ← disk_head w;
      cur ← get_chain cp (current cp);
      '(s, point) ← (if decide (sn_tailHeight s <= Height head)
                     then findForkPoint w val cp s cur true else Ret (s, None));
      match point with
      | Some _ => Ret (cp, s, ForkOff (current cp))
      | None =>
          if decide (sn_headHeight s = sn_tailHeight s)
          then Ret (delete_snippet cp s, s, Neither)
          else Ret (cp, s, Neither)
      end
  end.

(** ** Rollback and writing *)

(** The loop of [rollback]: [n] blocks are to be removed, the next one at height [i]. *)
Fixpoint rollback_loop (n : nat) (i : Z) w val c : outcome (W * forkedChain B * error) :=
  match n with
  | O => Ret (w, c, None)
  | S n =>
      b ← disk_getBlock w val i;
      b ← deref b "nil dereference";
      '(w, e) ← rw_removeChain w (block b);
      match e with
      | Some e => Ret (w, c, Some e)
      | None => rollback_loop n (i - 1) w val (addTail c (reset val b))
      end
  end.

Definition rollback w val cp (newHeight : Z) : outcome (W * chainPool B * error) :=
  cur ← get_chain cp (current cp);
  let height := fc_tailHeight cur in
  '(w, cur, e) ← rollback_loop (Z.to_nat (height - newHeight)) height w val cur;
  let cp := put_chain cp cur in
  match e with
  | Some e => Ret (w, cp, Some e)
  | None =>
      head ← disk_head w;
      if decide (fc_tailHeight cur <> Height head \/ fc_tailHash cur <> Hash head)
      then Ret (w, cp, Some "rollback fail.")
      else Ret (w, cp, None)
  end.

Definition Rollback w val cp (rollbackHeight : Z) (rollbackHash : string)
    : outcome (W * chainPool B * error) := rollback w val cp rollbackHeight.
Definition RollbackAll w val cp : outcome (W * chainPool B * error) := rollback w val cp (-1).

Definition insertNotify cp (head : B) : outcome (chainPool B) :=
  cur ← get_chain cp (current cp);
  if decide (fc_headHeight cur = fc_tailHeight cur /\
             fc_tailHash cur = PreHash head /\ fc_headHash cur = PreHash head) then
    Ret (put_chain cp
      {| fc_heightBlocks := fc_heightBlocks cur; fc_headHeight := Height head;
         fc_tailHeight := Height head; fc_chainId := fc_chainId cur; fc_headHash := Hash head;
         fc_tailHash := Hash head; fc_referChain := fc_referChain cur |})
  else Ret (chainPool_currentModify cp head).

Definition writeToChain w cp c (wrapper : PoolBlock B) : outcome (W * chainPool B * error) :=
  '(w, err) ← rw_insertChain w (block wrapper) (forkVersion wrapper);
  match err with
  | None => Ret (w, put_chain cp (removeTail c wrapper), None)
  | Some err => Ret (w, cp, Some err)
  end.

(** [AddDirectBlock]; [verify] is the pool's verifier: the verdict and the message. *)
Definition AddDirectBlock (verify : W -> B -> outcome (VerifyResult * string)) w val cp (b : B)
    : outcome (W * chainPool B * error) :=
  '(result, errMsg) ← verify w b;
  match result with
  | PENDING => Ret (w, cp, Some "pending for something")
  | FAIL => Ret (w, cp, Some errMsg)
  | SUCCESS =>
      '(w, err) ← rw_insertChain w b val;
      match err with
      | Some err => Ret (w, cp, Some err)
      | None =>
          head ← disk_head w;
          cp ← insertNotify cp head;
          Ret (w, cp, None)
      end
  end.
End pool.

(** ** Joining loose blocks into snippets

    [loopGenSnippetChains] works on a slice of pointers to snippets that
    [headMap] aliases: the snippets are kept by id, the slice is the list of
    their ids. *)
Section snippets.
Context {B : Type} `{Block B}.
Implicit Types (s : snippetChain B) (m : gmap string (snippetChain B)) (p : PoolBlock B).

(** [tryInsert] over the slice [ids]: the block extends the tail of a snippet or
    lies between the ends of one (and is then left out); otherwise [false]. *)
Fixpoint tryInsert m (ids : list string) p : outcome (gmap string (snippetChain B) * bool) :=
  match ids with
  | [] => Ret (m, false)
  | id :: ids =>
      c ← deref (m !! id) "nil dereference";
      if decide (sn_tailHash c = Hash p) then Ret (<[id := snippet_addTail c p]> m, true)
      else
        let height := Height p in
        if decide (height < sn_headHeight c /\ sn_tailHeight c < height) then Ret (m, true)
        else tryInsert m ids p
  end.

(** The first loop of [loopGenSnippetChains], over the loose blocks. *)
Fixpoint genSnippets_loop (bp : blockPool B) (cp : chainPool B) m (ids : list string)
    (ps : list (PoolBlock B)) (i : Z)
    : outcome (blockPool B * chainPool B * gmap string (snippetChain B) * list string * Z) :=
  match ps with
  | [] => Ret (bp, cp, m, ids, i)
  | v :: ps =>
      '(m, found) ← tryInsert m ids v;
      let '(cp, m, ids) :=
        if (found : bool) then (cp, m, ids)
        else
          let '(cp, id) := genChainId cp in
          (cp, <[id := snippet_init id v]> m, ids ++ [id]) in
      genSnippets_loop (compound bp v) cp m ids ps (i + 1)
  end.

(** [splitToMap]: the snippets by their head hash; a later one replaces an earlier one. *)
Definition splitToMap m (ids : list string) : outcome (gmap string string) :=
  foldl (fun headMap id =>
    headMap ← headMap;
    chain ← deref (m !! id) "nil dereference";
    Ret (<[sn_headHash chain := id]> headMap)) (Ret ∅) ids.

(** The inner loop that merges snippets below [id]: every round deletes an entry
    of [headMap]. *)
Fixpoint merge_loop (fuel : nat) (headMap : gmap string string) m (id : string)
    : outcome (gmap string string * gmap string (snippetChain B)) :=
  chain ← deref (m !! id) "nil dereference";
  let tail := sn_tailHash chain in
  match headMap !! tail with
  | None => Ret (headMap, m)
  | Some oc =>
      if decide (id = oc) then Ret (headMap, m)
      else
        match fuel with
        | O => Diverge
        | S fuel =>
            oc ← deref (m !! oc) "nil dereference";
            merge_loop fuel (delete tail headMap) (<[id := merge_snippet chain oc]> m) id
        end
  end.

Fixpoint merge_all (headMap : gmap string string) m (ids : list string)
    : outcome (gmap string string * gmap string (snippetChain B)) :=
  match ids with
  | [] => Ret (headMap, m)
  | id :: ids =>
      '(headMap, m) ← merge_loop (base.size headMap) headMap m id;
      merge_all headMap m ids
  end.

(** The snippets that are left: [final]. *)
Definition final_snippets (headMap : gmap string string) m : gmap string (snippetChain B) :=
  filter (fun '(id, _) => Exists (fun e => snd e = id) (map_to_list headMap)) m.

Definition loopGenSnippetChains
    (orderB : gmap string (PoolBlock B) -> list (string * PoolBlock B))
    (orderS : gmap string (snippetChain B) -> list (string * snippetChain B))
    (bp : blockPool B) (cp : chainPool B) : outcome (blockPool B * chainPool B * Z) :=
  (* [sort.Reverse] builds a reversed interface and sorts nothing *)
  let sortPending := snd <$> orderB (freeBlocks bp) in
  let ids := fst <$> orderS (snippetChains cp) in
  '(bp, cp, m, ids, i) ← genSnippets_loop bp cp (snippetChains cp) ids sortPending 0;
  headMap ← splitToMap m ids;
  '(headMap, m) ← merge_all headMap m ids;
  Ret (bp, set_snippets cp (final_snippets headMap m), i).

(** Sorting by tail height.  [sort.Sort] is not stable: a stable sort of the
    snippets in any order gives any of its outcomes. *)
Definition tail_le (s1 s2 : snippetChain B) : Prop := sn_tailHeight s1 <= sn_tailHeight s2.
#[export] Instance tail_le_dec s1 s2 : Decision (tail_le s1 s2).
Proof. unfold tail_le. apply _. Defined.
Definition sortSnippets (orderS : gmap string (snippetChain B) -> list (string * snippetChain B))
    m : list (snippetChain B) := merge_sort tail_le (snd <$> orderS m).

(** The loop of [loopFetchForSnippets]: the requests made, and their number. *)
Fixpoint fetch_loop (head prev : Z) (ws : list (snippetChain B)) : list (HashHeight * Z) :=
  match ws with
  | [] => []
  | w :: ws =>
      let diff := if decide (0 < prev) then sn_tailHeight w - prev else sn_tailHeight w - head in
      let diff := if decide (diff <= 0) then sn_tailHeight w - head else diff in
      let diff := if decide (diff <= 0) then 20 else diff in
      (if decide (0 < diff) then [(mkHashHeight (sn_tailHash w) (sn_tailHeight w), diff)] else []) ++
      fetch_loop head (sn_headHeight w) ws
  end.

Definition loopFetchForSnippets (orderS : gmap string (snippetChain B) -> list (string * snippetChain B))
    (cp : chainPool B) : outcome (list (HashHeight * Z) * Z) :=
  if decide (base.size (snippetChains cp) = 0)%nat then Ret ([], 0)
  else
    cur ← get_chain cp (current cp);
    let reqs := fetch_loop (fc_headHeight cur) (-1) (sortSnippets orderS (snippetChains cp)) in
    Ret (reqs, Z.of_nat (length reqs)).

(** ** Choosing a chain *)

(** [LongestChain]: the loop takes a chain only if it is strictly longer than the
    longest so far, and the result replaces the current chain only with a lead of
    more than four blocks. *)
Definition LongestChain (orderC : gmap string (forkedChain B) -> list (string * forkedChain B))
    (cp : chainPool B) : outcome (forkedChain B) :=
  current ← get_chain cp (current cp);
  let longest := foldl (fun longest '(_, reader) =>
      if decide (fc_headHeight longest < fc_headHeight reader) then reader else longest)
    current (orderC (chains cp)) in
  Ret (if decide (fc_headHeight current < fc_headHeight longest - 4) then longest else current).

Definition CurrentChain (cp : chainPool B) : outcome (forkedChain B) := get_chain cp (current cp).

Definition ExistInCurrent (cp : chainPool B) (request : FetchRequest) : outcome bool :=
  cur ← get_chain cp (current cp);
  Ret (bool_decide (is_Some (fc_heightBlocks cur !! fr_Height request))).

(** [accountPool.FindInChain]: a range loop over [chains] that returns at the first match. *)
Definition FindInChain (cp : chainPool B) (hash : string) (height : Z) : bool :=
  existsb (fun '(_, c) =>
    match fc_heightBlocks c !! height with
    | Some b => bool_decide (Hash b = hash)
    | None => false
    end) (map_to_list (chains cp)).
End snippets.

Section choose.
Context {B : Type} `{Block B} {W : Type} `{ChainRw B W}.
Implicit Types (w : W) (cp : chainPool B) (c : forkedChain B) (s : snippetChain B) (val : Z).

(** The loop of [loopAppendChains] over the sorted snippets; [ids] are the chains
    it may append to, the new forks last. *)
Fixpoint append_loop w val cp (ids : list string) (ws : list (snippetChain B)) (i : Z)
    : outcome (chainPool B * Z) :=
  match ws with
  | [] => Ret (cp, i)
  | s :: ws =>
      '(cp, s, r) ← forky w val cp s ids;
      match r with
      | ForkOff id =>
          c ← get_chain cp id;
          let '(cp, newChain, err) := forkChain cp c s in
          append_loop w val (delete_snippet cp s) (ids ++ [fc_chainId newChain]) ws (i + 1)
      | AppendTo id =>
          c ← get_chain cp id;
          '(cp, _, err) ← insertSnippet cp c s;     (* an error is only logged *)
          append_loop w val cp ids ws (i + 1)
      | Neither => append_loop w val (put_snippet cp s) ids ws i
      end
  end.

Definition loopAppendChains
    (orderS : gmap string (snippetChain B) -> list (string * snippetChain B))
    (orderC : gmap string (forkedChain B) -> list (string * forkedChain B))
    w val cp : outcome (chainPool B * Z) :=
  if decide (base.size (snippetChains cp) = 0)%nat then Ret (cp, 0)
  else
    append_loop w val cp (fst <$> orderC (chains cp)) (sortSnippets orderS (snippetChains cp)) 0.

(** The range loop of [whichChain] and of [currentModify]: the first chain, in the
    visiting order, that holds a block at [height] satisfying the test. *)
Definition find_chain (orderC : gmap string (forkedChain B) -> list (string * forkedChain B))
    cp (height : Z) (test : PoolBlock B -> bool) : option (forkedChain B) :=
  snd <$> List.find (fun '(_, c) =>
    match fc_heightBlocks c !! height with Some b => test b | None => false end)
    (orderC (chains cp)).

(** [whichChain]: the chain that holds the block, or the request to fetch it. *)
Definition whichChain (orderC : gmap string (forkedChain B) -> list (string * forkedChain B))
    w val cp (height : Z) (hash : string) : outcome (option (forkedChain B) * list (HashHeight * Z)) :=
  let has b := bool_decide (Hash (block b) = hash) in
  match find_chain orderC cp height has with
  | Some finalChain => Ret (Some finalChain, [])
  | None =>
      cur ← get_chain cp (current cp);
      b ← getBlock w val cp cur height true;
      if (match b with Some b => has b | None => false end) then Ret (Some cur, [])
      else
        head ← disk_head w;
        Ret (None, [(mkHashHeight hash height, height - Height head)])
  end.

(** The loop of [getForkPoint], going down from height [i]. *)
Fixpoint getForkPoint_loop (fuel : nat) (i : Z) w val cp (longest current : forkedChain B)
    : outcome (option B * option B * error) :=
  match fuel with
  | O => Diverge
  | S fuel =>
      b ← GetBlock w val cp longest i;
      curBlock ← GetBlock w val cp current i;
      match b, curBlock with
      | None, _ => Ret (None, None, Some "longest chain error.")
      | _, None => Ret (None, None, Some "current chain error.")
      | Some b, Some cb =>
          if decide (Hash b = Hash cb) then
            keyPoint ← GetBlock w val cp longest (i + 1);
            Ret (keyPoint, Some b, None)
          else getForkPoint_loop fuel (i - 1) w val cp longest current
      end
  end.

(** No chain has a block below height 0: the heights from the head of [current]
    down to -1 are enough. *)
Definition getForkPoint w val cp (longest current : forkedChain B)
    : outcome (option B * option B * error) :=
  let curHeadHeight := fc_headHeight current in
  getForkPoint_loop (Z.to_nat (curHeadHeight + 2)) curHeadHeight w val cp longest current.

Definition getForkPointByChains w val cp (chain1 chain2 : forkedChain B)
    : outcome (option B * option B * error) :=
  h1 ← Head w val cp chain1;
  h1 ← deref h1 "nil dereference";
  h2 ← Head w val cp chain2;
  h2 ← deref h2 "nil dereference";
  if decide (Height h2 < Height h1) then getForkPoint w val cp chain1 chain2
  else getForkPoint w val cp chain2 chain1.

(** [BCPool.currentModify] *)
Definition currentModify (orderC : gmap string (forkedChain B) -> list (string * forkedChain B))
    w val cp (forkHeight : Z) (forkHash : string)
    : outcome (W * chainPool B * list (HashHeight * Z) * error) :=
  match find_chain orderC cp forkHeight (fun _ => true) with
  | None =>
      head ← disk_head w;
      Ret (w, cp, [(mkHashHeight forkHash forkHeight, forkHeight - Height head)], None)
  | Some finalChain =>
      if decide (fc_chainId finalChain = current cp) then Ret (w, cp, [], None)
      else
        cur ← get_chain cp (current cp);
        '(_, forkBlock, err) ← getForkPointByChains w val cp finalChain cur;
        match err with
        | Some _ => Ret (w, cp, [], Some "can't find fork point.")
        | None =>
            forkBlock ← deref forkBlock "nil dereference";
            '(w, cp, err) ← rollback w val cp (Height forkBlock);
            match err with
            | Some _ => Ret (w, cp, [], Some "rollback fail.")
            | None =>
                finalChain ← get_chain cp (fc_chainId finalChain);
                '(cp, err) ← currentModifyToChain w val cp finalChain;
                Ret (w, cp, [], err)
            end
        end
  end.
End choose.
