(* ===== verification/BCPoolSpec.v ===== *)
(** * BCPoolSpec: snippets, in-memory chains and what the pool does with them

    A snippet or in-memory chain is well formed when its height map holds, from
    the tail on, exactly a sequence of hash-linked blocks ending at its recorded
    head ([segment]).  The operations of the pool are described on those
    sequences. *)
From S2P Require Import Prelude.
From S2P Require Import Common.
From S2P Require Import Links.
From S2P Require Import Verifier.
From S2P Require Import BCPool.

#[local] Arguments Height : simpl never.
#[local] Arguments Hash : simpl never.
#[local] Arguments PreHash : simpl never.

Section segments.
Context {B : Type} `{Block B}.
Implicit Types (m : gmap Z (PoolBlock B)) (bs : list (PoolBlock B)) (b : PoolBlock B).

(** The map holds the blocks [bs] at the heights above [h]. *)
Definition at_heights m (h : Z) bs : Prop :=
  forall k, m !! k = if decide (h < k) then bs !! Z.to_nat (k - h - 1) else None.

Lemma at_heights_nil h : at_heights ∅ h [].
Proof. intros k. rewrite lookup_empty. by case_decide. Qed.

Lemma at_heights_nil_inv m h : at_heights m h [] -> m = ∅.
Proof. intros A. apply map_eq. intros k. rewrite A, lookup_empty. by case_decide. Qed.

Lemma at_heights_snoc m h bs b :
  at_heights m h bs -> Height b = h + Z.of_nat (length bs) + 1 ->
  at_heights (<[Height b := b]> m) h (bs ++ [b]).
Proof.
  intros A Hb k. destruct (decide (k = Height b)) as [->|Hne].
  - rewrite lookup_insert_eq, decide_True by lia.
    rewrite lookup_app_r by lia. by replace (_ - _)%nat with 0%nat by lia.
  - rewrite lookup_insert_ne, A by done. case_decide; [|done].
    destruct (decide (Z.to_nat (k - h - 1) < length bs)%nat); [by rewrite lookup_app_l|].
    rewrite !lookup_ge_None_2; [done|rewrite length_app; cbn; lia|lia].
Qed.

Lemma at_heights_cons m h bs b :
  at_heights m (h + 1) bs -> Height b = h + 1 ->
  at_heights (<[Height b := b]> m) h (b :: bs).
Proof.
  intros A Hb k. destruct (decide (k = Height b)) as [->|Hne].
  - rewrite lookup_insert_eq, decide_True by lia. by replace (Z.to_nat _) with 0%nat by lia.
  - rewrite lookup_insert_ne, A by done. case_decide; case_decide; try lia; [|done].
    by replace (Z.to_nat (k - h - 1)) with (S (Z.to_nat (k - (h + 1) - 1))) by lia.
Qed.

Lemma at_heights_head m h b bs : at_heights m h (b :: bs) -> m !! (h + 1) = Some b.
Proof. intros A. rewrite A, decide_True by lia. by replace (Z.to_nat _) with 0%nat by lia. Qed.

Lemma at_heights_tail m h b bs :
  at_heights m h (b :: bs) -> at_heights (delete (h + 1) m) (h + 1) bs.
Proof.
  intros A k. destruct (decide (k = h + 1)) as [->|Hne].
  - by rewrite lookup_delete_eq, decide_False by lia.
  - rewrite lookup_delete_ne, A by done. case_decide; case_decide; try lia; [|done].
    by replace (Z.to_nat (k - h - 1)) with (S (Z.to_nat (k - (h + 1) - 1))) by lia.
Qed.

Lemma at_heights_inj m h bs1 bs2 : at_heights m h bs1 -> at_heights m h bs2 -> bs1 = bs2.
Proof.
  intros A1 A2. apply list_eq. intros j. specialize (A1 (h + 1 + Z.of_nat j)). specialize (A2 (h + 1 + Z.of_nat j)).
  rewrite decide_True in A1, A2 by lia.
  replace (Z.to_nat (h + 1 + Z.of_nat j - h - 1)) with j in A1, A2 by lia. by rewrite <- A1.
Qed.

(** The number of blocks in the map is the length of the sequence. *)
Lemma at_heights_size m h bs : at_heights m h bs -> base.size m = length bs.
Proof.
  revert m h. induction bs as [|b bs IH]; intros m h A.
  - by rewrite (at_heights_nil_inv _ _ A), map_size_empty.
  - pose proof (at_heights_head _ _ _ _ A) as Hb. cbn.
    rewrite <- (IH _ _ (at_heights_tail _ _ _ _ A)).
    rewrite <- (insert_delete_id m (h + 1) b) at 1 by done.
    by rewrite map_size_insert_None by apply lookup_delete_eq.
Qed.

(** ** Well-formed snippets and chains *)
Record segment m (tailHash : string) (tailHeight : Z) (headHash : string) (headHeight : Z) bs : Prop := {
  sg_linked : linked tailHash tailHeight bs;
  sg_tip : tip tailHash tailHeight bs = (headHash, headHeight);
  sg_map : at_heights m tailHeight bs
}.

Definition snippet_wf (s : snippetChain B) bs : Prop :=
  segment (sn_heightBlocks s) (sn_tailHash s) (sn_tailHeight s) (sn_headHash s) (sn_headHeight s) bs.

(** The tail hash [th] of a chain is the one its first block links to: forked
    chains do not record it. *)
Definition forked_wf (c : forkedChain B) (th : string) bs : Prop :=
  segment (fc_heightBlocks c) th (fc_tailHeight c) (fc_headHash c) (fc_headHeight c) bs.

Lemma segment_length m th h xh xx bs : segment m th h xh xx bs -> xx = h + Z.of_nat (length bs).
Proof. intros [_ T _]. pose proof (tip_height th h bs) as E. by rewrite T in E. Qed.

Lemma snippet_init_wf id b : snippet_wf (snippet_init id b) [b].
Proof.
  split; cbn [snippet_init sn_heightBlocks sn_tailHash sn_tailHeight sn_headHash sn_headHeight].
  - cbn. split_and!; lia || done.
  - cbn. f_equal. lia.
  - rewrite <- insert_empty. apply at_heights_cons; [apply at_heights_nil | lia].
Qed.

(** Adding a block below the tail, when its height is the right one. *)
Lemma snippet_addTail_wf (s : snippetChain B) bs b :
  snippet_wf s bs -> Hash b = sn_tailHash s -> Height b = sn_tailHeight s ->
  snippet_wf (snippet_addTail s b) (b :: bs).
Proof.
  intros [Hl Ht Hm] Hx Hh.
  split; cbn [snippet_addTail sn_heightBlocks sn_tailHash sn_tailHeight sn_headHash sn_headHeight].
  - cbn. replace (Height b - 1 + 1) with (Height b) by lia. rewrite Hx, Hh. split_and!; done || lia.
  - cbn. replace (Height b - 1 + 1) with (Height b) by lia. by rewrite Hx, Hh.
  - apply at_heights_cons; [|lia]. by replace (Height b - 1 + 1) with (sn_tailHeight s) by lia.
Qed.

Lemma deleteTail_wf (s : snippetChain B) b bs :
  snippet_wf s (b :: bs) -> snippet_wf (deleteTail s b) bs.
Proof.
  intros [Hl Ht Hm]. cbn in Hl, Ht. destruct Hl as (_ & Hh & Hl).
  split; cbn [deleteTail sn_heightBlocks sn_tailHash sn_tailHeight sn_headHash sn_headHeight];
    rewrite ?Hh; try done. by apply at_heights_tail with (b := b).
Qed.

(** Merging the snippet below: its blocks come first. *)
Lemma merge_snippet_wf (s oc : snippetChain B) bs obs :
  snippet_wf s bs -> snippet_wf oc obs ->
  sn_tailHash s = sn_headHash oc -> sn_tailHeight s = sn_headHeight oc ->
  snippet_wf (merge_snippet s oc) (obs ++ bs).
Proof.
  intros [Hl Ht Hm] [Ol Ot Om] Ex Eh. pose proof (tip_height (sn_tailHash oc) (sn_tailHeight oc) obs) as Hn.
  rewrite Ot in Hn. cbn in Hn.
  split; cbn [merge_snippet sn_heightBlocks sn_tailHash sn_tailHeight sn_headHash sn_headHeight].
  - apply linked_app. rewrite Ot. cbn. by rewrite <- Ex, <- Eh.
  - rewrite tip_app, Ot. cbn. by rewrite <- Ex, <- Eh.
  - intros k. rewrite lookup_union, Om, Hm. repeat case_decide; try lia; try done.
    + rewrite lookup_app_r by lia. replace (Z.to_nat (k - sn_tailHeight oc - 1) - length obs)%nat
        with (Z.to_nat (k - sn_tailHeight s - 1)) by lia.
      rewrite (lookup_ge_None_2 obs) by lia. by destruct (bs !! _).
    + rewrite lookup_app_l by lia. by destruct (obs !! _).
Qed.

Lemma addHead_wf (c : forkedChain B) th bs b :
  forked_wf c th bs -> PreHash b = fc_headHash c -> Height b = fc_headHeight c + 1 ->
  forked_wf (addHead c b) th (bs ++ [b]).
Proof.
  intros Hwf Hp Hh. pose proof (segment_length _ _ _ _ _ _ Hwf) as Hn. destruct Hwf as [Hl Ht Hm].
  split; cbn [addHead fc_heightBlocks fc_tailHeight fc_headHash fc_headHeight].
  - apply linked_snoc. rewrite Ht. cbn. split_and!; [done|done|lia].
  - rewrite tip_snoc. f_equal. lia.
  - apply at_heights_snoc; [done|lia].
Qed.

Lemma addTail_wf (c : forkedChain B) bs b :
  forked_wf c (Hash b) bs -> Height b = fc_tailHeight c ->
  forked_wf (addTail c b) (PreHash b) (b :: bs).
Proof.
  intros [Hl Ht Hm] Hh.
  split; cbn [addTail fc_heightBlocks fc_tailHeight fc_headHash fc_headHeight].
  - cbn. replace (Height b - 1 + 1) with (Height b) by lia. rewrite Hh. split_and!; done || lia.
  - cbn. replace (Height b - 1 + 1) with (Height b) by lia. by rewrite Hh.
  - apply at_heights_cons; [|lia]. by replace (Height b - 1 + 1) with (fc_tailHeight c) by lia.
Qed.

Lemma removeTail_wf (c : forkedChain B) th b bs :
  forked_wf c th (b :: bs) -> forked_wf (removeTail c b) (Hash b) bs.
Proof.
  intros [Hl Ht Hm]. cbn in Hl, Ht. destruct Hl as (_ & Hh & Hl).
  split; cbn [removeTail fc_heightBlocks fc_tailHeight fc_headHash fc_headHeight];
    rewrite ?Hh; try done. by apply at_heights_tail with (b := b).
Qed.

(** ** Inserting a snippet at the head of a chain *)

(** The chain after the blocks [ss] have been added at its head. *)
Definition addHeads (c : forkedChain B) (ss : list (PoolBlock B)) : forkedChain B := foldl addHead c ss.

Lemma addHeads_wf c th bs ss :
  forked_wf c th bs -> linked (fc_headHash c) (fc_headHeight c) ss ->
  forked_wf (addHeads c ss) th (bs ++ ss).
Proof.
  revert c bs. induction ss as [|b ss IH]; intros c bs Hwf Hl; cbn; [by rewrite app_nil_r|].
  destruct Hl as (Hp & Hh & Hl). rewrite cons_middle, app_assoc. apply IH.
  - by apply addHead_wf.
  - cbn. by rewrite Hh.
Qed.

Lemma addHeads_frame c ss :
  fc_chainId (addHeads c ss) = fc_chainId c /\ fc_tailHeight (addHeads c ss) = fc_tailHeight c /\
  fc_tailHash (addHeads c ss) = fc_tailHash c /\ fc_referChain (addHeads c ss) = fc_referChain c.
Proof. revert c. induction ss as [|b ss IH]; intros c; [done|]. apply (IH (addHead c b)). Qed.

Lemma insertSnippet_loop_spec c s ss :
  snippet_wf s ss -> linked (fc_headHash c) (fc_headHeight c) ss ->
  exists s', insertSnippet_loop (length ss) (sn_tailHeight s + 1) c s = Ret (addHeads c ss, s', None) /\
    snippet_wf s' [] /\ sn_chainId s' = sn_chainId s /\ sn_headHeight s' = sn_headHeight s.
Proof.
  revert c s. induction ss as [|b ss IH]; intros c s Hwf Hl; [by exists s|].
  cbn [length insertSnippet_loop]. rewrite (at_heights_head _ _ _ _ (sg_map _ _ _ _ _ _ Hwf)).
  cbn [deref]. rewrite bind_ret_l. destruct Hl as (Hp & Hh & Hl).
  unfold insert_head. rewrite !decide_True by done.
  destruct (IH (addHead c b) (deleteTail s b)) as (s' & E & W1 & W2 & W3).
  - by apply deleteTail_wf.
  - cbn. by rewrite Hh.
  - exists s'. split; [|done]. change (addHeads c (b :: ss)) with (addHeads (addHead c b) ss). rewrite <- E.
    pose proof (sg_linked _ _ _ _ _ _ Hwf) as (_ & Hb & _).
    unfold deleteTail. cbn [sn_tailHeight]. by rewrite Hb.
Qed.

Lemma insertSnippet_loop_fail c s b ss :
  snippet_wf s (b :: ss) ->
  ~ (fc_headHash c = PreHash b /\ Height b = fc_headHeight c + 1) ->
  insertSnippet_loop (length (b :: ss)) (sn_tailHeight s + 1) c s = Ret (c, s, Some "fork chain.").
Proof.
  intros Hwf Hn. cbn [length insertSnippet_loop].
  rewrite (at_heights_head _ _ _ _ (sg_map _ _ _ _ _ _ Hwf)). cbn [deref]. rewrite bind_ret_l.
  unfold insert_head. case_decide; [case_decide; [tauto|]|]; done.
Qed.

Lemma snippet_rounds s ss :
  snippet_wf s ss -> Z.to_nat (sn_headHeight s - sn_tailHeight s) = length ss.
Proof. intros Hwf. rewrite (segment_length _ _ _ _ _ _ Hwf). lia. Qed.
End segments.

(** C12: inserting a snippet at the head of a chain.  When a well-formed snippet
    starts where a well-formed chain ends, [insertSnippet] returns no error: the
    chain then holds its old blocks followed by all the snippet's, is still well
    formed, and the snippet is gone from the pool, other snippets and chains
    untouched.  When its first block does not continue the chain, it returns the
    error "fork chain." and changes neither the chain nor the snippet. *)
Theorem insertSnippet_appends {B} `{Block B} (cp : chainPool B) c th bs s ss :
  forked_wf c th bs -> snippet_wf s ss -> ss <> [] ->
  snippetChains cp !! sn_chainId s = Some s -> chains cp !! fc_chainId c = Some c ->
  (sn_tailHash s = fc_headHash c -> sn_tailHeight s = fc_headHeight c ->
   exists c' s', insertSnippet cp c s = Ret (put_chain (delete_snippet cp s) c', s', None) /\
     forked_wf c' th (bs ++ ss) /\ fc_headHash c' = sn_headHash s /\
     fc_headHeight c' = sn_headHeight s /\ fc_chainId c' = fc_chainId c /\
     fc_tailHash c' = fc_tailHash c /\ fc_referChain c' = fc_referChain c) /\
  (~ (sn_tailHash s = fc_headHash c /\ sn_tailHeight s = fc_headHeight c) ->
   insertSnippet cp c s = Ret (cp, s, Some "fork chain.")).
Proof.
  intros Hc Hs Hne Hin Hcin. destruct ss as [|b ss]; [done|]. unfold insertSnippet.
  rewrite (snippet_rounds _ _ Hs). split.
  - intros Ex Eh. destruct (insertSnippet_loop_spec c s (b :: ss) Hs) as (s' & E & W1 & W2 & W3).
    { rewrite <- Ex, <- Eh. apply Hs. }
    rewrite E, bind_ret_l. exists (addHeads c (b :: ss)), s'.
    assert (Ht : sn_tailHeight s' = sn_headHeight s').
    { pose proof (segment_length _ _ _ _ _ _ W1). cbn in *. lia. }
    assert (Hwf : forked_wf (addHeads c (b :: ss)) th (bs ++ b :: ss)).
    { apply addHeads_wf; [done|]. rewrite <- Ex, <- Eh. apply Hs. }
    destruct (addHeads_frame c (b :: ss)) as (F1 & F2 & F3 & F4).
    split; [|split; [done|]].
    + rewrite decide_True by done. unfold put_snippet, put_chain, delete_snippet, set_snippets.
      cbn [snippetChains poolId lastestChainIdx current chains]. rewrite W2, Hin.
      cbn [snippetChains poolId lastestChainIdx current chains]. by rewrite delete_insert_eq.
    + pose proof (sg_tip _ _ _ _ _ _ Hwf) as T. pose proof (sg_tip _ _ _ _ _ _ Hs) as Ts.
      rewrite F2, tip_app, (sg_tip _ _ _ _ _ _ Hc) in T. cbn [fst snd] in T.
      rewrite <- Ex, <- Eh, Ts in T. injection T as E1 E2.
      split; [exact (eq_sym E1)|]. split; [exact (eq_sym E2)|]. done.
  - intros Hn. rewrite (insertSnippet_loop_fail c s b ss Hs).
    + rewrite bind_ret_l. unfold put_snippet, put_chain, set_snippets. cbn [snippetChains chains].
      rewrite Hin. cbn [snippetChains poolId lastestChainIdx current chains].
      rewrite !insert_id by done. by destruct cp.
    + pose proof (sg_linked _ _ _ _ _ _ Hs) as (L1 & L2 & _). rewrite L1, L2. intros [? ?]. destruct Hn. split; [congruence|lia].
Qed.

(** ** The disk chain as a list of blocks

    What the pool relies on when it writes to and removes from the disk chain:
    [disk_repr w bs] says that the disk chain holds the linked blocks [bs], the
    first at height 0.  Reading and insertion are an interface of their own: a
    chain may keep these laws and not those of removal. *)
Class ChainRwGrow (B W : Type) `{Block B} `{ChainRw B W} := {
  disk_repr : W -> list B -> Prop;
  disk_linked w bs : disk_repr w bs -> linked "" (-1) bs;
  disk_nodup w bs : disk_repr w bs -> NoDup (Hash <$> bs);
  disk_rw_head w bs b : disk_repr w (bs ++ [b]) -> rw_head w = Some b;
  disk_rw_getBlock w bs h : disk_repr w bs -> 0 <= h -> rw_getBlock w h = Ret (bs !! Z.to_nat h);
  disk_rw_insertChain w w' bs b v : disk_repr w bs -> bs <> [] ->
    PreHash b = (tip "" (-1) bs).1 -> Height b = Z.of_nat (length bs) -> Hash b ∉ "" :: (Hash <$> bs) ->
    rw_insertChain w b v = Ret (w', None) -> disk_repr w' (bs ++ [b])
}.
Definition disk_removes (B W : Type) `{Block B} `{!ChainRw B W, !ChainRwGrow B W} : Prop :=
  forall (w : W) bs (b : B), disk_repr w (bs ++ [b]) -> bs <> [] ->
    exists w', rw_removeChain w b = Ret (w', None) /\ disk_repr w' bs.
Class ChainRwLaws (B W : Type) `{Block B} `{ChainRw B W} := {
  ChainRwLaws_Grow :: ChainRwGrow B W;
  disk_rw_removeChain : disk_removes B W
}.

Section view.
Context {B : Type} `{Block B} {W : Type} `{HRw : ChainRw B W, !ChainRwLaws B W}.
Implicit Types (w : W) (cp : chainPool B) (c : forkedChain B) (bs : list B) (ms : list (PoolBlock B)).

(** Lifting disk blocks to pool blocks, as [diskChain.getBlock] does. *)
Definition lift (val : Z) (b : B) : PoolBlock B := {| block := b; forkVersion := val |}.

(** The current chain continues the disk chain: together they hold [bs ++ ms]. *)
Record pool_view w cp bs ms : Prop := {
  pv_disk : disk_repr w bs;
  pv_nonempty : bs <> [];
  pv_current : exists c, chains cp !! current cp = Some c /\ fc_chainId c = current cp /\
    fc_tailHash c = (tip "" (-1) bs).1 /\ fc_tailHeight c = Z.of_nat (length bs) - 1 /\
    forked_wf c (fc_tailHash c) ms
}.

Lemma rollback_loop_spec n w val c bs rs ms :
  disk_repr w (bs ++ rs) -> bs <> [] -> length rs = n ->
  fc_tailHash c = (tip "" (-1) (bs ++ rs)).1 -> fc_tailHeight c = Z.of_nat (length (bs ++ rs)) - 1 ->
  forked_wf c (fc_tailHash c) ms ->
  exists w' c', rollback_loop n (fc_tailHeight c) w val c = Ret (w', c', None) /\
    disk_repr w' bs /\ fc_chainId c' = fc_chainId c /\ fc_referChain c' = fc_referChain c /\
    fc_tailHash c' = (tip "" (-1) bs).1 /\ fc_tailHeight c' = Z.of_nat (length bs) - 1 /\
    forked_wf c' (fc_tailHash c') (map (lift val) rs ++ ms).
Proof.
  revert w c rs ms. induction n as [|n IH]; intros w c rs ms Hd Hne Hn Hx Hh Hwf.
  { destruct rs; [|done]. rewrite app_nil_r in *. exists w, c. done. }
  destruct rs as [|b rs _] using rev_ind; [done|].
  rewrite length_app in Hn; cbn in Hn. rewrite app_assoc in Hd, Hx, Hh.
  pose proof (disk_linked _ _ Hd) as Hl. apply linked_snoc in Hl as (_ & Hp & Hb).
  assert (Hc : fc_tailHeight c = Z.of_nat (length (bs ++ rs))).
  { rewrite Hh, (length_app (bs ++ rs)). cbn. lia. }
  cbn [rollback_loop].
  assert (Hg : disk_getBlock w val (fc_tailHeight c) = Ret (Some (lift val b))).
  { unfold disk_getBlock. rewrite decide_False by lia.
    rewrite (disk_rw_getBlock _ _ _ Hd), bind_ret_l by lia.
    replace (Z.to_nat (fc_tailHeight c)) with (length (bs ++ rs)) by lia.
    by rewrite lookup_app_r, Nat.sub_diag by lia. }
  rewrite Hg, bind_ret_l. cbn [deref]. rewrite bind_ret_l. change (block (lift val b)) with b.
  destruct (disk_rw_removeChain _ _ _ Hd) as (w1 & E & Hd1); [by destruct bs|].
  rewrite E, bind_ret_l. change (reset val (lift val b)) with (lift val b).
  assert (Hhb : Height (lift val b) = fc_tailHeight c)
    by (change (Height (lift val b)) with (Height b); lia).
  destruct (IH w1 (addTail c (lift val b)) rs (lift val b :: ms)) as (w' & c' & E' & Hd' & Hid & Hr' & Hx' & Hh' & Hwf').
  - done.
  - done.
  - lia.
  - exact Hp.
  - cbn [addTail fc_tailHeight]. lia.
  - apply addTail_wf; [|done]. rewrite tip_snoc in Hx. cbn [fst] in Hx.
    change (Hash (lift val b)) with (Hash b). by rewrite <- Hx.
  - exists w', c'. cbn [addTail fc_tailHeight fc_chainId fc_referChain] in *. rewrite Hhb in E'. split; [done|].
    rewrite map_app, <- app_assoc. done.
Qed.
(** [rollback] to a height that keeps the first block. *)
Lemma rollback_spec w val cp bs c ms k :
  disk_repr w bs -> bs <> [] -> chains cp !! current cp = Some c -> fc_chainId c = current cp ->
  fc_tailHash c = (tip "" (-1) bs).1 -> fc_tailHeight c = Z.of_nat (length bs) - 1 ->
  forked_wf c (fc_tailHash c) ms -> 0 <= k ->
  let n := S (Z.to_nat k) in
  exists w' c', rollback w val cp k = Ret (w', put_chain cp c', None) /\
    disk_repr w' (take n bs) /\ take n bs <> [] /\
    fc_chainId c' = fc_chainId c /\ fc_referChain c' = fc_referChain c /\
    fc_tailHash c' = (tip "" (-1) (take n bs)).1 /\
    fc_tailHeight c' = Z.of_nat (length (take n bs)) - 1 /\
    forked_wf c' (fc_tailHash c') (map (lift val) (drop n bs) ++ ms).
Proof.
  intros Hd Hne Hc Hid Hx Hh Hwf Hk n. rewrite <- (take_drop n bs) in Hd, Hx, Hh.
  assert (Htk : take n bs <> []) by (destruct bs; [done|by unfold n]).
  assert (Hlen : length (drop n bs) = Z.to_nat (fc_tailHeight c - k)).
  { rewrite Hh, take_drop, length_drop. unfold n. lia. }
  destruct (rollback_loop_spec _ w val c (take n bs) (drop n bs) ms Hd Htk Hlen Hx Hh Hwf)
    as (w' & c' & E & Hd' & Hid' & Hr' & Hx' & Hh' & Hwf').
  unfold rollback, get_chain. rewrite Hc. cbn [deref]. rewrite bind_ret_l, E, bind_ret_l.
  assert (Hhd : exists b, disk_head w' = Ret b /\ Height b = fc_tailHeight c' /\ Hash b = fc_tailHash c').
  { destruct (take n bs) as [|b l _] using rev_ind; [done|]. exists b.
    unfold disk_head, disk_Head. rewrite (disk_rw_head _ _ _ Hd'). split; [done|].
    pose proof (disk_linked _ _ Hd') as Hl. apply linked_snoc in Hl as (_ & _ & Hb).
    rewrite Hx', tip_snoc, Hh', length_app. cbn. split; [lia|done]. }
  destruct Hhd as (b & -> & Hb1 & Hb2). rewrite bind_ret_l, decide_False by (rewrite Hb1, Hb2; tauto).
  exists w', c'. by split_and!.
Qed.
End view.

(** C11: rolling the pool back moves blocks from the disk chain to the current
    chain and loses none.  Let removing the last block of the disk chain restore
    the chain before it ([ChainRwLaws]): the snapshot chain does, the account chain
    does not.  On a pool whose current chain continues the disk chain
    ([bs] on disk, [ms] in memory), rolling back to a height [k] that keeps the
    first block returns no error; the disk chain then holds the blocks up to [k],
    the removed ones are, in order and under the current fork version, the first
    blocks of the current chain, and disk and current chain together hold the
    same blocks as before. *)
Theorem rollback_keeps_view {B} `{Block B} {W} `{HRw : ChainRw B W, !ChainRwLaws B W}
    (w : W) val (cp : chainPool B) bs ms k :
  pool_view w cp bs ms -> 0 <= k ->
  exists w' cp', rollback w val cp k = Ret (w', cp', None) /\
    let n := S (Z.to_nat k) in
    let ms' := map (lift val) (drop n bs) ++ ms in
    pool_view w' cp' (take n bs) ms' /\
    (take n bs ++ map block ms' : list B) = bs ++ map block ms.
Proof.
  intros [Hd Hne (c & Hc & Hid & Hx & Hh & Hwf)] Hk.
  destruct (rollback_spec w val cp bs c ms k Hd Hne Hc Hid Hx Hh Hwf Hk)
    as (w' & c' & E & Hd' & Hne' & Hid' & _ & Hx' & Hh' & Hwf'). set (n := S (Z.to_nat k)) in *.
  exists w', (put_chain cp c'). split; [done|]. split.
  - split; [done|done|]. exists c'. cbn [put_chain chains current].
    rewrite Hid', Hid, lookup_insert_eq. done.
  - rewrite map_app, map_map, app_assoc. f_equal.
    rewrite map_id. apply take_drop.
Qed.

(** Writing the first block of the current chain to disk keeps the pool
    together.  If the disk chain accepts the block (and its hash is new there),
    then disk and current chain together hold the same blocks as before, the
    block now being the last on disk and no longer in memory; if the disk chain
    refuses it, the current chain is unchanged. *)
Theorem writeToChain_keeps_view {B} `{Block B} {W} `{HRw : ChainRw B W, !ChainRwLaws B W}
    (w w' : W) (cp cp' : chainPool B) c bs b ms e :
  pool_view w cp bs (b :: ms) -> chains cp !! current cp = Some c ->
  Hash b ∉ "" :: (Hash <$> bs) ->
  writeToChain w cp c b = Ret (w', cp', e) ->
  (e = None -> pool_view w' cp' (bs ++ [block b]) ms) /\ (e <> None -> cp' = cp).
Proof.
  intros [Hd Hne (c' & Hc & Hid & Hx & Hh & Hwf)] Hc' Hf.
  rewrite Hc in Hc'. injection Hc' as ->. unfold writeToChain.
  intros ([w1 err] & E & Er)%bind_ret_inv. destruct err as [err|]; [by injection Er as _ <- <-|].
  injection Er as <- <- <-. split; [|done]. intros _.
  pose proof (sg_linked _ _ _ _ _ _ Hwf) as (Hp & Hb & _).
  split.
  - eapply disk_rw_insertChain; [done|done| | |done|exact E].
    + rewrite <- Hx. exact Hp.
    + change (Height (block b)) with (Height b). lia.
  - by destruct bs.
  - exists (removeTail c b). cbn [put_chain chains current removeTail fc_chainId fc_tailHash fc_tailHeight].
    rewrite Hid, lookup_insert_eq, tip_snoc, length_app. split_and!; [done|done|done|cbn; lia|].
    by eapply removeTail_wf.
Qed.

(** ** Fork points *)
Section forks.
Context {B : Type} `{Block B} {W : Type} `{ChainRw B W}.
Implicit Types (w : W) (cp : chainPool B) (c : forkedChain B) (s : snippetChain B).

(** The chain, read at height [i], holds a block with the hash of [p]. *)
Definition on_chain (g : Z -> option (PoolBlock B)) (i : Z) (x : string) : Prop :=
  exists u, g i = Some u /\ Hash u = x.

Lemma findForkPoint_loop_spec w val cp s c refer g f ss :
  (forall i, getBlock w val cp c i refer = Ret (g i)) ->
  snippet_wf s ss -> Hash f = sn_tailHash s -> on_chain g (sn_tailHeight s) (sn_tailHash s) ->
  exists s' r ss1 ss2,
    findForkPoint_loop (length ss) (sn_tailHeight s + 1) w val cp s c refer f = Ret (s', r) /\
    ss = ss1 ++ ss2 /\ snippet_wf s' ss2 /\ Forall (fun p => on_chain g (Height p) (Hash p)) ss1 /\
    on_chain g (sn_tailHeight s') (sn_tailHash s') /\
    match r with
    | Some p => Hash p = sn_tailHash s' /\
        exists q ss3 u, ss2 = q :: ss3 /\ g (Height q) = Some u /\ Hash u <> Hash q
    | None => ss2 = [] \/ exists q ss3, ss2 = q :: ss3 /\ g (Height q) = None
    end.
Proof.
  intros Hg. revert s f. induction ss as [|b ss IH]; intros s f Hwf Hf Ht.
  { exists s, None, [], []. cbn. split_and!; try done. by left. }
  pose proof (sg_linked _ _ _ _ _ _ Hwf) as (Hp & Hb & _).
  cbn [length findForkPoint_loop]. rewrite Hg, bind_ret_l, <- Hb.
  destruct (g (Height b)) as [u|] eqn:Eu.
  2: { exists s, None, [], (b :: ss). split_and!; try done. right. by exists b, ss. }
  pose proof (at_heights_head _ _ _ _ (sg_map _ _ _ _ _ _ Hwf)) as Hm. rewrite <- Hb in Hm.
  rewrite Hm. cbn [deref]. rewrite bind_ret_l. case_decide as Hne.
  - exists s, (Some f), [], (b :: ss). split_and!; try done. exists b, ss, u. done.
  - assert (Hu : Hash u = Hash b) by (destruct (decide (Hash u = Hash b)); [done|]; congruence).
    destruct (IH (deleteTail s b) b) as (s' & r & ss1 & ss2 & E & -> & W' & F & T & Hr).
    + by apply deleteTail_wf.
    + done.
    + by exists u.
    + exists s', r, (b :: ss1), ss2. split; [done|]. split_and!; try done.
      constructor; [by exists u|done].
Qed.

(** What [LongestChain]'s loop computes over any order. *)
Lemma longest_fold cur (l : list (string * forkedChain B)) :
  let r := foldl (fun longest '(_, reader) =>
      if decide (fc_headHeight longest < fc_headHeight reader) then reader else longest) cur l in
  (r = cur \/ exists id, (id, r) ∈ l) /\ fc_headHeight cur <= fc_headHeight r /\
  Forall (fun '(_, c) => fc_headHeight c <= fc_headHeight r) l.
Proof.
  revert cur. induction l as [|[id c] l IH]; intros cur; cbn.
  { split; [by left|]. split; [lia|constructor]. }
  case_decide as Hd.
  - destruct (IH c) as ([->|[id' Hin]] & Hle & Hall).
    + split; [right; exists id; set_solver|]. split; [lia|]. by constructor.
    + split; [right; exists id'; set_solver|]. split; [lia|]. by constructor.
  - destruct (IH cur) as ([Hr|[id' Hin]] & Hle & Hall).
    + split; [by left|]. split; [done|]. constructor; [lia|done].
    + split; [right; exists id'; set_solver|]. split; [done|]. constructor; [lia|done].
Qed.
End forks.

(** Where a snippet leaves a chain.  For a well-formed snippet [ss] and a
    chain whose block at every height [i] is [g i], [findForkPoint] returns, and
    splits the snippet: it cuts off the longest prefix whose blocks are all on the
    chain and leaves a well-formed snippet of the rest.  It reports a fork point
    exactly when the chain has a different block at the next height, and the
    point is then a block with the hash the rest links to, which is on the chain;
    it reports none when the snippet's tail is not on the chain (nothing is cut
    then), when the whole snippet is, or when the chain has ended. *)
Theorem findForkPoint_correct {B} `{Block B} {W} `{ChainRw B W}
    (w : W) val (cp : chainPool B) s c refer g ss :
  (forall i, getBlock w val cp c i refer = Ret (g i)) -> snippet_wf s ss ->
  exists s' r ss1 ss2, findForkPoint w val cp s c refer = Ret (s', r) /\
    ss = ss1 ++ ss2 /\ snippet_wf s' ss2 /\ Forall (fun p => on_chain g (Height p) (Hash p)) ss1 /\
    match r with
    | Some p => Hash p = sn_tailHash s' /\ on_chain g (sn_tailHeight s') (sn_tailHash s') /\
        exists q ss3 u, ss2 = q :: ss3 /\ g (Height q) = Some u /\ Hash u <> Hash q
    | None => (s' = s /\ ~ on_chain g (sn_tailHeight s) (sn_tailHash s)) \/
        ss2 = [] \/ exists q ss3, ss2 = q :: ss3 /\ g (Height q) = None
    end.
Proof.
  intros Hg Hwf. unfold findForkPoint. rewrite Hg, bind_ret_l.
  destruct (g (sn_tailHeight s)) as [f|] eqn:Ef.
  2: { exists s, None, [], ss. split_and!; try done. left. split; [done|]. intros (u & Hu & _). congruence. }
  case_decide as Hf.
  { exists s, None, [], ss. split_and!; try done. left. split; [done|]. intros (u & Hu & Hx). congruence. }
  assert (Hfe : Hash f = sn_tailHash s) by (destruct (decide (Hash f = sn_tailHash s)); [done|tauto]).
  rewrite (snippet_rounds _ _ Hwf).
  destruct (findForkPoint_loop_spec w val cp s c refer g f ss Hg Hwf Hfe)
    as (s' & r & ss1 & ss2 & E & Hs & W' & F & T & Hr); [by exists f|].
  exists s', r, ss1, ss2. split_and!; try done. destruct r as [p|]; [tauto|]. by right.
Qed.

(** The longest chain is chosen by height, with a margin.  In whatever order
    the chains are visited, [LongestChain] returns the current chain unless some
    chain's head is more than four blocks above it; it then returns a chain of
    the pool with the greatest head height. *)
Theorem LongestChain_correct {B} `{Block B} orderC (cp : chainPool B) cur :
  range_order orderC -> chains cp !! current cp = Some cur ->
  exists r, LongestChain orderC cp = Ret r /\
    ((r = cur /\ forall id c, chains cp !! id = Some c -> fc_headHeight c <= fc_headHeight cur + 4) \/
     ((exists id, chains cp !! id = Some r) /\ fc_headHeight cur + 4 < fc_headHeight r /\
      forall id c, chains cp !! id = Some c -> fc_headHeight c <= fc_headHeight r)).
Proof.
  intros Ho Hc. unfold LongestChain, get_chain. rewrite Hc. cbn [deref]. rewrite bind_ret_l.
  destruct (longest_fold cur (orderC (chains cp))) as (Hr & Hle & Hall).
  set (r := foldl _ cur (orderC (chains cp))) in *. eexists. split; [reflexivity|].
  rewrite Forall_forall in Hall.
  assert (Hmax : forall id c, chains cp !! id = Some c -> fc_headHeight c <= fc_headHeight r).
  { intros id c Hin. apply (range_order_elem orderC _ id c Ho) in Hin. by apply (Hall (id, c)). }
  case_decide as Hd.
  - right. split_and!; [|lia|done]. destruct Hr as [->|[id Hid]]; [by eexists|].
    exists id. by apply (range_order_elem orderC _ id r Ho).
  - left. split; [done|]. intros id c Hin. specialize (Hmax id c Hin). lia.
Qed.

(** C15: the search for a fork point ends at the highest common block.  If both
    chains can be read at every height up to the current head, and hold no block
    at height -1, the search returns; when it reports a fork point, that is the
    block of the longest chain at a height where both chains have the same hash,
    the key point is the longest chain's next block, and the chains hold different
    blocks at every height above it up to the current head. *)
Theorem getForkPoint_highest_common {B} `{Block B} {W} `{ChainRw B W}
    (w : W) val (cp : chainPool B) longest cur (gl gc : Z -> option B) :
  (forall i, GetBlock w val cp longest i = Ret (gl i)) ->
  (forall i, GetBlock w val cp cur i = Ret (gc i)) -> gl (-1) = None ->
  -1 <= fc_headHeight cur ->
  exists r, getForkPoint w val cp longest cur = Ret r /\
    forall k f, r = (k, f, None) ->
      exists i b b', f = Some b /\ gl i = Some b /\ gc i = Some b' /\ Hash b = Hash b' /\
        i <= fc_headHeight cur /\ k = gl (i + 1) /\
        forall j, i < j <= fc_headHeight cur ->
          exists bl bc, gl j = Some bl /\ gc j = Some bc /\ Hash bl <> Hash bc.
Proof.
  intros Hl Hc Hnone Hh. unfold getForkPoint.
  assert (K : forall n i, i <= fc_headHeight cur -> n = Z.to_nat (i + 2) -> -1 <= i ->
    (forall j, i < j <= fc_headHeight cur ->
       exists bl bc, gl j = Some bl /\ gc j = Some bc /\ Hash bl <> Hash bc) ->
    exists r, getForkPoint_loop n i w val cp longest cur = Ret r /\
    forall k f, r = (k, f, None) ->
      exists i b b', f = Some b /\ gl i = Some b /\ gc i = Some b' /\ Hash b = Hash b' /\
        i <= fc_headHeight cur /\ k = gl (i + 1) /\
        forall j, i < j <= fc_headHeight cur ->
          exists bl bc, gl j = Some bl /\ gc j = Some bc /\ Hash bl <> Hash bc).
  { induction n as [|n IH]; intros i Hi Hn Hlo Habove; [lia|].
    cbn [getForkPoint_loop]. rewrite (Hl i), bind_ret_l, (Hc i), bind_ret_l.
    destruct (gl i) as [b|] eqn:Eb; [|eexists; split; [done|]; done].
    destruct (gc i) as [b'|] eqn:Eb'; [|eexists; split; [done|]; done].
    case_decide as Hd.
    - rewrite Hl, bind_ret_l. eexists. split; [done|]. intros k f [= <- <-].
      exists i, b, b'. split_and!; done.
    - apply IH; [lia|lia|destruct (decide (i = -1)); [congruence|lia]|].
      intros j Hj. destruct (decide (j = i)) as [->|]; [by exists b, b'|]. apply Habove. lia. }
  apply K; [lia|done|done|lia].
Qed.

(** ** Two ways blocks are lost *)

(** A block with a forged height stops the pool.  [tryInsert] joins a block
    to a snippet by hash alone.  If a block from the network has the hash a
    snippet links to but a height below the snippet's tail, it is accepted as the
    snippet's new first block; the heights in between are then empty, and
    inserting the snippet in the chain the block continues dereferences nil. *)
Theorem gap_block_panics {B} `{Block B} (cp : chainPool B) c s ss (p : PoolBlock B) :
  snippet_wf s ss -> ss <> [] -> Hash p = sn_tailHash s -> Height p < sn_tailHeight s ->
  PreHash p = fc_headHash c -> Height p = fc_headHeight c + 1 ->
  let s' := snippet_addTail s p in
  tryInsert {[sn_chainId s := s]} [sn_chainId s] p = Ret ({[sn_chainId s := s']}, true) /\
  insertSnippet cp c s' = Panic "nil dereference".
Proof.
  intros Hwf Hne Hx Hh Hp Hc s'. split.
  - cbn [tryInsert]. rewrite lookup_singleton_eq. cbn [deref]. rewrite bind_ret_l.
    rewrite decide_True by done. by rewrite insert_singleton_eq.
  - unfold insertSnippet. pose proof (segment_length _ _ _ _ _ _ Hwf) as Hl.
    assert (Hlen : (0 < length ss)%nat) by (destruct ss; cbn; [done|lia]).
    change (sn_headHeight s') with (sn_headHeight s). change (sn_tailHeight s') with (Height p - 1).
    destruct (Z.to_nat (sn_headHeight s - (Height p - 1))) as [|[|n]] eqn:En; [lia|lia|].
    cbn [insertSnippet_loop]. replace (Height p - 1 + 1) with (Height p) by lia.
    change (sn_heightBlocks s') with (<[Height p := p]> (sn_heightBlocks s)).
    rewrite lookup_insert_eq. cbn [deref]. rewrite bind_ret_l. unfold insert_head.
    rewrite !decide_True by done. cbn [sn_heightBlocks].
    rewrite lookup_delete_ne, lookup_insert_ne by lia.
    rewrite (sg_map _ _ _ _ _ _ Hwf), decide_False by lia. done.
Qed.

(** Moving the reference of a chain moves at most one block.  [modifyRefer]
    should hand every block of [from] between the two tails over to [to]; its loop
    compares with the tail height that its own first round has just set, so it
    stops after one block.  When [to] forks off two or more blocks above the tail
    of [from], all of these but the last stay in [from]; [to], which now refers to
    the disk chain, then answers for their heights with what the disk holds. *)
Theorem modifyRefer_moves_one_block {B} `{Block B} {W} `{ChainRw B W}
    (w : W) val (cp : chainPool B) from to th fs ths ts k :
  forked_wf from th fs -> forked_wf to ths ts -> fc_chainId from <> fc_chainId to ->
  fc_referChain from = Some RDisk ->
  fc_tailHeight from < k < fc_tailHeight to -> fc_tailHeight to <= fc_headHeight from ->
  exists cp' to', modifyRefer cp from to = Ret (cp', to') /\
    chains cp' !! fc_chainId to = Some to' /\
    fc_tailHeight to' = fc_tailHeight to - 1 /\
    getBlock w val cp' to' k true = disk_getBlock w val k.
Proof.
  intros Hf Ht Hne Hr Hk Hh. unfold modifyRefer.
  pose proof (segment_length _ _ _ _ _ _ Hf) as Hl.
  destruct (lookup_lt_is_Some_2 fs (Z.to_nat (fc_tailHeight to - fc_tailHeight from - 1)) ltac:(lia)) as [b Hb].
  pose proof (linked_lookup _ _ _ _ _ (sg_linked _ _ _ _ _ _ Hf) Hb) as Hbh.
  assert (Hm : fc_heightBlocks from !! fc_tailHeight to = Some b)
    by (by rewrite (sg_map _ _ _ _ _ _ Hf), decide_True by lia).
  cbn [modifyRefer_loop]. rewrite decide_True by lia. rewrite Hm. cbn [deref]. rewrite bind_ret_l.
  assert (E : forall n, modifyRefer_loop n (fc_tailHeight to - 1) (removeTail from b) (addTail to b) =
     Ret (removeTail from b, addTail to b)).
  { intros n. assert (fc_tailHeight (removeTail from b) = fc_tailHeight to) by (cbn; lia).
    destruct n; cbn [modifyRefer_loop]; by rewrite decide_False by lia. }
  rewrite E, bind_ret_l. cbn [removeTail fc_referChain]. rewrite Hr.
  do 2 eexists. split; [reflexivity|].
  cbn [put_chain chains set_refer addTail fc_chainId fc_tailHeight]. rewrite lookup_insert_eq.
  split; [done|]. split; [lia|].
  unfold getBlock, chain_fuel. cbn [fc_getBlock set_refer addTail fc_heightBlocks fc_referChain].
  rewrite lookup_insert_ne, (sg_map _ _ _ _ _ _ Ht), decide_False by lia. done.
Qed.

(** ** Requests for missing blocks *)

(** Every snippet asks for the blocks below it.  [loopFetchForSnippets] makes
    one request per snippet, in the order of their tail heights, each for the
    snippet's own tail hash and height and for a positive number of blocks; the
    count it returns is the number of snippets. *)
Theorem loopFetch_requests_every_snippet {B} `{Block B} orderS (cp : chainPool B) cur :
  range_order orderS -> chains cp !! current cp = Some cur ->
  exists reqs, loopFetchForSnippets orderS cp = Ret (reqs, Z.of_nat (base.size (snippetChains cp))) /\
    map fst reqs ≡ₚ map (fun '(_, s) => mkHashHeight (sn_tailHash s) (sn_tailHeight s))
                      (map_to_list (snippetChains cp)) /\
    Sorted Z.le (map (fun r => hh_Height (fst r)) reqs) /\
    Forall (fun r => 0 < snd r) reqs.
Proof.
  intros Ho Hc. unfold loopFetchForSnippets.
  assert (Lm : forall head ws prev,
    map fst (fetch_loop head prev ws) = map (fun s : snippetChain B => mkHashHeight (sn_tailHash s) (sn_tailHeight s)) ws /\
    Forall (fun r => 0 < snd r) (fetch_loop head prev ws)).
  { intros head ws. induction ws as [|s ws IH]; intros prev; [split; [done|constructor]|].
    cbn [fetch_loop map]. destruct (IH (sn_headHeight s)) as [E1 E2].
    rewrite map_app, E1, Forall_app.
    match goal with |- context [if decide (0 < ?d) then _ else _] => assert (0 < d) as Hd end.
    { repeat case_decide; lia. }
    rewrite decide_True by done. split; [done|]. split; [by repeat constructor|done]. }
  case_decide as Hz.
  { apply map_size_empty_inv in Hz. rewrite Hz. exists []. cbn.
    rewrite map_to_list_empty. split_and!; done || constructor. }
  unfold get_chain. rewrite Hc. cbn [deref]. rewrite bind_ret_l.
  destruct (Lm (fc_headHeight cur) (sortSnippets orderS (snippetChains cp)) (-1)) as [E1 E2].
  set (reqs := fetch_loop _ _ _) in *.
  assert (Hp : sortSnippets orderS (snippetChains cp) ≡ₚ (map_to_list (snippetChains cp)).*2).
  { unfold sortSnippets. rewrite merge_sort_Permutation. by rewrite (Ho (snippetChains cp)). }
  exists reqs. split; [|split; [|split; [|done]]].
  - f_equal. f_equal. f_equal. rewrite <- (length_map fst reqs), E1, length_map, Hp.
    rewrite <- length_map_to_list. apply length_fmap.
  - rewrite E1, Hp. rewrite map_map. apply reflexive_eq, map_ext. by intros [].
  - assert (Hs : Sorted tail_le (sortSnippets orderS (snippetChains cp))).
    { apply Sorted_merge_sort. intros s1 s2. unfold tail_le. lia. }
    rewrite <- (map_map fst hh_Height), E1, map_map. cbn [hh_Height].
    clear -Hs. induction Hs as [|s l Hs IH Hhd]; cbn; [constructor|]. constructor; [exact IH|].
    destruct Hhd as [|? ? Hle]; cbn; constructor. exact Hle.
Qed.

(** ** Joining loose blocks *)
Section gen.
Context {B : Type} `{Block B}.
Implicit Types (s : snippetChain B) (m : gmap string (snippetChain B)) (p : PoolBlock B).
(** The blocks in play: a block that links to another one has the next height. *)
Context (P : PoolBlock B -> Prop).
Context (consistent : forall p q, P p -> P q -> Hash p = PreHash q -> Height q = Height p + 1).

Definition snippet_good s : Prop :=
  exists bs, bs <> [] /\ snippet_wf s bs /\ Forall P bs.
Definition snippets_good m : Prop :=
  map_Forall (fun id s => sn_chainId s = id /\ snippet_good s) m.
Definition known m (ids : list string) : Prop := Forall (fun id => is_Some (m !! id)) ids.

Lemma snippet_good_tail s p : snippet_good s -> P p -> Hash p = sn_tailHash s -> Height p = sn_tailHeight s.
Proof using consistent.
  intros (bs & Hne & Hwf & HP) Hp Hx. destruct bs as [|q bs]; [done|].
  pose proof (sg_linked _ _ _ _ _ _ Hwf) as (Hq & Hh & _). inversion HP; subst.
  assert (Height q = Height p + 1) by (apply consistent; [done|done|congruence]). lia.
Qed.

Lemma snippet_good_addTail s p :
  snippet_good s -> P p -> Hash p = sn_tailHash s -> snippet_good (snippet_addTail s p).
Proof using consistent.
  intros Hs Hp Hx. pose proof (snippet_good_tail _ _ Hs Hp Hx) as Hh.
  destruct Hs as (bs & Hne & Hwf & HP). exists (p :: bs).
  split; [done|]. split; [by apply snippet_addTail_wf|by constructor].
Qed.

Lemma snippet_good_meet s oc :
  snippet_good s -> snippet_good oc -> sn_tailHash s = sn_headHash oc -> sn_tailHeight s = sn_headHeight oc.
Proof using consistent.
  intros Hs (obs & Hone & Owf & OP) Hx.
  destruct obs as [|r obs _] using rev_ind; [done|]. apply Forall_app in OP as [_ Hr].
  pose proof (sg_tip _ _ _ _ _ _ Owf) as T. rewrite tip_snoc in T. injection T as T1 T2.
  pose proof (sg_linked _ _ _ _ _ _ Owf) as Hl. apply linked_snoc in Hl as (_ & _ & Hl).
  inversion Hr; subst. rewrite <- (snippet_good_tail s r); [lia|done|done|congruence].
Qed.

Lemma snippet_good_merge s oc :
  snippet_good s -> snippet_good oc -> sn_tailHash s = sn_headHash oc ->
  snippet_good (merge_snippet s oc).
Proof using consistent.
  intros Hs Ho Hx. pose proof (snippet_good_meet _ _ Hs Ho Hx) as Hh.
  destruct Hs as (bs & Hne & Hwf & HP), Ho as (obs & Hone & Owf & OP). exists (obs ++ bs).
  split; [by destruct obs|]. split; [by apply merge_snippet_wf|]. by apply Forall_app.
Qed.

Lemma known_insert m ids id s : known m ids -> known (<[id := s]> m) ids.
Proof.
  unfold known. intros Hk. eapply Forall_impl; [exact Hk|]. intros x Hx.
  destruct (decide (id = x)) as [->|]; [rewrite lookup_insert_eq; by eexists|by rewrite lookup_insert_ne].
Qed.

Lemma tryInsert_spec m ids p :
  snippets_good m -> known m ids -> P p ->
  exists m' f, tryInsert m ids p = Ret (m', f) /\ snippets_good m' /\
    (forall ids', known m ids' -> known m' ids').
Proof using consistent.
  intros Hm Hk Hp. induction ids as [|id ids IH]; [by exists m, false|].
  inversion Hk as [|? ? [s Hs] Hk']; subst. cbn [tryInsert]. rewrite Hs. cbn [deref]. rewrite bind_ret_l.
  destruct (Hm id s Hs) as [Hid Hg]. case_decide as Hx.
  - do 2 eexists. split; [reflexivity|]. split; [|intros ids' Hids; by apply known_insert].
    apply map_Forall_insert_2; [|done]. split; [done|]. by apply snippet_good_addTail.
  - case_decide; [by exists m, true|]. by apply IH.
Qed.

(** The chain index has moved by at most [n], if there was room. *)
Definition idx_moved (cp cp' : chainPool B) (n : Z) : Prop :=
  poolId cp' = poolId cp /\
  (- 2 ^ 31 <= lastestChainIdx cp -> lastestChainIdx cp + n < 2 ^ 31 ->
   lastestChainIdx cp <= lastestChainIdx cp' <= lastestChainIdx cp + n).

Lemma idx_moved_trans cp1 cp2 cp3 a b :
  0 <= a -> 0 <= b -> idx_moved cp1 cp2 a -> idx_moved cp2 cp3 b -> idx_moved cp1 cp3 (a + b).
Proof. intros Ha Hb [E1 I1] [E2 I2]. split; [congruence|]. lia. Qed.

Lemma idx_moved_refl cp n : 0 <= n -> idx_moved cp cp n.
Proof. intros Hn. split; [done|lia]. Qed.

Lemma genChainId_moved cp : idx_moved cp (genChainId cp).1 1.
Proof.
  split; [done|]. intros H1 H2. unfold genChainId, incChainIdx. cbn.
  rewrite wrap32_id by (unfold in32; lia). lia.
Qed.

Lemma genSnippets_loop_spec bp cp m ids ps i :
  snippets_good m -> known m ids -> Forall P ps ->
  exists bp' cp' m' ids', genSnippets_loop bp cp m ids ps i =
      Ret (bp', cp', m', ids', i + Z.of_nat (length ps)) /\
    snippets_good m' /\ known m' ids' /\
    chains cp' = chains cp /\ current cp' = current cp /\ idx_moved cp cp' (Z.of_nat (length ps)) /\
    (forall x, freeBlocks bp' !! x = if decide (x ∈ Hash <$> ps) then None else freeBlocks bp !! x) /\
    dom (compoundBlocks bp') = dom (compoundBlocks bp) ∪ list_to_set (Hash <$> ps).
Proof using consistent.
  revert bp cp m ids i. induction ps as [|p ps IH]; intros bp cp m ids i Hm Hk HP.
  { cbn [genSnippets_loop length]. exists bp, cp, m, ids. split; [by rewrite Z.add_0_r|].
    split; [done|]. split; [done|]. split; [done|]. split; [done|].
    split; [by apply idx_moved_refl|]. split; [|set_solver].
    intros x. rewrite decide_False; [done|]. apply not_elem_of_nil. }
  inversion HP as [|? ? Hp HP']; subst. cbn [genSnippets_loop length].
  destruct (tryInsert_spec m ids p Hm Hk Hp) as (m1 & f & -> & Hm1 & Hk1). rewrite bind_ret_l.
  set (r := if f then (cp, m1, ids) else _).
  assert (Hr : exists cp1 m2 ids1, r = (cp1, m2, ids1) /\ snippets_good m2 /\ known m2 ids1 /\
     chains cp1 = chains cp /\ current cp1 = current cp /\ idx_moved cp cp1 1).
  { subst r. destruct f; [exists cp, m1, ids; split_and!; auto; by apply idx_moved_refl|].
    pose proof (genChainId_moved cp) as Hmv.
    unfold genChainId, incChainIdx in *. cbn in *. do 3 eexists. split; [reflexivity|]. split_and!; try done.
    - apply map_Forall_insert_2; [|done]. split; [done|]. exists [p].
      split; [done|]. split; [apply snippet_init_wf|by constructor].
    - apply Forall_app. split; [by apply known_insert, Hk1|].
      constructor; [by rewrite lookup_insert_eq|constructor]. }
  destruct Hr as (cp1 & m2 & ids1 & -> & Hm2 & Hk2 & Hch & Hcu & Hmv).
  destruct (IH (compound bp p) cp1 m2 ids1 (i + 1) Hm2 Hk2 HP')
    as (bp' & cp' & m' & ids' & -> & H1 & H2 & H3 & H4 & Hmv' & H5 & H6).
  exists bp', cp', m', ids'. split; [f_equal; f_equal; lia|].
  split_and!; try done; try congruence.
  - rewrite Nat2Z.inj_succ. unfold Z.succ. rewrite Z.add_comm.
    by apply (idx_moved_trans cp cp1); [lia|lia|..].
  - intros x. rewrite H5. cbn [compound freeBlocks fmap list_fmap].
    destruct (decide (x ∈ Hash <$> ps)) as [Hin|Hin].
    + by rewrite decide_True by (apply elem_of_cons; by right).
    + destruct (decide (x = Hash p)) as [->|Hne].
      * rewrite lookup_delete_eq, decide_True; [done|]. apply elem_of_cons; by left.
      * rewrite lookup_delete_ne, decide_False; [done| |done]. by apply not_elem_of_cons.
  - rewrite H6. cbn [compound compoundBlocks]. rewrite dom_insert_L. set_solver.
Qed.

(** The head map names snippets by their head hash. *)
Definition heads_ok (hm : gmap string string) m : Prop :=
  forall x id, hm !! x = Some id -> exists s, m !! id = Some s /\ sn_headHash s = x.

Lemma splitToMap_spec m ids : known m ids -> exists hm, splitToMap m ids = Ret hm /\ heads_ok hm m.
Proof.
  intros Hk. unfold splitToMap.
  assert (K : forall hm, heads_ok hm m -> exists hm', foldl (fun headMap id =>
    headMap ← headMap; chain ← deref (m !! id) "nil dereference";
    Ret (<[sn_headHash chain := id]> headMap)) (Ret hm) ids = Ret hm' /\ heads_ok hm' m).
  { induction ids as [|id ids IH]; intros hm Hh; [by exists hm|].
    inversion Hk as [|? ? [s Hs] Hk']; subst. cbn [foldl]. rewrite bind_ret_l, Hs. cbn [deref].
    rewrite bind_ret_l. apply IH; [done|]. intros x id' Hx.
    destruct (decide (x = sn_headHash s)) as [->|Hne].
    - rewrite lookup_insert_eq in Hx. injection Hx as <-. by exists s.
    - rewrite lookup_insert_ne in Hx by done. by apply Hh. }
  apply K. intros x id Hx. by rewrite lookup_empty in Hx.
Qed.

Lemma merge_loop_spec fuel hm m id :
  snippets_good m -> heads_ok hm m -> is_Some (m !! id) -> (base.size hm <= fuel)%nat ->
  exists hm' m', merge_loop fuel hm m id = Ret (hm', m') /\
    snippets_good m' /\ heads_ok hm' m' /\ (forall ids, known m ids -> known m' ids).
Proof using consistent.
  revert hm m. induction fuel as [|fuel IH]; intros hm m Hm Hh [s Hs] Hf.
  all: cbn [merge_loop]; rewrite Hs; cbn [deref]; rewrite bind_ret_l; cbv zeta.
  all: destruct (hm !! sn_tailHash s) as [oc|] eqn:Eo; [|by exists hm, m].
  - assert (hm = ∅) by (apply map_size_empty_inv; lia). subst. by rewrite lookup_empty in Eo.
  - case_decide as Hne; [by exists hm, m|].
    destruct (Hh _ _ Eo) as (so & Hso & Hx). rewrite Hso. cbn [deref]. rewrite bind_ret_l.
    destruct (IH (delete (sn_tailHash s) hm) (<[id := merge_snippet s so]> m))
      as (hm' & m' & E & H1 & H2 & H3).
    + apply map_Forall_insert_2; [|done]. destruct (Hm _ _ Hs) as [Hid Hg].
      split; [done|]. apply snippet_good_merge; [done|by apply (Hm _ _ Hso)|done].
    + intros x id' Hx'. apply lookup_delete_Some in Hx' as [Hxne Hx'].
      destruct (Hh _ _ Hx') as (s' & Hs' & Hhd). destruct (decide (id = id')) as [<-|].
      * rewrite lookup_insert_eq. rewrite Hs in Hs'. injection Hs' as <-. by eexists.
      * rewrite lookup_insert_ne by done. by exists s'.
    + by rewrite lookup_insert_eq.
    + rewrite map_size_delete_Some by (by eexists). lia.
    + exists hm', m'. split; [done|]. split_and!; [done|done|].
      intros ids Hids. by apply H3, known_insert.
Qed.

Lemma merge_all_spec hm m ids :
  snippets_good m -> heads_ok hm m -> known m ids ->
  exists hm' m', merge_all hm m ids = Ret (hm', m') /\ snippets_good m' /\ heads_ok hm' m'.
Proof using consistent.
  revert hm m. induction ids as [|id ids IH]; intros hm m Hm Hh Hk; [by exists hm, m|].
  inversion Hk as [|? ? Hs Hk']; subst. cbn [merge_all].
  destruct (merge_loop_spec (base.size hm) hm m id Hm Hh Hs ltac:(lia)) as (hm1 & m1 & -> & H1 & H2 & H3).
  rewrite bind_ret_l. apply IH; [done|done|by apply H3].
Qed.
End gen.

Lemma loopGenSnippetChains_spec {B} `{Block B} (P : PoolBlock B -> Prop) orderB orderS
    (bp : blockPool B) (cp : chainPool B) :
  (forall p q, P p -> P q -> Hash p = PreHash q -> Height q = Height p + 1) ->
  range_order orderB -> range_order orderS ->
  map_Forall (fun x p => Hash p = x /\ P p) (freeBlocks bp) ->
  snippets_good P (snippetChains cp) ->
  exists bp' cp', loopGenSnippetChains orderB orderS bp cp =
      Ret (bp', cp', Z.of_nat (base.size (freeBlocks bp))) /\
    freeBlocks bp' = ∅ /\
    dom (compoundBlocks bp') = dom (compoundBlocks bp) ∪ dom (freeBlocks bp) /\
    snippets_good P (snippetChains cp') /\ chains cp' = chains cp /\ current cp' = current cp /\
    idx_moved cp cp' (Z.of_nat (base.size (freeBlocks bp))).
Proof.
  intros Hcons HoB HoS Hfree Hm. unfold loopGenSnippetChains.
  set (ps := snd <$> orderB (freeBlocks bp)). set (ids := fst <$> orderS (snippetChains cp)).
  assert (Hps : forall x, x ∈ Hash <$> ps <-> is_Some (freeBlocks bp !! x)).
  { intros x. rewrite list_elem_of_fmap. split.
    - intros (p & -> & Hp). apply list_elem_of_fmap in Hp as ([k p'] & -> & Hkp).
      apply (range_order_elem orderB _ k p' HoB) in Hkp. cbn.
      destruct (Hfree _ _ Hkp) as [-> _]. by eexists.
    - intros [p Hp]. exists p. split; [by destruct (Hfree _ _ Hp)|].
      apply list_elem_of_fmap. exists (x, p). split; [done|]. by apply range_order_elem. }
  assert (Hids : known (snippetChains cp) ids).
  { apply Forall_forall. intros id Hid. apply list_elem_of_fmap in Hid as ([k s] & -> & Hs).
    apply (range_order_elem orderS _ k s HoS) in Hs. by eexists. }
  assert (Hlen : length ps = base.size (freeBlocks bp)).
  { unfold ps. rewrite length_fmap, (Permutation_length (HoB (freeBlocks bp))). apply length_map_to_list. }
  assert (HP : Forall P ps).
  { apply Forall_forall. intros p Hp. apply list_elem_of_fmap in Hp as ([k p'] & -> & Hkp).
    apply (range_order_elem orderB _ k p' HoB) in Hkp. by destruct (Hfree _ _ Hkp). }
  destruct (genSnippets_loop_spec P Hcons bp cp (snippetChains cp) ids ps 0 Hm Hids HP)
    as (bp' & cp' & m' & ids' & -> & H1 & H2 & H3 & H4 & Hmv & H5 & H6).
  rewrite bind_ret_l. destruct (splitToMap_spec m' ids' H2) as (hm & -> & Hh). rewrite bind_ret_l.
  destruct (merge_all_spec P Hcons hm m' ids' H1 Hh H2) as (hm' & m'' & -> & J1 & J2). rewrite bind_ret_l.
  exists bp', (set_snippets cp' (final_snippets hm' m'')).
  split_and!; [| | | |done|done|by rewrite <- Hlen].
  - by rewrite Z.add_0_l, Hlen.
  - apply map_eq. intros x. rewrite H5, lookup_empty. case_decide as Hx; [done|].
    rewrite Hps in Hx. by apply eq_None_not_Some.
  - rewrite H6. f_equal. apply set_eq. intros x. rewrite elem_of_list_to_set, Hps. symmetry. apply elem_of_dom.
  - cbn [set_snippets snippetChains]. unfold final_snippets. intros id s Hs.
    apply map_lookup_filter_Some in Hs as [Hs _]. by apply J1.
Qed.

(** ** A concrete disk chain and pool

    A list of bare blocks is a disk chain, and keeps the laws. *)
#[export] Instance list_ChainRw : ChainRw Tblock (list Tblock) := {|
  rw_insertChain w b v := Ret (w ++ [b], None);
  rw_removeChain w b := Ret (take (length w - 1) w, None);
  rw_head w := last w;
  rw_getBlock w h := if decide (h < 0) then Panic "height" else Ret (w !! Z.to_nat h)
|}.
Definition list_ChainRwGrow : ChainRwGrow Tblock (list Tblock).
Proof.
  refine (Build_ChainRwGrow _ _ _ _
    (fun w bs => w = bs /\ linked "" (-1) bs /\ NoDup (Hash <$> bs)) _ _ _ _ _).
  - tauto.
  - tauto.
  - intros w bs b (-> & _). apply last_snoc.
  - intros w bs h (-> & _) Hh. cbn. by rewrite decide_False by lia.
  - intros w w' bs b v (-> & Hl & Hn) _ Hp Hh Hf [= <-]. split; [done|]. split.
    + apply linked_snoc. split_and!; [done|done|lia].
    + rewrite fmap_app. apply NoDup_app. split_and!; [done|set_solver|apply NoDup_singleton].
Defined.
#[export] Instance list_ChainRwLaws : ChainRwLaws Tblock (list Tblock).
Proof.
  refine (Build_ChainRwLaws _ _ _ _ list_ChainRwGrow _).
  intros w bs b (-> & Hl & Hn) _. eexists. split; [reflexivity|].
  rewrite length_app. cbn. rewrite Nat.add_sub, take_app_length.
  apply linked_snoc in Hl as [Hl _]. rewrite fmap_app in Hn. by apply NoDup_app in Hn as [Hn _].
Defined.

Definition t0 : Tblock := mkTblock 0 "a" "" "s" 0.
Definition t1 : Tblock := mkTblock 1 "b" "a" "s" 0.
Definition t2 : Tblock := mkTblock 2 "c" "b" "s" 0.
Definition t3 : Tblock := mkTblock 3 "d" "c" "s" 0.
Definition u2 : Tblock := mkTblock 2 "c2" "b" "s" 0.
Definition pb (b : Tblock) : PoolBlock Tblock := lift 0 b.

(** A chain with id [id] above the block [b], holding [ts]. *)
Definition chain_above (id : string) (b : Tblock) (ts : list Tblock) : forkedChain Tblock :=
  addHeads (forked_init id (Some RDisk) b) (map pb ts).
Definition pool_of (ss : list (snippetChain Tblock)) (cs : list (forkedChain Tblock)) : chainPool Tblock :=
  mkChainPool "p" 9 "p-1" (list_to_map (map (fun s => (sn_chainId s, s)) ss))
    (list_to_map (map (fun c => (fc_chainId c, c)) cs)).

Lemma chain_above_wf id b ts :
  linked (Hash b) (Height b) (map pb ts) -> forked_wf (chain_above id b ts) (Hash b) (map pb ts).
Proof.
  intros Hl. apply (addHeads_wf (forked_init id (Some RDisk) b) (Hash b) []); [|done].
  split; [done|done|apply at_heights_nil].
Qed.

Lemma view_0 : pool_view [t0; t1] (pool_of [] [chain_above "p-1" t1 [t2]]) [t0; t1] [pb t2].
Proof.
  split; [|done|].
  - split; [done|]. split; [by cbn|]. repeat constructor; set_solver.
  - exists (chain_above "p-1" t1 [t2]). split_and!; try done. by apply (chain_above_wf "p-1" t1 [t2]).
Qed.

Lemma rollback_keeps_view_witness :
  exists w' cp', rollback [t0; t1] 0 (pool_of [] [chain_above "p-1" t1 [t2]]) 0 = Ret (w', cp', None) /\
    pool_view w' cp' [t0] [pb t1; pb t2].
Proof.
  destruct (rollback_keeps_view [t0; t1] 0 _ [t0; t1] [pb t2] 0 view_0) as (w' & cp' & E & V & _); [lia|].
  exists w', cp'. split; [exact E|exact V].
Defined.

Lemma writeToChain_keeps_view_witness :
  exists cp', writeToChain [t0; t1] (pool_of [] [chain_above "p-1" t1 [t2]]) (chain_above "p-1" t1 [t2]) (pb t2)
    = Ret ([t0; t1; t2], cp', None) /\ pool_view [t0; t1; t2] cp' [t0; t1; t2] [].
Proof.
  eexists. split; [reflexivity|].
  apply (writeToChain_keeps_view [t0; t1] [t0; t1; t2] (pool_of [] [chain_above "p-1" t1 [t2]]) _
           (chain_above "p-1" t1 [t2]) [t0; t1] (pb t2) [] None view_0).
  - reflexivity.
  - cbn. rewrite !elem_of_cons, elem_of_nil. intros [?|[?|[?|?]]]; done.
  - reflexivity.
  - reflexivity.
Defined.

Definition snip (id : string) (b : Tblock) : snippetChain Tblock := snippet_init id (pb b).

Lemma insertSnippet_appends_witness :
  exists c' s', insertSnippet (pool_of [snip "p-2" t1] [chain_above "p-1" t0 []])
      (chain_above "p-1" t0 []) (snip "p-2" t1) =
    Ret (put_chain (delete_snippet (pool_of [snip "p-2" t1] [chain_above "p-1" t0 []]) (snip "p-2" t1)) c', s', None) /\
    forked_wf c' "a" [pb t1].
Proof.
  destruct (insertSnippet_appends (pool_of [snip "p-2" t1] [chain_above "p-1" t0 []])
    (chain_above "p-1" t0 []) "a" [] (snip "p-2" t1) [pb t1]) as [H1 _].
  - apply (chain_above_wf "p-1" t0 []). done.
  - apply snippet_init_wf.
  - discriminate.
  - reflexivity.
  - reflexivity.
  - destruct (H1 eq_refl eq_refl) as (c' & s' & E & W & _). exists c', s'. split; [exact E|exact W].
Defined.

(** The disk holds [t0; t1; t2]; the snippet [u2] forks off after [t1]. *)
Lemma findForkPoint_correct_witness :
  exists s' r, findForkPoint [t0; t1; t2] 0 (pool_of [] [chain_above "p-1" t2 []])
    (snip "p-2" u2) (chain_above "p-1" t2 []) true = Ret (s', r) /\ snippet_wf s' [pb u2].
Proof.
  destruct (findForkPoint_correct [t0; t1; t2] 0 (pool_of [] [chain_above "p-1" t2 []])
    (snip "p-2" u2) (chain_above "p-1" t2 []) true
    (fun i => if decide (i < 0) then None else fmap (M := option) pb ([t0; t1; t2] !! Z.to_nat i)) [pb u2])
    as (s' & r & ss1 & ss2 & E & Hs & W & F & Hr).
  - intros i. cbn. unfold getBlock, chain_above. cbn. rewrite lookup_empty. unfold disk_getBlock.
    cbn. destruct (decide (i < 0)); reflexivity.
  - apply snippet_init_wf.
  - exists s', r. split; [exact E|]. destruct ss1 as [|p ss1].
    + cbn in Hs. subst. exact W.
    + injection Hs as <- Hs. inversion F as [|? ? (u & Hu & Hx) _]; subst. cbn in Hu. injection Hu as <-.
      discriminate Hx.
Defined.

Lemma LongestChain_correct_witness :
  exists r, LongestChain map_to_list
    (pool_of [] [chain_above "p-1" t0 []; chain_above "p-2" t0 [t1; t2; t3]]) = Ret r /\ fc_headHeight r = 0.
Proof.
  destruct (LongestChain_correct map_to_list
    (pool_of [] [chain_above "p-1" t0 []; chain_above "p-2" t0 [t1; t2; t3]]) (chain_above "p-1" t0 []))
    as (r & E & Hr).
  - apply range_order_map_to_list.
  - reflexivity.
  - exists r. split; [exact E|]. destruct Hr as [[-> _]|(_ & Hgt & Hmax)]; [reflexivity|].
    exfalso. vm_compute in E. injection E as <-. vm_compute in Hgt. done.
Defined.

Lemma getForkPoint_highest_common_witness :
  exists r, getForkPoint [t0; t1; t2] 0 (pool_of [] [chain_above "p-1" t2 []])
    (chain_above "p-2" t1 [u2]) (chain_above "p-1" t2 []) = Ret r.
Proof.
  destruct (getForkPoint_highest_common [t0; t1; t2] 0 (pool_of [] [chain_above "p-1" t2 []])
    (chain_above "p-2" t1 [u2]) (chain_above "p-1" t2 [])
    (fun i => if decide (i = 2) then Some u2 else if decide (i < 0) then None else [t0; t1; t2] !! Z.to_nat i)
    (fun i => if decide (i < 0) then None else [t0; t1; t2] !! Z.to_nat i)) as (r & E & _).
  - intros i. unfold GetBlock, getBlock, chain_above. cbn.
    destruct (decide (i = 2)) as [->|Hne]; [reflexivity|].
    rewrite lookup_insert_ne by (change (Height (pb u2)) with 2; congruence). rewrite lookup_empty. unfold disk_getBlock.
    destruct (decide (i < 0)) as [Hi|Hi]; cbn; [reflexivity|]. rewrite decide_False by done. cbn.
    by destruct (_ !! Z.to_nat i).
  - intros i. unfold GetBlock, getBlock, chain_above. cbn. rewrite lookup_empty. unfold disk_getBlock.
    destruct (decide (i < 0)) as [Hi|Hi]; cbn; [reflexivity|]. rewrite decide_False by done. cbn.
    by destruct (_ !! Z.to_nat i).
  - reflexivity.
  - change (-1 <= 2). lia.
  - exists r. exact E.
Defined.

(** A block with the hash [t2] links to, at height 1 instead of 2 - 1. *)
Lemma gap_block_panics_witness :
  let p := pb (mkTblock 1 "c" "a" "s" 0) in
  insertSnippet (pool_of [] []) (chain_above "p-1" t0 []) (snippet_addTail (snip "p-2" t3) p) =
  Panic "nil dereference".
Proof.
  intros p. apply (gap_block_panics (pool_of [] []) (chain_above "p-1" t0 []) (snip "p-2" t3) [pb t3] p).
  - apply snippet_init_wf.
  - discriminate.
  - reflexivity.
  - reflexivity.
  - reflexivity.
  - reflexivity.
Defined.

Lemma modifyRefer_moves_one_block_witness :
  exists cp' to', modifyRefer (pool_of [] [chain_above "p-1" t0 [t1; t2; t3]]) (chain_above "p-1" t0 [t1; t2; t3])
      (chain_above "p-2" t3 []) = Ret (cp', to') /\
    getBlock [t0] 0 cp' to' 1 true = Ret None.
Proof.
  destruct (modifyRefer_moves_one_block [t0] 0 (pool_of [] [chain_above "p-1" t0 [t1; t2; t3]])
    (chain_above "p-1" t0 [t1; t2; t3]) (chain_above "p-2" t3 []) "a" (map pb [t1; t2; t3]) "d" [] 1)
    as (cp' & to' & E & _ & _ & G).
  - apply (chain_above_wf "p-1" t0). repeat split.
  - apply (chain_above_wf "p-2" t3 []). done.
  - discriminate.
  - reflexivity.
  - split; reflexivity.
  - change (3 <= 3). lia.
  - exists cp', to'. split; [exact E|]. rewrite G. reflexivity.
Defined.

Lemma loopFetch_requests_every_snippet_witness :
  exists reqs, loopFetchForSnippets map_to_list (pool_of [snip "p-2" t3] [chain_above "p-1" t0 []]) =
    Ret (reqs, 1) /\ Forall (fun r => 0 < snd r) reqs.
Proof.
  destruct (loopFetch_requests_every_snippet map_to_list (pool_of [snip "p-2" t3] [chain_above "p-1" t0 []])
    (chain_above "p-1" t0 [])) as (reqs & E & _ & _ & F).
  - apply range_order_map_to_list.
  - reflexivity.
  - exists reqs. split; [exact E | exact F].
Defined.
