(* ===== verification/AppendSpec.v ===== *)
(** * AppendSpec: the tree of in-memory chains, and how snippets join it

    Every in-memory chain starts at a block of the chain it refers to, and these
    references end at the disk chain: read through them, each chain is one
    sequence of linked blocks from the first block on disk to its head
    ([forest]).  [loopAppendChains] keeps this shape, does not fail on it, and
    loses no block of a snippet. *)
From S2P Require Import Prelude.
From S2P Require Import Common.
From S2P Require Import Links.
From S2P Require Import BCPool.
From S2P Require Import BCPoolSpec.

#[local] Arguments Height : simpl never.
#[local] Arguments Hash : simpl never.
#[local] Arguments PreHash : simpl never.

Section forest.
Context {B : Type} `{Block B}.
Implicit Types (chs : gmap string (forkedChain B)) (c : forkedChain B) (s : snippetChain B).
Implicit Types (fs base : list B) (ms ss : list (PoolBlock B)) (l : list (string * list B)).

Lemma linked_block th h ms : linked th h (map block ms) <-> linked th h ms.
Proof. revert th h. induction ms as [|p ms IH]; intros th h; [done|]. cbn. by rewrite IH. Qed.

Lemma tip_block th h ms : tip th h (map block ms) = tip th h ms.
Proof. revert th h. induction ms as [|p ms IH]; intros th h; [done|]. apply IH. Qed.

(** [c] leaves the sequence [base] after its first [n] blocks and continues it
    with blocks of its own; read from the first block to its head it is [fs]. *)
Definition rooted base c fs : Prop :=
  exists n ms, (0 < n <= length base)%nat /\ fs = take n base ++ map block ms /\
    fc_tailHeight c = Z.of_nat n - 1 /\ forked_wf c (tip "" (-1) (take n base)).1 ms.

(** The chains with their sequences, each after the one it refers to. *)
Inductive forest chs (disk : list B) : list (string * list B) -> Prop :=
| forest_nil : forest chs disk []
| forest_cons id c base fs l :
    forest chs disk l -> id ∉ l.*1 -> chs !! id = Some c -> fc_chainId c = id ->
    (fc_referChain c = Some RDisk /\ base = disk \/
     exists id', fc_referChain c = Some (RChain id') /\ (id', base) ∈ l) ->
    rooted base c fs -> forest chs disk ((id, fs) :: l).

Lemma take_tip n base : (0 < n <= length base)%nat -> (tip "" (-1) (take n base)).2 = Z.of_nat n - 1.
Proof. intros Hn. rewrite tip_height, length_take. lia. Qed.

(** The sequence of a chain is linked and ends at its head. *)
Lemma rooted_linked base c fs :
  rooted base c fs -> linked "" (-1) base ->
  linked "" (-1) fs /\ tip "" (-1) fs = (fc_headHash c, fc_headHeight c) /\
  Z.of_nat (length fs) = fc_headHeight c + 1 /\ fs <> [].
Proof.
  intros (n & ms & Hn & -> & Ht & [Wl Wt _]) Hl. rewrite <- (take_drop n base) in Hl.
  apply linked_app in Hl as [Hl _]. pose proof (take_tip n base Hn) as E. rewrite <- Ht in E.
  assert (T : tip "" (-1) (take n base ++ map block ms) = (fc_headHash c, fc_headHeight c)).
  { rewrite tip_app, E, tip_block. exact Wt. }
  split; [apply linked_app; rewrite E, linked_block; done|]. split; [done|].
  pose proof (tip_height "" (-1) (take n base ++ map block ms)) as L. rewrite T in L. cbn [snd] in L.
  split; [lia|]. destruct base, n; try done; cbn in *; lia.
Qed.

(** What a chain holds itself is the end of its sequence. *)
Lemma rooted_own base c fs h :
  rooted base c fs ->
  block <$> fc_heightBlocks c !! h = if decide (fc_tailHeight c < h) then fs !! Z.to_nat h else None.
Proof.
  intros (n & ms & Hn & -> & Ht & [_ _ Wm]). rewrite Wm. case_decide; [|done].
  rewrite lookup_app_r by (rewrite length_take; lia). rewrite <- list_lookup_fmap.
  f_equal. rewrite length_take. lia.
Qed.

Lemma rooted_below base c fs h :
  rooted base c fs -> 0 <= h <= fc_tailHeight c -> base !! Z.to_nat h = fs !! Z.to_nat h.
Proof.
  intros (n & ms & Hn & -> & Ht & _) Hh.
  rewrite lookup_app_l by (rewrite length_take; lia). rewrite lookup_take_lt by lia. done.
Qed.

(** Growth of the base leaves the chain where it is. *)
Lemma rooted_grow base more c fs : rooted base c fs -> rooted (base ++ more) c fs.
Proof.
  intros (n & ms & Hn & -> & Ht & W). exists n, ms. rewrite length_app, take_app_le by lia.
  split; [lia|done].
Qed.

Lemma forest_NoDup chs disk l : forest chs disk l -> NoDup l.*1.
Proof. induction 1; cbn; by constructor. Qed.

Lemma forest_elem chs disk l id fs :
  forest chs disk l -> (id, fs) ∈ l -> linked "" (-1) disk ->
  exists c base, chs !! id = Some c /\ fc_chainId c = id /\ linked "" (-1) base /\ rooted base c fs /\
    (fc_referChain c = Some RDisk -> base = disk).
Proof.
  intros F Hin Hd. revert id fs Hin. induction F as [|id c base fs l F IH Hn Hc Hid Hr Hb]; intros id0 fs0 Hin.
  { by apply elem_of_nil in Hin. }
  apply elem_of_cons in Hin as [[= -> ->]|Hin]; [|by apply IH].
  exists c, base. split_and!; try done.
  - destruct Hr as [[_ ->]|(id' & _ & Hin)]; [done|].
    destruct (IH _ _ Hin) as (c' & base' & _ & _ & Hl & Hr & _). by apply (rooted_linked base' c').
  - intros Hd'. destruct Hr as [[_ ->]|(id' & Hr & _)]; [done|congruence].
Qed.

Lemma forest_insert chs disk l id c :
  forest chs disk l -> id ∉ l.*1 -> forest (<[id := c]> chs) disk l.
Proof.
  intros F. induction F as [|id0 c0 base fs l F IH Hn Hc Hid Hr Hb]; intros Hni; [constructor|].
  cbn in Hni. apply not_elem_of_cons in Hni as [Hne Hni].
  apply (forest_cons _ _ id0 c0 base); auto. by rewrite lookup_insert_ne.
Qed.

(** The chain [id] gets [ss] added at its head. *)
Definition grow (id : string) ss l : list (string * list B) :=
  map (fun '(i, fs) => if decide (i = id) then (i, fs ++ map block ss) else (i, fs)) l.

Lemma grow_fst id ss l : (grow id ss l).*1 = l.*1.
Proof. unfold grow. induction l as [|[i fs] l IH]; [done|]. cbn. case_decide; cbn; by f_equal. Qed.

Lemma grow_elem id ss l i fs :
  (i, fs) ∈ l -> (i, if decide (i = id) then fs ++ map block ss else fs) ∈ grow id ss l.
Proof.
  intros Hin. apply list_elem_of_fmap. exists (i, fs). split; [|done]. by case_decide.
Qed.

Lemma addHeads_rooted base c fs ss :
  rooted base c fs -> linked "" (-1) base -> linked (fc_headHash c) (fc_headHeight c) ss ->
  rooted base (addHeads c ss) (fs ++ map block ss).
Proof.
  intros (n & ms & Hn & -> & Ht & W) Hb Hl. exists n, (ms ++ ss). split; [done|].
  split; [by rewrite map_app, app_assoc|]. destruct (addHeads_frame c ss) as (_ & -> & _). split; [done|].
  by apply addHeads_wf.
Qed.

Lemma forest_grow chs disk l id c ss :
  forest chs disk l -> linked "" (-1) disk -> chs !! id = Some c ->
  linked (fc_headHash c) (fc_headHeight c) ss ->
  forest (<[id := addHeads c ss]> chs) disk (grow id ss l).
Proof.
  intros F Hd Hc Hl. induction F as [|id0 c0 base fs l F IH Hn Hc0 Hid Hr Hb]; [constructor|].
  assert (Hbl : linked "" (-1) base).
  { destruct Hr as [[_ ->]|(id' & _ & Hin)]; [done|].
    destruct (forest_elem _ _ _ _ _ F Hin Hd) as (c' & base' & _ & _ & Hl' & Hr & _).
    by apply (rooted_linked base' c'). }
  destruct (addHeads_frame c ss) as (F1 & _ & _ & F4). cbn [grow map].
  assert (Hgo : forall c1 fs1, rooted base c1 fs1 -> fc_referChain c1 = fc_referChain c0 -> fc_chainId c1 = id0 ->
    <[id := addHeads c ss]> chs !! id0 = Some c1 ->
    forest (<[id := addHeads c ss]> chs) disk ((id0, fs1) :: grow id ss l)).
  { intros c1 fs1 R1 E1 E2 E3.
    destruct Hr as [[Hr ->]|(id' & Hr & Hin)].
    - apply (forest_cons _ _ id0 c1 disk); rewrite ?grow_fst, ?E1; auto.
    - apply (forest_cons _ _ id0 c1 (if decide (id' = id) then base ++ map block ss else base));
        rewrite ?grow_fst, ?E1; auto.
      + right. exists id'. split; [done|]. by apply grow_elem.
      + case_decide; [by apply rooted_grow|done]. }
  case_decide as E.
  - assert (c0 = c) as -> by congruence.
    apply (Hgo (addHeads c ss)); [by apply addHeads_rooted|done|congruence|rewrite E; apply lookup_insert_eq].
  - apply (Hgo c0); [done|done|done|by rewrite lookup_insert_ne].
Qed.
End forest.

Section tree.
Context {B : Type} `{Block B} {W : Type} `{HRw : ChainRw B W, !ChainRwGrow B W}.
Implicit Types (w : W) (cp : chainPool B) (c : forkedChain B) (s : snippetChain B) (bs : list B).
Implicit Types (fs base : list B) (ss : list (PoolBlock B)) (l : list (string * list B)).

Lemma disk_read w val bs h :
  disk_repr w bs -> 0 <= h ->
  exists r, disk_getBlock w val h = Ret r /\ block <$> r = bs !! Z.to_nat h.
Proof.
  intros Hd Hh. unfold disk_getBlock. rewrite decide_False by lia.
  rewrite (disk_rw_getBlock _ _ _ Hd Hh), bind_ret_l. eexists. split; [done|]. by destruct (bs !! Z.to_nat h).
Qed.

Lemma disk_head_last w bs :
  disk_repr w bs -> bs <> [] -> exists b, disk_head w = Ret b /\ Height b = Z.of_nat (length bs) - 1.
Proof.
  intros Hd Hne. destruct bs as [|b bs _] using rev_ind; [done|]. exists b.
  unfold disk_head, disk_Head. rewrite (disk_rw_head _ _ _ Hd). split; [done|].
  pose proof (disk_linked _ _ Hd) as Hl. apply linked_snoc in Hl as (_ & _ & Hb).
  rewrite length_app. cbn. lia.
Qed.

(** Reading a chain below its head finds the block of its sequence. *)
Lemma forest_read w val cp bs l id c fs fuel h :
  forest (chains cp) bs l -> disk_repr w bs ->
  (id, fs) ∈ l -> chains cp !! id = Some c -> (length l <= fuel)%nat ->
  0 <= h < Z.of_nat (length fs) ->
  exists r, fc_getBlock fuel w val cp c h true = Ret r /\ block <$> r = fs !! Z.to_nat h.
Proof.
  intros F Hd. revert id c fs fuel. induction F as [|id0 c0 base fs0 l F IH Hn Hc0 Hid Hr Hb];
    intros id c fs fuel Hin Hc Hf Hh; [by apply elem_of_nil in Hin|].
  cbn [length] in Hf. apply elem_of_cons in Hin as [[= -> ->]|Hin]; [|by eapply IH; eauto; lia].
  rewrite Hc0 in Hc. injection Hc as <-. pose proof (rooted_own _ _ _ h Hb) as Ho.
  assert (Hlt : is_Some (fs0 !! Z.to_nat h)) by (apply lookup_lt_is_Some_2; lia).
  destruct fuel as [|fuel]; [lia|]. cbn [fc_getBlock].
  destruct (fc_heightBlocks c0 !! h) as [p|] eqn:Ep.
  { exists (Some p). split; [done|]. rewrite Ho. case_decide; [done|discriminate Ho]. }
  case_decide as Ht; [destruct Hlt as [b Hb']; rewrite Hb' in Ho; discriminate Ho|].
  rewrite <- (rooted_below _ _ _ _ Hb) by lia.
  destruct Hr as [[-> ->]|(id' & -> & Hin)]; [apply disk_read; [done|lia]|].
  unfold get_chain.
  destruct (forest_elem _ _ _ _ _ F Hin) as (c' & base' & Hc' & _).
  { by apply (disk_linked w). }
  rewrite Hc'. cbn [deref]. rewrite bind_ret_l. eapply IH; eauto; [lia|].
  destruct Hb as (n & ms & Hnn & _ & Htl & _). lia.
Qed.

(** The tree of a pool over a disk chain [bs]: its current chain is on top of the
    disk and the only one that refers to it. *)
Record pool_tree w cp bs l : Prop := {
  pt_disk : disk_repr w bs;
  pt_nonempty : bs <> [];
  pt_forest : forest (chains cp) bs l;
  pt_dom id : is_Some (chains cp !! id) <-> id ∈ l.*1;
  pt_current : exists c fs, chains cp !! current cp = Some c /\ (current cp, fs) ∈ l /\
    fc_referChain c = Some RDisk /\ fc_tailHeight c = Z.of_nat (length bs) - 1 /\
    fc_tailHash c = (tip "" (-1) bs).1;
  pt_root id c : chains cp !! id = Some c -> fc_referChain c = Some RDisk -> id = current cp;
  pt_ids id : id ∈ l.*1 -> exists k, 0 < k <= lastestChainIdx cp /\ id = poolId cp +:+ "-" +:+ Itoa k
}.

Lemma pt_disk_linked w cp bs l : pool_tree w cp bs l -> linked "" (-1) bs.
Proof. intros T. apply (disk_linked w), T. Qed.

(** What is known of a chain of the tree. *)
Lemma pt_chain w cp bs l id fs :
  pool_tree w cp bs l -> (id, fs) ∈ l ->
  exists c base, chains cp !! id = Some c /\ fc_chainId c = id /\ rooted base c fs /\
    linked "" (-1) fs /\ tip "" (-1) fs = (fc_headHash c, fc_headHeight c) /\
    Z.of_nat (length fs) = fc_headHeight c + 1 /\ fs <> [] /\
    (fc_referChain c = Some RDisk -> base = bs).
Proof.
  intros T Hin. destruct (forest_elem _ _ _ _ _ (pt_forest _ _ _ _ T) Hin (pt_disk_linked _ _ _ _ T))
    as (c & base & E1 & E2 & E3 & E4 & E5).
  exists c, base. destruct (rooted_linked _ _ _ E4 E3) as (L1 & L2 & L3 & L4). by split_and!.
Qed.

Lemma pt_known w cp bs l id c :
  pool_tree w cp bs l -> chains cp !! id = Some c -> exists fs, (id, fs) ∈ l.
Proof.
  intros T Hc. assert (Hin : id ∈ l.*1) by (apply (pt_dom _ _ _ _ T); eauto).
  apply list_elem_of_fmap in Hin as ([i fs] & -> & Hin). by exists fs.
Qed.

Lemma pt_fuel w cp bs l : pool_tree w cp bs l -> (length l <= chain_fuel cp)%nat.
Proof.
  intros T. unfold chain_fuel. rewrite <- size_dom.
  assert (E : dom (chains cp) = list_to_set l.*1).
  { apply set_eq. intros id. rewrite elem_of_dom, elem_of_list_to_set. apply (pt_dom _ _ _ _ T). }
  rewrite E, size_list_to_set by (eapply forest_NoDup, pt_forest, T). rewrite length_fmap. lia.
Qed.

Lemma pt_read w val cp bs l id c fs h :
  pool_tree w cp bs l -> (id, fs) ∈ l -> chains cp !! id = Some c ->
  0 <= h < Z.of_nat (length fs) ->
  exists r, getBlock w val cp c h true = Ret r /\ block <$> r = fs !! Z.to_nat h.
Proof.
  intros T Hin Hc Hh. eapply forest_read; eauto using pt_disk, pt_forest. by eapply pt_fuel.
Qed.

(** The head of a chain is the last block of its sequence. *)
Lemma pt_head w val cp bs l id c fs :
  pool_tree w cp bs l -> (id, fs) ∈ l -> chains cp !! id = Some c ->
  exists b, Head w val cp c = Ret (Some b) /\ fs !! Z.to_nat (fc_headHeight c) = Some b /\
    Hash b = fc_headHash c /\ Height b = fc_headHeight c /\ 0 <= fc_headHeight c.
Proof.
  intros T Hin Hc. destruct (pt_chain _ _ _ _ _ _ T Hin) as (c' & base & Hc' & _ & _ & Hl & Ht & Hn & Hne & _).
  rewrite Hc in Hc'. injection Hc' as <-.
  destruct fs as [|b fs _] using rev_ind; [done|]. exists b. rewrite tip_snoc in Ht. injection Ht as E1 E2.
  rewrite length_app in Hn. cbn in Hn.
  assert (Hb : (fs ++ [b]) !! Z.to_nat (fc_headHeight c) = Some b).
  { rewrite lookup_app_r by lia. by replace (_ - _)%nat with 0%nat by lia. }
  destruct (pt_read w val cp bs l id c (fs ++ [b]) (fc_headHeight c) T Hin Hc) as (r & Er & Eb).
  { rewrite length_app. cbn. lia. }
  unfold Head, GetBlock. rewrite Er, bind_ret_l, Eb, Hb. split_and!; try done; [|lia].
  apply linked_snoc in Hl as (_ & _ & ->). lia.
Qed.
End tree.

(** ** Where a snippet goes *)
Section forky.
Context {B : Type} `{Block B} {W : Type} `{HRw : ChainRw B W, !ChainRwGrow B W}.
Implicit Types (w : W) (cp : chainPool B) (c : forkedChain B) (s : snippetChain B) (bs : list B).
Implicit Types (fs : list B) (ss : list (PoolBlock B)) (l : list (string * list B)) (p : PoolBlock B) (q : B).

(** The blocks in play: none is below height 0, and a hash determines the hash
    of the previous block. *)
Context (P : B -> Prop).
Context (nonneg : forall b, P b -> 0 <= Height b).
Context (hash_prev : forall a b, P a -> P b -> Hash a = Hash b -> PreHash a = PreHash b).

Definition in_play l : Prop := Forall (fun x => Forall P x.2) l.

(** A block with the hash of [p] is in one of the sequences, at the height of [p]. *)
Definition held l p : Prop :=
  exists id fs q, (id, fs) ∈ l /\ fs !! Z.to_nat (Height p) = Some q /\ Hash q = Hash p.

Lemma agree_below fs th h ss b q :
  linked "" (-1) fs -> Forall P fs -> linked th h (ss ++ [b]) -> Forall (fun p => P (block p)) (ss ++ [b]) ->
  fs !! Z.to_nat (Height b) = Some q -> Hash q = Hash b ->
  Forall (fun p => exists q, fs !! Z.to_nat (Height p) = Some q /\ Hash q = Hash p) (ss ++ [b]).
Proof using nonneg hash_prev.
  intros Hf HPf. revert b q. induction ss as [|a ss IH] using rev_ind; intros b q Hl HP Hq Hx.
  { repeat constructor. by exists q. }
  apply Forall_app in HP as [HPa HPb]. apply Forall_inv in HPb as HPb'.
  apply linked_snoc in Hl as (Hl & Hp & Hh). rewrite tip_snoc in Hp. cbn [fst] in Hp.
  apply Forall_app. split; [|repeat constructor; by exists q].
  apply Forall_app in HPa as HPa'. destruct HPa' as [_ HPa'%Forall_inv].
  assert (Ha : Height b = Height a + 1).
  { apply linked_snoc in Hl as (_ & _ & Ha). rewrite length_app in Hh. cbn in Hh. lia. }
  assert (H0 : 0 <= Height a) by exact (nonneg (block a) HPa').
  destruct (fs !! Z.to_nat (Height a)) as [r|] eqn:Er.
  2: { apply lookup_ge_None in Er. apply lookup_lt_Some in Hq. lia. }
  apply (IH a r); [done|done|done|].
  replace (Z.to_nat (Height b)) with (S (Z.to_nat (Height a))) in Hq by lia.
  rewrite <- (linked_prev _ _ _ _ _ _ Hf Er Hq).
  assert (Hqb : PreHash q = PreHash b); [|congruence].
  apply (hash_prev q (block b)); [|done|done].
  rewrite Forall_forall in HPf. apply HPf. by eapply list_elem_of_lookup_2.
Qed.

(** [cutSnippet] takes off the blocks up to the height, which lies in the snippet. *)
Lemma cutSnippet_loop_spec fuel s h ss1 b ss2 :
  snippet_wf s (ss1 ++ b :: ss2) -> Height b = h -> (length ss1 < fuel)%nat ->
  exists s', cutSnippet_loop fuel s h = Ret s' /\ snippet_wf s' ss2 /\ sn_chainId s' = sn_chainId s /\
    sn_tailHeight s' = h /\ sn_tailHash s' = Hash b /\ sn_headHeight s' = sn_headHeight s.
Proof.
  revert fuel s. induction ss1 as [|a ss1 IH]; intros [|fuel] s Hwf Hb Hf; cbn [length] in Hf; try lia;
    cbn [app] in Hwf; cbn [cutSnippet_loop]; unfold remTail;
    rewrite (at_heights_head _ _ _ _ (sg_map _ _ _ _ _ _ Hwf)).
  - rewrite decide_True by lia. exists (deleteTail s b). split; [done|]. split; [by apply deleteTail_wf|done].
  - pose proof (sg_linked _ _ _ _ _ _ Hwf) as (_ & Ha & Hl). apply linked_app in Hl as [_ (_ & Hb' & _)].
    rewrite tip_height in Hb'. rewrite decide_False by lia.
    destruct (IH fuel (deleteTail s a)) as (s' & E & W'); [by apply deleteTail_wf|done|lia|].
    exists s'. split; [done|]. exact W'.
Qed.

Lemma cutSnippet_spec s h ss1 b ss2 :
  snippet_wf s (ss1 ++ b :: ss2) -> Height b = h ->
  exists s', cutSnippet s h = Ret s' /\ snippet_wf s' ss2 /\ sn_chainId s' = sn_chainId s /\
    sn_tailHeight s' = h /\ sn_tailHash s' = Hash b /\ sn_headHeight s' = sn_headHeight s.
Proof.
  intros Hwf Hb. apply (cutSnippet_loop_spec _ _ _ ss1 b ss2); [done|done|].
  rewrite (at_heights_size _ _ _ (sg_map _ _ _ _ _ _ Hwf)), length_app. lia.
Qed.

Lemma snippet_empty s ss : snippet_wf s ss -> sn_headHeight s = sn_tailHeight s <-> ss = [].
Proof.
  intros Hwf. rewrite (segment_length _ _ _ _ _ _ Hwf). destruct ss; cbn [length]; [|split; [lia|done]].
  split; [done|lia].
Qed.

(** What [forky] does with a snippet holding [ss]: it takes off blocks that some
    chain holds, and finds the chain that ends where the rest starts, or a chain
    that holds the block the rest starts from. *)
Definition forky_post cp s ss l (r : chainPool B * snippetChain B * forkyResult) : Prop :=
  let '(cp', s', r) := r in
  exists ss1 ss2, ss = ss1 ++ ss2 /\ snippet_wf s' ss2 /\ sn_chainId s' = sn_chainId s /\
    Forall (held l) ss1 /\
    match r with
    | AppendTo id => cp' = cp /\ ss2 <> [] /\
        exists c, chains cp !! id = Some c /\ sn_tailHeight s' = fc_headHeight c /\ sn_tailHash s' = fc_headHash c
    | ForkOff id => cp' = cp /\ ss2 <> [] /\
        exists fs q, (id, fs) ∈ l /\ 0 <= sn_tailHeight s' /\
          fs !! Z.to_nat (sn_tailHeight s') = Some q /\ Hash q = sn_tailHash s'
    | Neither => (ss2 = [] /\ cp' = delete_snippet cp s') \/ (ss2 <> [] /\ cp' = cp)
    end.

(** Taking further held blocks off first. *)
Lemma forky_post_app cp s s0 ss0 ss l r :
  Forall (held l) ss0 -> sn_chainId s = sn_chainId s0 -> forky_post cp s ss l r -> forky_post cp s0 (ss0 ++ ss) l r.
Proof.
  intros H0 Hid. destruct r as [[cp' s'] r]. intros (ss1 & ss2 & -> & W' & E & Hh & Hr).
  exists (ss0 ++ ss1), ss2. rewrite app_assoc. split_and!; try done; [congruence|by apply Forall_app].
Qed.

Lemma findForkPoint_chainId w val cp s c refer s' r :
  findForkPoint w val cp s c refer = Ret (s', r) -> sn_chainId s' = sn_chainId s.
Proof.
  unfold findForkPoint. intros (f & _ & E)%bind_ret_inv. destruct f as [f|]; [|by injection E as <- _].
  destruct (decide (Hash f <> _)) as [Hx|Hx]; [by injection E as <- _|]. clear Hx. revert E. generalize (sn_tailHeight s + 1).
  generalize (Z.to_nat (sn_headHeight s - sn_tailHeight s)). intros n. revert s f.
  induction n as [|n IH]; intros s f i; cbn [findForkPoint_loop]; [by intros [= <- _]|].
  intros (u & _ & E)%bind_ret_inv. destruct u as [u|]; [|by injection E as <- _].
  apply bind_ret_inv in E as (b & _ & E). case_decide; [by injection E as <- _|].
  by apply IH in E.
Qed.

Lemma getBlock_own w val cp c i : getBlock w val cp c i false = Ret (fc_heightBlocks c !! i).
Proof. unfold getBlock, chain_fuel. cbn. by destruct (fc_heightBlocks c !! i). Qed.

(** The search for a fork point along a sequence [fs] of the tree: [g] reads it. *)
Lemma findForkPoint_on w val cp s ss c refer g fs id l :
  (forall i, getBlock w val cp c i refer = Ret (g i)) -> snippet_wf s ss ->
  (forall i u, g i = Some u -> 0 <= i /\ fs !! Z.to_nat i = Some (block u)) -> (id, fs) ∈ l ->
  exists s' r ss1 ss2, findForkPoint w val cp s c refer = Ret (s', r) /\ ss = ss1 ++ ss2 /\
    snippet_wf s' ss2 /\ sn_chainId s' = sn_chainId s /\ Forall (held l) ss1 /\
    (is_Some r -> ss2 <> [] /\ exists q, 0 <= sn_tailHeight s' /\
      fs !! Z.to_nat (sn_tailHeight s') = Some q /\ Hash q = sn_tailHash s').
Proof.
  intros Hg Hwf Hfs Hin. destruct (findForkPoint_correct w val cp s c refer g ss Hg Hwf)
    as (s' & r & ss1 & ss2 & E & Es & W' & Hh & Hr).
  exists s', r, ss1, ss2. split; [done|]. split; [done|]. split; [done|].
  split; [by eapply findForkPoint_chainId|]. split.
  - eapply Forall_impl; [exact Hh|]. intros p (u & Hu & Hx). exists id, fs, (block u).
    by destruct (Hfs _ _ Hu).
  - intros [p ->]. destruct Hr as (_ & (u & Hu & Hx) & q & ss3 & _ & -> & _). split; [done|].
    destruct (Hfs _ _ Hu). by exists (block u).
Qed.

(** What the current chain answers at every height: its sequence and nothing else. *)
Definition reads w val cp c (i : Z) : option (PoolBlock B) :=
  match getBlock w val cp c i true with Ret r => r | _ => None end.

Lemma current_reads w val bs cp c fs i :
  disk_repr w bs -> rooted bs c fs -> fc_referChain c = Some RDisk ->
  fc_tailHeight c = Z.of_nat (length bs) - 1 ->
  getBlock w val cp c i true = Ret (reads w val cp c i) /\
  forall u, reads w val cp c i = Some u -> 0 <= i /\ fs !! Z.to_nat i = Some (block u).
Proof.
  intros Hd Hr Href Htl. pose proof (rooted_own _ _ _ i Hr) as Ho.
  assert (Ht0 : 0 <= fc_tailHeight c) by (destruct Hr as (n & ? & ? & _ & ? & _); lia).
  unfold reads, getBlock, chain_fuel. cbn [fc_getBlock]. destruct (fc_heightBlocks c !! i) as [p|].
  { split; [done|]. intros u [= <-]. cbn in Ho. case_decide as Hi; [|done]. split; [lia|done]. }
  rewrite Href. destruct (decide (i < 0)) as [Hi|Hi].
  { unfold disk_getBlock. by rewrite decide_True. }
  destruct (disk_read w val bs i Hd) as (r & -> & Er); [lia|]. split; [done|].
  intros u ->. cbn in Er. symmetry in Er. split; [lia|]. apply lookup_lt_Some in Er as Hlt.
  rewrite <- Er. symmetry. eapply rooted_below; [done|lia].
Qed.

(** [sameChain] finds the head of the chain in the snippet. *)
Lemma sameChain_spec w val cp bs l id c fs s ss :
  pool_tree w cp bs l -> in_play l -> (id, fs) ∈ l -> chains cp !! id = Some c ->
  snippet_wf s ss -> Forall (fun p => P (block p)) ss ->
  exists r, sameChain w val cp s c = Ret r /\
    (r = true -> exists ss1 b ss2, ss = ss1 ++ b :: ss2 /\ Height b = fc_headHeight c /\
       Hash b = fc_headHash c /\ Forall (held l) (ss1 ++ [b])).
Proof using nonneg hash_prev.
  intros T HP Hin Hc Hwf HPs. destruct (pt_head w val _ _ _ _ _ _ T Hin Hc) as (hd & E & Hhd & Hx & Hh & _).
  unfold sameChain. rewrite E, bind_ret_l. cbn [deref]. rewrite bind_ret_l.
  rewrite Hh.
  eexists. split; [reflexivity|].
  destruct (sn_heightBlocks s !! fc_headHeight c) as [b|] eqn:Eb; [|done]. intros Hb%bool_decide_eq_true.
  rewrite (sg_map _ _ _ _ _ _ Hwf) in Eb. case_decide as Hd; [|done].
  apply list_elem_of_split_length in Eb as (ss1 & ss2 & Ess & Hlen).
  exists ss1, b, ss2. split; [exact Ess|]. subst ss.
  pose proof (sg_linked _ _ _ _ _ _ Hwf) as Hl. rewrite cons_middle, app_assoc in Hl, HPs.
  apply linked_app in Hl as [Hl _]. apply Forall_app in HPs as [HPs _].
  assert (Hhb : Height b = fc_headHeight c).
  { apply linked_snoc in Hl as (_ & _ & ->). lia. }
  split; [done|]. split; [congruence|].
  destruct (pt_chain _ _ _ _ _ _ T Hin) as (_ & _ & _ & _ & _ & Hfl & _).
  unfold in_play in HP. rewrite Forall_forall in HP. pose proof (HP _ Hin) as HPf. cbn in HPf.
  eapply Forall_impl; [eapply (agree_below fs _ _ ss1 b hd)|].
  - exact Hfl.
  - exact HPf.
  - exact Hl.
  - exact HPs.
  - by rewrite Hhb.
  - congruence.
  - intros p (q & Hq & Hqx). exists id, fs, q. done.
Qed.

Lemma forky_loop_spec w val cp bs l s ss ids :
  pool_tree w cp bs l -> in_play l -> snippet_wf s ss -> Forall (fun p => P (block p)) ss -> ss <> [] ->
  Forall (fun id => id ∈ l.*1) ids ->
  exists x, forky_loop w val cp s ids = Ret x /\
    match x with
    | inl r => forky_post cp s ss l r
    | inr s' => exists ss1 ss2, ss = ss1 ++ ss2 /\ ss2 <> [] /\ snippet_wf s' ss2 /\
        sn_chainId s' = sn_chainId s /\ Forall (held l) ss1
    end.
Proof using nonneg hash_prev.
  intros T HP. revert s ss. induction ids as [|id ids IH]; intros s ss Hwf HPs Hne Hids.
  { exists (inr s). split; [done|]. exists [], ss. by split_and!. }
  apply Forall_cons in Hids as [Hid Hids]. apply list_elem_of_fmap in Hid as ([id' fs] & Eid & Hin).
  cbn in Eid. subst id'.
  destruct (pt_chain _ _ _ _ _ _ T Hin) as (c & base & Hc & Hcid & Hr & _ & _ & Hlen & _).
  cbn [forky_loop]. unfold get_chain. rewrite Hc. cbn [deref]. rewrite bind_ret_l.
  case_decide as H1.
  { eexists. split; [reflexivity|]. exists [], ss. destruct H1 as [H1 H2]. split_and!; try done. by exists c. }
  case_decide as H2; [by apply IH|]. case_decide as H3; [by apply IH|].
  destruct (sameChain_spec w val _ _ _ _ _ _ s ss T HP Hin Hc Hwf HPs) as (same & -> & Hsame). rewrite bind_ret_l.
  destruct same.
  - destruct (Hsame eq_refl) as (ss1 & b & ss2 & -> & Hb & Hx & Hh).
    destruct (cutSnippet_spec _ _ _ _ _ Hwf Hb) as (s' & -> & W' & E1 & E2 & E3 & E4). rewrite bind_ret_l.
    pose proof (snippet_empty _ _ W') as He. rewrite cons_middle, app_assoc.
    case_decide as H4; (eexists; split; [reflexivity|]); exists (ss1 ++ [b]), ss2; split_and!; try done.
    + left. split; [by apply He|done].
    + intros Hs2. by apply H4, He.
    + exists c. split; [done|]. split; congruence.
  - destruct (findForkPoint_on w val cp s ss c false (fun i => fc_heightBlocks c !! i) fs id l)
      as (s' & r & ss1 & ss2 & -> & -> & W' & E1 & Hh & Hp).
    + intros i. apply getBlock_own.
    + done.
    + intros i u Hu. pose proof (rooted_own _ _ _ i Hr) as Ho. rewrite Hu in Ho.
      case_decide as Hd; [|discriminate Ho]. split; [|done]. destruct Hr as (n & ms & Hn & _ & Ht & _). lia.
    + done.
    + rewrite bind_ret_l. pose proof (snippet_empty _ _ W') as He. destruct r as [p|].
      { eexists. split; [reflexivity|]. exists ss1, ss2. destruct (Hp ltac:(by eexists)) as (Hne2 & q & Hq).
        split_and!; try done. by exists fs, q. }
      case_decide as H4.
      { eexists. split; [reflexivity|]. exists ss1, ss2. split_and!; try done. left. split; [by apply He|done]. }
      apply Forall_app in HPs as [_ HPs2].
      destruct (IH s' ss2) as (x & -> & Hx); [done|done|by intros ->; apply H4, He|done|].
      exists x. split; [done|]. destruct x as [r|s2].
      * by eapply forky_post_app.
      * destruct Hx as (ss3 & ss4 & -> & Hne4 & W4 & E4 & Hh4). exists (ss1 ++ ss3), ss4.
        rewrite app_assoc. split_and!; try done; [congruence|by apply Forall_app].
Qed.

(** With the last resort, the current chain over the disk. *)
Lemma forky_spec w val cp bs l s ss ids :
  pool_tree w cp bs l -> in_play l -> snippet_wf s ss -> Forall (fun p => P (block p)) ss -> ss <> [] ->
  Forall (fun id => id ∈ l.*1) ids ->
  exists r, forky w val cp s ids = Ret r /\ forky_post cp s ss l r.
Proof using nonneg hash_prev.
  intros T HP Hwf HPs Hne Hids.
  destruct (forky_loop_spec w val _ _ _ _ _ _ T HP Hwf HPs Hne Hids) as (x & E & Hx).
  unfold forky. rewrite E, bind_ret_l. destruct x as [r|s']; [by exists r|].
  destruct Hx as (ss1 & ss2 & -> & Hne2 & W' & E1 & Hh).
  destruct (disk_head_last _ _ (pt_disk _ _ _ _ T) (pt_nonempty _ _ _ _ T)) as (hd & -> & Hhd).
  rewrite bind_ret_l. destruct (pt_current _ _ _ _ T) as (c & fs & Hc & Hin & Href & Htl & _).
  unfold get_chain. rewrite Hc. cbn [deref]. rewrite bind_ret_l.
  destruct (pt_chain _ _ _ _ _ _ T Hin) as (c' & base & Hc' & _ & Hr & _ & _ & Hlen & _ & Hbase).
  rewrite Hc in Hc'. injection Hc' as <-. rewrite (Hbase Href) in Hr.
  assert (Hend : forall s2 ss3 ss4, ss2 = ss3 ++ ss4 -> snippet_wf s2 ss4 -> sn_chainId s2 = sn_chainId s' ->
    Forall (held l) ss3 ->
    exists r, (if decide (sn_headHeight s2 = sn_tailHeight s2)
      then Ret (delete_snippet cp s2, s2, Neither) else Ret (cp, s2, Neither)) = Ret r /\
      forky_post cp s (ss1 ++ ss2) l r).
  { intros s2 ss3 ss4 -> W2 E2 Hh2. pose proof (snippet_empty _ _ W2) as He.
    case_decide as H4; (eexists; split; [reflexivity|]); (exists (ss1 ++ ss3), ss4);
      rewrite app_assoc; (split_and!; [done|done|congruence|by apply Forall_app|]).
    - left. split; [by apply He|done].
    - right. split; [|done]. intros Hs4. by apply H4, He. }
  case_decide as Hd.
  - assert (Hcr := fun i => current_reads w val bs cp c fs i (pt_disk _ _ _ _ T) Hr Href Htl).
    destruct (findForkPoint_on w val cp s' ss2 c true
      (reads w val cp c) fs (current cp) l)
      as (s2 & r & ss3 & ss4 & -> & Ess & W2 & E2 & Hh2 & Hp).
    + intros i. apply Hcr.
    + done.
    + intros i u. apply Hcr.
    + done.
    + rewrite bind_ret_l. destruct r as [p|].
      * destruct (Hp ltac:(by eexists)) as (Hne4 & q & Hq). eexists. split; [reflexivity|].
        exists (ss1 ++ ss3), ss4. subst ss2. rewrite app_assoc.
        split_and!; [done|done|congruence|by apply Forall_app|done|done|]. by exists fs, q.
      * by eapply Hend.
  - rewrite bind_ret_l. by apply (Hend s' [] ss2).
Qed.
End forky.

(** ** The tree grows *)
Section append.
Context {B : Type} `{Block B} {W : Type} `{HRw : ChainRw B W, !ChainRwGrow B W}.
Implicit Types (w : W) (cp : chainPool B) (c : forkedChain B) (s : snippetChain B) (bs : list B).
Implicit Types (fs : list B) (ss : list (PoolBlock B)) (l : list (string * list B)) (p : PoolBlock B) (q : B).
Context (P : B -> Prop).
Context (nonneg : forall b, P b -> 0 <= Height b).
Context (hash_prev : forall a b, P a -> P b -> Hash a = Hash b -> PreHash a = PreHash b).

(** The chains of [l] are still there, with more blocks or as they were. *)
Definition grown l l' : Prop := forall id fs, (id, fs) ∈ l -> exists more, (id, fs ++ more) ∈ l'.

#[export] Instance grown_refl : Reflexive grown.
Proof. intros l id fs Hin. exists []. by rewrite app_nil_r. Qed.
#[export] Instance grown_trans : Transitive grown.
Proof.
  intros l1 l2 l3 G1 G2 id fs Hin. destruct (G1 _ _ Hin) as [m1 Hin1].
  destruct (G2 _ _ Hin1) as [m2 Hin2]. exists (m1 ++ m2). by rewrite app_assoc.
Qed.

Lemma held_grown l l' p : grown l l' -> held l p -> held l' p.
Proof.
  intros G (id & fs & q & Hin & Hq & Hx). destruct (G _ _ Hin) as [more Hin'].
  exists id, (fs ++ more), q. split; [done|]. split; [|done].
  rewrite lookup_app_l; [done|]. by eapply lookup_lt_Some.
Qed.

Lemma Forall_held_grown l l' ss : grown l l' -> Forall (held l) ss -> Forall (held l') ss.
Proof. intros G F. eapply Forall_impl; [exact F|]. intros p. by apply held_grown. Qed.

Lemma pool_tree_snippets w cp bs l m : pool_tree w cp bs l -> pool_tree w (set_snippets cp m) bs l.
Proof. intros [T1 T2 T3 T4 T5 T6 T7]. by split. Qed.

(** Adding a snippet's blocks at the head of a chain. *)
Lemma insertSnippet_at cp c s ss :
  snippet_wf s ss -> sn_tailHeight s = fc_headHeight c -> sn_tailHash s = fc_headHash c ->
  exists s', insertSnippet cp c s =
    Ret (set_snippets (put_chain cp (addHeads c ss)) (delete (sn_chainId s) (snippetChains cp)), s', None).
Proof.
  intros Hwf Eh Ex. unfold insertSnippet. rewrite (snippet_rounds _ _ Hwf).
  destruct (insertSnippet_loop_spec c s ss Hwf) as (s' & E & W1 & W2 & W3).
  { rewrite <- Ex, <- Eh. apply Hwf. }
  rewrite E, bind_ret_l. exists s'. rewrite decide_True.
  - unfold put_snippet, delete_snippet, set_snippets, put_chain. cbn [snippetChains]. rewrite W2.
    destruct (snippetChains cp !! sn_chainId s);
      cbn [snippetChains poolId lastestChainIdx current chains]; by rewrite ?delete_insert_eq.
  - pose proof (segment_length _ _ _ _ _ _ W1). cbn in *. lia.
Qed.

Lemma tree_append w cp bs l id c s ss m :
  pool_tree w cp bs l -> in_play P l -> chains cp !! id = Some c -> snippet_wf s ss -> Forall (fun p => P (block p)) ss ->
  sn_tailHeight s = fc_headHeight c -> sn_tailHash s = fc_headHash c ->
  let cp' := set_snippets (put_chain cp (addHeads c ss)) m in
  let l' := grow id ss l in
  pool_tree w cp' bs l' /\ in_play P l' /\ grown l l' /\ Forall (held l') ss.
Proof.
  intros T HP Hc Hwf HPs Eh Ex cp' l'. destruct (pt_known _ _ _ _ _ _ T Hc) as [fs Hin].
  destruct (pt_chain _ _ _ _ _ _ T Hin) as (c' & base & Hc' & Hcid & _ & _ & _ & Hlen & _).
  rewrite Hc in Hc'. injection Hc' as <-.
  destruct (addHeads_frame c ss) as (F1 & F2 & F3 & F4).
  assert (Hchs : chains cp' = <[id := addHeads c ss]> (chains cp)) by (cbn; by rewrite F1, Hcid).
  split; [split|split; [|split]].
  - apply T.
  - apply T.
  - rewrite Hchs. apply (forest_grow _ _ _ _ c); [apply T|by eapply pt_disk_linked|done|].
    rewrite <- Ex, <- Eh. apply Hwf.
  - intros i. rewrite Hchs. unfold l'. rewrite grow_fst, <- (pt_dom _ _ _ _ T).
    destruct (decide (i = id)) as [->|Hne]; [rewrite lookup_insert_eq, Hc|rewrite lookup_insert_ne by done]; done.
  - destruct (pt_current _ _ _ _ T) as (cc & cfs & Hcc & Hcin & Hr & Ht). rewrite Hchs.
    change (current cp') with (current cp). unfold l'. pose proof (grow_elem id ss _ _ _ Hcin) as Hg.
    destruct (decide (current cp = id)) as [E|Hne].
    + rewrite E in *. rewrite Hc in Hcc. injection Hcc as <-. exists (addHeads c ss), (cfs ++ map block ss).
      rewrite lookup_insert_eq, F2, F3, F4. done.
    + exists cc, cfs. rewrite lookup_insert_ne by done. done.
  - intros i ci. rewrite Hchs. change (current cp') with (current cp). intros Hi Hr.
    apply lookup_insert_Some in Hi as [[<- <-]|[_ Hi]]; [|by eapply (pt_root _ _ _ _ T)].
    rewrite F4 in Hr. by eapply (pt_root _ _ _ _ T).
  - unfold l'. rewrite grow_fst. apply T.
  - unfold in_play, l', grow in *. rewrite Forall_map. eapply Forall_impl; [exact HP|].
    intros [i gs] Hgs. case_decide; [|done]. apply Forall_app. split; [done|by apply Forall_map].
  - intros i gs Hg. apply (grow_elem id ss) in Hg. fold l' in Hg. case_decide; [by exists (map block ss)|].
    exists []. by rewrite app_nil_r.
  - apply (grow_elem id ss) in Hin. rewrite decide_True in Hin by done. fold l' in Hin.
    apply Forall_forall. intros p [j Hj]%list_elem_of_lookup. exists id, (fs ++ map block ss), (block p). split; [done|].
    split; [|done]. pose proof (linked_lookup _ _ _ _ _ (sg_linked _ _ _ _ _ _ Hwf) Hj) as Hp.
    rewrite lookup_app_r by lia. rewrite (list_lookup_fmap block).
    replace (Z.to_nat (Height p) - length fs)%nat with j by lia. by rewrite Hj.
Qed.

Lemma tip_take_S fs k q : fs !! k = Some q -> (tip "" (-1) (take (S k) fs)).1 = Hash q.
Proof. intros Hq. by rewrite (take_S_r _ _ _ Hq), tip_snoc. Qed.

Lemma Itoa_id_inj a i j : a +:+ "-" +:+ Itoa i = a +:+ "-" +:+ Itoa j -> i = j.
Proof. intros E%(inj (String.append a))%(inj (String.append "-")). by apply (inj pretty) in E. Qed.

Lemma tree_fork w cp bs l id c s ss fs q m :
  pool_tree w cp bs l -> in_play P l -> (id, fs) ∈ l -> chains cp !! id = Some c ->
  snippet_wf s ss -> Forall (fun p => P (block p)) ss -> 0 <= sn_tailHeight s -> fs !! Z.to_nat (sn_tailHeight s) = Some q ->
  Hash q = sn_tailHash s -> lastestChainIdx cp + 1 < 2 ^ 31 ->
  exists cp1 new l', forkChain cp c s = (cp1, new, None) /\ l'.*1 = fc_chainId new :: l.*1 /\
    lastestChainIdx cp1 = lastestChainIdx cp + 1 /\ current cp1 = current cp /\
    snippetChains cp1 = snippetChains cp /\
    pool_tree w (set_snippets cp1 m) bs l' /\ in_play P l' /\ grown l l' /\ Forall (held l') ss.
Proof.
  intros T HP Hin Hc Hwf HPs H0 Hq Hx Hidx.
  destruct (pt_chain _ _ _ _ _ _ T Hin) as (c' & base & Hc' & Hcid & _).
  rewrite Hc in Hc'. injection Hc' as <-.
  set (k := Z.to_nat (sn_tailHeight s)) in *. apply lookup_lt_Some in Hq as Hk.
  assert (Hpos : 0 <= lastestChainIdx cp).
  { destruct (pt_current _ _ _ _ T) as (cc & cfs & _ & Hcin & _).
    destruct (pt_ids _ _ _ _ T (current cp)) as (j & Hj & _); [|lia].
    apply list_elem_of_fmap. by exists (current cp, cfs). }
  unfold forkChain, genChainId, incChainIdx.
  assert (Ew : wrap32 (lastestChainIdx cp + 1) = lastestChainIdx cp + 1).
  { apply wrap32_id. unfold in32. lia. }
  rewrite Ew. set (new := mkForked _ _ _ _ _ _ _). set (cp1 := put_chain _ new).
  exists cp1, new, ((fc_chainId new, take (S k) fs ++ map block ss) :: l).
  assert (Hfresh : fc_chainId new ∉ l.*1).
  { intros (j & Hj & E)%(pt_ids _ _ _ _ T). cbn in E. apply Itoa_id_inj in E. lia. }
  split; [done|]. split; [done|]. split; [done|]. split; [done|]. split; [done|].
  assert (Hne : current cp <> fc_chainId new).
  { intros E. apply Hfresh. rewrite <- E. destruct (pt_current _ _ _ _ T) as (cc & cfs & _ & Hcin & _).
    apply list_elem_of_fmap. by exists (current cp, cfs). }
  split; [split|split; [|split]].
  - apply T.
  - apply T.
  - apply (forest_cons _ _ _ new fs).
    + apply forest_insert; [apply T|done].
    + done.
    + apply lookup_insert_eq.
    + done.
    + right. exists id. split; [cbn; by rewrite Hcid|done].
    + exists (S k), ss. split; [lia|]. split; [done|]. split; [cbn; lia|].
      rewrite (tip_take_S _ _ _ Hq), Hx. exact Hwf.
  - intros i. cbn [set_snippets chains put_chain cp1]. cbn. rewrite elem_of_cons, <- (pt_dom _ _ _ _ T).
    destruct (decide (i = fc_chainId new)) as [->|Hi].
    + rewrite lookup_insert_eq. split; [by left|by eexists].
    + rewrite lookup_insert_ne by done. split; [by right|by intros [?|?]].
  - destruct (pt_current _ _ _ _ T) as (cc & cfs & Hcc & Hcin & Hr & Ht). exists cc, cfs.
    cbn [set_snippets chains put_chain cp1 current]. rewrite lookup_insert_ne by done.
    split; [done|]. split; [by right|done].
  - intros i ci Hi Hr. cbn [set_snippets chains put_chain cp1 current] in *.
    apply lookup_insert_Some in Hi as [[<- <-]|[_ Hi]]; [done|by eapply (pt_root _ _ _ _ T)].
  - intros i [->|Hi]%elem_of_cons; cbn.
    + exists (lastestChainIdx cp + 1). split; [lia|done].
    + destruct (pt_ids _ _ _ _ T i Hi) as (j & Hj & E). exists j. split; [lia|done].
  - apply Forall_cons. split; [|done]. cbn. apply Forall_app. split; [|by apply Forall_map]. apply Forall_take.
    unfold in_play in HP. rewrite Forall_forall in HP. apply (HP _ Hin).
  - intros i gs Hg. exists []. rewrite app_nil_r. by right.
  - apply Forall_forall. intros p [j Hj]%list_elem_of_lookup.
    exists (fc_chainId new), (take (S k) fs ++ map block ss), (block p). split; [by left|].
    split; [|done]. pose proof (linked_lookup _ _ _ _ _ (sg_linked _ _ _ _ _ _ Hwf) Hj) as Hp.
    rewrite lookup_app_r by (rewrite length_take; lia). rewrite length_take, (list_lookup_fmap block).
    replace (Z.to_nat (Height p) - S k `min` length fs)%nat with j by lia. by rewrite Hj.
Qed.

(** The beginning of a snippet is on the chains of [l], the rest is still a
    snippet of the pool, under its id. *)
Definition placed cp l s ss : Prop :=
  exists ss1 ss2, ss = ss1 ++ ss2 /\ Forall (held l) ss1 /\
    match ss2 with
    | [] => snippetChains cp !! sn_chainId s = None
    | _ => exists s', snippetChains cp !! sn_chainId s = Some s' /\ sn_chainId s' = sn_chainId s /\ snippet_wf s' ss2
    end.

Lemma placed_grown cp cp' l l' s ss :
  grown l l' -> snippetChains cp' !! sn_chainId s = snippetChains cp !! sn_chainId s ->
  placed cp l s ss -> placed cp' l' s ss.
Proof.
  intros G E (ss1 & ss2 & -> & Hh & Hr). exists ss1, ss2. split; [done|].
  split; [by eapply Forall_held_grown|]. by rewrite E.
Qed.

(** What is left of good snippets is good. *)
Lemma placed_good cp cp' l' :
  snippets_good (fun p => P (block p)) (snippetChains cp) ->
  (forall id s ss, snippetChains cp !! id = Some s -> snippet_wf s ss -> placed cp' l' s ss) ->
  (forall id, snippetChains cp !! id = None -> snippetChains cp' !! id = snippetChains cp !! id) ->
  snippets_good (fun p => P (block p)) (snippetChains cp').
Proof.
  intros Hgood Hpl Hfr id s Hs. destruct (snippetChains cp !! id) as [s0|] eqn:E0.
  2: { rewrite Hfr in Hs by done. congruence. }
  destruct (Hgood _ _ E0) as (Hid & ss & Hne & Hwf & HP).
  destruct (Hpl _ _ _ E0 Hwf) as (ss1 & ss2 & -> & _ & Hr). rewrite Hid, Hs in Hr.
  destruct ss2 as [|p ss2]; [done|]. destruct Hr as (s' & [= <-] & E' & W').
  split; [done|]. exists (p :: ss2). split; [done|]. split; [done|]. by apply Forall_app in HP as [_ HP].
Qed.

(** One snippet: what the loop of [loopAppendChains] goes on with. *)
Lemma append_step w val cp bs l s ss ids :
  pool_tree w cp bs l -> in_play P l -> Forall (fun id => id ∈ l.*1) ids ->
  snippetChains cp !! sn_chainId s = Some s -> snippet_wf s ss -> Forall (fun p => P (block p)) ss -> ss <> [] ->
  lastestChainIdx cp + 1 < 2 ^ 31 ->
  exists cp1 l1 ids1 k, (forall ws i, append_loop w val cp ids (s :: ws) i = append_loop w val cp1 ids1 ws (i + k)) /\
    pool_tree w cp1 bs l1 /\ in_play P l1 /\ Forall (fun id => id ∈ l1.*1) ids1 /\ grown l l1 /\
    current cp1 = current cp /\ 0 <= k <= 1 /\ lastestChainIdx cp1 <= lastestChainIdx cp + 1 /\
    placed cp1 l1 s ss /\ forall id, id <> sn_chainId s -> snippetChains cp1 !! id = snippetChains cp !! id.
Proof using nonneg hash_prev.
  intros T HP Hids Hs Hwf HPs Hne Hidx.
  destruct (forky_spec P nonneg hash_prev w val _ _ _ s ss ids T HP Hwf HPs Hne Hids) as ([[cp' s'] r] & E & Post).
  destruct Post as (ss1 & ss2 & -> & W' & Eid & Hh & Hr). apply Forall_app in HPs as [_ HP2].
  destruct r as [id|id|].
  - destruct Hr as (-> & Hne2 & fs & q & Hin & H0 & Hq & Hx).
    destruct (pt_chain _ _ _ _ _ _ T Hin) as (c & base & Hc & _).
    destruct (tree_fork _ _ _ _ _ c s' ss2 fs q (delete (sn_chainId s) (snippetChains cp))
      T HP Hin Hc W' HP2 H0 Hq Hx Hidx) as (cp1 & new & l' & Ef & El & Ei & Ec & Esn & T' & HP' & G & Hh2).
    exists (set_snippets cp1 (delete (sn_chainId s) (snippetChains cp))), l', (ids ++ [fc_chainId new]), 1.
    split_and!; try done; try (cbn; lia).
    + intros ws i. cbn [append_loop]. rewrite E, bind_ret_l. unfold get_chain. rewrite Hc. cbn [deref].
      rewrite bind_ret_l. unfold delete_snippet. rewrite Eid.
      change (forkChain (set_snippets cp ?m) c s') with (forkChain cp c s'). rewrite Ef.
      by rewrite Esn.
    + rewrite El. apply Forall_app. split; [|repeat constructor; by left].
      eapply Forall_impl; [exact Hids|]. intros i Hi. by right.
    + exists (ss1 ++ ss2), []. rewrite app_nil_r. split; [done|].
      split; [apply Forall_app; split; [by eapply Forall_held_grown|done]|]. apply lookup_delete_eq.
    + intros i Hi. cbn. by rewrite lookup_delete_ne.
  - destruct Hr as (-> & Hne2 & c & Hc & Eh & Ex).
    destruct (tree_append w cp bs l id c s' ss2 (delete (sn_chainId s) (snippetChains cp))
      T HP Hc W' HP2 Eh Ex) as (T' & HP' & G & Hh2).
    destruct (insertSnippet_at cp c s' ss2 W' Eh Ex) as (s2 & Ei). rewrite Eid in Ei.
    exists (set_snippets (put_chain cp (addHeads c ss2)) (delete (sn_chainId s) (snippetChains cp))),
      (grow id ss2 l), ids, 1.
    split_and!; try done; try (cbn; lia).
    + intros ws i. cbn [append_loop]. rewrite E, bind_ret_l. unfold get_chain. rewrite Hc. cbn [deref].
      rewrite bind_ret_l, Ei, bind_ret_l. done.
    + by rewrite grow_fst.
    + exists (ss1 ++ ss2), []. rewrite app_nil_r. split; [done|].
      split; [apply Forall_app; split; [by eapply Forall_held_grown|done]|]. apply lookup_delete_eq.
    + intros i Hi. cbn. by rewrite lookup_delete_ne.
  - assert (Hcp : put_snippet cp' s' =
      set_snippets cp (match ss2 with [] => delete (sn_chainId s) (snippetChains cp)
        | _ => <[sn_chainId s := s']> (snippetChains cp) end)).
    { unfold put_snippet. destruct Hr as [[-> ->]|[Hne2 ->]].
      - unfold delete_snippet. cbn [set_snippets snippetChains]. by rewrite Eid, lookup_delete_eq.
      - rewrite Eid, Hs. by destruct ss2. }
    exists (put_snippet cp' s'), l, ids, 0. rewrite Hcp. split_and!; try done; try (cbn; lia).
    + intros ws i. cbn [append_loop]. rewrite E, bind_ret_l, Hcp, Z.add_0_r. done.
    + by apply pool_tree_snippets.
    + exists ss1, ss2. split; [done|]. split; [done|]. cbn [set_snippets snippetChains].
      destruct ss2; [apply lookup_delete_eq|]. exists s'. by rewrite lookup_insert_eq.
    + intros i Hi. cbn [set_snippets snippetChains].
      destruct ss2; [by rewrite lookup_delete_ne|by rewrite lookup_insert_ne].
Qed.

Lemma append_loop_spec w val bs ws cp l ids i :
  pool_tree w cp bs l -> in_play P l -> Forall (fun id => id ∈ l.*1) ids ->
  NoDup (sn_chainId <$> ws) -> Forall (fun s => snippetChains cp !! sn_chainId s = Some s /\ snippet_good (fun p => P (block p)) s) ws ->
  lastestChainIdx cp + Z.of_nat (length ws) < 2 ^ 31 ->
  exists cp' l' n, append_loop w val cp ids ws i = Ret (cp', i + n) /\ 0 <= n <= Z.of_nat (length ws) /\
    pool_tree w cp' bs l' /\ in_play P l' /\ grown l l' /\ current cp' = current cp /\
    (forall s ss, s ∈ ws -> snippet_wf s ss -> placed cp' l' s ss) /\
    (forall id, id ∉ sn_chainId <$> ws -> snippetChains cp' !! id = snippetChains cp !! id).
Proof using nonneg hash_prev.
  revert cp l ids i. induction ws as [|s ws IH]; intros cp l ids i T HP Hids Hnd Hws Hidx.
  { exists cp, l, 0. cbn. rewrite Z.add_0_r. split_and!; try done; try lia.
    intros s ss Hs. by apply elem_of_nil in Hs. }
  rewrite fmap_cons in Hnd. apply NoDup_cons in Hnd as [Hn Hnd].
  apply Forall_cons in Hws as [[Hs (ss & Hne & Hwf & HPs)] Hws]. cbn [length] in Hidx.
  destruct (append_step w val _ _ _ s ss ids T HP Hids Hs Hwf HPs Hne ltac:(lia))
    as (cp1 & l1 & ids1 & k & E & T1 & HP1 & Hids1 & G1 & Ec1 & Hk & Ei1 & Pl & Hfr).
  destruct (IH cp1 l1 ids1 (i + k) T1 HP1 Hids1 Hnd) as (cp' & l' & n & E' & Hn' & T' & HP' & G' & Ec' & Hpl & Hfr').
  - rewrite Forall_forall in Hws |- *. intros s1 Hs1. destruct (Hws s1 Hs1) as [H1 H2].
    rewrite Hfr; [done|]. intros E1. apply Hn. rewrite <- E1. by apply list_elem_of_fmap_2.
  - lia.
  - exists cp', l', (k + n). rewrite E, E', Z.add_assoc. split_and!; try done; try (cbn [length]; lia).
    + by etrans.
    + congruence.
    + intros s1 ss1 Hs1 W1. apply elem_of_cons in Hs1 as [->|Hs1]; [|by apply Hpl].
      assert (ss1 = ss) as ->.
      { eapply at_heights_inj; [apply W1|apply Hwf]. }
      eapply placed_grown; [exact G'|by apply Hfr'|done].
    + intros id Hid. rewrite fmap_cons in Hid. apply not_elem_of_cons in Hid as [Hid1 Hid2].
      rewrite Hfr' by done. by apply Hfr.
Qed.
End append.

Lemma loopAppendChains_spec {B} `{Block B} {W} `{HRw : ChainRw B W, !ChainRwGrow B W}
    (P : B -> Prop) orderS orderC (w : W) val (cp : chainPool B) bs l :
  (forall b, P b -> 0 <= Height b) ->
  (forall a b, P a -> P b -> Hash a = Hash b -> PreHash a = PreHash b) ->
  range_order orderS -> range_order orderC ->
  pool_tree w cp bs l -> Forall (fun x => Forall P x.2) l -> snippets_good (fun p => P (block p)) (snippetChains cp) ->
  lastestChainIdx cp + Z.of_nat (base.size (snippetChains cp)) < 2 ^ 31 ->
  exists cp' l' n, loopAppendChains orderS orderC w val cp = Ret (cp', n) /\
    0 <= n <= Z.of_nat (base.size (snippetChains cp)) /\
    pool_tree w cp' bs l' /\ grown l l' /\ current cp' = current cp /\ in_play P l' /\
    snippets_good (fun p => P (block p)) (snippetChains cp') /\
    forall id s ss, snippetChains cp !! id = Some s -> snippet_wf s ss -> placed cp' l' s ss.
Proof.
  intros Hn Hx HoS HoC T HP Hgood Hidx. unfold loopAppendChains. case_decide as H0.
  { exists cp, l, 0. split_and!; try done; try lia. intros id s ss Hs.
    apply map_size_empty_inv in H0. by rewrite H0 in Hs. }
  set (ws := sortSnippets orderS (snippetChains cp)).
  assert (Hperm : ws ≡ₚ snd <$> map_to_list (snippetChains cp)).
  { unfold ws, sortSnippets. rewrite merge_sort_Permutation. f_equiv. apply HoS. }
  assert (Hws : forall s, s ∈ ws <-> snippetChains cp !! sn_chainId s = Some s).
  { intros s. rewrite Hperm, list_elem_of_fmap. split.
    - intros ([i s'] & -> & Hs%elem_of_map_to_list). destruct (Hgood _ _ Hs) as [<- _]. done.
    - intros Hs. exists (sn_chainId s, s). split; [done|]. by apply elem_of_map_to_list. }
  destruct (append_loop_spec P Hn Hx w val bs ws cp l (fst <$> orderC (chains cp)) 0 T HP)
    as (cp' & l' & n & E & Hn' & T' & HP' & G & Ec & Hpl & Hfr).
  - apply Forall_forall. intros id ([i c] & -> & Hc)%list_elem_of_fmap.
    apply (range_order_elem orderC _ i c HoC) in Hc. cbn. apply (pt_dom _ _ _ _ T). by eexists.
  - assert (Ep : sn_chainId <$> ws ≡ₚ (map_to_list (snippetChains cp)).*1).
    { rewrite Hperm, <- list_fmap_compose. apply Permutation_refl'. apply list_fmap_ext.
      intros i [id s] Hs%list_elem_of_lookup_2%elem_of_map_to_list. cbn. by destruct (Hgood _ _ Hs). }
    rewrite Ep. apply NoDup_fst_map_to_list.
  - apply Forall_forall. intros s Hs%Hws. split; [done|]. by destruct (Hgood _ _ Hs).
  - rewrite Hperm, length_fmap, length_map_to_list. done.
  - exists cp', l', n. rewrite E. split; [done|]. split.
    { rewrite Hperm, length_fmap, length_map_to_list in Hn'. done. }
    assert (Hpl' : forall id s ss, snippetChains cp !! id = Some s -> snippet_wf s ss -> placed cp' l' s ss).
    { intros id s ss Hs Hw. apply Hpl; [|done]. apply Hws. by destruct (Hgood _ _ Hs) as [-> _]. }
    split_and!; try done. eapply placed_good; [exact Hgood|exact Hpl'|].
    intros id Hid. apply Hfr. intros (s & -> & Hs%Hws)%list_elem_of_fmap. by rewrite Hs in Hid.
Qed.

(** C10: appending snippets keeps the tree of chains and loses no block.  Start with
    a pool whose chains, read through their references, are linked from the first
    block on disk to their heads, the current one on top of the disk chain, and
    whose snippets are well formed; let no block in play have a negative height
    and a hash determine the hash before it, and let the chain index have room.
    Then, in whatever order the maps are visited, [loopAppendChains] returns; the
    chains it leaves are linked in the same way, every chain of before is one of
    them, perhaps with more blocks at its head, and the current chain stays the
    current one; and of every snippet a first part is on the chains (each block's
    hash at the block's height) and the rest is still a snippet under its id. *)
Theorem loopAppendChains_keeps_tree {B} `{Block B} {W} `{HRw : ChainRw B W, !ChainRwGrow B W}
    (P : B -> Prop) orderS orderC (w : W) val (cp : chainPool B) bs l :
  (forall b, P b -> 0 <= Height b) ->
  (forall a b, P a -> P b -> Hash a = Hash b -> PreHash a = PreHash b) ->
  range_order orderS -> range_order orderC ->
  pool_tree w cp bs l -> Forall (fun x => Forall P x.2) l -> snippets_good (fun p => P (block p)) (snippetChains cp) ->
  lastestChainIdx cp + Z.of_nat (base.size (snippetChains cp)) < 2 ^ 31 ->
  exists cp' l' n, loopAppendChains orderS orderC w val cp = Ret (cp', n) /\
    0 <= n <= Z.of_nat (base.size (snippetChains cp)) /\
    pool_tree w cp' bs l' /\ grown l l' /\ current cp' = current cp /\
    forall id s ss, snippetChains cp !! id = Some s -> snippet_wf s ss -> placed cp' l' s ss.
Proof.
  intros Hn Hx HoS HoC T HP Hgood Hidx.
  destruct (loopAppendChains_spec P orderS orderC w val cp bs l Hn Hx HoS HoC T HP Hgood Hidx)
    as (cp' & l' & n & E & H1 & H2 & H3 & H4 & _ & _ & H5).
  by exists cp', l', n.
Qed.

(** ** A concrete pool

    The disk holds [t0; t1], the current chain adds [t2]; of the two snippets,
    [t3] continues it and [u2] leaves it after [t1]. *)
Definition tree0 : chainPool Tblock :=
  pool_of [snip "p-2" t3; snip "p-3" u2] [chain_above "p-1" t1 [t2]].

Lemma tree0_ok : pool_tree [t0; t1] tree0 [t0; t1] [("p-1"%string, [t0; t1; t2])].
Proof.
  split.
  - apply view_0.
  - done.
  - apply (forest_cons _ _ _ (chain_above "p-1" t1 [t2]) [t0; t1]); [constructor|set_solver|done|done|by left|].
    exists 2%nat, [pb t2]. split; [cbn; lia|]. split; [done|]. split; [done|].
    by apply (chain_above_wf "p-1" t1 [t2]).
  - intros id. cbn. rewrite list_elem_of_singleton. unfold tree0, pool_of. cbn.
    destruct (decide (id = "p-1"%string)) as [->|Hne]; [by rewrite lookup_insert_eq|].
    rewrite lookup_insert_ne, lookup_empty by done. split; [by intros [? ?]|done].
  - exists (chain_above "p-1" t1 [t2]), [t0; t1; t2]. split; [done|]. split; [by left|done].
  - intros id c. unfold tree0, pool_of. cbn. by intros [[<- _]|[_ ?]]%lookup_insert_Some.
  - intros id Hid%list_elem_of_singleton. exists 1. split; [cbn; lia|]. subst. done.
Qed.

Definition in_tree0 (b : Tblock) : Prop := b ∈ [t0; t1; t2; t3; u2].

Lemma loopAppendChains_keeps_tree_witness :
  exists cp', loopAppendChains (fun m => map_to_list m) (fun m => map_to_list m) [t0; t1] 0 tree0 = Ret (cp', 2) /\
    snippetChains cp' = ∅ /\ exists l', pool_tree [t0; t1] cp' [t0; t1] l' /\ held l' (pb t3) /\ held l' (pb u2).
Proof.
  destruct (loopAppendChains_keeps_tree in_tree0 (fun m => map_to_list m) (fun m => map_to_list m)
    [t0; t1] 0 tree0 [t0; t1] [("p-1"%string, [t0; t1; t2])])
    as (cp' & l' & n & E & _ & T & _ & _ & Hpl).
  - intros p Hp. repeat (apply elem_of_cons in Hp as [->|Hp]; [vm_compute; discriminate|]). by apply elem_of_nil in Hp.
  - intros p q Hp Hq E.
    repeat (apply elem_of_cons in Hp as [->|Hp];
      [repeat (apply elem_of_cons in Hq as [->|Hq]; [first [reflexivity | discriminate E]|]); by apply elem_of_nil in Hq|]).
    by apply elem_of_nil in Hp.
  - apply range_order_map_to_list.
  - apply range_order_map_to_list.
  - apply tree0_ok.
  - repeat constructor; unfold in_tree0; cbn; set_solver.
  - intros id s Hs. cbn in Hs.
    apply lookup_insert_Some in Hs as [[<- <-]|[_ [[<- <-]|[_ Hs]]%lookup_insert_Some]]; [| |done];
      (split; [done|]); [exists [pb t3]|exists [pb u2]];
      (split; [done|]); (split; [apply snippet_init_wf|]); repeat constructor; unfold in_tree0; cbn; set_solver.
  - reflexivity.
  - assert (En : n = 2 /\ snippetChains cp' = ∅).
    { assert (X : match loopAppendChains (fun m => map_to_list m) (fun m => map_to_list m) [t0; t1] 0 tree0 with
        | Ret (cp', n) => n = 2 /\ snippetChains cp' = ∅ | _ => False end) by (vm_compute; auto).
      rewrite E in X. exact X. }
    destruct En as [-> En]. exists cp'. split; [exact E|]. split; [exact En|]. exists l'. split; [exact T|].
    assert (Hone : forall id b, snippetChains tree0 !! id = Some (snip id b) -> held l' (pb b)).
    { intros id b Hs. destruct (Hpl id (snip id b) [pb b] Hs (snippet_init_wf id (pb b))) as (ss1 & ss2 & Es & Hh & Hr).
      rewrite En in Hr. destruct ss2 as [|p ss2]; [|by destruct Hr as (s' & Hs' & _)].
      rewrite app_nil_r in Es. subst ss1. by apply Forall_inv in Hh. }
    split; [apply (Hone "p-2"%string) | apply (Hone "p-3"%string)]; reflexivity.
Defined.
