(* ===== verification/JoinSpec.v ===== *)
(** * JoinSpec: joining loses nothing and leaves nothing to join

    When no two blocks in play have one height, the snippets of a pool are pieces
    that do not overlap.  [loopGenSnippetChains] distributes the loose blocks over
    the pieces, each exactly once, and goes on until no piece continues another. *)
From S2P Require Import Prelude.
From S2P Require Import Common.
From S2P Require Import Links.
From S2P Require Import BCPool.
From S2P Require Import BCPoolSpec.
From S2P Require Import AppendSpec.

#[local] Arguments Height : simpl never.
#[local] Arguments Hash : simpl never.
#[local] Arguments PreHash : simpl never.

Section pieces.
Context {B : Type} `{Block B}.
Implicit Types (s : snippetChain B) (m : gmap string (snippetChain B)) (p q : PoolBlock B).
Implicit Types (ss : list (PoolBlock B)) (L : list (string * list (PoolBlock B))) (hm : gmap string string).
Context (P : PoolBlock B -> Prop).
Context (consistent : forall p q, P p -> P q -> Hash p = PreHash q -> Height q = Height p + 1).
Context (unforked : forall p q, P p -> P q -> Height p = Height q -> Hash p = Hash q).

(** The snippet named [x.1] is well formed and holds the blocks [x.2]. *)
Definition piece m (x : string * list (PoolBlock B)) : Prop :=
  exists s, m !! x.1 = Some s /\ sn_chainId s = x.1 /\ x.2 <> [] /\ snippet_wf s x.2.

Definition blocks L : list (PoolBlock B) := L ≫= snd.

Record pieces m L : Prop := {
  pc_nodup : NoDup L.*1;
  pc_piece : Forall (piece m) L;
  pc_play : Forall P (blocks L)
}.

#[export] Instance blocks_perm : Proper ((≡ₚ) ==> (≡ₚ)) blocks.
Proof. intros L1 L2 E. unfold blocks. by rewrite E. Qed.

#[export] Instance pieces_perm m : Proper ((≡ₚ) ==> iff) (pieces m).
Proof.
  intros L1 L2 E. split; intros [H1 H2 H3]; split; [by rewrite <- E..|by rewrite E|by rewrite E|by rewrite E].
Qed.

Lemma blocks_cons x L : blocks (x :: L) = x.2 ++ blocks L.
Proof. done. Qed.

Lemma pieces_cons m x L :
  pieces m (x :: L) <-> piece m x /\ x.1 ∉ L.*1 /\ Forall P x.2 /\ pieces m L.
Proof.
  split.
  - intros [Hn Hp HP]. cbn in Hn. apply NoDup_cons in Hn as [Hn1 Hn2]. apply Forall_cons in Hp as [Hp1 Hp2].
    rewrite blocks_cons in HP. apply Forall_app in HP as [HP1 HP2]. by split_and!.
  - intros (Hp & Hn & HP & [Hn' Hp' HP']). split; [by apply NoDup_cons|by apply Forall_cons|].
    rewrite blocks_cons. by apply Forall_app.
Qed.

(** A snippet outside the list may change. *)
Lemma pieces_frame m L id s : pieces m L -> id ∉ L.*1 -> pieces (<[id := s]> m) L.
Proof.
  intros [Hn Hp HP] Hi. split; [done| |done]. rewrite Forall_forall in Hp |- *. intros x Hx.
  destruct (Hp x Hx) as (s' & Hs & Hr). exists s'. rewrite lookup_insert_ne; [done|].
  intros ->. apply Hi. by apply list_elem_of_fmap_2.
Qed.

Lemma pieces_replace m L id ss s ss' :
  pieces m ((id, ss) :: L) -> sn_chainId s = id -> ss' <> [] -> snippet_wf s ss' -> Forall P ss' ->
  pieces (<[id := s]> m) ((id, ss') :: L).
Proof.
  intros (_ & Hn & _ & HL)%pieces_cons Hid Hne Hwf HP. apply pieces_cons.
  split; [|by split_and!; [..|apply pieces_frame]]. exists s. cbn. by rewrite lookup_insert_eq.
Qed.

Lemma pieces_split m L id :
  pieces m L -> id ∈ L.*1 ->
  exists ss L0 s, L ≡ₚ (id, ss) :: L0 /\ pieces m ((id, ss) :: L0) /\ m !! id = Some s /\ sn_chainId s = id /\
    ss <> [] /\ snippet_wf s ss /\ Forall P ss.
Proof.
  intros HL ([i ss] & -> & Hi)%list_elem_of_fmap. cbn.
  apply elem_of_Permutation in Hi as [L0 E]. rewrite E in HL.
  pose proof HL as ((s & Hs & Hid & Hne & Hwf) & _ & HP & _)%pieces_cons.
  by exists ss, L0, s.
Qed.

Lemma segment_at s ss h :
  snippet_wf s ss -> sn_tailHeight s < h <= sn_headHeight s -> exists q, q ∈ ss /\ Height q = h.
Proof.
  intros Hwf Hh. pose proof (segment_length _ _ _ _ _ _ Hwf) as Hlen.
  destruct (lookup_lt_is_Some_2 ss (Z.to_nat (h - sn_tailHeight s - 1))) as [q Hq]; [lia|].
  exists q. split; [by eapply list_elem_of_lookup_2|].
  rewrite (linked_lookup _ _ _ _ _ (sg_linked _ _ _ _ _ _ Hwf) Hq). lia.
Qed.

(** The last block of a snippet carries its head hash. *)
Lemma segment_last s ss :
  snippet_wf s ss -> ss <> [] -> exists ss0 q, ss = ss0 ++ [q] /\ Hash q = sn_headHash s.
Proof.
  intros Hwf Hne. destruct ss as [|q ss0 _] using rev_ind; [done|]. exists ss0, q. split; [done|].
  pose proof (sg_tip _ _ _ _ _ _ Hwf) as T. rewrite tip_snoc in T. by injection T.
Qed.

Lemma segment_first s ss :
  snippet_wf s ss -> ss <> [] -> exists q ss0, ss = q :: ss0 /\ PreHash q = sn_tailHash s /\ Height q = sn_tailHeight s + 1.
Proof.
  intros Hwf Hne. destruct ss as [|q ss0]; [done|]. exists q, ss0. split; [done|].
  pose proof (sg_linked _ _ _ _ _ _ Hwf) as (H1 & H2 & _). done.
Qed.

(** ** The loose blocks *)
Lemma tryInsert_cases m ids p :
  known m ids ->
  tryInsert m ids p = Ret (m, false) \/
  exists id s, id ∈ ids /\ m !! id = Some s /\
    (sn_tailHash s = Hash p /\ tryInsert m ids p = Ret (<[id := snippet_addTail s p]> m, true) \/
     sn_tailHeight s < Height p < sn_headHeight s /\ tryInsert m ids p = Ret (m, true)).
Proof.
  intros Hk. induction ids as [|id ids IH]; [by left|].
  apply Forall_cons in Hk as [[s Hs] Hk]. cbn [tryInsert]. rewrite Hs. cbn [deref]. rewrite bind_ret_l.
  case_decide as Hx; [right; exists id, s; split; [by left|]; split; [done|]; by left|].
  case_decide as Hh; [right; exists id, s; split; [by left|]; split; [done|]; right; split; [lia|done]|].
  destruct (IH Hk) as [E|(id' & s' & Hin & Hr)]; [by left|right]. exists id', s'. split; [by right|done].
Qed.

Lemma pieces_known m L ids : pieces m L -> ids ≡ₚ L.*1 -> known m ids.
Proof.
  intros HL E. unfold known. rewrite E. apply Forall_forall. intros id Hid.
  destruct (pieces_split m L id HL Hid) as (ss & L0 & s & _ & _ & Hs & _). by exists s.
Qed.

Lemma tryInsert_pieces m L ids p :
  pieces m L -> ids ≡ₚ L.*1 -> P p -> Hash p ∉ Hash <$> blocks L ->
  exists m' f L', tryInsert m ids p = Ret (m', f) /\ pieces m' L' /\ ids ≡ₚ L'.*1 /\
    blocks L' ≡ₚ (if f then [p] else []) ++ blocks L.
Proof using consistent unforked.
  intros HL Hids Hp Hn. destruct (tryInsert_cases m ids p (pieces_known _ _ _ HL Hids)) as [E|(id & s & Hin & Hs & Hr)].
  { by exists m, false, L. }
  rewrite Hids in Hin.
  destruct (pieces_split m L id HL Hin) as (ss & L0 & s' & EL & HL0 & Hs' & Hid & Hne & Hwf & HPs).
  rewrite Hs in Hs'. injection Hs' as <-. destruct Hr as [[Ex E]|[Hh E]].
  - exists (<[id := snippet_addTail s p]> m), true, ((id, p :: ss) :: L0). split; [done|].
    assert (Hg : snippet_good P s) by (by exists ss).
    split; [|split].
    + apply (pieces_replace m L0 id ss); [done|done|done| |by constructor].
      apply snippet_addTail_wf; [done|done|]. by apply (snippet_good_tail P consistent).
    + by rewrite Hids, EL.
    + rewrite EL. rewrite !blocks_cons. done.
  - exfalso. destruct (segment_at s ss (Height p) Hwf) as (q & Hq & Hqh); [lia|].
    apply Hn, list_elem_of_fmap. exists q. rewrite Forall_forall in HPs.
    split; [apply unforked; auto|]. rewrite EL, blocks_cons. apply elem_of_app. by left.
Qed.

(** Ids that the pool has given out. *)
Definition numbered (cp : chainPool B) (id : string) : Prop :=
  exists k, 0 < k <= lastestChainIdx cp /\ id = poolId cp +:+ "-" +:+ Itoa k.

Lemma genSnippets_loop_pieces bp (cp : chainPool B) m ids L ps i :
  pieces m L -> ids ≡ₚ L.*1 -> Forall P ps -> NoDup (Hash <$> (ps ++ blocks L)) ->
  Forall (numbered cp) ids -> 0 <= lastestChainIdx cp -> lastestChainIdx cp + Z.of_nat (length ps) < 2 ^ 31 ->
  exists bp' cp' m' ids' i' L', genSnippets_loop bp cp m ids ps i = Ret (bp', cp', m', ids', i') /\
    pieces m' L' /\ ids' ≡ₚ L'.*1 /\ Forall (numbered cp') ids' /\ blocks L' ≡ₚ ps ++ blocks L.
Proof using consistent unforked.
  revert bp cp m ids L i. induction ps as [|p ps IH]; intros bp cp m ids L i HL Hids HP Hnd Hnum H0 Hidx.
  { by exists bp, cp, m, ids, i, L. }
  apply Forall_cons in HP as [Hp HP]. cbn in Hnd. apply NoDup_cons in Hnd as [Hn Hnd]. cbn [length] in Hidx.
  cbn [genSnippets_loop].
  destruct (tryInsert_pieces m L ids p HL Hids Hp) as (m1 & f & L1 & -> & HL1 & Hids1 & Eb).
  { rewrite fmap_app in Hn. set_solver. }
  rewrite bind_ret_l. set (r := if f then (cp, m1, ids) else _).
  assert (Hr : exists cp2 m2 ids2 L2, r = (cp2, m2, ids2) /\ pieces m2 L2 /\ ids2 ≡ₚ L2.*1 /\
    blocks L2 ≡ₚ p :: blocks L /\ Forall (numbered cp2) ids2 /\ 0 <= lastestChainIdx cp2 <= lastestChainIdx cp + 1).
  { subst r. destruct f; [exists cp, m1, ids, L1; split_and!; (done || lia)|].
    unfold genChainId, incChainIdx. cbn. rewrite wrap32_id by (unfold in32; lia).
    set (id := _ +:+ _).
    assert (Hfresh : id ∉ L1.*1).
    { rewrite <- Hids1. intros Hid. rewrite Forall_forall in Hnum. destruct (Hnum id Hid) as (k & Hk & E).
      apply Itoa_id_inj in E. lia. }
    eexists _, _, _, ((id, [p]) :: L1). split; [reflexivity|]. split_and!.
    - apply pieces_cons. split; [|split; [done|split; [by repeat constructor|by apply pieces_frame]]].
      exists (snippet_init id p). cbn. rewrite lookup_insert_eq. split_and!; try done. apply snippet_init_wf.
    - cbn. by rewrite Hids1, <- Permutation_cons_append.
    - rewrite blocks_cons, Eb. done.
    - apply Forall_app. split; [|repeat constructor; exists (lastestChainIdx cp + 1); split; [cbn; lia|done]].
      eapply Forall_impl; [exact Hnum|]. intros x (k & Hk & ->). exists k. split; [cbn; lia|done].
    - cbn. lia.
    - cbn. lia. }
  destruct Hr as (cp2 & m2 & ids2 & L2 & -> & HL2 & Hids2 & Eb2 & Hnum2 & Hi2).
  destruct (IH (compound bp p) cp2 m2 ids2 L2 (i + 1) HL2 Hids2 HP)
    as (bp' & cp' & m' & ids' & i' & L' & E & HL' & Hids' & Hnum' & Eb').
  - rewrite Eb2. rewrite <- Permutation_middle. cbn. by apply NoDup_cons.
  - done.
  - lia.
  - lia.
  - exists bp', cp', m', ids', i', L'. split; [exact E|]. split_and!; try done.
    rewrite Eb', Eb2. by rewrite <- Permutation_middle.
Qed.

(** ** Merging *)

(** [hm] names, by their head hashes, exactly the pieces [L]. *)
Definition heads hm m L : Prop :=
  forall x id, hm !! x = Some id <-> id ∈ L.*1 /\ exists s, m !! id = Some s /\ sn_headHash s = x.

(** Nothing is left to merge below the snippet [id]. *)
Definition closed hm m (id : string) : Prop := forall s, m !! id = Some s -> hm !! sn_tailHash s = None.

Lemma heads_distinct m L id1 id2 s1 s2 :
  pieces m L -> NoDup (Hash <$> blocks L) -> id1 ∈ L.*1 -> id2 ∈ L.*1 -> m !! id1 = Some s1 -> m !! id2 = Some s2 ->
  sn_headHash s1 = sn_headHash s2 -> id1 = id2.
Proof.
  intros HL Hnd H1 H2 Hs1 Hs2 E. destruct (decide (id1 = id2)) as [|Hne]; [done|exfalso].
  destruct (pieces_split m L id1 HL H1) as (ss1 & L1 & s1' & EL & HL1 & Hs1' & _ & Hne1 & W1 & _).
  rewrite EL in H2, Hnd. cbn in H2. apply elem_of_cons in H2 as [H2|H2]; [by destruct Hne|].
  pose proof HL1 as (_ & _ & _ & HL0)%pieces_cons.
  destruct (pieces_split m L1 id2 HL0 H2) as (ss2 & L2 & s2' & EL2 & _ & Hs2' & _ & Hne2 & W2 & _).
  simplify_eq. rewrite EL2, !blocks_cons in Hnd. cbn [snd] in Hnd.
  destruct (segment_last _ _ W1 Hne1) as (a1 & q1 & -> & E1), (segment_last _ _ W2 Hne2) as (a2 & q2 & -> & E2).
  rewrite !fmap_app in Hnd. apply NoDup_app in Hnd as (_ & Hd & _).
  apply (Hd (Hash q1)); [set_solver|]. replace (Hash q1) with (Hash q2) by congruence. set_solver.
Qed.

Lemma splitToMap_heads m L ids :
  pieces m L -> ids ≡ₚ L.*1 -> NoDup (Hash <$> blocks L) -> exists hm, splitToMap m ids = Ret hm /\ heads hm m L.
Proof.
  intros HL Hids Hnd. unfold splitToMap.
  set (add := fun (hm : outcome (gmap string string)) id => hm ← hm; chain ← deref (m !! id) "nil dereference";
    Ret (<[sn_headHash chain := id]> hm)).
  assert (K : forall ids0 hm, (forall id, id ∈ ids0 -> id ∈ L.*1) -> exists hm', foldl add (Ret hm) ids0 = Ret hm' /\
    forall x id, hm' !! x = Some id <->
      (id ∈ ids0 /\ exists s, m !! id = Some s /\ sn_headHash s = x) \/
      hm !! x = Some id /\ ~ exists i s, i ∈ ids0 /\ m !! i = Some s /\ sn_headHash s = x).
  { intros ids0. induction ids0 as [|i ids0 IH]; intros hm Hsub.
    { exists hm. split; [done|]. intros x id. split; [|set_solver]. intros Hx. right. split; [done|]. set_solver. }
    destruct (pieces_split m L i HL) as (ss & L0 & s & _ & _ & Hs & _); [apply Hsub; by left|].
    cbn [foldl]. unfold add at 2. rewrite bind_ret_l, Hs. cbn [deref]. rewrite bind_ret_l.
    destruct (IH (<[sn_headHash s := i]> hm)) as (hm' & E & Hhm); [intros; apply Hsub; by right|].
    exists hm'. split; [exact E|]. intros x id. rewrite Hhm. split.
    - intros [[Hid Hx]|[Hx Hno]]; [left; split; [by right|done]|].
      apply lookup_insert_Some in Hx as [[<- <-]|[Hne Hx]]; [left; split; [by left|by exists s]|].
      right. split; [done|]. intros (j & sj & [->|Hj]%elem_of_cons & Hsj & Ej); [congruence|]. apply Hno. by exists j, sj.
    - intros [[[->|Hid]%elem_of_cons (s' & Hs' & <-)]|[Hx Hno]].
      + rewrite Hs in Hs'. injection Hs' as <-.
        destruct (decide (i ∈ ids0)) as [Hi|Hi]; [left; split; [done|by exists s]|]. right.
        rewrite lookup_insert_eq. split; [done|]. intros (j & sj & Hj & Hsj & Ej).
        apply Hi. rewrite <- (heads_distinct m L j i sj s); auto; apply Hsub; [by right|by left].
      + left. split; [done|]. by exists s'.
      + right. split; [|intros (j & sj & Hj & Hr); apply Hno; exists j, sj; split; [by right|done]].
        rewrite lookup_insert_ne; [done|]. intros <-. apply Hno. exists i, s. split; [by left|done]. }
  destruct (K ids ∅) as (hm & E & Hhm); [intros id; by rewrite Hids|]. exists hm. split; [exact E|].
  intros x id. rewrite Hhm, lookup_empty, Hids. naive_solver.
Qed.

Lemma tail_not_own_head s ss :
  snippet_wf s ss -> ss <> [] -> Forall P ss -> sn_tailHash s <> sn_headHash s.
Proof using consistent unforked.
  intros Hwf Hne HP E. destruct (segment_first _ _ Hwf Hne) as (r & ss1 & E1 & Hr & _).
  destruct (segment_last _ _ Hwf Hne) as (ss0 & q & E2 & Hq). rewrite Forall_forall in HP.
  assert (Hh : Height r = Height q + 1).
  { apply consistent; [apply HP; rewrite E2; set_solver|apply HP; rewrite E1; by left|congruence]. }
  assert (L1 : ss !! 0%nat = Some r) by (by rewrite E1).
  assert (L2 : ss !! length ss0 = Some q) by (by rewrite E2, lookup_app_r, Nat.sub_diag).
  pose proof (linked_lookup _ _ _ _ _ (sg_linked _ _ _ _ _ _ Hwf) L1).
  pose proof (linked_lookup _ _ _ _ _ (sg_linked _ _ _ _ _ _ Hwf) L2). lia.
Qed.

(** One merge: the piece [oc] goes below the piece [id]. *)
Lemma merge_pieces hm m id oc ss L0 s :
  pieces m ((id, ss) :: L0) -> heads hm m ((id, ss) :: L0) -> NoDup (Hash <$> blocks ((id, ss) :: L0)) ->
  m !! id = Some s -> hm !! sn_tailHash s = Some oc ->
  id <> oc /\ exists so os L1, m !! oc = Some so /\ oc ∈ L0.*1 /\ L0 ≡ₚ (oc, os) :: L1 /\
    pieces (<[id := merge_snippet s so]> m) ((id, os ++ ss) :: L1) /\
    heads (delete (sn_tailHash s) hm) (<[id := merge_snippet s so]> m) ((id, os ++ ss) :: L1) /\
    blocks ((id, os ++ ss) :: L1) ≡ₚ blocks ((id, ss) :: L0).
Proof using consistent unforked.
  intros HL Hh Hnd Hs Hoc. pose proof HL as ((s' & Hs' & Hid & Hne & Hwf) & Hn & HP & HL0)%pieces_cons.
  cbn [fst snd] in *. rewrite Hs in Hs'. injection Hs' as <-.
  destruct (proj1 (Hh _ _) Hoc) as (Hin & so & Hso & Ex). assert (Hioc : id <> oc).
  { intros ->. rewrite Hs in Hso. injection Hso as <-. by apply (tail_not_own_head s ss Hwf Hne HP). }
  split; [done|]. cbn in Hin. apply elem_of_cons in Hin as [Hin|Hin]; [by destruct Hioc|].
  destruct (pieces_split m L0 oc HL0 Hin) as (os & L1 & so' & EL & HL1 & Hso' & Hoid & Hone & Owf & OP).
  rewrite Hso in Hso'. injection Hso' as <-. exists so, os, L1.
  assert (Hn' : id ∉ L1.*1 /\ oc ∉ L1.*1).
  { split; [intros Hi; apply Hn; rewrite EL; by right|]. by apply pieces_cons in HL1 as (_ & ? & _). }
  split; [done|]. split; [done|]. split; [done|]. split; [|split].
  - assert (Hmeet : sn_tailHeight s = sn_headHeight so).
    { apply (snippet_good_meet P consistent); [by exists ss|by exists os|done]. }
    apply (pieces_replace m L1 id ss); [|done|by destruct os|by apply merge_snippet_wf|by apply Forall_app].
    apply pieces_cons. split; [by exists s|]. split; [by apply Hn'|]. split; [done|]. by apply pieces_cons in HL1 as (_ & _ & _ & ?).
  - assert (Hiff : forall i si, i ∈ id :: L0.*1 -> m !! i = Some si -> i = oc <-> sn_headHash si = sn_tailHash s).
    { intros i si Hi Hsi. split; [intros ->; congruence|]. intros E.
      eapply (heads_distinct m ((id, ss) :: L0)); try done; [by right|congruence]. }
    intros x i. rewrite lookup_delete_Some, (Hh x i). cbn [fst fmap list_fmap]. rewrite EL. cbn [fst fmap list_fmap].
    set (h := sn_tailHash s) in *.
    assert (Hlk : (exists s0, <[id := merge_snippet s so]> m !! i = Some s0 /\ sn_headHash s0 = x) <->
      exists s0, m !! i = Some s0 /\ sn_headHash s0 = x).
    { destruct (decide (i = id)) as [->|Hne']; [|by rewrite lookup_insert_ne].
      rewrite lookup_insert_eq, Hs. naive_solver. }
    rewrite Hlk, !elem_of_cons. split.
    + intros (Hx & Hi & si & Hsi & <-). split; [|by exists si].
      destruct Hi as [->|[->|Hi]]; [by left| |by right]. congruence.
    + intros (Hi & si & Hsi & <-). split; [|split; [naive_solver|by exists si]].
      intros E. assert (i = oc) as ->; [|naive_solver]. apply (Hiff i si); [|done|done].
      rewrite EL. cbn. set_solver.
  - rewrite EL, !blocks_cons. cbn [snd]. rewrite !app_assoc. f_equiv. apply Permutation_app_comm.
Qed.

Lemma merge_loop_pieces fuel hm m id ss L0 s :
  pieces m ((id, ss) :: L0) -> heads hm m ((id, ss) :: L0) -> NoDup (Hash <$> blocks ((id, ss) :: L0)) ->
  m !! id = Some s -> (base.size hm <= fuel)%nat ->
  exists hm' m' ss' L0', merge_loop fuel hm m id = Ret (hm', m') /\
    pieces m' ((id, ss') :: L0') /\ heads hm' m' ((id, ss') :: L0') /\
    blocks ((id, ss') :: L0') ≡ₚ blocks ((id, ss) :: L0) /\ hm' ⊆ hm /\ closed hm' m' id /\
    (forall x, x <> id -> m' !! x = m !! x) /\ (forall x, x ∈ L0'.*1 -> x ∈ L0.*1) /\
    (forall x, x ∈ L0.*1 -> x ∉ L0'.*1 -> closed hm' m' x) /\ hm' !! sn_tailHash s = None.
Proof using consistent unforked.
  revert hm m ss L0 s. induction fuel as [|fuel IH]; intros hm m ss L0 s HL Hh Hnd Hs Hf.
  all: cbn [merge_loop]; rewrite Hs; cbn [deref]; rewrite bind_ret_l; cbv zeta.
  all: destruct (hm !! sn_tailHash s) as [oc|] eqn:Eo.
  2, 4: exists hm, m, ss, L0; split_and!; try done; intros s' Hs'; congruence.
  { assert (hm = ∅) by (apply map_size_empty_inv; lia). subst. by rewrite lookup_empty in Eo. }
  destruct (merge_pieces hm m id oc ss L0 s HL Hh Hnd Hs Eo)
    as (Hne & so & os & L1 & Hso & Hoin & EL & HL1 & Hh1 & Eb).
  rewrite decide_False by done. rewrite Hso. cbn [deref]. rewrite bind_ret_l.
  destruct (IH (delete (sn_tailHash s) hm) (<[id := merge_snippet s so]> m) (os ++ ss) L1 (merge_snippet s so))
    as (hm' & m' & ss' & L0' & E & HL' & Hh' & Eb' & Hsub & Hcl & Hfr & Hin & Hdead & Htail).
  - done.
  - done.
  - by rewrite Eb.
  - apply lookup_insert_eq.
  - rewrite map_size_delete_Some by (by eexists). lia.
  - assert (Hmo : m' !! oc = Some so) by (rewrite Hfr, lookup_insert_ne by done; done).
    exists hm', m', ss', L0'. split; [exact E|]. split_and!; try done.
    + by rewrite Eb', Eb.
    + etrans; [exact Hsub|apply delete_subseteq].
    + intros x Hx. rewrite Hfr by done. by apply lookup_insert_ne.
    + intros x Hx. rewrite EL. right. by apply Hin.
    + intros x Hx Hx'. rewrite EL in Hx. cbn in Hx. apply elem_of_cons in Hx as [->|Hx]; [|by apply Hdead].
      intros s' Hs'. rewrite Hmo in Hs'. injection Hs' as <-. exact Htail.
    + apply eq_None_not_Some. intros [i Hi]. eapply lookup_weaken in Hi; [|exact Hsub].
      by rewrite lookup_delete_eq in Hi.
Qed.

Lemma merge_all_pieces ids hm m L :
  pieces m L -> heads hm m L -> NoDup (Hash <$> blocks L) -> known m ids ->
  (forall id, id ∈ ids -> id ∉ L.*1 -> closed hm m id) ->
  exists hm' m' L', merge_all hm m ids = Ret (hm', m') /\ pieces m' L' /\ heads hm' m' L' /\
    blocks L' ≡ₚ blocks L /\ (forall x, x ∈ L'.*1 -> x ∈ L.*1) /\
    (forall x, x ∈ ids \/ closed hm m x -> closed hm' m' x).
Proof using consistent unforked.
  revert hm m L. induction ids as [|id ids IH]; intros hm m L HL Hh Hnd Hk Hcl.
  { exists hm, m, L. split_and!; try done. intros x [Hx|Hx]; [by apply elem_of_nil in Hx|done]. }
  apply Forall_cons in Hk as [[s Hs] Hk]. cbn [merge_all].
  assert (Step : exists hm1 m1 L1, merge_loop (base.size hm) hm m id = Ret (hm1, m1) /\ pieces m1 L1 /\ heads hm1 m1 L1 /\
    blocks L1 ≡ₚ blocks L /\ (forall x, x ∈ L1.*1 -> x ∈ L.*1) /\ known m1 ids /\
    (forall x, x ∈ L.*1 -> x ∉ L1.*1 -> closed hm1 m1 x) /\
    (forall x, x = id \/ closed hm m x -> closed hm1 m1 x)).
  { destruct (decide (id ∈ L.*1)) as [Hid|Hid].
    - destruct (pieces_split m L id HL Hid) as (ss & L0 & s' & EL & HL0 & _). pose proof Hnd as Hnd'. rewrite EL in Hnd.
      assert (Hh0 : heads hm m ((id, ss) :: L0)) by (intros x i; rewrite (Hh x i); by rewrite EL).
      destruct (merge_loop_pieces (base.size hm) hm m id ss L0 s HL0 Hh0 Hnd Hs) as
        (hm1 & m1 & ss1 & L1 & E & HL1 & Hh1 & Eb & Hsub & Hc & Hfr & Hin & Hdead & _); [lia|].
      exists hm1, m1, ((id, ss1) :: L1). split_and!; try done.
      + by rewrite Eb, EL.
      + intros x. rewrite EL. cbn. rewrite !elem_of_cons. intros [->|Hx]; [by left|right; by apply Hin].
      + unfold known in *. rewrite Forall_forall in Hk |- *. intros x Hx. destruct (decide (x = id)) as [->|Hne].
        * apply pieces_cons in HL1 as ((s1 & Hs1 & _) & _). by exists s1.
        * rewrite Hfr by done. by apply Hk.
      + intros x. rewrite EL. cbn. rewrite !elem_of_cons. intros [->|Hx] Hx'; [destruct Hx'; by left|].
        apply Hdead; [done|]. intros ?. apply Hx'. by right.
      + intros x [->|Hx]; [done|]. destruct (decide (x = id)) as [->|Hne]; [done|].
        intros sx Hsx. rewrite Hfr in Hsx by done. apply Hx in Hsx. by eapply lookup_weaken_None.
    - assert (Hc : closed hm m id) by (apply Hcl; [by left|done]).
      exists hm, m, L. split_and!; try done; [|intros x [->|Hx]; done].
      pose proof (Hc s Hs) as Hno. destruct (base.size hm); cbn [merge_loop]; rewrite Hs; cbn [deref];
        rewrite bind_ret_l; cbv zeta; by rewrite Hno. }
  destruct Step as (hm1 & m1 & L1 & -> & HL1 & Hh1 & Eb1 & Hin1 & Hk1 & Hdead & Hkeep).
  rewrite bind_ret_l. destruct (IH hm1 m1 L1 HL1 Hh1) as (hm' & m' & L' & E & HL' & Hh' & Eb' & Hin' & Hc').
  - by rewrite Eb1.
  - done.
  - intros x Hx Hn. destruct (decide (x ∈ L.*1)) as [Hx'|Hx']; [by apply Hdead|].
    apply Hkeep. right. apply Hcl; [by right|done].
  - exists hm', m', L'. split; [exact E|]. split_and!; try done.
    + by rewrite Eb', Eb1.
    + intros x Hx. by apply Hin1, Hin'.
    + intros x [Hx|Hx]; apply Hc'; [|right; by apply Hkeep; right].
      apply elem_of_cons in Hx as [->|Hx]; [right; by apply Hkeep; left|by left].
Qed.

(** The snippets left at the end are the pieces that have not been merged away. *)
Lemma final_pieces hm m L :
  pieces m L -> heads hm m L ->
  pieces (final_snippets hm m) L /\ (forall id, is_Some (final_snippets hm m !! id) <-> id ∈ L.*1) /\
  (forall id s, final_snippets hm m !! id = Some s -> m !! id = Some s).
Proof.
  intros HL Hh. assert (Hiff : forall id s, final_snippets hm m !! id = Some s <-> m !! id = Some s /\ id ∈ L.*1).
  { intros id s. unfold final_snippets. rewrite map_lookup_filter_Some. f_equiv. rewrite Exists_exists. split.
    - intros ([x i] & Hx%elem_of_map_to_list & <-). by apply Hh in Hx as [Hx _].
    - intros Hid. destruct (pieces_split m L id HL Hid) as (ss & L0 & s' & _ & _ & Hs & _).
      exists (sn_headHash s', id). split; [|done]. apply elem_of_map_to_list, Hh. split; [done|by exists s']. }
  split; [|split].
  - destruct HL as [Hn Hp HP]. split; [done| |done]. rewrite Forall_forall in Hp |- *. intros x Hx.
    destruct (Hp x Hx) as (s & Hs & Hr). exists s. split; [|done]. apply Hiff. split; [done|by apply list_elem_of_fmap_2].
  - intros id. split; [by intros [s [_ ?]%Hiff]|]. intros Hid.
    destruct (pieces_split m L id HL Hid) as (ss & L0 & s & _ & _ & Hs & _). exists s. by apply Hiff.
  - by intros id s [? _]%Hiff.
Qed.

(** The snippets [m] are exactly the pieces [L]. *)
Definition covers m L : Prop := pieces m L /\ forall id, is_Some (m !! id) <-> id ∈ L.*1.

Definition loose (bp : blockPool B) : list (PoolBlock B) := (map_to_list (freeBlocks bp)).*2.

Lemma loopGenSnippetChains_joins orderB orderS (bp : blockPool B) (cp : chainPool B) L :
  range_order orderB -> range_order orderS ->
  map_Forall (fun x p => Hash p = x /\ P p) (freeBlocks bp) -> covers (snippetChains cp) L ->
  (forall p, p ∈ blocks L -> freeBlocks bp !! Hash p = None) -> NoDup (Hash <$> blocks L) ->
  Forall (numbered cp) L.*1 -> 0 <= lastestChainIdx cp ->
  lastestChainIdx cp + Z.of_nat (base.size (freeBlocks bp)) < 2 ^ 31 ->
  exists bp' cp' n L', loopGenSnippetChains orderB orderS bp cp = Ret (bp', cp', n) /\
    covers (snippetChains cp') L' /\ blocks L' ≡ₚ loose bp ++ blocks L /\
    forall i j s s', snippetChains cp' !! i = Some s -> snippetChains cp' !! j = Some s' ->
      sn_tailHash s <> sn_headHash s'.
Proof using consistent unforked.
  intros HoB HoS Hfree [HL Hdom] Hdis Hnd Hnum H0 Hidx. unfold loopGenSnippetChains.
  set (ps := snd <$> orderB (freeBlocks bp)). set (ids := fst <$> orderS (snippetChains cp)).
  assert (Hps : ps ≡ₚ loose bp) by (unfold ps; by rewrite (HoB (freeBlocks bp))).
  assert (Hin : forall p, p ∈ ps -> freeBlocks bp !! Hash p = Some p /\ P p).
  { intros p. rewrite Hps. intros ([x p'] & -> & Hx%elem_of_map_to_list)%list_elem_of_fmap. cbn.
    destruct (Hfree _ _ Hx) as [-> ?]. done. }
  assert (Hids : ids ≡ₚ L.*1).
  { apply NoDup_Permutation; [|apply HL|].
    - unfold ids. rewrite (HoS (snippetChains cp)). apply NoDup_fst_map_to_list.
    - intros id. rewrite <- Hdom. unfold ids. rewrite (HoS (snippetChains cp)), list_elem_of_fmap. split.
      + intros ([i s] & -> & Hs%elem_of_map_to_list). by exists s.
      + intros [s Hs]. exists (id, s). split; [done|]. by apply elem_of_map_to_list. }
  assert (Hnd' : NoDup (Hash <$> (ps ++ blocks L))).
  { rewrite fmap_app. apply NoDup_app. split_and!; [| |done].
    - rewrite Hps. unfold loose. rewrite <- list_fmap_compose.
      rewrite (list_fmap_ext _ fst); [apply NoDup_fst_map_to_list|].
      intros i [x p] Hx%list_elem_of_lookup_2%elem_of_map_to_list. cbn. by destruct (Hfree _ _ Hx).
    - intros x (p & -> & Hp)%list_elem_of_fmap (q & E & Hq)%list_elem_of_fmap.
      apply Hdis in Hq. apply Hin in Hp as [Hp _]. congruence. }
  destruct (genSnippets_loop_pieces bp cp (snippetChains cp) ids L ps 0 HL Hids)
    as (bp' & cp' & m' & ids' & i' & L1 & -> & HL1 & Hids1 & _ & Eb1); try done.
  { apply Forall_forall. intros p Hp. by apply Hin. }
  { unfold numbered in *. by rewrite Hids. }
  { assert (length ps = base.size (freeBlocks bp)) as ->; [|done].
    rewrite Hps. unfold loose. rewrite length_fmap. apply length_map_to_list. }
  rewrite bind_ret_l. assert (Hnd1 : NoDup (Hash <$> blocks L1)) by (by rewrite Eb1).
  destruct (splitToMap_heads m' L1 ids' HL1 Hids1 Hnd1) as (hm & -> & Hh). rewrite bind_ret_l.
  destruct (merge_all_pieces ids' hm m' L1 HL1 Hh Hnd1) as (hm2 & m2 & L2 & -> & HL2 & Hh2 & Eb2 & Hsub & Hcl).
  { by apply (pieces_known m' L1). }
  { intros id Hid Hn. destruct Hn. by rewrite <- Hids1. }
  rewrite bind_ret_l. destruct (final_pieces hm2 m2 L2 HL2 Hh2) as (HF & Hdom2 & Hval).
  exists bp', (set_snippets cp' (final_snippets hm2 m2)), i', L2. split; [done|]. split_and!.
  - by split.
  - by rewrite Eb2, Eb1, Hps.
  - cbn [set_snippets snippetChains]. intros i j s s' Hs Hs' E.
    assert (Hi : i ∈ ids') by (rewrite Hids1; apply Hsub, Hdom2; by exists s).
    assert (Hj : j ∈ L2.*1) by (apply Hdom2; by exists s').
    pose proof (Hcl i (or_introl Hi) s (Hval _ _ Hs)) as Hno.
    assert (Hsome : hm2 !! sn_tailHash s = Some j); [|congruence].
    apply Hh2. split; [done|]. exists s'. split; [by apply Hval|done].
Qed.

(** ** Pieces of one sequence *)
Lemma piece_elem m L id ss :
  pieces m L -> (id, ss) ∈ L -> exists s, m !! id = Some s /\ sn_chainId s = id /\ ss <> [] /\ snippet_wf s ss.
Proof. intros [_ Hp _] Hin. rewrite Forall_forall in Hp. by destruct (Hp _ Hin) as (s & ? & ? & ? & ?); exists s. Qed.

Lemma elem_of_blocks L q : q ∈ blocks L <-> exists id ss, (id, ss) ∈ L /\ q ∈ ss.
Proof.
  unfold blocks. rewrite list_elem_of_bind. split.
  - intros ([id ss] & Hq & Hin). by exists id, ss.
  - intros (id & ss & Hin & Hq). by exists (id, ss).
Qed.

(** A block lies in one piece, at one place. *)
Lemma piece_unique L i j ss ss' q :
  NoDup (blocks L) -> (i, ss) ∈ L -> (j, ss') ∈ L -> q ∈ ss -> q ∈ ss' -> (i, ss) = (j, ss').
Proof.
  intros Hnd Hi Hj Hq Hq'. apply elem_of_Permutation in Hi as [L0 E]. rewrite E in Hj, Hnd.
  rewrite blocks_cons in Hnd. apply NoDup_app in Hnd as (_ & Hd & _).
  apply elem_of_cons in Hj as [|Hj]; [done|]. destruct (Hd q Hq). apply elem_of_blocks. by exists j, ss'.
Qed.

Lemma piece_NoDup L i ss : NoDup (blocks L) -> (i, ss) ∈ L -> NoDup ss.
Proof.
  intros Hnd Hi. apply elem_of_Permutation in Hi as [L0 E]. rewrite E, blocks_cons in Hnd.
  by apply NoDup_app in Hnd as [? _].
Qed.

(** A piece of a sequence starts where the sequence does, unless another piece
    ends below it. *)
Lemma piece_starts_first m L th h ns id q ss0 :
  pieces m L -> blocks L ≡ₚ ns -> linked th h ns -> NoDup ns -> (id, q :: ss0) ∈ L ->
  (forall j s s', m !! id = Some s -> j ∈ L.*1 -> m !! j = Some s' -> sn_tailHash s <> sn_headHash s') ->
  ns !! 0%nat = Some q.
Proof.
  intros HL Eb Hl Hnd Hin Hmax. rewrite <- Eb in Hnd.
  destruct (piece_elem m L id _ HL Hin) as (s & Hs & _ & _ & Hwf).
  pose proof (sg_linked _ _ _ _ _ _ Hwf) as (Hq & _ & _).
  assert (Hqn : q ∈ ns) by (rewrite <- Eb; apply elem_of_blocks; exists id, (q :: ss0); split; [done|by left]).
  apply list_elem_of_lookup in Hqn as [[|k] Hk]; [done|exfalso].
  destruct (lookup_lt_is_Some_2 ns k) as [r Hr]; [apply lookup_lt_Some in Hk; lia|].
  pose proof (linked_prev _ _ _ _ _ _ Hl Hr Hk) as Er.
  assert (Hrb : r ∈ blocks L) by (rewrite Eb; by eapply list_elem_of_lookup_2).
  apply elem_of_blocks in Hrb as (j & ss & Hj & Hrj). destruct (piece_elem m L j ss HL Hj) as (s' & Hs' & _ & _ & Wf').
  apply list_elem_of_split in Hrj as (a & b & ->). destruct b as [|r' b].
  - apply (Hmax j s s' Hs); [by apply (list_elem_of_fmap_2 fst L (j, a ++ [r]))|done|]. rewrite <- Hq, Er.
    pose proof (sg_tip _ _ _ _ _ _ Wf') as T. rewrite tip_snoc in T. by injection T.
  - pose proof (sg_linked _ _ _ _ _ _ Wf') as Hl'.
    assert (A1 : (a ++ r :: r' :: b) !! length a = Some r) by (by rewrite lookup_app_r, Nat.sub_diag).
    assert (A2 : (a ++ r :: r' :: b) !! S (length a) = Some r')
      by (rewrite lookup_app_r by lia; by replace (S (length a) - length a)%nat with 1%nat by lia).
    pose proof (linked_lookup _ _ _ _ _ Hl' A1). pose proof (linked_lookup _ _ _ _ _ Hl' A2).
    pose proof (linked_lookup _ _ _ _ _ Hl Hr). pose proof (linked_lookup _ _ _ _ _ Hl Hk).
    assert (r' = q) as ->.
    { eapply (linked_height_inj th h ns); [done| |by eapply list_elem_of_lookup_2|lia].
      rewrite <- Eb. apply elem_of_blocks. exists j, (a ++ r :: r' :: b). split; [done|set_solver]. }
    assert (E : (j, a ++ r :: q :: b) = (id, q :: ss0)).
    { apply (piece_unique L _ _ _ _ q); [done|done|done|set_solver|by left]. }
    injection E as -> E. pose proof (piece_NoDup L id _ Hnd Hj) as Hno. rewrite E in A2, Hno.
    by pose proof (NoDup_lookup _ 0%nat _ q Hno eq_refl A2).
Qed.

(** Linked sequences of the same blocks are the same sequence. *)
Lemma linked_perm_eq th1 h1 th2 h2 (ss ns : list (PoolBlock B)) q :
  linked th1 h1 ss -> linked th2 h2 ns -> ss ≡ₚ ns -> ss !! 0%nat = Some q -> ns !! 0%nat = Some q -> ss = ns.
Proof.
  intros L1 L2 E Q1 Q2. apply list_eq. intros k. destruct (ss !! k) as [a|] eqn:Ea; symmetry.
  - assert (Ha : a ∈ ns) by (rewrite <- E; by eapply list_elem_of_lookup_2).
    apply list_elem_of_lookup in Ha as [k' Hk'].
    pose proof (linked_lookup _ _ _ _ _ L1 Ea). pose proof (linked_lookup _ _ _ _ _ L2 Hk').
    pose proof (linked_lookup _ _ _ _ _ L1 Q1). pose proof (linked_lookup _ _ _ _ _ L2 Q2).
    by replace k with k' by lia.
  - apply lookup_ge_None_2. apply lookup_ge_None_1 in Ea. by rewrite <- E.
Qed.

(** Pieces of one sequence of which none continues another: there is only one. *)
Lemma pieces_of_run m L th h ns :
  covers m L -> blocks L ≡ₚ ns -> linked th h ns -> NoDup ns -> ns <> [] ->
  (forall i j s s', m !! i = Some s -> m !! j = Some s' -> sn_tailHash s <> sn_headHash s') ->
  exists id s, m = {[id := s]} /\ sn_chainId s = id /\ snippet_wf s ns.
Proof.
  intros [HL Hdom] Eb Hl Hnd Hne Hmax.
  assert (Hfirst : forall id ss, (id, ss) ∈ L -> exists q ss0, ss = q :: ss0 /\ ns !! 0%nat = Some q).
  { intros id ss Hin. destruct (piece_elem m L id ss HL Hin) as (s & Hs & _ & Hne' & _).
    destruct ss as [|q ss0]; [done|]. exists q, ss0. split; [done|].
    eapply (piece_starts_first m L th h ns id); try done. intros j s1 s2 H1 _ H2. by apply (Hmax id j). }
  destruct L as [|[id ss] L0]; [by apply Permutation_nil_l in Eb; subst|].
  destruct (Hfirst id ss ltac:(by left)) as (q & ss0 & -> & Hq).
  pose proof HL as ((s & Hs & Hid & _ & Hwf) & Hn & _ & _)%pieces_cons. cbn [fst snd] in *.
  assert (L0 = []) as ->.
  { destruct L0 as [|[i2 ss2] L1]; [done|exfalso].
    destruct (Hfirst i2 ss2 ltac:(right; by left)) as (q2 & ss3 & -> & Hq2). rewrite Hq in Hq2. injection Hq2 as <-.
    rewrite <- Eb in Hnd. assert (E : (id, q :: ss0) = (i2, q :: ss3)).
    { apply (piece_unique _ _ _ _ _ q Hnd); [by left|right; by left|by left|by left]. }
    injection E as -> _. apply Hn. by left. }
  rewrite blocks_cons, app_nil_r in Eb. cbn [snd] in Eb. exists id, s. split; [|split; [done|]].
  - apply map_eq. intros x. destruct (decide (x = id)) as [->|Hx]; [by rewrite lookup_singleton_eq|].
    rewrite lookup_singleton_ne by done. apply eq_None_not_Some. rewrite Hdom. cbn. set_solver.
  - rewrite <- (linked_perm_eq _ _ _ _ (q :: ss0) ns q (sg_linked _ _ _ _ _ _ Hwf) Hl); done.
Qed.
End pieces.

(** C13: joining is complete.  Let the loose blocks and the blocks of the snippets be
    such that a block that links to another has the next height and no two have
    one height; let the snippets be exactly the pieces [L], no loose block among
    them, and the counter of ids have room.  In whatever order the maps are
    visited, [loopGenSnippetChains] returns, and the snippets it leaves hold every
    loose block and every block of the old snippets once each; no snippet ends
    where another begins.  If together they are one linked sequence, one snippet
    is left, and it holds this sequence. *)
Theorem joining_is_complete {B} `{Block B} (P : PoolBlock B -> Prop) orderB orderS
    (bp : blockPool B) (cp : chainPool B) L :
  (forall p q, P p -> P q -> Hash p = PreHash q -> Height q = Height p + 1) ->
  (forall p q, P p -> P q -> Height p = Height q -> Hash p = Hash q) ->
  range_order orderB -> range_order orderS ->
  map_Forall (fun x p => Hash p = x /\ P p) (freeBlocks bp) -> covers P (snippetChains cp) L ->
  (forall p, p ∈ blocks L -> freeBlocks bp !! Hash p = None) -> NoDup (Hash <$> blocks L) ->
  Forall (numbered cp) L.*1 -> 0 <= lastestChainIdx cp ->
  lastestChainIdx cp + Z.of_nat (base.size (freeBlocks bp)) < 2 ^ 31 ->
  exists bp' cp' n L', loopGenSnippetChains orderB orderS bp cp = Ret (bp', cp', n) /\
    covers P (snippetChains cp') L' /\ blocks L' ≡ₚ loose bp ++ blocks L /\
    (forall i j s s', snippetChains cp' !! i = Some s -> snippetChains cp' !! j = Some s' ->
      sn_tailHash s <> sn_headHash s') /\
    (forall th h ns, loose bp ++ blocks L ≡ₚ ns -> linked th h ns -> NoDup ns -> ns <> [] ->
      exists id s, snippetChains cp' = {[id := s]} /\ sn_chainId s = id /\ snippet_wf s ns).
Proof.
  intros Hc Hu HoB HoS Hf Hcov Hd Hnd Hnum H0 Hidx.
  destruct (loopGenSnippetChains_joins P Hc Hu orderB orderS bp cp L) as (bp' & cp' & n & L' & E & Hcov' & Eb & Hmax);
    try done.
  exists bp', cp', n, L'. split_and!; try done. intros th h ns Ens Hl Hnd' Hne.
  apply (pieces_of_run P Hc Hu (snippetChains cp') L' th h ns); try done. by rewrite Eb.
Qed.

(** ** A concrete pool: [t1] and [t2] are loose, [t3] is a snippet. *)
Definition run_block (p : PoolBlock Tblock) : Prop := p ∈ [pb t1; pb t2; pb t3].
Definition loose12 : blockPool Tblock := AddBlock 0 (AddBlock 0 newBlockPool t1) t2.
Definition pool3 : chainPool Tblock := pool_of [snip "p-2" t3] [chain_above "p-1" t0 []].

Lemma joining_is_complete_witness :
  exists bp' cp' id s, loopGenSnippetChains map_to_list map_to_list loose12 pool3 = Ret (bp', cp', 2) /\
    snippetChains cp' = {[id := s]} /\ snippet_wf s [pb t1; pb t2; pb t3].
Proof.
  assert (E : forall Q : PoolBlock Tblock -> Prop, Forall Q [pb t1; pb t2; pb t3] -> forall p, run_block p -> Q p).
  { intros Q F p Hp. rewrite Forall_forall in F. exact (F p Hp). }
  destruct (joining_is_complete run_block map_to_list map_to_list loose12 pool3 [("p-2"%string, [pb t3])])
    as (bp' & cp' & n & L' & Er & _ & _ & _ & Hrun).
  - intros p q Hp Hq. revert p Hp. apply (E (fun p => Hash p = PreHash q -> Height q = Height p + 1)).
    revert q Hq. apply E. repeat constructor; done.
  - intros p q Hp Hq. revert p Hp. apply (E (fun p => Height p = Height q -> Hash p = Hash q)).
    revert q Hq. apply E. repeat constructor; done.
  - apply range_order_map_to_list.
  - apply range_order_map_to_list.
  - intros x p Hx. change (freeBlocks loose12) with (<["c" := pb t2]> (<["b" := pb t1]> (∅ : gmap string (PoolBlock Tblock)))) in Hx.
    unfold run_block.
    apply lookup_insert_Some in Hx as [[<- <-]|[_ [[<- <-]|[_ ?]]%lookup_insert_Some]]; [| |done]; split; (done || set_solver).
  - split.
    + split; [repeat constructor; set_solver| |repeat constructor; unfold run_block; set_solver].
      repeat constructor. exists (snip "p-2" t3). split; [done|]. split; [done|]. split; [done|]. apply snippet_init_wf.
    + intros id. cbn. rewrite list_elem_of_singleton. unfold pool3, pool_of. cbn.
      destruct (decide (id = "p-2"%string)) as [->|Hne]; [by rewrite lookup_insert_eq|].
      rewrite lookup_insert_ne, lookup_empty by done. split; [by intros [? ?]|done].
  - intros p ->%list_elem_of_singleton. reflexivity.
  - repeat constructor; set_solver.
  - repeat constructor. exists 2. split; [vm_compute; split; [reflexivity|discriminate]|reflexivity].
  - vm_compute. discriminate.
  - vm_compute. reflexivity.
  - destruct (Hrun "a"%string 0 [pb t1; pb t2; pb t3]) as (id & s & Es & _ & Hwf).
    + assert (Hl : loose loose12 = [pb t1; pb t2] \/ loose loose12 = [pb t2; pb t1]) by (vm_compute; auto).
      cbn. destruct Hl as [-> | ->]; [done|]. cbn. apply perm_swap.
    + repeat constructor.
    + apply (NoDup_fmap_1 Hash). change (NoDup ["b"; "c"; "d"]%string). by apply (bool_decide_unpack (NoDup ["b"; "c"; "d"]%string)).
    + done.
    + exists bp', cp', id, s. split; [|exact (conj Es Hwf)]. rewrite Er.
      assert (X : match loopGenSnippetChains map_to_list map_to_list loose12 pool3 with
        | Ret (_, _, k) => k = 2 | _ => False end) by (vm_compute; reflexivity).
      rewrite Er in X. by rewrite X.
Defined.
