(* ===== verification/PoolRun.v ===== *)
(** * PoolRun: the block pool as a state machine

    The operations that the loops of a pool run, in any order, between two
    switches of the current chain.  They keep the tree of chains of
    [AppendSpec]: whatever arrives, what is read along a chain only grows at its
    head, whether its blocks lie in memory or on disk. *)
From S2P Require Import Prelude.
From S2P Require Import Common.
From S2P Require Import Links.
From S2P Require Import Verifier.
From S2P Require Import BCPool.
From S2P Require Import BCPoolSpec.
From S2P Require Import AppendSpec.

#[local] Arguments Height : simpl never.
#[local] Arguments Hash : simpl never.
#[local] Arguments PreHash : simpl never.

Section reroot.
Context {B : Type} `{Block B} {W : Type} `{HRw : ChainRw B W, !ChainRwGrow B W}.
Implicit Types (w : W) (cp : chainPool B) (c : forkedChain B) (bs fs : list B).
Implicit Types (l : list (string * list B)) (ms : list (PoolBlock B)).

(** The disk chain changes below the only chain that refers to it, and this chain with it. *)
Lemma forest_reroot chs bs bs' l cur c c' :
  forest chs bs l -> (forall id c, chs !! id = Some c -> fc_referChain c = Some RDisk -> id = cur) ->
  chs !! cur = Some c -> fc_chainId c' = cur -> fc_referChain c' = Some RDisk ->
  (forall fs, (cur, fs) ∈ l -> rooted bs' c' fs) ->
  forest (<[cur := c']> chs) bs' l.
Proof.
  intros F Hroot Hc Hid Href. induction F as [|id0 c0 base fs l F IH Hn Hc0 Hid0 Hr Hb]; intros Hnew; [constructor|].
  assert (F' : forest (<[cur := c']> chs) bs' l) by (apply IH; intros f Hf; apply Hnew; by right).
  destruct (decide (id0 = cur)) as [->|Hne].
  - apply (forest_cons _ _ _ c' bs'); [done|done|apply lookup_insert_eq|done|by left|apply Hnew; by left].
  - destruct Hr as [[Hr _]|Hr]; [destruct Hne; by eapply Hroot|].
    apply (forest_cons _ _ _ c0 base); [done|done|by rewrite lookup_insert_ne|done|by right|done].
Qed.

Lemma forest_fst_inj chs disk l id fs1 fs2 :
  forest chs disk l -> (id, fs1) ∈ l -> (id, fs2) ∈ l -> fs1 = fs2.
Proof.
  intros F%forest_NoDup H1 H2. induction l as [|[i f] l IH]; [by apply elem_of_nil in H1|].
  cbn in F. apply NoDup_cons in F as [Fn F].
  assert (Hno : forall g, (i, g) ∉ l) by (intros g Hg; apply Fn, list_elem_of_fmap; by exists (i, g)).
  apply elem_of_cons in H1 as [[= -> ->]|H1]; apply elem_of_cons in H2 as [E2|H2]; simplify_eq; auto.
  - by apply Hno in H2.
  - by apply Hno in H1.
Qed.

(** The current chain of a tree holds exactly what follows the disk chain. *)
Lemma pt_current_inv w cp bs l :
  pool_tree w cp bs l ->
  exists c ms, chains cp !! current cp = Some c /\ fc_chainId c = current cp /\
    fc_referChain c = Some RDisk /\ fc_tailHeight c = Z.of_nat (length bs) - 1 /\
    fc_tailHash c = (tip "" (-1) bs).1 /\ forked_wf c (fc_tailHash c) ms /\
    (current cp, bs ++ map block ms) ∈ l.
Proof.
  intros T. destruct (pt_current _ _ _ _ T) as (c & fs & Hc & Hin & Href & Ht & Hx).
  destruct (pt_chain _ _ _ _ _ _ T Hin) as (c' & base & Hc' & Hid & Hr & _ & _ & _ & _ & Hb).
  rewrite Hc in Hc'. injection Hc' as <-. rewrite (Hb Href) in Hr.
  destruct Hr as (n & ms & Hn & -> & Ht' & W'). assert (n = length bs) as -> by lia.
  rewrite take_ge in * by lia. exists c, ms. rewrite Hx. by split_and!.
Qed.

Lemma tree_reroot w w' cp bs bs' l c' ms :
  pool_tree w cp bs l -> disk_repr w' bs' -> bs' <> [] ->
  fc_chainId c' = current cp -> fc_referChain c' = Some RDisk ->
  fc_tailHeight c' = Z.of_nat (length bs') - 1 -> fc_tailHash c' = (tip "" (-1) bs').1 ->
  forked_wf c' (fc_tailHash c') ms -> (current cp, bs' ++ map block ms) ∈ l ->
  pool_tree w' (put_chain cp c') bs' l.
Proof.
  intros T Hd Hne Hid Href Ht Hx Hwf Hin.
  destruct (pt_current _ _ _ _ T) as (c & _ & Hc & _).
  split; cbn [put_chain chains current poolId lastestChainIdx]; rewrite ?Hid.
  - done.
  - done.
  - apply (forest_reroot _ bs bs' _ _ c); [apply T|by apply T|done|done|done|].
    intros fs Hfs. rewrite (forest_fst_inj _ _ _ _ _ _ (pt_forest _ _ _ _ T) Hfs Hin).
    exists (length bs'), ms. rewrite take_ge, <- Hx by lia. split; [destruct bs'; [done|cbn; lia]|done].
  - intros id. rewrite <- (pt_dom _ _ _ _ T).
    destruct (decide (id = current cp)) as [->|]; [by rewrite lookup_insert_eq, Hc|by rewrite lookup_insert_ne].
  - exists c', (bs' ++ map block ms). by rewrite lookup_insert_eq.
  - intros id ci [[<- _]|[_ Hi]]%lookup_insert_Some Hr; [done|]. by eapply (pt_root _ _ _ _ T).
  - apply T.
Qed.

(** The tree reads the disk chain only through its blocks. *)
Lemma tree_disk w w' cp bs l : pool_tree w cp bs l -> disk_repr w' bs -> pool_tree w' cp bs l.
Proof. intros T Hd. split; [done|apply T..]. Qed.

(** ** Writing and rolling back *)
Lemma tree_write w w' cp bs l c b ms :
  pool_tree w cp bs l -> chains cp !! current cp = Some c -> forked_wf c (fc_tailHash c) (b :: ms) ->
  Hash b ∉ "" :: (Hash <$> bs) ->
  rw_insertChain w (block b) (forkVersion b) = Ret (w', None) ->
  pool_tree w' (put_chain cp (removeTail c b)) (bs ++ [block b]) l.
Proof.
  intros T Hc Hwf Hf E. destruct (pt_current_inv _ _ _ _ T) as (c' & ms' & Hc' & Hid & Href & Ht & Hx & Hwf' & Hin).
  rewrite Hc in Hc'. injection Hc' as <-.
  assert (ms' = b :: ms) as -> by (eapply at_heights_inj; [apply Hwf'|apply Hwf]).
  pose proof (sg_linked _ _ _ _ _ _ Hwf) as (Hp & Hb & _).
  apply (tree_reroot w w' cp bs _ l _ ms); cbn [removeTail fc_chainId fc_referChain fc_tailHeight fc_tailHash]; try done.
  - eapply disk_rw_insertChain; [apply T|apply T| | |done|exact E].
    + rewrite <- Hx. exact Hp.
    + change (Height (block b)) with (Height b). lia.
  - by destruct bs.
  - rewrite length_app. cbn. lia.
  - by rewrite tip_snoc.
  - by apply (removeTail_wf _ (fc_tailHash c)).
  - by rewrite <- app_assoc.
Qed.


(** A direct insertion next to an empty current chain moves both its ends to the new
    block, as adding the block at its head and writing it would. *)
Lemma direct_eq w w1 val verify msg cp bs c b :
  chains cp !! current cp = Some c -> fc_chainId c = current cp -> forked_wf c (fc_tailHash c) [] ->
  PreHash b = fc_headHash c -> verify w b = Ret (SUCCESS, msg) ->
  rw_insertChain w b val = Ret (w1, None) -> disk_repr w1 (bs ++ [b]) ->
  let p := {| block := b; forkVersion := val |} in
  AddDirectBlock verify w val cp b = Ret (w1,
    put_chain (set_snippets (put_chain cp (addHeads c [p])) (snippetChains cp)) (removeTail (addHeads c [p]) p), None).
Proof.
  intros Hc Hid Hwf Hpre Ev Ew Hd p. unfold AddDirectBlock. rewrite Ev, bind_ret_l, Ew, bind_ret_l.
  unfold disk_head, disk_Head. rewrite (disk_rw_head _ _ _ Hd). cbn [deref]. rewrite !bind_ret_l.
  unfold insertNotify, get_chain. rewrite Hc. cbn [deref]. rewrite !bind_ret_l.
  pose proof (sg_tip _ _ _ _ _ _ Hwf) as Htip. injection Htip as Htip Hhh.
  rewrite decide_True by (rewrite Htip; done). f_equal. f_equal. f_equal. symmetry.
  unfold p, put_chain, set_snippets, removeTail, addHeads, addHead. cbn. rewrite Hid, insert_insert_eq.
  by rewrite (at_heights_nil_inv _ _ (sg_map _ _ _ _ _ _ Hwf)), delete_insert_eq, delete_empty.
Qed.

(** Joining loose blocks leaves the tree alone. *)
Lemma tree_joined w cp cp' bs l n :
  pool_tree w cp bs l -> chains cp' = chains cp -> current cp' = current cp -> idx_moved cp cp' n ->
  lastestChainIdx cp + n < 2 ^ 31 -> pool_tree w cp' bs l.
Proof.
  intros T Ech Ecu [Eid Eidx] Hroom. split; rewrite ?Ech, ?Ecu; try apply T.
  intros id Hid. destruct (pt_ids _ _ _ _ T id Hid) as (k & Hk & ->). exists k. rewrite Eid. split; [lia|done].
Qed.
End reroot.

Lemma tree_rollback {B} `{Block B} {W} `{HRw : ChainRw B W, !ChainRwLaws B W} (w : W) val (cp : chainPool B) bs l k :
  pool_tree w cp bs l -> 0 <= k ->
  exists w' cp', rollback w val cp k = Ret (w', cp', None) /\ snippetChains cp' = snippetChains cp /\
    pool_tree w' cp' (take (S (Z.to_nat k)) bs) l.
Proof.
  intros T Hk. destruct (pt_current_inv _ _ _ _ T) as (c & ms & Hc & Hid & Href & Ht & Hx & Hwf & Hin).
  pose proof (pt_disk _ _ _ _ T) as Hd. pose proof (pt_nonempty _ _ _ _ T) as Hne.
  destruct (rollback_spec w val cp bs c ms k) as (w' & c' & E & Hd' & Hne' & Hid' & Hr' & Hx' & Ht' & Hwf');
    [apply T|apply T|done..|].
  exists w', (put_chain cp c'). split; [done|]. split; [done|].
  eapply (tree_reroot w w'); [done|done|done|congruence|congruence|done|done|done|].
  by rewrite map_app, map_map, map_id, app_assoc, take_drop.
Qed.

(** ** The steps of the loops *)
Section run.
Context {B : Type} `{Block B} {W : Type} `{HRw : ChainRw B W, HG : !ChainRwGrow B W}.
Implicit Types (w : W) (cp : chainPool B) (bp : blockPool B) (c : forkedChain B) (bs fs : list B).
Implicit Types (l : list (string * list B)) (p : PoolBlock B) (b : B).

(** The blocks in play: no negative height, no empty hash, a hash determines the
    hash of the previous block, and a block that links to another has the next
    height. *)
Record consistent (P : B -> Prop) : Prop := {
  co_nonneg b : P b -> 0 <= Height b;
  co_hash b : P b -> Hash b <> ""%string;
  co_prev a b : P a -> P b -> Hash a = Hash b -> PreHash a = PreHash b;
  co_next a b : P a -> P b -> Hash a = PreHash b -> Height b = Height a + 1
}.

Context (P : B -> Prop) (HP : consistent P).

(** No hash occurs twice in a linked sequence. *)
Lemma linked_no_repeat fs i j a b :
  linked "" (-1) fs -> Forall P fs -> (i < j)%nat -> fs !! i = Some a -> fs !! j = Some b -> Hash a <> Hash b.
Proof using HP.
  intros Hl HPf. rewrite Forall_forall in HPf. revert j a b.
  induction i as [|i IH]; intros [|j] a b Hij Hi Hj E; try lia.
  all: destruct (lookup_lt_is_Some_2 fs j) as [b' Hb']; [apply lookup_lt_Some in Hj; lia|].
  all: pose proof (linked_prev _ _ _ _ _ _ Hl Hb' Hj) as Eb.
  all: assert (Hab : PreHash a = PreHash b)
    by (apply (co_prev _ HP); [by eapply HPf, list_elem_of_lookup_2|by eapply HPf, list_elem_of_lookup_2|done]).
  - destruct fs as [|a' fs]; [done|]. injection Hi as ->. destruct Hl as [Ha _].
    apply (co_hash _ HP b'); [by eapply HPf, list_elem_of_lookup_2|congruence].
  - destruct (lookup_lt_is_Some_2 fs i) as [a' Ha']; [apply lookup_lt_Some in Hi; lia|].
    pose proof (linked_prev _ _ _ _ _ _ Hl Ha' Hi) as Ea.
    apply (IH j a' b'); [lia|done|done|congruence].
Qed.

Lemma linked_hashes_nodup fs : linked "" (-1) fs -> Forall P fs -> NoDup ("" :: (Hash <$> fs)).
Proof using HP.
  intros Hl HPf. apply NoDup_cons. split.
  - intros (b & E & Hb)%list_elem_of_fmap. rewrite Forall_forall in HPf. by apply (co_hash _ HP b); [apply HPf|].
  - apply NoDup_alt. intros i j x Hi Hj.
    apply list_lookup_fmap_Some in Hi as (a & -> & Ha). apply list_lookup_fmap_Some in Hj as (b & E & Hb).
    destruct (decide (i = j)) as [|Hne]; [done|]. exfalso.
    destruct (decide (i < j)%nat).
    + by apply (linked_no_repeat fs i j a b).
    + apply (linked_no_repeat fs j i b a); [done|done|lia|done|done|done].
Qed.

(** A state of the pool: the disk chain, the loose blocks, the chains and snippets. *)
Abbreviation pool_state := (W * blockPool B * chainPool B)%type (only parsing).

(** Is there room for [n] more chain ids? *)
Definition room cp (n : nat) : Prop := lastestChainIdx cp + Z.of_nat n < 2 ^ 31.

(** [rb]: the run may roll back. *)
Context (rb : Prop).

Inductive pool_step : pool_state -> pool_state -> Prop :=
| step_add w bp cp val b : P b -> pool_step (w, bp, cp) (w, AddBlock val bp b, cp)
| step_gen w bp cp orderB orderS bp' cp' n :
    range_order orderB -> range_order orderS -> room cp (base.size (freeBlocks bp)) ->
    loopGenSnippetChains orderB orderS bp cp = Ret (bp', cp', n) -> pool_step (w, bp, cp) (w, bp', cp')
| step_append w bp cp val orderS orderC cp' n :
    range_order orderS -> range_order orderC -> room cp (base.size (snippetChains cp)) ->
    loopAppendChains orderS orderC w val cp = Ret (cp', n) -> pool_step (w, bp, cp) (w, bp, cp')
| step_write w bp cp c p w' cp' :
    chains cp !! current cp = Some c -> fc_heightBlocks c !! (fc_tailHeight c + 1) = Some p ->
    writeToChain w cp c p = Ret (w', cp', None) -> pool_step (w, bp, cp) (w', bp, cp')
| step_rollback w bp cp val k w' cp' e :
    rb -> 0 <= k -> rollback w val cp k = Ret (w', cp', e) -> pool_step (w, bp, cp) (w', bp, cp')
| step_direct w bp cp val verify b c w' cp' :
    P b -> chains cp !! current cp = Some c -> fc_headHeight c = fc_tailHeight c ->
    PreHash b = fc_headHash c -> Height b = fc_headHeight c + 1 ->
    AddDirectBlock verify w val cp b = Ret (w', cp', None) -> pool_step (w, bp, cp) (w', bp, cp').

Record pool_inv (x : pool_state) l : Prop := {
  pi_tree : exists bs, pool_tree x.1.1 x.2 bs l;
  pi_play : in_play P l;
  pi_snippets : snippets_good (fun p => P (block p)) (snippetChains x.2);
  pi_free : map_Forall (fun h p => Hash p = h /\ P (block p)) (freeBlocks x.1.2)
}.

(** The blocks of disk and current chain, in play and with hashes of their own. *)
Lemma pt_current_play w cp bs l :
  pool_tree w cp bs l -> in_play P l ->
  exists c ms, chains cp !! current cp = Some c /\ forked_wf c (fc_tailHash c) ms /\
    fc_tailHash c = (tip "" (-1) bs).1 /\ fc_chainId c = current cp /\
    (current cp, bs ++ map block ms) ∈ l /\ NoDup ("" :: (Hash <$> (bs ++ map block ms))).
Proof using HP.
  intros T Hpl. destruct (pt_current_inv _ _ _ _ T) as (c & ms & Hc & Hid & _ & _ & Hx & Hwf & Hin).
  exists c, ms. split_and!; try done. destruct (pt_chain _ _ _ _ _ _ T Hin) as (_ & _ & _ & _ & _ & Hl & _).
  apply linked_hashes_nodup; [done|]. unfold in_play in Hpl. rewrite Forall_forall in Hpl. apply (Hpl _ Hin).
Qed.

Lemma write_inv w cp bs l c p w' cp' :
  pool_tree w cp bs l -> in_play P l -> chains cp !! current cp = Some c ->
  fc_heightBlocks c !! (fc_tailHeight c + 1) = Some p -> writeToChain w cp c p = Ret (w', cp', None) ->
  snippetChains cp' = snippetChains cp /\ pool_tree w' cp' (bs ++ [block p]) l.
Proof using HP.
  intros T Hpl Hc Hp. destruct (pt_current_play _ _ _ _ T Hpl) as (c' & ms & Hc' & Hwf & _ & _ & Hin & Hnd).
  rewrite Hc in Hc'. injection Hc' as <-.
  destruct ms as [|p' ms]; [by rewrite (at_heights_nil_inv _ _ (sg_map _ _ _ _ _ _ Hwf)), lookup_empty in Hp|].
  rewrite (at_heights_head _ _ _ _ (sg_map _ _ _ _ _ _ Hwf)) in Hp. injection Hp as ->.
  unfold writeToChain. intros ([w1 err] & E & Er)%bind_ret_inv.
  destruct err as [err|]; [discriminate|]. injection Er as <- <-. split; [done|].
  apply (tree_write w w1 cp bs l c p ms); [done|done|done| |done].
  rewrite fmap_app in Hnd. cbn in Hnd. set_unfold. apply NoDup_cons in Hnd as [Hn1 Hnd].
  apply NoDup_app in Hnd as (_ & Hn2 & _). intros [E0|E0].
  - apply Hn1. rewrite <- E0. set_solver.
  - apply (Hn2 (Hash p)); set_solver.
Qed.

(** A direct insertion is an addition at the head of the current chain, written at once. *)
Lemma direct_inv w val verify cp bs l c b w' cp' :
  pool_tree w cp bs l -> in_play P l -> P b -> chains cp !! current cp = Some c ->
  fc_headHeight c = fc_tailHeight c -> PreHash b = fc_headHash c -> Height b = fc_headHeight c + 1 ->
  AddDirectBlock verify w val cp b = Ret (w', cp', None) ->
  exists l', snippetChains cp' = snippetChains cp /\ pool_tree w' cp' (bs ++ [b]) l' /\ in_play P l' /\ grown l l'.
Proof using HP.
  intros T Hpl HPb Hc Hemp Hpre Hh E.
  destruct (pt_current_play _ _ _ _ T Hpl) as (c' & ms & Hc' & Hwf & Hx & Hid & Hin & Hnd).
  rewrite Hc in Hc'. injection Hc' as <-.
  assert (ms = []) as -> by (apply length_zero_iff_nil; pose proof (segment_length _ _ _ _ _ _ Hwf); lia).
  pose proof E as E'. unfold AddDirectBlock in E'.
  apply bind_ret_inv in E' as ([r msg] & Ev & E'). destruct r; try discriminate.
  apply bind_ret_inv in E' as ([w1 err] & Ew & E'). destruct err; [discriminate|].
  set (p := {| block := b; forkVersion := val |}).
  destruct (tree_append P w cp bs l (current cp) c (snippet_init "" p) [p] (snippetChains cp)) as (T1 & P1 & G1 & _);
    [done|done|done|apply snippet_init_wf|by repeat constructor|change (Height b - 1 = fc_headHeight c); lia|exact Hpre|].
  set (cp1 := set_snippets _ _) in T1.
  assert (Hc1 : chains cp1 !! current cp1 = Some (addHead c p)).
  { unfold cp1. cbn. by rewrite Hid, lookup_insert_eq. }
  destruct (write_inv w cp1 bs _ (addHead c p) p w1 (put_chain cp1 (removeTail (addHead c p) p)) T1 P1 Hc1)
    as [_ T2].
  { cbn. rewrite <- Hemp, <- Hh. apply lookup_insert_eq. }
  { unfold writeToChain. change (block p) with b. change (forkVersion p) with val. by rewrite Ew. }
  exists (grow (current cp) [p] l).
  pose proof (direct_eq w w1 val verify msg cp bs c b Hc Hid) as Ed. cbv zeta in Ed.
  rewrite Ed in E by (done || apply (pt_disk _ _ _ _ T2)). injection E as <- <-. split_and!; done.
Qed.

(** A run that rolls back needs a disk chain that can. *)
Context (Hrm : rb -> disk_removes B W).

(** One step. *)
Lemma pool_step_inv x x' l : pool_step x x' -> pool_inv x l -> exists l', pool_inv x' l' /\ grown l l'.
Proof using HP Hrm.
  intros St [[bs T] Hpl Hsn Hfr]. destruct St; cbn [fst snd] in *.
  - exists l. split; [|done]. split; [by exists bs|done|done|]. cbn [fst snd]. unfold AddBlock.
    destruct (blockPool_contains bp (Hash b) (Height b)); [done|]. cbn.
    apply map_Forall_insert_2; [|done]. done.
  - destruct (loopGenSnippetChains_spec (fun p => P (block p)) orderB orderS bp cp)
      as (bp1 & cp1 & E & Hf & _ & Hsn' & Ech & Ecu & Emv); try done.
    { intros p q Hp Hq. apply (co_next _ HP (block p) (block q)); done. }
    rewrite E in H3. injection H3 as -> -> _. exists l. split; [|done].
    split; [exists bs|done|done|cbn; by rewrite Hf]. by eapply tree_joined.
  - destruct (loopAppendChains_spec P orderS orderC w val cp bs l (co_nonneg _ HP) (co_prev _ HP))
      as (cp1 & l1 & n1 & E & _ & T' & G & _ & HP' & Hsn' & _); try done.
    rewrite E in H3. injection H3 as -> _. exists l1. split; [|done]. split; [by exists bs|done|done|done].
  - destruct (write_inv _ _ _ _ _ _ _ _ T Hpl H0 H1 H2) as [Esn T']. exists l. split; [|done].
    split; [by eexists|done|cbn; by rewrite Esn|done].
  - destruct (tree_rollback (ChainRwLaws0 := Build_ChainRwLaws _ _ _ _ HG (Hrm H0)) w val cp bs l k T)
      as (w1 & cp1 & E & Esn & T'); [done|].
    rewrite E in H2. injection H2 as -> -> _. exists l. split; [|done].
    split; [by eexists|done|cbn; by rewrite Esn|done].
  - destruct (direct_inv _ _ _ _ _ _ _ _ _ _ T Hpl H0 H1 H2 H3 H4 H5) as (l1 & Esn & T' & HP' & G).
    exists l1. split; [|done]. split; [by eexists|done|cbn; by rewrite Esn|done].
Qed.

Lemma pool_run_inv x x' l : rtc pool_step x x' -> pool_inv x l -> exists l', pool_inv x' l' /\ grown l l'.
Proof using HP Hrm.
  intros R. revert l. induction R as [|x y z St _ IH]; intros l I; [by exists l|].
  destruct (pool_step_inv _ _ _ St I) as (l1 & I1 & G1). destruct (IH l1 I1) as (l2 & I2 & G2).
  exists l2. split; [done|]. by etrans.
Qed.
End run.

(** C9: what is read along a chain only grows.  Take a well formed pool whose chains
    are linked from the first block on disk to their heads.  All blocks in play, on
    disk, in memory and arriving, are consistent: no height is negative, no hash empty,
    a hash determines the previous hash, and a block that names another as its previous
    one has the next height (which the pool does not check).  Let the pool run in any
    order: blocks arrive, are joined into snippets, appended or forked off, written
    to disk, rolled back from it, or inserted directly into an empty current chain.
    If the run rolls back ([rb]), the disk chain must keep the law of removal, which
    the snapshot chain does and an account chain does not.  Then every chain is still there and reads as
    before with blocks added at its head only; disk chain and current chain are one
    linked sequence in which no hash occurs twice; and while there is room for chain
    ids the next joining and appending rounds return. *)
Theorem pool_run_grows {B} `{Block B} {W} `{HRw : ChainRw B W, !ChainRwGrow B W}
    (P : B -> Prop) (rb : Prop) x w bp (cp : chainPool B) l :
  consistent P -> (rb -> disk_removes B W) -> pool_inv P x l -> rtc (pool_step P rb) x (w, bp, cp) ->
  exists l', pool_inv P (w, bp, cp) l' /\ grown l l' /\
    (exists bs c ms, disk_repr w bs /\ chains cp !! current cp = Some c /\ forked_wf c (fc_tailHash c) ms /\
       (current cp, bs ++ map block ms) ∈ l' /\ NoDup (Hash <$> (bs ++ map block ms))) /\
    forall orderB orderS orderC val, range_order orderB -> range_order orderS -> range_order orderC ->
      returns (loopGenSnippetChains orderB orderS bp cp) /\
      (room cp (base.size (snippetChains cp)) -> returns (loopAppendChains orderS orderC w val cp)).
Proof.
  intros HP Hrm I R. destruct (pool_run_inv P HP rb Hrm _ _ _ R I) as (l' & I' & G).
  exists l'. split; [done|]. split; [done|]. destruct I' as [[bs T] Hpl Hsn Hfr]. cbn [fst snd] in *. split.
  - destruct (pt_current_play P HP _ _ _ _ T Hpl) as (c & ms & Hc & Hwf & _ & _ & Hin & Hnd).
    exists bs, c, ms. split; [apply T|]. apply NoDup_cons in Hnd as [_ Hnd]. by split_and!.
  - intros orderB orderS orderC val HoB HoS HoC. split.
    + destruct (loopGenSnippetChains_spec (fun p => P (block p)) orderB orderS bp cp)
        as (bp1 & cp1 & E & _); try done; [|by eexists].
      intros p q Hp Hq. apply (co_next _ HP (block p) (block q)); done.
    + intros Hroom. destruct (loopAppendChains_spec P orderS orderC w val cp bs l' (co_nonneg _ HP) (co_prev _ HP))
        as (cp1 & l1 & n1 & E & _); try done. by eexists.
Qed.

(** A pool that has just been initialised is in such a state. *)
Lemma chainPool_init_tree {B} `{Block B} {W} `{HRw : ChainRw B W, !ChainRwGrow B W} (w : W) (bs : list B) Id :
  disk_repr w bs -> bs <> [] ->
  exists cp, chainPool_init Id w = Ret cp /\ pool_tree w cp bs [(current cp, bs)] /\ snippetChains cp = ∅.
Proof.
  intros Hd Hne. destruct bs as [|b bs _] using rev_ind; [done|].
  pose proof (disk_linked _ _ Hd) as Hl. apply linked_snoc in Hl as (Hl & _ & Hb).
  unfold chainPool_init, disk_head, disk_Head. rewrite (disk_rw_head _ _ _ Hd). cbn [deref genChainId incChainIdx].
  rewrite !bind_ret_l. eexists. split; [reflexivity|]. split; [|done].
  assert (Hh : Height b = Z.of_nat (length (bs ++ [b])) - 1) by (rewrite length_app; cbn; lia).
  split; cbn.
  - done.
  - done.
  - eapply (forest_cons _ _ _ _ (bs ++ [b])); [constructor|set_solver|apply lookup_insert_eq|done|by left|].
    exists (length (bs ++ [b])), []. rewrite take_ge, tip_snoc, app_nil_r by lia. cbn.
    split; [rewrite length_app; cbn; lia|]. split; [done|]. split; [done|].
    split; [done|done|apply at_heights_nil].
  - intros id. rewrite list_elem_of_singleton.
    destruct (decide (id = Id +:+ "-" +:+ Itoa (wrap32 1))) as [->|Hne']; [by rewrite lookup_insert_eq|].
    rewrite lookup_insert_ne, lookup_empty by done. split; [by intros [? ?]|done].
  - eexists _, _. rewrite lookup_insert_eq, tip_snoc. split; [reflexivity|]. split; [by left|done].
  - by intros id c [[<- _]|[_ ?]]%lookup_insert_Some.
  - intros id ->%list_elem_of_singleton. exists 1. split; [|done]. vm_compute. split; [done|discriminate].
Qed.

Lemma chainPool_init_inv {B} `{Block B} {W} `{HRw : ChainRw B W, !ChainRwGrow B W} (P : B -> Prop) (w : W) bs Id :
  disk_repr w bs -> bs <> [] -> Forall P bs ->
  exists cp, chainPool_init Id w = Ret cp /\ pool_inv P (w, newBlockPool, cp) [(current cp, bs)].
Proof.
  intros Hd Hne HP. destruct (chainPool_init_tree w bs Id Hd Hne) as (cp & E & T & Es). exists cp. split; [done|].
  split; [by exists bs|by apply Forall_singleton|cbn; rewrite Es; apply map_Forall_empty|apply map_Forall_empty].
Qed.

(** ** A concrete run

    On a disk with [t0; t1], the block [t2] arrives, becomes a snippet, joins the
    current chain and is written to disk. *)
Lemma consistent_tree0 : consistent in_tree0.
Proof.
  assert (E : forall Q : Tblock -> Prop, Forall Q [t0; t1; t2; t3; u2] -> forall b, in_tree0 b -> Q b).
  { intros Q F b Hb. rewrite Forall_forall in F. exact (F b Hb). }
  split.
  - apply E. by repeat constructor.
  - apply E. by repeat constructor.
  - intros a b Ha Hb. revert a Ha. apply (E (fun a => Hash a = Hash b -> PreHash a = PreHash b)).
    revert b Hb. apply E. repeat constructor; done.
  - intros a b Ha Hb. revert a Ha. apply (E (fun a => Hash a = PreHash b -> Height b = Height a + 1)).
    revert b Hb. apply E. repeat constructor; done.
Qed.

Definition rt (o : outcome (list Tblock * blockPool Tblock * chainPool Tblock)) d := match o with Ret x => x | _ => d end.
Definition mtl {A} (m : gmap string A) := map_to_list m.
Definition run0 : list Tblock * blockPool Tblock * chainPool Tblock := ([t0; t1], newBlockPool, match chainPool_init "p" [t0; t1] with Ret cp => cp | _ => tree0 end).
Definition run1 : list Tblock * blockPool Tblock * chainPool Tblock := (run0.1.1, AddBlock 0 run0.1.2 t2, run0.2).
Definition run2 := rt ('(bp, cp, _) ← loopGenSnippetChains mtl mtl run1.1.2 run1.2; Ret (run1.1.1, bp, cp)) run1.
Definition run3 := rt ('(cp, _) ← loopAppendChains mtl mtl run2.1.1 0 run2.2; Ret (run2.1.1, run2.1.2, cp)) run2.
Definition run4 := rt (c ← get_chain run3.2 (current run3.2); p ← deref (fc_heightBlocks c !! 2) "";
  '(w, cp, _) ← writeToChain run3.1.1 run3.2 c p; Ret (w, run3.1.2, cp)) run3.

Lemma pool_run_grows_witness :
  exists l', pool_inv in_tree0 run4 l' /\ run4.1.1 = [t0; t1; t2] /\ exists fs, ("p-1"%string, fs) ∈ l' /\ exists more, fs = [t0; t1] ++ more.
Proof.
  destruct (chainPool_init_inv in_tree0 [t0; t1] [t0; t1] "p") as (cp & E & I).
  { apply view_0. }
  { done. }
  { repeat constructor; unfold in_tree0; set_solver. }
  assert (Ecp : run0 = ([t0; t1], newBlockPool, cp)) by (unfold run0; by rewrite E).
  rewrite <- Ecp in I. clear E.
  assert (R : rtc (pool_step in_tree0 True) run0 run4).
  { apply (rtc_l _ run0 run1); [apply step_add; unfold in_tree0; set_solver|].
    apply (rtc_l _ run1 run2).
    { eapply (step_gen in_tree0 True _ _ _ mtl mtl); [apply range_order_map_to_list|apply range_order_map_to_list|..];
        vm_compute; reflexivity. }
    apply (rtc_l _ run2 run3).
    { eapply (step_append in_tree0 True _ _ _ 0 mtl mtl); [apply range_order_map_to_list|apply range_order_map_to_list|..];
        vm_compute; reflexivity. }
    apply rtc_once. eapply step_write; vm_compute; reflexivity. }
  destruct (pool_run_grows in_tree0 True run0 run4.1.1 run4.1.2 run4.2 _ consistent_tree0 (fun _ => disk_rw_removeChain) I R) as (l' & I' & G & _).
  exists l'. split; [exact I'|]. split; [vm_compute; reflexivity|].
  destruct (G (current cp) [t0; t1]) as [more Hin]; [by left|].
  exists ([t0; t1] ++ more). split; [|by exists more].
  assert (current cp = "p-1"%string) as <-; [|exact Hin].
  change cp with (([t0; t1], newBlockPool (B := Tblock), cp).2). rewrite <- Ecp. vm_compute. reflexivity.
Defined.

(** ** Outside these steps: a direct insertion next to pending blocks

    When the current chain still holds blocks, a direct insertion makes a new
    current chain and leaves the old one referring to the disk; a later rollback
    takes the blocks it stands on away from there: the chain that held [t0],
    [t1], [t2] can no longer be read at the height of [t1]. *)
Definition direct0 := pool_of [] [chain_above "p-1" t1 [t2]].
Lemma direct_insertion_orphans_chain :
  match AddDirectBlock (fun _ _ => Ret (SUCCESS, ""%string)) [t0; t1] 0 direct0 u2 with
  | Ret (w1, cp1, None) =>
      match rollback w1 0 cp1 0 with
      | Ret (w2, cp2, None) =>
          w2 = [t0] /\
          (c ← get_chain direct0 "p-1"; GetBlock [t0; t1] 0 direct0 c 1) = Ret (Some t1) /\
          (c ← get_chain cp2 "p-1"; GetBlock w2 0 cp2 c 1) = Ret None
      | _ => False
      end
  | _ => False
  end.
Proof. vm_compute. auto. Qed.
