(* ===== verification/PoolChains.v ===== *)
(** * PoolChains: the disk chains behind the pools ([pool/chain.go])

    [snapshotCh] and [accountCh] adapt the block chain to the interface
    [chainRw].  The snapshot chain keeps the interface's laws, so everything
    proved against them holds for the snapshot pool.  The account chain keeps
    those of reading and insertion ([ChainRwGrow]), which is enough for appending
    and writing, but not those of [removeChain]. *)
From S2P Require Import Prelude.
From S2P Require Import Common.
From S2P Require Import Links.
From S2P Require Import Store.
From S2P Require Import Chain.
From S2P Require Import ChainSpec.
From S2P Require Import Reader.
From S2P Require Import BCPool.
From S2P Require Import BCPoolSpec.

Section chains.
Context {St : Type} `{HS : Stack St} {L : Type} `{HL : ChainListener L}.

(** The block chain and the fork version are shared: they travel with the adapter. *)
Record accountCh := mkAccountCh {
  ach_address : string;
  ach_bc : Blockchain.blockchain St L;
  ach_version : Z
}.

Record snapshotCh := mkSnapshotCh {
  sch_bc : Blockchain.blockchain St L;
  sch_version : Z
}.

Definition ach_set (self : accountCh) (bc : Blockchain.blockchain St L) : accountCh :=
  {| ach_address := ach_address self; ach_bc := bc; ach_version := ach_version self |}.
Definition sch_set (self : snapshotCh) (bc : Blockchain.blockchain St L) : snapshotCh :=
  {| sch_bc := bc; sch_version := sch_version self |}.

(** ** Account chains *)
Definition ach_insertChain (self : accountCh) (b : AccountStateBlock) (forkVersion : Z)
    : outcome (accountCh * error) :=
  if decide (forkVersion <> ach_version self) then
    Ret (self, Some ("error fork version. current:" +:+ Itoa (ach_version self) +:+ ", target:" +:+
                     Itoa forkVersion))
  else
    '(bc, e) ← Blockchain.InsertAccountBlock (ach_bc self) (ach_address self) b;
    Ret (ach_set self bc, e).

Definition ach_removeChain (self : accountCh) (b : AccountStateBlock) : outcome (accountCh * error) :=
  '(bc, e) ← Blockchain.RemoveAccountHead (ach_bc self) (ach_address self) b;
  Ret (ach_set self bc, e).

Definition ach_head (self : accountCh) : option AccountStateBlock :=
  fst (reader_HeadAccount (ach_bc self) (ach_address self)).

Definition ach_getBlock (self : accountCh) (height : Z) : outcome (option AccountStateBlock) :=
  if decide (height = -1)
  then Ret (Some (NewAccountBlock (-1) "" "" "" 0 0 0 0 "" SEND "" "" "" (-1)))
  else Ret (reader_GetAccountByHeight (ach_bc self) (ach_address self) height).

Definition findAboveSnapshotHeight (self : accountCh) (height : Z) : outcome (option AccountStateBlock) :=
  reader_FindAccountAboveSnapshotHeight (ach_bc self) (ach_address self) height.

#[export] Instance accountCh_ChainRw : ChainRw AccountStateBlock accountCh := {|
  rw_insertChain := ach_insertChain; rw_removeChain := ach_removeChain;
  rw_head := ach_head; rw_getBlock := ach_getBlock |}.

(** ** The snapshot chain *)
Definition sch_getBlock (self : snapshotCh) (height : Z) : outcome (option SnapshotBlock) :=
  reader_GetSnapshotByHeight (sch_bc self) height.
Definition sch_head (self : snapshotCh) : option SnapshotBlock :=
  fst (reader_HeadSnapshot (sch_bc self)).
Definition sch_insertChain (self : snapshotCh) (b : SnapshotBlock) (forkVersion : Z)
    : outcome (snapshotCh * error) :=
  '(bc, e) ← Blockchain.InsertSnapshotBlock (sch_bc self) b;
  Ret (sch_set self bc, e).
Definition sch_removeChain (self : snapshotCh) (b : SnapshotBlock) : outcome (snapshotCh * error) :=
  let '(bc, e) := Blockchain.RemoveSnapshotHead (sch_bc self) b in
  Ret (sch_set self bc, e).

#[export] Instance snapshotCh_ChainRw : ChainRw SnapshotBlock snapshotCh := {|
  rw_insertChain := sch_insertChain; rw_removeChain := sch_removeChain;
  rw_head := sch_head; rw_getBlock := sch_getBlock |}.

(** The account-side loop of [InsertSnapshotBlock] touches neither the store nor
    the snapshot chain. *)
Lemma snapshot_points_frame (bc bc' : Blockchain.blockchain St L) b accs e :
  Blockchain.snapshot_points bc b accs = Ret (bc', e) ->
  Blockchain.store bc' = Blockchain.store bc /\ Blockchain.sc bc' = Blockchain.sc bc.
Proof.
  revert bc. induction accs as [|a accs IH]; intros bc; cbn [Blockchain.snapshot_points];
    [by intros [= <- _]|].
  destruct (Blockchain.selfAc bc (ah_Addr a)) as [bc1 c] eqn:E.
  pose proof (selfAc_fields bc (ah_Addr a)) as (F1 & F2 & _). rewrite E in F1, F2. cbn in F1, F2.
  intros ([c' err] & _ & Hr)%bind_ret_inv.
  destruct err as [err|]; [injection Hr as <- _; done|].
  apply IH in Hr as [-> ->]. done.
Qed.

Definition sch_repr (w : snapshotCh) (bs : list SnapshotBlock) : Prop :=
  snap_repr "" (Blockchain.store (sch_bc w)) (Blockchain.sc (sch_bc w)) bs.

Definition snapshotCh_ChainRwGrow : ChainRwGrow SnapshotBlock snapshotCh.
Proof.
  refine (Build_ChainRwGrow _ _ _ _ sch_repr _ _ _ _ _).
  - intros w bs R. apply R.
  - intros w bs R. apply R.
  - intros w bs b R. cbn. unfold sch_head. cbn. unfold Blockchain.HeadSnapshot. cbn.
    unfold SnapshotChain.Head. rewrite (sr_head _ _ _ _ R). apply last_snoc.
  - intros w bs h R Hh. cbn. unfold sch_getBlock. cbn.
    unfold Blockchain.GetSnapshotByHeight_, SnapshotChain.GetBlockHeight.
    rewrite decide_False by lia. rewrite (sr_height _ _ _ _ R). by rewrite decide_False by lia.
  - intros w w' bs b v R _ Hp Hh Hf. change (rw_insertChain w b v) with (sch_insertChain w b v).
    unfold sch_insertChain, Blockchain.InsertSnapshotBlock.
    pose proof (insertChain_repr _ _ _ _ b R Hp Hh Hf) as Hr.
    destruct (SnapshotChain.insertChain _ _ b) as [[st' sc'] err]. destruct Hr as [-> Hr].
    intros ([bc' e] & E & [= <- _])%bind_ret_inv.
    apply snapshot_points_frame in E as [E1 E2]. unfold sch_repr. cbn [sch_set sch_bc]. rewrite E1, E2. exact Hr.
Defined.
#[export] Instance snapshotCh_ChainRwLaws : ChainRwLaws SnapshotBlock snapshotCh.
Proof.
  refine (Build_ChainRwLaws _ _ _ _ snapshotCh_ChainRwGrow _).
  intros w bs b R _. change (rw_removeChain w b) with (sch_removeChain w b).
  unfold sch_removeChain, Blockchain.RemoveSnapshotHead.
  pose proof (removeChain_repr _ _ _ _ _ R) as Hr.
  destruct (SnapshotChain.removeChain _ _ b) as [[st' sc'] err]. destruct Hr as [-> Hr].
  eexists. split; [done|]. exact Hr.
Defined.
End chains.
Arguments accountCh St L : clear implicits.
Arguments snapshotCh St L : clear implicits.

(** ** Rolling an account chain back *)
Section account_rollback.
Context {St : Type} `{HS : Stack St} {L : Type} `{HL : ChainListener L}.
Implicit Types (w : accountCh St L) (bs : list AccountStateBlock).

(** The cached chain of the adapter's account. *)
Definition ach_chain w : AccountChain.accountChain St :=
  snd (Blockchain.selfAc (ach_bc w) (ach_address w)).

(** An account chain keeps the laws of reading and insertion. *)
Definition ach_repr w bs : Prop :=
  AccountChain.address (ach_chain w) = ach_address w /\ acc_repr (Blockchain.store (ach_bc w)) (ach_chain w) bs.

#[export] Instance accountCh_ChainRwGrow : ChainRwGrow AccountStateBlock (accountCh St L).
Proof.
  refine (Build_ChainRwGrow _ _ _ _ ach_repr _ _ _ _ _).
  - intros w bs [_ R]. apply R.
  - intros w bs [_ R]. apply R.
  - intros w bs b [_ R]. change (ach_head w = Some b). unfold ach_head.
    cbn [reader_HeadAccount Blockchain_ChainReader]. rewrite HeadAccount_eq. cbn [snd fst].
    unfold AccountChain.Head. fold (ach_chain w). rewrite (ar_head _ _ _ R). apply last_snoc.
  - intros w bs h [Ha R] Hh. change (ach_getBlock w h = Ret (bs !! Z.to_nat h)). unfold ach_getBlock.
    rewrite decide_False by lia. cbn [reader_GetAccountByHeight Blockchain_ChainReader].
    rewrite GetAccountByHeight_eq. unfold AccountChain.GetBlockByHeight. rewrite decide_False by lia.
    fold (ach_chain w). by rewrite (ar_height _ _ _ R), decide_False by lia.
  - intros w w' bs b v [Ha R] _ Hp Hh Hf. change (rw_insertChain w b v) with (ach_insertChain w b v).
    unfold ach_insertChain. case_decide; [done|]. unfold Blockchain.InsertAccountBlock.
    pose proof (selfAc_fields (ach_bc w) (ach_address w)) as (_ & F2 & _).
    unfold ach_repr, ach_chain in *.
    destruct (Blockchain.selfAc (ach_bc w) (ach_address w)) as [bc1 c]. cbn [fst snd] in *.
    rewrite insertChain_eq, F2. destruct (notify_insert _ _ _ b) as [l'| |]; [|done|done].
    rewrite !bind_ret_l. intros [= <-]. cbn [ach_set ach_bc ach_address].
    unfold Blockchain.selfAc. cbn [Blockchain.put_ac Blockchain.ac Blockchain.store].
    rewrite lookup_insert_eq. cbn [snd]. split; [done|]. apply insertChain_acc_repr; try done.
    by apply not_elem_of_cons in Hf as [_ Hf].
Defined.

(** The account's blocks in the store are [bs]; the head pointer is [hd]. *)
Record ach_stored w bs (hd : option AccountStateBlock) : Prop := {
  as_address : AccountChain.address (ach_chain w) = ach_address w;
  as_linked : linked "" (-1) bs;
  as_nodup : NoDup (Hash <$> bs);
  as_head : AccountChain.head (ach_chain w) = hd;
  as_height h : GetAccountByHeight (Blockchain.store (ach_bc w)) (ach_address w) h =
                if decide (h < 0) then None else bs !! Z.to_nat h;
  as_hash b : b ∈ bs -> GetAccountByHash (Blockchain.store (ach_bc w)) (Hash b) = Some b
}.

(** No snapshot point protects a block, and the listener lets every block go. *)
Definition unprotected w (b : AccountStateBlock) : Prop :=
  AccountChain.hasSnapshotPoint (ach_chain w) (Height b) (Hash b) = false.
Definition listener_accepts w : Prop :=
  forall l b, returns (notify_remove (AccountChain.listener (ach_chain w)) l (ach_address w) b).

Lemma ach_removeChain_spec w bs b hd :
  ach_stored w (bs ++ [b]) hd -> unprotected w b -> listener_accepts w ->
  exists w', ach_removeChain w b = Ret (w', None) /\ ach_stored w' bs (Some b) /\
    ach_address w' = ach_address w /\ listener_accepts w' /\
    (forall b', unprotected w b' -> unprotected w' b') /\
    (forall x, GetAccountByHash (Blockchain.store (ach_bc w')) x =
       if decide (Hash b = x) then None else GetAccountByHash (Blockchain.store (ach_bc w)) x).
Proof.
  intros R Hu Hl. unfold ach_removeChain, Blockchain.RemoveAccountHead.
  pose proof (selfAc_fields (ach_bc w) (ach_address w)) as (_ & F2 & F3 & F4).
  unfold unprotected, listener_accepts, ach_chain in *.
  destruct R as [Ra Rl Rn Rh Rg Rx]. unfold ach_chain in *.
  destruct (Blockchain.selfAc (ach_bc w) (ach_address w)) as [bc1 c] eqn:E. cbn [fst snd] in *.
  destruct (Hl (Blockchain.listenerState bc1) b) as [l' El].
  set (a := ach_address w) in *.
  set (st1 := DeleteAccount (Blockchain.store (ach_bc w)) a (mkHashHeight (Hash b) (Height b))).
  set (st2 := SetAccountHead st1 a (Some (mkHashHeight (Hash b) (Height b)))).
  set (st' := if decide (a_BlockType b = RECEIVED) then DeleteSourceHash st2 (SourceHash b) else st2).
  assert (E2 : AccountChain.removeChain (Blockchain.store bc1) c (Blockchain.listenerState bc1) b =
    Ret (st', AccountChain.set_head c (Some b), l', None)).
  { unfold AccountChain.removeChain. rewrite Hu, Ra, F2. fold a. rewrite El, bind_ret_l.
    rewrite (Rx b) by (apply elem_of_app; right; by apply list_elem_of_singleton).
    change (AccountChain.address (AccountChain.set_head c (Some b))) with (AccountChain.address c).
    by rewrite Ra. }
  rewrite E2, !bind_ret_l.
  assert (Gh : forall h, GetAccountByHeight st' a h = GetAccountByHeight st1 a h)
    by (intros h; unfold st'; case_decide; done).
  assert (Gx : forall x, GetAccountByHash st' x = GetAccountByHash st1 x)
    by (intros x; unfold st'; case_decide; done).
  clearbody st'.
  apply linked_snoc in Rl as (Rl & _ & Hh).
  rewrite fmap_app in Rn. apply NoDup_app in Rn as (Rn & Hdis & _).
  eexists. split; [reflexivity|].
  split; [|split; [reflexivity|]].
  - constructor; unfold ach_chain;
      cbn [ach_set ach_bc ach_address Blockchain.put_ac Blockchain.selfAc Blockchain.ac Blockchain.store];
      unfold Blockchain.selfAc; cbn [Blockchain.put_ac Blockchain.ac]; fold a;
      rewrite ?lookup_insert_eq; try done.
    + intros h. rewrite Gh. unfold st1. rewrite GetAccountByHeight_Delete. cbn [hh_Height].
      rewrite Rg. destruct (decide (h = Height b)) as [->|Hne].
      * rewrite decide_True by done. by rewrite decide_False, lookup_ge_None_2 by lia.
      * rewrite decide_False by congruence. case_decide; [done|].
        destruct (decide (Z.to_nat h < length bs)%nat); [by rewrite lookup_app_l|].
        rewrite !lookup_ge_None_2; [done|lia|rewrite length_app; cbn; lia].
    + intros b' Hb'. rewrite Gx. unfold st1. rewrite GetAccountByHash_Delete. cbn [hh_Hash].
      rewrite decide_False; [apply Rx; apply elem_of_app; by left|].
      intros Eq. apply (Hdis (Hash b')); [by apply list_elem_of_fmap_2|].
      rewrite <- Eq. by apply list_elem_of_singleton.
  - unfold ach_set; cbn [ach_bc ach_address]; unfold Blockchain.selfAc;
      cbn [Blockchain.put_ac Blockchain.ac]; fold a; rewrite lookup_insert_eq.
    cbn [snd AccountChain.listener AccountChain.set_head]. split; [done|].
    split; [intros b' Hb'; exact Hb'|]. intros x.
    cbn [Blockchain.put_ac Blockchain.store]. rewrite Gx. unfold st1. apply GetAccountByHash_Delete.
Qed.

Lemma ach_rollback_loop n w val c bs rs hd :
  ach_stored w (bs ++ rs) hd -> length rs = S n ->
  fc_tailHeight c = Z.of_nat (length (bs ++ rs)) - 1 ->
  (forall b, b ∈ rs -> unprotected w b) -> listener_accepts w ->
  exists w' c' b, BCPool.rollback_loop (S n) (fc_tailHeight c) w val c = Ret (w', c', None) /\
    hd_error rs = Some b /\ ach_stored w' bs (Some b) /\ Height b = Z.of_nat (length bs) /\
    fc_tailHeight c' = Z.of_nat (length bs) - 1 /\
    (forall x, GetAccountByHash (Blockchain.store (ach_bc w')) x =
       if decide (x ∈ Hash <$> rs) then None else GetAccountByHash (Blockchain.store (ach_bc w)) x).
Proof.
  revert w c rs hd. induction n as [|n IH]; intros w c rs hd R Hn Hc Hu Hl;
    (destruct rs as [|b rs _] using rev_ind; [done|]);
    rewrite length_app in Hn; cbn in Hn; rewrite app_assoc in R, Hc;
    pose proof (as_linked _ _ _ R) as Hlk; apply linked_snoc in Hlk as (_ & _ & Hb);
    (assert (Hc' : fc_tailHeight c = Z.of_nat (length (bs ++ rs)))
       by (rewrite Hc, (length_app (bs ++ rs)); cbn; lia));
    (assert (Hg : disk_getBlock w val (fc_tailHeight c) = Ret (Some (lift val b)));
       [unfold disk_getBlock; rewrite decide_False by lia;
        change (rw_getBlock w (fc_tailHeight c)) with (ach_getBlock w (fc_tailHeight c));
        unfold ach_getBlock; rewrite decide_False by lia; cbn [reader_GetAccountByHeight Blockchain_ChainReader];
        rewrite GetAccountByHeight_eq; unfold AccountChain.GetBlockByHeight; rewrite decide_False by lia;
        fold (ach_chain w); rewrite (as_address _ _ _ R), (as_height _ _ _ R), decide_False by lia;
        replace (Z.to_nat (fc_tailHeight c)) with (length (bs ++ rs)) by lia;
        by rewrite lookup_app_r, Nat.sub_diag by lia|]);
    cbn [BCPool.rollback_loop]; rewrite Hg, bind_ret_l; cbn [deref]; rewrite bind_ret_l;
    change (rw_removeChain w (block (lift val b))) with (ach_removeChain w b);
    (destruct (ach_removeChain_spec _ _ _ _ R (Hu b ltac:(set_solver)) Hl) as (w1 & E & R1 & Ea & Hl1 & Hu1 & Hx1));
    rewrite E, bind_ret_l; change (reset val (lift val b)) with (lift val b);
    (assert (Hhb : Height (lift val b) = fc_tailHeight c) by (change (Height (lift val b)) with (Height b); lia)).
  - destruct rs; [|cbn in Hn; lia]. rewrite app_nil_r in *.
    exists w1, (addTail c (lift val b)), b. split; [done|]. split; [done|]. split; [done|]. split; [lia|]. split.
    + cbn [addTail fc_tailHeight]. lia.
    + intros x. rewrite Hx1. cbn [app fmap list_fmap]. apply decide_ext. rewrite list_elem_of_singleton. naive_solver.
  - destruct (IH w1 (addTail c (lift val b)) rs (Some b)) as (w' & c' & b' & E' & H').
    + done.
    + lia.
    + cbn [addTail fc_tailHeight]. lia.
    + intros b' Hb'. apply Hu1, Hu. set_solver.
    + done.
    + destruct H' as (Hd & R' & Hh' & Ht' & Hx'). exists w', c', b'.
      split; [rewrite <- E'; cbn [addTail fc_tailHeight]; by rewrite Hhb|]. split; [by destruct rs|].
      split; [done|]. split; [done|]. split; [done|]. intros x. rewrite Hx', Hx1, fmap_app. cbn [fmap list_fmap].
      repeat case_decide; set_solver.
Qed.
End account_rollback.

(** C39: an account pool can never be rolled back.  Let the account chain hold the
    blocks [bs ++ rs], [rs] not empty, none of them protected by a snapshot point, and let the
    listener let them go.  Then [rollback] to the last block of [bs] takes all of [rs], and
    nothing else, out of the store, and fails: the head it reads back is the first
    block of [rs], the last one it removed, which is stored no longer, and not the
    last block of [bs], because [removeChain] looks the new head up under the wrong
    hash.  The current chain of the pool then ends at [bs], so that head is above it. *)
Theorem account_rollback_always_fails {St} `{Stack St} {L} `{ChainListener L}
    (w : accountCh St L) val (cp : chainPool AccountStateBlock) c bs rs hd :
  ach_stored w (bs ++ rs) hd -> rs <> [] ->
  (forall b, b ∈ rs -> unprotected w b) -> listener_accepts w ->
  chains cp !! current cp = Some c -> fc_tailHeight c = Z.of_nat (length (bs ++ rs)) - 1 ->
  exists w' cp' r c', rollback w val cp (Z.of_nat (length bs) - 1) = Ret (w', cp', Some "rollback fail.") /\
    ach_stored w' bs (Some r) /\
    (forall x, GetAccountByHash (Blockchain.store (ach_bc w')) x =
       if decide (x ∈ Hash <$> rs) then None else GetAccountByHash (Blockchain.store (ach_bc w)) x) /\
    hd_error rs = Some r /\ ach_head w' = Some r /\ Height r = Z.of_nat (length bs) /\
    cp' = put_chain cp c' /\ fc_tailHeight c' = Z.of_nat (length bs) - 1.
Proof.
  intros R Hne Hu Hl Hc Hh. destruct rs as [|r rs]; [done|].
  destruct (ach_rollback_loop (length rs) w val c bs (r :: rs) hd R eq_refl Hh Hu Hl)
    as (w' & c' & b & E & Hd & R' & Hb & Ht & Hx).
  assert (Hhd : ach_head w' = Some b).
  { unfold ach_head. cbn [reader_HeadAccount Blockchain_ChainReader]. rewrite HeadAccount_eq. apply (as_head _ _ _ R'). }
  unfold rollback, get_chain. rewrite Hc. cbn [deref]. rewrite bind_ret_l.
  replace (Z.to_nat (fc_tailHeight c - (Z.of_nat (length bs) - 1))) with (S (length rs))
    by (rewrite Hh, length_app; cbn; lia).
  rewrite E, bind_ret_l. unfold disk_head, disk_Head.
  change (rw_head w') with (ach_head w'). rewrite Hhd, !bind_ret_l. cbn [deref]. rewrite bind_ret_l.
  rewrite decide_True by (left; lia). by exists w', (put_chain cp c'), b, c'.
Qed.

(** "bob"'s one block on disk, and a pool that starts above it. *)
Definition bob_ch : accountCh (list SnapshotPoint) unit :=
  mkAccountCh "bob" (Blockchain.mk {["bob" := bob_chain]}
    (SnapshotChain.mk (Some SnapshotChain.genesisSnapshot)) bob_store DefaultChainListener tt) 0.
Definition bob_pool : chainPool AccountStateBlock :=
  mkChainPool "p" 1 "p-1" ∅ {["p-1" := forked_init "p-1" (Some RDisk) bob_block]}.

Lemma bob_stored : ach_stored bob_ch ([] ++ [bob_block]) (Some bob_block).
Proof.
  pose proof bob_repr as R. constructor.
  - reflexivity.
  - apply R.
  - apply R.
  - reflexivity.
  - intros h. apply (ar_height _ _ _ R h).
  - intros b Hb. by apply (ar_hash _ _ _ R b).
Qed.

Lemma account_rollback_always_fails_witness :
  exists w' cp', rollback bob_ch 0 bob_pool (-1) = Ret (w', cp', Some "rollback fail.") /\
    ach_stored w' [] (Some bob_block) /\ ach_head w' = Some bob_block /\
    GetAccountByHash (Blockchain.store (ach_bc w')) "h1" = None.
Proof.
  destruct (account_rollback_always_fails bob_ch 0 bob_pool
           (forked_init "p-1" (Some RDisk) bob_block) [] [bob_block] (Some bob_block))
    as (w' & cp' & r & c' & E & R & Hx & [= <-] & Hh & _).
  - exact bob_stored.
  - discriminate.
  - intros b Hb. reflexivity.
  - intros l b. exists l. reflexivity.
  - reflexivity.
  - reflexivity.
  - exists w', cp'. split; [exact E|]. split; [exact R|]. split; [exact Hh|]. rewrite Hx. reflexivity.
Defined.
