(* ===== verification/Pools.v ===== *)
(** * Pools: the account pools, the snapshot pool and the pool of pools

    [pool/account_pool.go], [pool/snapshot_pool.go], [pool/pool.go] and
    [pool/fetcher.go].  The state is one record: the snapshot pool, the account
    pools created so far, the block chain and the fork version they share, and
    the requests handed to the fetcher, oldest first.  Each operation runs as one
    step, which is the grain of this model and not something the locks ensure:
    [AddDirectBlock] and the insertion of an account pool hold [rMu] of the chain
    pool, [Compact] holds [compactLock], and these share none.  How the
    goroutines of the pools start and end is [PoolLife]. *)
From S2P Require Import Prelude.
From S2P Require Import Common.
From S2P Require Import Store.
From S2P Require Import Chain.
From S2P Require Import Reader.
From S2P Require Import Verifier.
From S2P Require Import BCPool.
From S2P Require Import PoolChains.
From S2P Require Import Sync.

Definition Millisecond : Z := 1000000.

Record accountPool := mkAccountPool {
  ap_blockpool : blockPool AccountStateBlock;
  ap_chainpool : chainPool AccountStateBlock;
  ap_verifyTask : option Task;
  ap_loopTime : Z
}.

Record snapshotPool := mkSnapshotPool {
  sp_blockpool : blockPool SnapshotBlock;
  sp_chainpool : chainPool SnapshotBlock
}.

Definition ap_set_chainpool (p : accountPool) (cp : chainPool AccountStateBlock) : accountPool :=
  {| ap_blockpool := ap_blockpool p; ap_chainpool := cp; ap_verifyTask := ap_verifyTask p;
     ap_loopTime := ap_loopTime p |}.
Definition ap_set_blockpool (p : accountPool) (bp : blockPool AccountStateBlock) : accountPool :=
  {| ap_blockpool := bp; ap_chainpool := ap_chainpool p; ap_verifyTask := ap_verifyTask p;
     ap_loopTime := ap_loopTime p |}.
Definition ap_set_task (p : accountPool) (t : option Task) : accountPool :=
  {| ap_blockpool := ap_blockpool p; ap_chainpool := ap_chainpool p; ap_verifyTask := t;
     ap_loopTime := ap_loopTime p |}.
Definition ap_set_loopTime (p : accountPool) (t : Z) : accountPool :=
  {| ap_blockpool := ap_blockpool p; ap_chainpool := ap_chainpool p; ap_verifyTask := ap_verifyTask p;
     ap_loopTime := t |}.

Section pools.
Context {St : Type} `{Stack St} {L : Type} `{ChainListener L}.

Record pool := mkPool {
  pendingSc : snapshotPool;
  pendingAc : gmap string accountPool;
  bc : Blockchain.blockchain St L;
  version : Version.Version;
  fetched : list FetchRequest
}.

Definition val (p : pool) : Z := Version.Val (version p).

Definition set_bc (p : pool) (b : Blockchain.blockchain St L) : pool :=
  {| pendingSc := pendingSc p; pendingAc := pendingAc p; bc := b; version := version p;
     fetched := fetched p |}.
Definition set_ac (p : pool) (addr : string) (a : accountPool) : pool :=
  {| pendingSc := pendingSc p; pendingAc := <[addr := a]> (pendingAc p); bc := bc p;
     version := version p; fetched := fetched p |}.
Definition set_sc (p : pool) (s : snapshotPool) : pool :=
  {| pendingSc := s; pendingAc := pendingAc p; bc := bc p; version := version p;
     fetched := fetched p |}.
Definition inc_version (p : pool) : pool :=
  {| pendingSc := pendingSc p; pendingAc := pendingAc p; bc := bc p;
     version := Version.Inc (version p); fetched := fetched p |}.
Definition Fetch (p : pool) (reqs : list FetchRequest) : pool :=
  {| pendingSc := pendingSc p; pendingAc := pendingAc p; bc := bc p; version := version p;
     fetched := fetched p ++ reqs |}.

Definition set_sp_chainpool (p : pool) (cp : chainPool SnapshotBlock) : pool :=
  set_sc p {| sp_blockpool := sp_blockpool (pendingSc p); sp_chainpool := cp |}.

(** [fetcher.fetch]: the requests of the pool of [address] ("" for the snapshot pool). *)
Definition fetch_request (address : string) (r : HashHeight * Z) : FetchRequest :=
  {| fr_Chain := address; fr_Height := hh_Height (fst r); fr_Hash := hh_Hash (fst r);
     fr_PrevCnt := snd r |}.
Definition fetch (p : pool) (address : string) (reqs : list (HashHeight * Z)) : pool :=
  Fetch p (map (fetch_request address) reqs).

(** The disk chains of the pools. *)
Definition ach (p : pool) (addr : string) : accountCh St L := mkAccountCh addr (bc p) (val p).
Definition sch (p : pool) : snapshotCh St L := mkSnapshotCh (bc p) (val p).

(** The orders in which maps are visited, and the time of the operation. *)
Context (order : forall A, gmap string A -> list (string * A)) (now : Z).
Arguments order {A} _.

Definition NewPool_Init (b : Blockchain.blockchain St L) : outcome pool :=
  cp ← chainPool_init "snapshotPool" (mkSnapshotCh b 0);
  Ret {| pendingSc := {| sp_blockpool := newBlockPool; sp_chainpool := cp |}; pendingAc := ∅;
         bc := b; version := {| Version.version := 0 |}; fetched := [] |}.

(** [selfPendingAc]: the pool of an account, created on first use. *)
Definition selfPendingAc (p : pool) (addr : string) : outcome (pool * accountPool) :=
  match pendingAc p !! addr with
  | Some a => Ret (p, a)
  | None =>
      cp ← chainPool_init ("accountChainPool-" +:+ addr) (ach p addr);
      let a := {| ap_blockpool := newBlockPool; ap_chainpool := cp; ap_verifyTask := None;
                  ap_loopTime := now |} in
      Ret (set_ac p addr a, a)
  end.

(** [Info]: the sizes of a pool, the snapshot pool for the empty id. *)
Definition info_of {B} (bp : blockPool B) (cp : chainPool B) : outcome string :=
  cur ← get_chain cp (current cp);
  Ret ("freeSize:" +:+ Itoa (Z.of_nat (base.size (freeBlocks bp))) +:+
       ", compoundSize:" +:+ Itoa (Z.of_nat (base.size (compoundBlocks bp))) +:+
       ", snippetSize:" +:+ Itoa (Z.of_nat (base.size (snippetChains cp))) +:+
       ", currentLen:" +:+ Itoa (size cur) +:+
       ", chainSize:" +:+ Itoa (Z.of_nat (base.size (chains cp)))).
Definition Info (p : pool) (id : string) : outcome (pool * string) :=
  if decide (id = "") then
    s ← info_of (sp_blockpool (pendingSc p)) (sp_chainpool (pendingSc p));
    Ret (p, s)
  else
    '(p, a) ← selfPendingAc p id;
    s ← info_of (ap_blockpool a) (ap_chainpool a);
    Ret (p, s).

(** ** Verification *)
Definition verifyAccount (p : pool) (b : AccountStateBlock)
    : outcome AccountVerifier.AccountBlockVerifyStat :=
  AccountVerifier.VerifyReferred (val p) now (bc p) b.
Definition verifySnapshotBlock (p : pool) (b : SnapshotBlock) : SnapshotVerifier.SnapshotBlockVerifyStat :=
  SnapshotVerifier.VerifyReferred (val p) now (bc p) b.

(** ** Adding blocks ([AddSnapshotBlock], [AddDirectSnapshotBlock], ...) *)
Definition AddSnapshotBlock (p : pool) (b : SnapshotBlock) : pool * error :=
  (set_sc p {| sp_blockpool := AddBlock (val p) (sp_blockpool (pendingSc p)) b;
               sp_chainpool := sp_chainpool (pendingSc p) |}, None).

Definition AddDirectSnapshotBlock (p : pool) (b : SnapshotBlock) : outcome (pool * error) :=
  '(w, cp, e) ← AddDirectBlock (B := SnapshotBlock) (W := snapshotCh St L)
    (fun w b =>
       let stat := SnapshotVerifier.VerifyReferred (val p) now (sch_bc w) b in
       Ret (SnapshotVerifier.VerifyResult_ stat, SnapshotVerifier.ErrMsg stat))
    (sch p) (val p) (sp_chainpool (pendingSc p)) b;
  Ret (set_sp_chainpool (set_bc p (sch_bc w)) cp, e).

Definition AddAccountBlock (p : pool) (address : string) (b : AccountStateBlock) : outcome (pool * error) :=
  '(p, a) ← selfPendingAc p address;
  Ret (set_ac p address (ap_set_blockpool a (AddBlock (val p) (ap_blockpool a) b)), None).

Definition AddDirectAccountBlock (p : pool) (address : string) (b : AccountStateBlock)
    : outcome (pool * error) :=
  '(p, a) ← selfPendingAc p address;
  '(w, cp, e) ← AddDirectBlock (B := AccountStateBlock) (W := accountCh St L)
    (fun w b =>
       stat ← AccountVerifier.VerifyReferred (val p) now (ach_bc w) b;
       Ret (AccountVerifier.VerifyResult_ stat, AccountVerifier.ErrMsg stat))
    (ach p address) (val p) (ap_chainpool a) b;
  Ret (set_ac (set_bc p (ach_bc w)) address (ap_set_chainpool a cp), e).

(** ** Account pools *)

(** The loop of [accountPool.TryRollback]: [n] heights are left, the next one is [i]. *)
Fixpoint TryRollback_loop (n : nat) (i : Z) (w : accountCh St L) (v : Z) : outcome (list AccountStateBlock) :=
  match n with
  | O => Ret []
  | S n =>
      b ← disk_getBlock w v i;
      bs ← TryRollback_loop n (i - 1) w v;
      Ret (match b with
           | Some b => if decide (a_BlockType (block b) = SEND) then block b :: bs else bs
           | None => bs
           end)
  end.

(** The send blocks above the rollback point, or an error when the point is not
    on the disk chain. *)
Definition TryRollback (w : accountCh St L) (v : Z) (rollbackHeight : Z) (rollbackHash : string)
    : outcome (list AccountStateBlock * error) :=
  b ← disk_getBlock w v rollbackHeight;
  if (match b with Some b => bool_decide (Hash (block b) = rollbackHash) | None => false end) then
    head ← (disk_head w : outcome AccountStateBlock);
    bs ← TryRollback_loop (Z.to_nat (Height head - rollbackHeight)) (Height head) w v;
    Ret (bs, None)
  else Ret ([], Some "error rollback cmd.").

Definition FindRollbackPointByReferSnapshot (w : accountCh St L) (snapshotHeight : Z)
    (snapshotHash : string) : outcome (bool * option AccountStateBlock * error) :=
  head ← (disk_head w : outcome AccountStateBlock);
  if decide (a_SnapshotHeight head < snapshotHeight) then Ret (false, None, None)
  else
    accountBlock ← findAboveSnapshotHeight w snapshotHeight;
    Ret (true, accountBlock, None).

(** The chain that holds the block and the fork point with the current chain. *)
Definition FindRollbackPointForAccountHashH (p : pool) (addr : string) (a : accountPool) (height : Z)
    (hash : string)
    : outcome (pool * (bool * option AccountStateBlock * option (forkedChain AccountStateBlock) * error)) :=
  let cp := ap_chainpool a in
  '(c, reqs) ← whichChain order (ach p addr) (val p) cp height hash;
  let p := fetch p addr reqs in
  match c with
  | None => Ret (p, (false, None, None, None))
  | Some c =>
      if decide (fc_chainId c = current cp) then Ret (p, (false, None, None, None))
      else
        cur ← get_chain cp (current cp);
        '(_, forkPoint, err) ← getForkPointByChains (ach p addr) (val p) cp c cur;
        match err with
        | Some err => Ret (p, (false, None, None, Some err))
        | None =>
            forkPoint ← deref forkPoint "nil dereference";
            Ret (p, (true, Some forkPoint, Some c, None))
        end
  end.

(** [Compact]; its compact lock is free when it runs. *)
Definition Compact (p : pool) (addr : string) (a : accountPool) : outcome (pool * Z) :=
  if decide (base.size (freeBlocks (ap_blockpool a)) = 0)%nat then Ret (p, 0)
  else if decide (ap_loopTime a + 200 * Millisecond < now) then
    let a := ap_set_loopTime a now in
    '(bp, cp, n1) ← loopGenSnippetChains order order (ap_blockpool a) (ap_chainpool a);
    '(cp, n2) ← loopAppendChains order order (ach p addr) (val p) cp;
    '(reqs, n3) ← loopFetchForSnippets order cp;
    let p := fetch p addr reqs in
    Ret (set_ac p addr (ap_set_chainpool (ap_set_blockpool a bp) cp), n1 + n2 + n3)
  else Ret (p, 0).

(** The loop of [tryInsert]: heights [i], ... of the current chain, [n] of them.
    A block is verified, and written if it is the next one; the fork version does
    not change within the step. *)
Fixpoint tryInsert_loop (n : nat) (i : Z) (p : pool) (addr : string) (cp : chainPool AccountStateBlock)
    : outcome (pool * chainPool AccountStateBlock * Task) :=
  match n with
  | O => Ret (p, cp, NewSuccessTask)
  | S n =>
      cur ← get_chain cp (current cp);
      wrapper ← deref (fc_heightBlocks cur !! i) "nil dereference";
      let wrapper := reset (val p) wrapper in
      let cur := {| fc_heightBlocks := <[i := wrapper]> (fc_heightBlocks cur);
                    fc_headHeight := fc_headHeight cur; fc_tailHeight := fc_tailHeight cur;
                    fc_chainId := fc_chainId cur; fc_headHash := fc_headHash cur;
                    fc_tailHash := fc_tailHash cur; fc_referChain := fc_referChain cur |} in
      let cp := put_chain cp cur in
      let b := block wrapper in
      stat ← verifyAccount p b;
      if negb (checkForkVersion (val p) wrapper) then Ret (p, cp, NewSuccessTask)
      else
        match AccountVerifier.VerifyResult_ stat with
        | PENDING =>
            task ← deref (AccountVerifier.Task_ stat) "nil dereference";
            Ret (p, cp, task)
        | FAIL => Ret (p, cp, NewFailTask now)
        | SUCCESS =>
            if decide (Height b = fc_tailHeight cur + 1) then
              '(w, cp, err) ← writeToChain (ach p addr) cp cur wrapper;
              let p := set_bc p (ach_bc w) in
              match err with
              | Some _ => Ret (p, cp, NewFailTask now)
              | None => tryInsert_loop n (i + 1) p addr cp
              end
            else Ret (p, cp, NewSuccessTask)
        end
  end.

Definition tryInsert_ (p : pool) (addr : string) (cp : chainPool AccountStateBlock)
    : outcome (pool * chainPool AccountStateBlock * Task) :=
  cur ← get_chain cp (current cp);
  tryInsert_loop (Z.to_nat (fc_headHeight cur - fc_tailHeight cur)) (fc_tailHeight cur + 1) p addr cp.

(** [TryInsert]: nothing to do, still waiting for the last task, or an attempt. *)
Definition TryInsert (p : pool) (addr : string) (a : accountPool) : outcome (pool * option Task) :=
  cur ← get_chain (ap_chainpool a) (current (ap_chainpool a));
  if decide (size cur <= 0) then Ret (p, None)
  else
    let '(t, waiting) :=
      match ap_verifyTask a with
      | None => (None, false)
      | Some t => let '(t, d) := Task_Done (bc p) (val p) now t in (Some t, negb d)
      end in
    let a := ap_set_task a t in
    if (waiting : bool) then Ret (set_ac p addr a, None)
    else
      '(p, cp, task) ← tryInsert_ p addr (ap_chainpool a);
      Ret (set_ac p addr (ap_set_task (ap_set_chainpool a cp) (Some task)), Some task).

(** ** Rolling accounts back *)

(** [canAdd]: no point for the account yet, or a higher one. *)
Definition canAdd (hs : gmap string AccountHashH) (h : AccountHashH) : bool :=
  match hs !! ah_Addr h with
  | None => true
  | Some hashH => bool_decide (ah_Height h < ah_Height hashH)
  end.
Definition addWaitRollback (hs : gmap string AccountHashH) (h : AccountHashH) : gmap string AccountHashH :=
  match hs !! ah_Addr h with
  | None => <[ah_Addr h := h]> hs
  | Some hashH => if decide (ah_Height hashH < ah_Height h) then <[ah_Addr h := h]> hs else hs
  end.

(** The first loop of a round, over the tasks in their visiting order: every task
    is removed. *)
Fixpoint wait_tasks (p : pool) (waitRollback : gmap string AccountHashH) (tasks : list AccountHashH)
    (sendBlocks : list AccountStateBlock)
    : outcome (pool * gmap string AccountHashH * list AccountStateBlock) :=
  match tasks with
  | [] => Ret (p, waitRollback, sendBlocks)
  | v :: tasks =>
      let waitRollback := if canAdd waitRollback v then <[ah_Addr v := v]> waitRollback else waitRollback in
      let waitRollback := addWaitRollback waitRollback v in
      '(p, a) ← selfPendingAc p (ah_Addr v);
      '(tmpBlocks, err) ← TryRollback (ach p (ah_Addr v)) (val p) (ah_Height v) (ah_Hash v);
      wait_tasks p waitRollback tasks
        (match err with None => sendBlocks ++ tmpBlocks | Some _ => sendBlocks end)
  end.

(** The second loop: the receive block of every send block becomes a task.  A send
    that has not been received is a nil dereference. *)
Fixpoint wait_sends (p : pool) (tasks : gmap string AccountHashH) (sendBlocks : list AccountStateBlock)
    : outcome (gmap string AccountHashH) :=
  match sendBlocks with
  | [] => Ret tasks
  | v :: sendBlocks =>
      req ← reader_GetAccountBySourceHash (bc p) (To v) (Hash v);
      req ← deref req "nil dereference";
      let h := {| ah_Addr := Signer req; ah_Hash := Hash req; ah_Height := Height req |} in
      wait_sends p (if canAdd tasks h then <[ah_Addr h := h]> tasks else tasks) sendBlocks
  end.

Fixpoint getWaitRollbackAccounts_loop (fuel : nat) (p : pool) (waitRollback tasks : gmap string AccountHashH)
    : outcome (pool * gmap string AccountHashH) :=
  match fuel with
  | O => Diverge
  | S fuel =>
      '(p, waitRollback, sendBlocks) ← wait_tasks p waitRollback (snd <$> order tasks) [];
      tasks ← wait_sends p ∅ sendBlocks;
      if decide (base.size tasks = 0)%nat then Ret (p, waitRollback)
      else getWaitRollbackAccounts_loop fuel p waitRollback tasks
  end.
Definition getWaitRollbackAccounts (fuel : nat) (p : pool) (tasks : gmap string AccountHashH)
    : outcome (pool * gmap string AccountHashH) :=
  getWaitRollbackAccounts_loop fuel p ∅ tasks.

(** [Rollback] of the pool of one account. *)
Definition rollbackAccount (p : pool) (v : AccountHashH) : outcome (pool * error) :=
  '(p, a) ← selfPendingAc p (ah_Addr v);
  '(w, cp, e) ← Rollback (ach p (ah_Addr v)) (val p) (ap_chainpool a) (ah_Height v) (ah_Hash v);
  Ret (set_ac (set_bc p (ach_bc w)) (ah_Addr v) (ap_set_chainpool a cp), e).

(** Roll accounts back one after the other; [stop]: an error ends the loop. *)
Fixpoint rollbackAccounts (stop : bool) (p : pool) (vs : list AccountHashH) : outcome (pool * error) :=
  match vs with
  | [] => Ret (p, None)
  | v :: vs =>
      '(p, e) ← rollbackAccount p v;
      match e, stop with
      | Some e, true => Ret (p, Some e)
      | _, _ => rollbackAccounts stop p vs
      end
  end.

Definition fetchAccount (p : pool) (h : AccountHashH) : pool :=
  Fetch p [{| fr_Chain := ah_Addr h; fr_Height := ah_Height h; fr_Hash := ah_Hash h; fr_PrevCnt := 5 |}].

Definition PendingAccountTo (p : pool) (h : AccountHashH) : outcome (pool * error) :=
  '(p, this) ← selfPendingAc p (ah_Addr h);
  let inChain := FindInChain (ap_chainpool this) (ah_Hash h) (ah_Height h) in
  Ret (if negb inChain then fetchAccount p h else p, None).

(** [ForkAccountTo]: switch an account to the chain that holds [h]. *)
Definition ForkAccountTo (fuel : nat) (p : pool) (h : AccountHashH) : outcome (pool * error) :=
  '(p, this) ← selfPendingAc p (ah_Addr h);
  let inChain := FindInChain (ap_chainpool this) (ah_Hash h) (ah_Height h) in
  if negb inChain then Ret (fetchAccount p h, None)
  else
    '(p, (ok, b, chain, err)) ← FindRollbackPointForAccountHashH p (ah_Addr h) this (ah_Height h) (ah_Hash h);
    if negb ok then Ret (p, None)
    else
      b ← deref b "nil dereference";
      let tasks := {[ah_Addr h := NewAccountHashH (ah_Addr h) (Hash b) (Height b)]} in
      '(p, waitRollback) ← getWaitRollbackAccounts fuel p tasks;
      '(p, _) ← rollbackAccounts false p (snd <$> order waitRollback);
      '(p, this) ← selfPendingAc p (ah_Addr h);
      chain ← deref chain "nil dereference";
      chain ← get_chain (ap_chainpool this) (fc_chainId chain);
      '(cp, err) ← currentModifyToChain (ach p (ah_Addr h)) (val p) (ap_chainpool this) chain;
      Ret (set_ac p (ah_Addr h) (ap_set_chainpool this cp), err).

Fixpoint forkAccountsTo (fuel : nat) (p : pool) (vs : list AccountHashH) : outcome pool :=
  match vs with
  | [] => Ret p
  | v :: vs => '(p, _) ← ForkAccountTo fuel p v; forkAccountsTo fuel p vs
  end.

(** The range over the account pools in [ForkAccounts]. *)
Fixpoint forkAccounts_tasks (p : pool) (forkPoint : SnapshotBlock) (ks : list string)
    (tasks : gmap string AccountHashH) : outcome (gmap string AccountHashH) :=
  match ks with
  | [] => Ret tasks
  | k :: ks =>
      '(ok, b, err) ← FindRollbackPointByReferSnapshot (ach p k) (Height forkPoint) (Hash forkPoint);
      if (ok : bool) then
        b ← deref b "nil dereference";
        let h := NewAccountHashH k (Hash b) (Height b) in
        forkAccounts_tasks p forkPoint ks (<[ah_Addr h := h]> tasks)
      else forkAccounts_tasks p forkPoint ks tasks
  end.

Definition ForkAccounts (fuel : nat) (p : pool) (keyPoint forkPoint : SnapshotBlock) : outcome (pool * error) :=
  tasks ← forkAccounts_tasks p forkPoint (fst <$> order (pendingAc p)) ∅;
  '(p, waitRollbackAccounts) ← getWaitRollbackAccounts fuel p tasks;
  '(p, e) ← rollbackAccounts true p (snd <$> order waitRollbackAccounts);
  match e with
  | Some e => Ret (p, Some e)
  | None => p ← forkAccountsTo fuel p (Accounts keyPoint); Ret (p, None)
  end.

Fixpoint unlock_loop (fuel : nat) (p : pool) (starts : list (string * SnapshotPoint))
    (endAcs : gmap string SnapshotPoint) : outcome (pool * error) :=
  match starts with
  | [] => Ret (p, None)
  | (k, v) :: starts =>
      '(b, err) ← Blockchain.RollbackSnapshotPoint fuel (bc p) k (Some v) (endAcs !! k);
      let p := set_bc p b in
      match err with
      | Some err => Ret (p, Some err)
      | None => unlock_loop fuel p starts endAcs
      end
  end.
Definition UnLockAccounts (fuel : nat) (p : pool) (startAcs endAcs : gmap string SnapshotPoint)
    : outcome (pool * error) := unlock_loop fuel p (order startAcs) endAcs.

(** ** The snapshot pool *)

(** [accounts]: the first and the last point seen of every account of the block. *)
Definition accounts (start end_ : gmap string SnapshotPoint) (b : SnapshotBlock)
    : gmap string SnapshotPoint * gmap string SnapshotPoint :=
  foldl (fun '(start, end_) v =>
    let point := mkSnapshotPoint (Height b) (Hash b) (ah_Height v) (ah_Hash v) in
    (match start !! ah_Addr v with
     | None => <[ah_Addr v := point]> start
     | Some _ => start
     end, <[ah_Addr v := point]> end_)) (start, end_) (Accounts b).

(** The loop of [getUnlockAccountSnapshot], from height [i] down, [n] blocks. *)
Fixpoint unlock_points (n : nat) (i : Z) (w : snapshotCh St L) (v : Z)
    (start end_ : gmap string SnapshotPoint)
    : outcome (gmap string SnapshotPoint * gmap string SnapshotPoint) :=
  match n with
  | O => Ret (start, end_)
  | S n =>
      b ← disk_getBlock w v i;
      let '(start, end_) :=
        match b with Some b => accounts start end_ (block b) | None => (start, end_) end in
      unlock_points n (i - 1) w v start end_
  end.

Definition getUnlockAccountSnapshot (w : snapshotCh St L) (v : Z) (b : SnapshotBlock)
    : outcome (gmap string SnapshotPoint * gmap string SnapshotPoint) :=
  head ← (disk_head w : outcome SnapshotBlock);
  let '(start, end_) := accounts ∅ ∅ head in
  unlock_points (Z.to_nat (Height head - 1 - Height b)) (Height head - 1) w v start end_.

Definition insertVerifyFail (fuel : nat) (p : pool) (b : SnapshotBlock)
    (stat : SnapshotVerifier.SnapshotBlockVerifyStat) : outcome pool :=
  let failed := filter (fun a => SnapshotVerifier.results stat !! ah_Addr a = Some FAIL) (Accounts b) in
  p ← forkAccountsTo fuel p failed;
  Ret (inc_version p).

Fixpoint pendingAccountsTo (p : pool) (vs : list AccountHashH) : outcome pool :=
  match vs with
  | [] => Ret p
  | v :: vs => '(p, _) ← PendingAccountTo p v; pendingAccountsTo p vs
  end.
(** A missing result reads as the zero value, PENDING. *)
Definition insertVerifyPending (p : pool) (b : SnapshotBlock)
    (stat : SnapshotVerifier.SnapshotBlockVerifyStat) : outcome pool :=
  let result a := default PENDING (SnapshotVerifier.results stat !! ah_Addr a) in
  pendingAccountsTo p (filter (fun a => result a = PENDING) (Accounts b)).

(** The loop of [snapshotTryInsert]. *)
Fixpoint snapshotTryInsert_loop (fuel : nat) (n : nat) (i : Z) (p : pool) : outcome pool :=
  match n with
  | O => Ret p
  | S n =>
      let cp := sp_chainpool (pendingSc p) in
      cur ← get_chain cp (current cp);
      wrapper ← deref (fc_heightBlocks cur !! i) "nil dereference";
      let wrapper := if negb (checkForkVersion (val p) wrapper) then reset (val p) wrapper else wrapper in
      let cur := {| fc_heightBlocks := <[i := wrapper]> (fc_heightBlocks cur);
                    fc_headHeight := fc_headHeight cur; fc_tailHeight := fc_tailHeight cur;
                    fc_chainId := fc_chainId cur; fc_headHash := fc_headHash cur;
                    fc_tailHash := fc_tailHash cur; fc_referChain := fc_referChain cur |} in
      let cp := put_chain cp cur in
      let p := set_sp_chainpool p cp in
      let b := block wrapper in
      let stat := verifySnapshotBlock p b in
      if negb (checkForkVersion (val p) wrapper) then snapshotTryInsert_loop fuel n (i + 1) p
      else
        match SnapshotVerifier.VerifyResult_ stat with
        | PENDING => insertVerifyPending p b stat
        | FAIL => insertVerifyFail fuel p b stat
        | SUCCESS =>
            if decide (Height b = fc_tailHeight cur + 1) then
              '(w, cp, err) ← writeToChain (sch p) cp cur wrapper;
              let p := set_sp_chainpool (set_bc p (sch_bc w)) cp in
              match err with
              | Some _ => Ret p
              | None => snapshotTryInsert_loop fuel n (i + 1) p
              end
            else Ret p
        end
  end.

Definition loopCheckCurrentInsert (fuel : nat) (p : pool) : outcome pool :=
  let cp := sp_chainpool (pendingSc p) in
  cur ← get_chain cp (current cp);
  if decide (size cur = 0) then Ret p
  else snapshotTryInsert_loop fuel (Z.to_nat (fc_headHeight cur - fc_tailHeight cur))
         (fc_tailHeight cur + 1) p.

(** One round of the snapshot pool's [loop]. *)
Definition snapshot_loop_round (fuel : nat) (p : pool) : outcome pool :=
  '(bp, cp, _) ← loopGenSnippetChains order order (sp_blockpool (pendingSc p)) (sp_chainpool (pendingSc p));
  '(cp, _) ← loopAppendChains order order (sch p) (val p) cp;
  '(reqs, _) ← loopFetchForSnippets order cp;
  let p := fetch (set_sc p {| sp_blockpool := bp; sp_chainpool := cp |}) "" reqs in
  loopCheckCurrentInsert fuel p.

(** [snapshotFork]: every error ends it where it stands, and is only logged. *)
Definition snapshotFork (fuel : nat) (p : pool) (longest current : forkedChain SnapshotBlock) : outcome pool :=
  let cp := sp_chainpool (pendingSc p) in
  '(k, f, err) ← getForkPoint (sch p) (val p) cp longest current;
  match err with
  | Some _ => Ret p
  | None =>
      forkPoint ← deref f "nil dereference";
      keyPoint ← deref k "nil dereference";
      '(startAcs, endAcs) ← getUnlockAccountSnapshot (sch p) (val p) forkPoint;
      '(p, err) ← UnLockAccounts fuel p startAcs endAcs;
      match err with
      | Some _ => Ret p
      | None =>
          '(p, err) ← ForkAccounts fuel p keyPoint forkPoint;
          match err with
          | Some _ => Ret p
          | None =>
              '(w, cp, err) ← Rollback (sch p) (val p) (sp_chainpool (pendingSc p))
                                (Height forkPoint) (Hash forkPoint);
              let p := set_sp_chainpool (set_bc p (sch_bc w)) cp in
              match err with
              | Some _ => Ret p
              | None =>
                  longest ← get_chain cp (fc_chainId longest);
                  '(cp, err) ← currentModifyToChain (sch p) (val p) cp longest;
                  let p := set_sp_chainpool p cp in
                  match err with
                  | Some _ => Ret p
                  | None => Ret (inc_version p)
                  end
              end
          end
      end
  end.

Definition checkFork (fuel : nat) (p : pool) : outcome pool :=
  let cp := sp_chainpool (pendingSc p) in
  longest ← LongestChain order cp;
  current ← CurrentChain cp;
  if decide (fc_chainId longest = fc_chainId current) then Ret p
  else snapshotFork fuel p longest current.

(** ** Driving the account pools *)
Fixpoint fetchForTask_loop (p : pool) (reqs : list FetchRequest) : outcome pool :=
  match reqs with
  | [] => Ret p
  | r :: reqs =>
      if decide (fr_Chain r = "") then
        exist ← ExistInCurrent (sp_chainpool (pendingSc p)) r;
        fetchForTask_loop (if (exist : bool) then p else Fetch p [r]) reqs
      else
        '(p, a) ← selfPendingAc p (fr_Chain r);
        exist ← ExistInCurrent (ap_chainpool a) r;
        fetchForTask_loop (if (exist : bool) then p else Fetch p [r]) reqs
  end.
Definition fetchForTask (p : pool) (task : Task) : outcome pool := fetchForTask_loop p (Task_Requests task).

Fixpoint accountsTryInsert_loop (p : pool) (ks : list string) (sum : Z) : outcome (pool * Z) :=
  match ks with
  | [] => Ret (p, sum)
  | k :: ks =>
      '(p, a) ← selfPendingAc p k;
      '(p, task) ← TryInsert p k a;
      match task with
      | Some task => p ← fetchForTask p task; accountsTryInsert_loop p ks (sum + 1)
      | None => accountsTryInsert_loop p ks sum
      end
  end.
Definition accountsTryInsert (p : pool) : outcome (pool * Z) :=
  accountsTryInsert_loop p (fst <$> order (pendingAc p)) 0.

Fixpoint accountsCompact_loop (p : pool) (ks : list string) (sum : Z) : outcome (pool * Z) :=
  match ks with
  | [] => Ret (p, sum)
  | k :: ks =>
      '(p, a) ← selfPendingAc p k;
      '(p, n) ← Compact p k a;
      accountsCompact_loop p ks (sum + n)
  end.
Definition accountsCompact (p : pool) : outcome (pool * Z) :=
  accountsCompact_loop p (fst <$> order (pendingAc p)) 0.
End pools.
Arguments pool St L : clear implicits.
