(* ===== verification/PoolsSpec.v ===== *)
(** * PoolsSpec: what the pools let onto the chain, and how rollbacks fail

    The account pool writes only blocks that have just verified; the remaining
    results are about [getWaitRollbackAccounts] and [ForkAccounts], which prepare
    a rollback. *)
From S2P Require Import Prelude.
From S2P Require Import Common.
From S2P Require Import Store.
From S2P Require Import Chain.
From S2P Require Import Reader.
From S2P Require Import Verifier.
From S2P Require Import VerifierSpec.
From S2P Require Import BCPool.
From S2P Require Import PoolChains.
From S2P Require Import Sync.
From S2P Require Import Pools.

Section pools.
Context {St : Type} `{HS : Stack St} {L : Type} `{HL : ChainListener L}.
Implicit Types (p : pool St L) (b : AccountStateBlock).

(** One verified insertion into the chain of [addr]. *)
Definition verified_insert (v now : Z) (addr : string) (c c' : Blockchain.blockchain St L) : Prop :=
  exists b stat, AccountVerifier.VerifyReferred v now c b = Ret stat /\
    AccountVerifier.VerifyResult_ stat = SUCCESS /\
    Blockchain.InsertAccountBlock c addr b = Ret (c', None).

Lemma writeToChain_account p addr cp cur wrapper w' cp' e :
  forkVersion wrapper = val p ->
  writeToChain (ach p addr) cp cur wrapper = Ret (w', cp', e) ->
  Blockchain.InsertAccountBlock (bc p) addr (block wrapper) = Ret (ach_bc w', e).
Proof.
  intros Hv. unfold writeToChain. cbn [rw_insertChain accountCh_ChainRw]. unfold ach_insertChain.
  cbn [ach ach_version ach_bc ach_address]. rewrite decide_False by tauto.
  intros ([w1 e1] & E & Er)%bind_ret_inv. apply bind_ret_inv in E as ([bc1 e2] & E & [= <- <-]).
  rewrite E. destruct e2 as [e2|]; by injection Er as <- _ <-.
Qed.

(** Insertions never report an error. *)
Lemma InsertAccountBlock_no_error (c c' : Blockchain.blockchain St L) addr b e :
  Blockchain.InsertAccountBlock c addr b = Ret (c', e) -> e = None.
Proof.
  unfold Blockchain.InsertAccountBlock. destruct (Blockchain.selfAc c addr) as [c1 a].
  intros ([[[st a'] l] e1] & E & [= _ <-])%bind_ret_inv.
  unfold AccountChain.insertChain in E. apply bind_ret_inv in E as (l1 & _ & [= _ _ _ <-]). done.
Qed.

Lemma tryInsert_loop_verified now n i p addr cp p' cp' task :
  tryInsert_loop now n i p addr cp = Ret (p', cp', task) ->
  rtc (verified_insert (val p) now addr) (bc p) (bc p') /\ val p' = val p /\
  pendingAc p' = pendingAc p /\ pendingSc p' = pendingSc p /\ fetched p' = fetched p.
Proof.
  revert i p cp. induction n as [|n IH]; intros i p cp; cbn [tryInsert_loop].
  { intros [= <- _ _]. repeat split. apply rtc_refl. }
  intros (cur & _ & E1)%bind_ret_inv. apply bind_ret_inv in E1 as (wr & _ & E1).
  apply bind_ret_inv in E1 as (stat & Es & E1).
  assert (Stop : forall r, Ret r = Ret (p', cp', task) -> fst (fst r) = p ->
    rtc (verified_insert (val p) now addr) (bc p) (bc p') /\ val p' = val p /\
    pendingAc p' = pendingAc p /\ pendingSc p' = pendingSc p /\ fetched p' = fetched p).
  { intros r [= ->] <-. repeat split. apply rtc_refl. }
  destruct (negb _); [by eapply Stop|].
  destruct (AccountVerifier.VerifyResult_ stat) eqn:Ev.
  - apply bind_ret_inv in E1 as (t & _ & E1). by eapply Stop.
  - by eapply Stop.
  - case_decide; [|by eapply Stop].
    apply bind_ret_inv in E1 as ([[w cp1] err] & Ew & E1).
    apply writeToChain_account in Ew; [|done]. cbn [block reset] in Ew.
    pose proof (InsertAccountBlock_no_error _ _ _ _ _ Ew) as ->.
    assert (Hstep : verified_insert (val p) now addr (bc p) (ach_bc w)) by (by exists (block wr), stat).
    destruct (IH _ _ _ E1) as (Hr & Hv & Ha & Hs & Hf).
    split; [|done]. eapply rtc_l; [exact Hstep|]. exact Hr.
Qed.
End pools.

(** C16: an account pool writes only verified blocks.  Whatever is in the pool,
    when [tryInsert] returns, the chain has changed only by a sequence of
    insertions into that account's chain, each of a block that had just verified
    against the chain it was inserted in; the other pools, the fork version and
    the requests are untouched. *)
Theorem tryInsert_only_verified {St} `{Stack St} {L} `{ChainListener L} now
    (p p' : pool St L) addr cp cp' task :
  tryInsert_ now p addr cp = Ret (p', cp', task) ->
  rtc (verified_insert (val p) now addr) (bc p) (bc p') /\
  val p' = val p /\ pendingAc p' = pendingAc p /\ pendingSc p' = pendingSc p /\ fetched p' = fetched p.
Proof.
  intros (cur & _ & E)%bind_ret_inv. by eapply tryInsert_loop_verified.
Qed.

(** Rolling back a send that nobody has received panics.  When an account
    must be rolled back below a send block whose receive block is not on the
    chain, [getWaitRollbackAccounts] dereferences the missing receive block
    before it tests it for nil. *)
Theorem unreceived_send_panics {St} `{Stack St} {L} `{ChainListener L}
    (order : forall A : Type, gmap string A -> list (string * A)) now fuel (p : pool St L) a h b bs :
  range_order (order AccountHashH) -> pendingAc p !! ah_Addr h = Some a ->
  TryRollback (ach p (ah_Addr h)) (val p) (ah_Height h) (ah_Hash h) = Ret (b :: bs, None) ->
  reader_GetAccountBySourceHash (bc p) (To b) (Hash b) = Ret None ->
  getWaitRollbackAccounts order now (S fuel) p {[ah_Addr h := h]} = Panic "nil dereference".
Proof.
  intros Ho Ha Ht Hs. unfold getWaitRollbackAccounts. cbn [getWaitRollbackAccounts_loop].
  assert (E : order AccountHashH {[ah_Addr h := h]} = [(ah_Addr h, h)]).
  { apply Permutation_singleton_r. rewrite (Ho _). by rewrite map_to_list_singleton. }
  rewrite E. cbn [fmap list_fmap snd wait_tasks]. unfold selfPendingAc. rewrite Ha, !bind_ret_l.
  rewrite Ht, bind_ret_l. cbn [wait_tasks app]. rewrite bind_ret_l. cbn [wait_sends].
  by rewrite Hs.
Qed.

(** The rollback point of an account is the last one seen, not the lowest.
    Whatever point an account already has, after [getWaitRollbackAccounts] has
    processed a task [v] the account's point is at the height of [v]: a rollback
    that must reach further down is forgotten, although the code's comment asks
    for the one closer to genesis. *)
Theorem last_rollback_point_wins {St} `{Stack St} {L} `{ChainListener L}
    now (p : pool St L) a v hs r :
  pendingAc p !! ah_Addr v = Some a ->
  TryRollback (ach p (ah_Addr v)) (val p) (ah_Height v) (ah_Hash v) = Ret r ->
  exists hs' bs, wait_tasks now p hs [v] [] = Ret (p, hs', bs) /\
    (exists v', hs' !! ah_Addr v = Some v' /\ ah_Height v' = ah_Height v) /\
    forall addr, addr <> ah_Addr v -> hs' !! addr = hs !! addr.
Proof.
  intros Ha Hr. cbn [wait_tasks]. unfold selfPendingAc. rewrite Ha, bind_ret_l.
  rewrite Hr, bind_ret_l. destruct r as [bs err].
  do 2 eexists. split; [reflexivity|].
  unfold canAdd, addWaitRollback. destruct (hs !! ah_Addr v) as [v0|] eqn:E.
  - case_bool_decide as Hlt.
    + rewrite lookup_insert_eq, decide_False by lia.
      split; [exists v; by rewrite lookup_insert_eq|]. intros. by rewrite lookup_insert_ne.
    + rewrite E. case_decide as Hgt.
      * split; [exists v; by rewrite lookup_insert_eq|]. intros. by rewrite lookup_insert_ne.
      * split; [exists v0; split; [done|lia]|done].
  - rewrite lookup_insert_eq, decide_False by lia.
    split; [exists v; by rewrite lookup_insert_eq|]. intros. by rewrite lookup_insert_ne.
Qed.

(** A snapshot fork panics on an account younger than the fork point.  If the
    pool holds an account whose head refers to a snapshot at or above the fork
    point and none of whose blocks refers to one at or below it, [ForkAccounts]
    finds no block to roll the account back to and dereferences it all the same. *)
Theorem fork_below_young_account_panics {St} `{Stack St} {L} `{ChainListener L}
    (order : forall A : Type, gmap string A -> list (string * A)) now fuel (p : pool St L)
    keyPoint forkPoint addr a hd :
  range_order (order accountPool) -> pendingAc p = {[addr := a]} ->
  ach_head (ach p addr) = Some hd -> Height forkPoint <= a_SnapshotHeight hd ->
  findAboveSnapshotHeight (ach p addr) (Height forkPoint) = Ret None ->
  ForkAccounts order now fuel p keyPoint forkPoint = Panic "nil dereference".
Proof.
  intros Ho Hp Hh Hs Hf. unfold ForkAccounts.
  assert (E : order accountPool (pendingAc p) = [(addr, a)]).
  { apply Permutation_singleton_r. rewrite (Ho _), Hp. by rewrite map_to_list_singleton. }
  rewrite E. cbn [fmap list_fmap fst forkAccounts_tasks].
  unfold FindRollbackPointByReferSnapshot, disk_head, disk_Head. cbn [rw_head accountCh_ChainRw].
  rewrite Hh, bind_ret_l. cbn [deref]. rewrite bind_ret_l, decide_False by lia.
  rewrite Hf, !bind_ret_l. done.
Qed.

(** ** A concrete pool *)
Definition map_order (A : Type) (m : gmap string A) : list (string * A) := map_to_list m.

(** The genesis chain with its pools. *)
Definition pool0 : pool (list SnapshotPoint) unit :=
  mkPool (mkSnapshotPool newBlockPool (mkChainPool "" 0 "" ∅ ∅)) ∅ chain0 (Version.mk 0) [].

(** The pool of "jie" holding the loose block [send10], compacted at time [now]. *)
Definition jie_pool : outcome (pool (list SnapshotPoint) unit) :=
  '(p, _) ← AddAccountBlock 0 pool0 "jie" send10;
  '(p, a) ← selfPendingAc 0 p "jie";
  '(p, _) ← Compact map_order Second p "jie" a;
  Ret p.

Definition jie_insert : outcome (pool (list SnapshotPoint) unit * chainPool AccountStateBlock * Task) :=
  p ← jie_pool;
  '(p, a) ← selfPendingAc 0 p "jie";
  tryInsert_ Second p "jie" (ap_chainpool a).

(** The block travels from the network to the chain. *)
Lemma jie_insert_balance :
  match jie_insert with
  | Ret (p, _, successTask) => balance (bc p) "jie" = 190
  | _ => False
  end.
Proof. vm_compute. reflexivity. Qed.

Lemma tryInsert_only_verified_witness :
  exists p p' a cp' task, tryInsert_ Second p "jie" (ap_chainpool a) = Ret (p', cp', task) /\
    rtc (verified_insert (val p) Second "jie") (bc p) (bc p').
Proof.
  assert (R : returns_b jie_insert = true) by (vm_compute; reflexivity).
  destruct jie_insert as [[[p' cp'] task]| |] eqn:E; [|discriminate R|discriminate R].
  unfold jie_insert in E. apply bind_ret_inv in E as (p & _ & E).
  apply bind_ret_inv in E as ([p1 a] & _ & E).
  exists p1, p', a, cp', task. split; [exact E|].
  apply (tryInsert_only_verified Second p1 p' "jie" (ap_chainpool a) cp' task E).
Defined.

(** After "jie"'s send, which nobody has received. *)
Definition pool1 : pool (list SnapshotPoint) unit :=
  mkPool (pendingSc pool0)
    {["jie" := mkAccountPool newBlockPool (mkChainPool "j" 0 "" ∅ ∅) None 0]} chain1 (Version.mk 0) [].
Definition jie_point : AccountHashH := mkAccountHashH jie_genesis 0 "jie".

Lemma unreceived_send_panics_witness :
  getWaitRollbackAccounts map_order 0 3 pool1 {["jie" := jie_point]} = Panic "nil dereference".
Proof.
  apply (unreceived_send_panics map_order 0 2 pool1
           (mkAccountPool newBlockPool (mkChainPool "j" 0 "" ∅ ∅) None 0) jie_point send10 []).
  - intros m. reflexivity.
  - reflexivity.
  - vm_compute. reflexivity.
  - vm_compute. reflexivity.
Defined.

Lemma last_rollback_point_wins_witness :
  exists hs' bs, wait_tasks 0 pool1 {["jie" := mkAccountHashH "low" (-1) "jie"]} [jie_point] [] =
      Ret (pool1, hs', bs) /\
    exists v', hs' !! "jie" = Some v' /\ ah_Height v' = 0.
Proof.
  destruct (last_rollback_point_wins 0 pool1
    (mkAccountPool newBlockPool (mkChainPool "j" 0 "" ∅ ∅) None 0) jie_point
    {["jie" := mkAccountHashH "low" (-1) "jie"]} ([send10], None)) as (hs' & bs & E & Hv & _).
  - reflexivity.
  - vm_compute. reflexivity.
  - exists hs', bs. split; [exact E | exact Hv].
Defined.

(** "bob" first appears above snapshot height 5. *)
Definition bob_young : AccountStateBlock :=
  NewAccountBlock 0 "h1" "" "bob" 0 100 100 5 "s5" RECEIVED "jie" "bob" "h0" 0.
Definition pool2 : pool (list SnapshotPoint) unit :=
  mkPool (pendingSc pool0)
    {["bob" := mkAccountPool newBlockPool (mkChainPool "b" 0 "" ∅ ∅) None 0]}
    (match Blockchain.InsertAccountBlock chain0 "bob" bob_young with Ret (c, _) => c | _ => chain0 end)
    (Version.mk 0) [].

Lemma fork_below_young_account_panics_witness :
  ForkAccounts map_order 0 3 pool2 SnapshotChain.genesisSnapshot SnapshotChain.genesisSnapshot =
  Panic "nil dereference".
Proof.
  apply (fork_below_young_account_panics map_order 0 3 pool2 _ _ "bob"
           (mkAccountPool newBlockPool (mkChainPool "b" 0 "" ∅ ∅) None 0) bob_young).
  - intros m. reflexivity.
  - reflexivity.
  - vm_compute. reflexivity.
  - vm_compute. discriminate.
  - vm_compute. reflexivity.
Defined.
