(* ===== verification/PoolLife.v ===== *)
(** * PoolLife: the goroutines of the pools

    [Start] and [Stop] of [pool/pool.go] and [pool/snapshot_pool.go] with the four
    loops they start and end: two of the snapshot pool, two that drive the account
    pools.  A loop ends when its [closed] channel is closed; [Stop] waits for a
    [sync.WaitGroup].  The snapshot pool adds its goroutines to the group before it
    starts them, the pool of pools lets each of them add itself. *)
From S2P Require Import Prelude.
From S2P Require Import Common.
From S2P Require Import Chain.
From S2P Require Import Verifier.
From S2P Require Import VerifierSpec.
From S2P Require Import BCPool.
From S2P Require Import Pools.
From S2P Require Import PoolsSpec.

(** ** The goroutines *)

(** [loop] and [loopCheckFork] of the snapshot pool; [loopTryInsert] and
    [loopCompact]. *)
Inductive work := WLoop | WCheckFork | WTryInsert | WCompact.
Definition of_snapshot (w : work) : bool := match w with WLoop | WCheckFork => true | _ => false end.

(** [Spawned]: after the [go] statement and before [wg.Add] in the goroutine.
    [tick]: the ticker's channel, of capacity one, holds a tick. *)
Inductive gstate := Spawned | Running (sum : Z) (tick : bool) | Exited.
Record goroutine := mkGoroutine { g_work : work; g_state : gstate }.

(** Where [Stop] is. *)
Inductive stop_pc := NotStopping | WaitSnapshot | WaitAccounts | StopReturned.
#[export] Instance stop_pc_eq_dec : EqDecision stop_pc.
Proof. solve_decision. Defined.

Section life.
Context {St : Type} `{Stack St} {L : Type} `{ChainListener L}.

(** [sc_closed], [sc_wg]: of the snapshot pool; [p_closed], [p_wg]: of the pool. *)
Record life := mkLife {
  l_pool : pool St L;
  sc_closed : bool;
  sc_wg : Z;
  p_closed : bool;
  p_wg : Z;
  threads : list goroutine;
  stopper : stop_pc
}.
Implicit Types (l : life).

Definition new_life (p : pool St L) : life := mkLife p false 0 false 0 [] NotStopping.
Definition set_pool l (p : pool St L) : life :=
  mkLife p (sc_closed l) (sc_wg l) (p_closed l) (p_wg l) (threads l) (stopper l).
Definition set_stop l (sc pc : bool) (s : stop_pc) : life :=
  mkLife (l_pool l) sc (sc_wg l) pc (p_wg l) (threads l) s.
(** A goroutine in its new state, and the wait groups. *)
Definition set_thread l (i : nat) (w : work) (s : gstate) (sc_n p_n : Z) : life :=
  mkLife (l_pool l) (sc_closed l) (sc_wg l + sc_n) (p_closed l) (p_wg l + p_n) (<[i := mkGoroutine w s]> (threads l))
    (stopper l).

(** ** [Start] *)
Definition snapshot_Start l : life :=
  let go l w :=
    mkLife (l_pool l) (sc_closed l) (sc_wg l + 1) (p_closed l) (p_wg l)
      (threads l ++ [mkGoroutine w (Running 0 false)]) (stopper l) in
  go (go l WLoop) WCheckFork.
Definition pool_Start l : life :=
  let l := snapshot_Start l in
  mkLife (l_pool l) (sc_closed l) (sc_wg l) (p_closed l) (p_wg l)
    (threads l ++ [mkGoroutine WTryInsert Spawned; mkGoroutine WCompact Spawned]) (stopper l).

(** ** [Stop]: its two waits divide it into three steps. *)
Definition Stop_begin l : outcome life :=
  c ← close_chan (sc_closed l);
  Ret (set_stop l c (p_closed l) WaitSnapshot).
Definition Stop_accounts l : outcome life :=
  c ← close_chan (p_closed l);
  Ret (set_stop l (sc_closed l) c WaitAccounts).

(** ** The loops *)

(** The orders of the maps, and the bound of a round. *)
Context (order : forall A, gmap string A -> list (string * A)) (fuel : nat).

(** One iteration of each: the new state of the pool and the new [sum], which only
    decides whether the loop sleeps. *)
Definition loop_iter (now : Z) (p : pool St L) (sum : Z) : outcome (pool St L * Z) :=
  p ← snapshot_loop_round order now fuel p; Ret (p, sum).
Definition loopCheckFork_iter (now : Z) (p : pool St L) (sum : Z) : outcome (pool St L * Z) :=
  p ← checkFork order now fuel p; Ret (p, sum).
Definition loopTryInsert_iter (now : Z) (p : pool St L) (sum : Z) : outcome (pool St L * Z) :=
  '(p, n) ← accountsTryInsert order now p; Ret (p, wrap64 (sum + n)).
Definition loopCompact_iter (now : Z) (p : pool St L) (sum : Z) : outcome (pool St L * Z) :=
  '(p, n) ← accountsCompact order now p; Ret (p, wrap64 (sum + n)).
Definition iterate (now : Z) (w : work) : pool St L -> Z -> outcome (pool St L * Z) :=
  match w with
  | WLoop => loop_iter now
  | WCheckFork => loopCheckFork_iter now
  | WTryInsert => loopTryInsert_iter now
  | WCompact => loopCompact_iter now
  end.

(** What happens next. *)
Inductive levent :=
| LStart                      (* [Start] *)
| LStop                       (* [Stop]: closes the snapshot pool *)
| LStopAccounts               (* ... whose group is empty: closes the pool *)
| LStopDone                   (* ... whose group is empty: returns *)
| LBegin (i : nat)            (* [wg.Add(1)] and the ticker *)
| LTick (i : nat)             (* the ticker fires *)
| LDefault (i : nat) (now : Z) (* [select]: default *)
| LTicked (i : nat) (now : Z)  (* [select]: the tick *)
| LExit (i : nat).            (* [select]: closed *)

Definition closed_for l (w : work) : bool := if of_snapshot w then sc_closed l else p_closed l.

(** A [select] with a default takes it only when no channel is ready; otherwise it
    takes any ready one. *)
Definition lstep (e : levent) l : option (outcome life) :=
  match e with
  | LStart => Some (Ret (pool_Start l))
  | LStop =>
      match stopper l with
      | NotStopping | StopReturned => Some (Stop_begin l)
      | _ => None
      end
  | LStopAccounts =>
      match stopper l with
      | WaitSnapshot => if decide (sc_wg l = 0) then Some (Stop_accounts l) else None
      | _ => None
      end
  | LStopDone =>
      match stopper l with
      | WaitAccounts =>
          if decide (p_wg l = 0) then Some (Ret (set_stop l (sc_closed l) (p_closed l) StopReturned)) else None
      | _ => None
      end
  | LBegin i =>
      match threads l !! i with
      | Some (mkGoroutine w Spawned) => Some (Ret (set_thread l i w (Running 0 false) 0 1))
      | _ => None
      end
  | LTick i =>
      match threads l !! i with
      | Some (mkGoroutine w (Running sum _)) =>
          if of_snapshot w then None else Some (Ret (set_thread l i w (Running sum true) 0 0))
      | _ => None
      end
  | LDefault i now =>
      match threads l !! i with
      | Some (mkGoroutine w (Running sum false)) =>
          if closed_for l w then None else
          Some ('(p, sum) ← iterate now w (l_pool l) sum;
                Ret (set_pool (set_thread l i w (Running sum false) 0 0) p))
      | _ => None
      end
  | LTicked i now =>
      match threads l !! i with
      | Some (mkGoroutine w (Running _ true)) =>
          Some ('(p, sum) ← iterate now w (l_pool l) 0;
                Ret (set_pool (set_thread l i w (Running sum false) 0 0) p))
      | _ => None
      end
  | LExit i =>
      match threads l !! i with
      | Some (mkGoroutine w (Running _ _)) =>
          if closed_for l w then
            Some (Ret (if of_snapshot w then set_thread l i w Exited (-1) 0 else set_thread l i w Exited 0 (-1)))
          else None
      | _ => None
      end
  end.

Fixpoint lrun (es : list levent) l : option (outcome life) :=
  match es with
  | [] => Some (Ret l)
  | e :: es =>
      match lstep e l with
      | Some (Ret l) => lrun es l
      | r => r
      end
  end.

(** ** What holds in every state *)

(** The goroutines that a wait group counts. *)
Definition counted (sc : bool) (g : goroutine) : Z :=
  match g_state g with
  | Running _ _ => if decide (of_snapshot (g_work g) = sc) then 1 else 0
  | _ => 0
  end.
Definition running (sc : bool) l : Z := zsum (counted sc <$> threads l).

Record life_ok l : Prop := {
  lo_sc : sc_wg l = running true l;
  lo_p : p_wg l = running false l;
  lo_snapshot : Forall (fun g => of_snapshot (g_work g) = true -> g_state g <> Spawned) (threads l);
  lo_stop : match stopper l with
            | NotStopping => True
            | WaitSnapshot => sc_closed l = true
            | _ => sc_closed l = true /\ p_closed l = true
            end
}.

Lemma counted_nonneg sc l : Forall (fun g => 0 <= counted sc g) (threads l).
Proof. apply Forall_forall. intros g _. unfold counted. repeat case_match; lia. Qed.

Lemma running_zero sc l :
  running sc l = 0 -> forall i g, threads l !! i = Some g -> counted sc g = 0.
Proof.
  unfold running. intros E i g Hi. revert E i Hi. pose proof (counted_nonneg sc l) as Hn.
  induction (threads l) as [|x gs IH]; intros E [|i] Hi; try done; apply Forall_cons in Hn as [Hx Hn];
    rewrite fmap_cons, zsum_cons in E;
    assert (0 <= zsum (counted sc <$> gs))
      by (clear - Hn; induction Hn; [done|]; rewrite fmap_cons, zsum_cons; lia).
  - injection Hi as ->. lia.
  - apply (IH Hn ltac:(lia) i Hi).
Qed.

Lemma running_thread sc l i w s w' s' a b :
  threads l !! i = Some (mkGoroutine w s) ->
  running sc (set_thread l i w' s' a b) =
    running sc l - counted sc (mkGoroutine w s) + counted sc (mkGoroutine w' s').
Proof. intros Hi. unfold running. cbn. by apply zsum_insert. Qed.

(** A step of one goroutine. *)
Lemma thread_ok l i w s w' s' a b :
  life_ok l -> threads l !! i = Some (mkGoroutine w s) ->
  a = counted true (mkGoroutine w' s') - counted true (mkGoroutine w s) ->
  b = counted false (mkGoroutine w' s') - counted false (mkGoroutine w s) ->
  (of_snapshot w' = true -> s' <> Spawned) ->
  life_ok (set_thread l i w' s' a b).
Proof.
  intros H1 Hi -> -> Hs. split.
  - rewrite (running_thread _ _ _ _ _ _ _ _ _ Hi). cbn. rewrite (lo_sc l H1). lia.
  - rewrite (running_thread _ _ _ _ _ _ _ _ _ Hi). cbn. rewrite (lo_p l H1). lia.
  - apply Forall_insert; [apply H1|exact Hs].
  - apply H1.
Qed.

Lemma set_pool_ok l p : life_ok l -> life_ok (set_pool l p).
Proof. by intros []. Qed.

Lemma snapshot_begun l i w s :
  life_ok l -> threads l !! i = Some (mkGoroutine w s) -> of_snapshot w = true -> s <> Spawned.
Proof. intros H1 Hi. by apply (Forall_lookup_1 _ _ _ _ (lo_snapshot l H1) Hi). Qed.

Lemma pool_Start_ok l : life_ok l -> life_ok (pool_Start l).
Proof.
  intros H1. pose proof (lo_sc l H1) as Hsc. pose proof (lo_p l H1) as Hp. unfold running in Hsc, Hp.
  assert (E : forall sc, running sc (pool_Start l) = zsum (counted sc <$> threads l) + if sc then 2 else 0)
    by (intros sc; unfold running, pool_Start, snapshot_Start; cbn [threads]; rewrite !zsum_app, <- !Z.add_assoc; by destruct sc).
  split; [rewrite E; cbn; lia..| |].
  - cbn. rewrite !Forall_app. split_and!; [apply H1|by repeat constructor..].
  - apply H1.
Qed.

(** The iterations of a loop leave the goroutine running, and the rest as it is. *)
Lemma iterate_step l l' i w sum tick (m : outcome (pool St L * Z)) :
  threads l !! i = Some (mkGoroutine w (Running sum tick)) ->
  ('(p, sum) ← m; Ret (set_pool (set_thread l i w (Running sum false) 0 0) p)) = Ret l' ->
  exists p sum', l' = set_pool (set_thread l i w (Running sum' false) 0 0) p.
Proof. intros Hi E. apply bind_ret_inv in E as ([p n] & _ & E). injection E as <-. by exists p, n. Qed.

Lemma lstep_ok e l l' : life_ok l -> lstep e l = Some (Ret l') -> life_ok l'.
Proof.
  intros H1 E. destruct e as [| | | |i|i|i now|i now|i]; cbn in E;
    try (destruct (threads l !! i) as [[w s]|] eqn:Hi; [|done]).
  - injection E as <-. by apply pool_Start_ok.
  - unfold Stop_begin in E. destruct (stopper l) eqn:Es; try done;
      destruct (sc_closed l) eqn:Ec; try done; injection E as <-; by destruct H1.
  - destruct (stopper l) eqn:Es; try done. case_decide; [|done]. unfold Stop_accounts in E.
    pose proof (lo_stop l H1) as Hs. rewrite Es in Hs.
    destruct (p_closed l) eqn:Ec; [done|]. injection E as <-. split; try apply H1. by split.
  - destruct (stopper l) eqn:Es; try done. case_decide; [|done]. injection E as <-.
    pose proof (lo_stop l H1) as Hs. rewrite Es in Hs. split; try apply H1. done.
  - destruct s; try done. injection E as <-. destruct (of_snapshot w) eqn:Ew; [by destruct (snapshot_begun l i w Spawned)|].
    eapply thread_ok; try done; cbn; unfold counted; cbn; by rewrite Ew.
  - destruct s as [|sum tick|]; try done. destruct (of_snapshot w) eqn:Ew; [done|]. injection E as <-.
    eapply thread_ok; try done; cbn; unfold counted; cbn; by rewrite Ew.
  - destruct s as [|sum [|]|]; try done. destruct (closed_for l w); [done|]. injection E as E.
    destruct (iterate_step _ _ _ _ _ _ _ Hi E) as (p & n & ->).
    apply set_pool_ok. eapply thread_ok; try done; unfold counted; cbn; case_decide; lia.
  - destruct s as [|sum [|]|]; try done. injection E as E.
    destruct (iterate_step _ _ _ _ _ _ _ Hi E) as (p & n & ->).
    apply set_pool_ok. eapply thread_ok; try done; unfold counted; cbn; case_decide; lia.
  - destruct s as [|sum tick|]; try done. destruct (closed_for l w); [|done].
    destruct (of_snapshot w) eqn:Ew; injection E as <-; eapply thread_ok; try done; unfold counted; cbn; by rewrite Ew.
Qed.

Lemma new_life_ok p : life_ok (new_life p).
Proof. by split. Qed.

Lemma lrun_app es es' l l2 :
  lrun (es ++ es') l = Some (Ret l2) <-> exists l1, lrun es l = Some (Ret l1) /\ lrun es' l1 = Some (Ret l2).
Proof.
  revert l. induction es as [|e es IH]; intros l; cbn.
  - split; [intros E; by exists l|]. by intros (l1 & [= ->] & ?).
  - destruct (lstep e l) as [[l'| |]|]; [apply IH|..]; split; try done; by intros (? & ? & _).
Qed.

Lemma lrun_ok es l l' : life_ok l -> lrun es l = Some (Ret l') -> life_ok l'.
Proof.
  revert l. induction es as [|e es IH]; intros l H1 E; cbn in E; [by injection E as <-|].
  destruct (lstep e l) as [[l1| |]|] eqn:Es; try done. eapply IH; [|exact E]. by eapply lstep_ok.
Qed.

(** ** After the snapshot pool's group is empty *)
Definition sc_done l : Prop :=
  match stopper l with WaitAccounts | StopReturned => running true l = 0 | _ => True end.

Lemma thread_done l i w s w' s' a b :
  sc_done l -> threads l !! i = Some (mkGoroutine w s) ->
  counted true (mkGoroutine w' s') <= counted true (mkGoroutine w s) ->
  sc_done (set_thread l i w' s' a b).
Proof.
  intros Hd Hi Hc. unfold sc_done in *. rewrite (running_thread _ _ _ _ _ _ _ _ _ Hi). cbn [stopper set_thread].
  assert (0 <= counted true (mkGoroutine w' s')) by (unfold counted; repeat case_match; lia).
  destruct (stopper l); try done; pose proof (running_zero true l Hd i _ Hi) as E; lia.
Qed.

(** No goroutine of the snapshot pool begins to run again. *)
Lemma lstep_done e l l' :
  life_ok l -> e <> LStart -> sc_done l -> lstep e l = Some (Ret l') -> sc_done l'.
Proof.
  intros H1 He Hd E. destruct e as [| | | |i|i|i now|i now|i]; cbn in E;
    try (destruct (threads l !! i) as [[w s]|] eqn:Hi; [|done]).
  - done.
  - unfold Stop_begin in E. destruct (stopper l) eqn:Es; try done;
      destruct (sc_closed l) eqn:Ec; try done; by injection E as <-.
  - destruct (stopper l) eqn:Es; try done. case_decide as E0; [|done]. unfold Stop_accounts in E.
    destruct (p_closed l); [done|]. injection E as <-. unfold sc_done. cbn.
    by rewrite (lo_sc l H1) in E0.
  - unfold sc_done in Hd. destruct (stopper l) eqn:Es; try done. case_decide; [|done]. by injection E as <-.
  - destruct s; try done. injection E as <-. destruct (of_snapshot w) eqn:Ew; [by destruct (snapshot_begun l i w Spawned)|].
    eapply thread_done; [done..|]. unfold counted. cbn. by rewrite Ew.
  - destruct s as [|sum tick|]; try done. destruct (of_snapshot w) eqn:Ew; [done|]. injection E as <-.
    eapply thread_done; [done..|]. unfold counted. cbn. by rewrite Ew.
  - destruct s as [|sum [|]|]; try done. destruct (closed_for l w); [done|]. injection E as E.
    destruct (iterate_step _ _ _ _ _ _ _ Hi E) as (p & n & ->).
    by apply (thread_done l i w (Running sum false) w (Running n false)).
  - destruct s as [|sum [|]|]; try done. injection E as E.
    destruct (iterate_step _ _ _ _ _ _ _ Hi E) as (p & n & ->).
    by apply (thread_done l i w (Running sum true) w (Running n false)).
  - destruct s as [|sum tick|]; try done. destruct (closed_for l w); [|done].
    destruct (of_snapshot w) eqn:Ew; injection E as <-; (eapply thread_done; [done..|]); unfold counted; cbn;
      case_decide; lia.
Qed.

Lemma lrun_done es l l' :
  life_ok l -> sc_done l -> Forall (.≠ LStart) es -> lrun es l = Some (Ret l') -> sc_done l'.
Proof.
  intros H1 Hd Hes. revert l H1 Hd. induction Hes as [|e es He _ IH]; intros l H1 Hd E; cbn in E; [by injection E as <-|].
  destruct (lstep e l) as [[l1| |]|] eqn:Es; try done. eapply IH; [| |exact E].
  - by eapply lstep_ok.
  - by eapply lstep_done.
Qed.

(** ** After [Stop] *)

(** Only a goroutine whose ticker has fired works when both channels are closed. *)
Definition calm (e : levent) : bool := match e with LStart | LTicked _ _ => false | _ => true end.

Lemma calm_step e l l' :
  sc_closed l = true -> p_closed l = true -> stopper l = StopReturned -> calm e = true -> lstep e l = Some (Ret l') ->
  sc_closed l' = true /\ p_closed l' = true /\ stopper l' = StopReturned /\ l_pool l' = l_pool l.
Proof.
  intros Hs Hp Hr He E. destruct e as [| | | |i|i|i now|i now|i]; cbn in E; try done; rewrite ?Hr in E; try done;
    try (destruct (threads l !! i) as [[w s]|] eqn:Hi; [|done]).
  - unfold Stop_begin in E. by rewrite Hs in E.
  - destruct s; try done. by injection E as <-.
  - destruct s as [|sum tick|]; try done. destruct (of_snapshot w); [done|]. by injection E as <-.
  - destruct s as [|sum [|]|]; try done. unfold closed_for in E. rewrite Hs, Hp in E. by destruct (of_snapshot w).
  - destruct s as [|sum tick|]; try done. destruct (closed_for l w); [|done].
    by destruct (of_snapshot w); injection E as <-.
Qed.

Lemma calm_run es l l' :
  sc_closed l = true -> p_closed l = true -> stopper l = StopReturned -> Forall (fun e => calm e = true) es ->
  lrun es l = Some (Ret l') -> l_pool l' = l_pool l.
Proof.
  intros Hs Hp Hr Hes. revert l Hs Hp Hr. induction Hes as [|e es He _ IH]; intros l Hs Hp Hr E; cbn in E;
    [by injection E as <-|].
  destruct (lstep e l) as [[l1| |]|] eqn:Es; try done.
  destruct (calm_step e l l1 Hs Hp Hr He Es) as (Hs1 & Hp1 & Hr1 & <-). by apply IH.
Qed.

(** C38: stopping the pools.  Start them once, and let their four loops run in any
    interleaving.  When [Stop] returns, both loops of the snapshot pool have ended,
    and each loop of the account pools has ended or has not begun yet: it adds itself
    to the wait group, so [Stop] does not wait for it.  From then on, whatever is
    scheduled, the pools stay as they are unless such a late loop finds a tick of its
    ticker beside the closed channel. *)
Theorem stopped_pools_rest p es l :
  Forall (.≠ LStart) es -> lrun (LStart :: es ++ [LStopDone]) (new_life p) = Some (Ret l) ->
  Forall (fun g => g_state g = Exited \/ of_snapshot (g_work g) = false /\ g_state g = Spawned) (threads l) /\
  forall es' l', Forall (fun e => calm e = true) es' -> lrun es' l = Some (Ret l') -> l_pool l' = l_pool l.
Proof.
  intros Hes E. change (lrun (es ++ [LStopDone]) (pool_Start (new_life p)) = Some (Ret l)) in E.
  pose proof (pool_Start_ok _ (new_life_ok p)) as HS. apply lrun_app in E as (l1 & E & Ed).
  assert (H1 : life_ok l1) by by eapply lrun_ok.
  assert (Hd : sc_done l1) by (eapply lrun_done; [exact HS|exact I|exact Hes|exact E]).
  cbn in Ed. destruct (stopper l1) eqn:Es; try done. case_decide as Hw; [|done]. injection Ed as <-.
  unfold sc_done in Hd. rewrite Es in Hd. pose proof (lo_stop l1 H1) as Hc. rewrite Es in Hc. destruct Hc as [Hsc Hpc].
  split; [|intros es' l' Hcalm E'; by eapply (calm_run es' _ l')].
  apply Forall_lookup_2. intros i [w s] Hi. cbn in Hi.
  pose proof (running_zero _ _ Hd i _ Hi) as E1. rewrite (lo_p l1 H1) in Hw.
  pose proof (running_zero _ _ Hw i _ Hi) as E2. unfold counted in E1, E2. cbn in *.
  destruct s as [|sum tick|]; [|by destruct (of_snapshot w)|by left].
  right. split; [|done]. destruct (of_snapshot w) eqn:Ew; [|done].
  by destruct (snapshot_begun l1 i w Spawned H1 Hi Ew).
Qed.

(** Such a late loop: [Stop] has returned, and the account pools are still worked on. *)
Lemma late_loop_works p now p' n :
  accountsTryInsert order now p = Ret (p', n) ->
  exists l, lrun [LStart; LStop; LExit 0; LExit 1; LStopAccounts; LStopDone; LBegin 2; LTick 2; LTicked 2 now]
              (new_life p) = Some (Ret l) /\ stopper l = StopReturned /\ l_pool l = p'.
Proof.
  intros E. eexists. cbn -[accountsTryInsert]. rewrite decide_True by done. cbn -[accountsTryInsert].
  rewrite decide_True by done. cbn -[accountsTryInsert]. unfold loopTryInsert_iter. rewrite E. cbn. split; [reflexivity|done].
Qed.
End life.
Arguments life St L : clear implicits.

(** ** A run *)

(** The pools over the genesis chain, with a loose block of "jie". *)
Definition jie_waits : pool (list SnapshotPoint) unit :=
  or_else (p ← NewPool_Init chain0; '(p, _) ← AddAccountBlock 0 p "jie" send10; Ret p) pool0.

(** Each loop works once, except that of [loopTryInsert], which begins after [Stop]. *)
Definition life_events : list levent :=
  [LBegin 3; LDefault 3 Second; LDefault 0 0; LDefault 1 0; LTick 3; LTicked 3 0; LStop; LExit 1; LExit 0;
   LStopAccounts; LExit 3].
Definition late_events : list levent := [LBegin 2; LTick 2; LExit 2].

Lemma run_returns {A} (r : option (outcome A)) :
  match r with Some m => is_Ret m | None => false end = true -> exists a, r = Some (Ret a).
Proof. destruct r as [[a| |]|]; try done. by exists a. Qed.

Lemma stopped_pools_rest_witness :
  exists l l', lrun map_order 10 (LStart :: life_events ++ [LStopDone]) (new_life jie_waits) = Some (Ret l) /\
    lrun map_order 10 late_events l = Some (Ret l') /\ l_pool l' = l_pool l.
Proof.
  destruct (run_returns (lrun map_order 10 ((LStart :: life_events ++ [LStopDone]) ++ late_events) (new_life jie_waits)))
    as [l' E]; [vm_compute; reflexivity|].
  apply lrun_app in E as (l & E & E'). exists l, l'. split; [exact E|]. split; [exact E'|].
  apply (stopped_pools_rest map_order 10 jie_waits life_events l) with (es' := late_events);
    [by repeat constructor|exact E|by repeat constructor|exact E'].
Defined.

(** A late loop whose ticker has fired writes a block to the chain of "jie" after
    [Stop] has returned. *)
Example late_loop_writes :
  match lrun map_order 10 (LStart :: life_events ++ [LStopDone; LBegin 2; LTick 2; LTicked 2 Second])
          (new_life jie_waits) with
  | Some (Ret l) => (balance (bc (l_pool l)) "jie", bool_decide (stopper l = StopReturned))
  | _ => (0, false)
  end = (190, true).
Proof. vm_compute. reflexivity. Qed.
