(* ===== verification/Consensus.v ===== *)
(** * Consensus: who may produce a snapshot block, and when ([consensus/])

    [consensus/hdpos.go]: time is cut into plans of [memberCnt] slots of
    [interval] seconds, counted from the genesis time; slot [n] of a plan belongs
    to member [n].  The arithmetic is Go's: [int32] intervals and indexes,
    [int64] durations, and [Duration.Seconds] in binary64 floating point
    (Stdlib's [SpecFloat]), which rounds. *)
From S2P Require Import Prelude.
From S2P Require Import Common.
From S2P Require Import HashCal.
From S2P Require Import Verifier.
From Stdlib Require Import SpecFloat.

(** ** Durations and floating-point seconds *)

(** [Time.Sub] saturates at the limits of [int64]. *)
Definition Time_Sub (t u : Z) : Z :=
  let d := t - u in
  if decide (d < - 2 ^ 63) then - 2 ^ 63
  else if decide (2 ^ 63 <= d) then 2 ^ 63 - 1 else d.

(** [int64(f)]: truncation towards zero of a float in range. *)
Definition int64_of_float (f : spec_float) : Z :=
  match f with
  | S754_finite s m e =>
      let a := if decide (0 <= e) then Z.pos m * 2 ^ e else Z.pos m / 2 ^ (- e) in
      if (s : bool) then - a else a
  | _ => 0
  end.

(** [Duration.Seconds]: [float64(d / Second) + float64(d % Second) / 1e9]. *)
Definition Duration_Seconds (d : Z) : spec_float :=
  SFadd 53 1024 (float64 (Z.quot d Second)) (SFdiv 53 1024 (float64 (Z.rem d Second)) (float64 1000000000)).

(** ** Plans *)
Definition DefaultMembers : list string := [
  "vite_2ad661b3b5fa90af7703936ba36f8093ef4260aaaeb5f15cf8";
  "vite_1cb2ab2738cd913654658e879bef8115eb1aa61a9be9d15c3a";
  "vite_2ad1b8f936f015fc80a2a5857dffb84b39f7675ab69ae31fc8";
  "vite_85e8adb768aed85f2445eb1d71b933370d2980916baa3c1f3c";
  "vite_93dd41694edd756512da7c4af429f3e875c374a53bfd217e00"].

Definition conv (mems : list string) : list Address := map HexToAddress mems.

Record membersInfo := mkMembersInfo {
  genesisTime : Z;
  memberCnt : Z;
  interval : Z      (* seconds *)
}.

Record memberPlan := mkMemberPlan { plan_sTime : Z; member : Address }.

Record electionResult := mkElectionResult {
  plans : list memberPlan;
  er_sTime : Z;
  er_eTime : Z;
  er_index : Z
}.

(** The loop of [genPlan]: the plans from [sTime] on, and the time after the last. *)
Fixpoint gen_plans (interval sTime : Z) (members : list Address) : list memberPlan * Z :=
  match members with
  | [] => ([], sTime)
  | m :: members =>
      let '(ps, e) := gen_plans interval (sTime + interval * Second) members in
      ({| plan_sTime := sTime; member := m |} :: ps, e)
  end.

Definition genPlan (self : membersInfo) (index : Z) (members : list Address) : electionResult :=
  let planInterval := wrap32 (interval self * memberCnt self) in
  let sTime := genesisTime self + wrap32 (planInterval * index) * Second in
  let '(ps, e) := gen_plans (interval self) sTime members in
  {| plans := ps; er_sTime := sTime; er_eTime := e; er_index := index |}.

Definition time2Index (self : membersInfo) (t : Z) : outcome Z :=
  let subSec := int64_of_float (Duration_Seconds (Time_Sub t (genesisTime self))) in
  let d := wrap32 (interval self * memberCnt self) in
  if decide (d = 0) then Panic "integer divide by zero"
  else Ret (wrap32 (Z.quot subSec d)).

(** ** The teller: elections by index, remembered *)
Record teller := mkTeller {
  info : membersInfo;
  electionHis : gmap Z electionResult
}.

Definition newTeller (genesisTime interval memberCnt : Z) : teller :=
  {| info := {| genesisTime := genesisTime; memberCnt := memberCnt; interval := interval |};
     electionHis := ∅ |}.

(** [voteResults] never fails. *)
Definition voteResults : list Address := conv DefaultMembers.

Definition electionIndex (self : teller) (index : Z) : teller * electionResult :=
  match electionHis self !! index with
  | Some result => (self, result)
  | None =>
      let plans := genPlan (info self) index voteResults in
      ({| info := info self; electionHis := <[index := plans]> (electionHis self) |}, plans)
  end.

Definition electionTime (self : teller) (t : Z) : outcome (teller * electionResult) :=
  index ← time2Index (info self) t;
  Ret (electionIndex self index).

(** [removePrevious]: forget the elections that ended before [rtime]; their number. *)
Definition removePrevious (self : teller) (rtime : Z) : teller * Z :=
  let old := filter (fun '(_, v) => er_eTime v < rtime) (electionHis self) in
  ({| info := info self;
      electionHis := filter (fun '(_, v) => ~ er_eTime v < rtime) (electionHis self) |},
   wrap32 (Z.of_nat (base.size old))).

(** ** The committee *)
Record SubscribeMem := mkSubscribeMem { Mem : Address }.

Record Committee := mkCommittee {
  c_interval : Z;
  c_memberCnt : Z;
  c_teller : teller;
  subscribeMem : option SubscribeMem;
  signer : Address
}.

Definition NewCommittee (genesisTime interval memberCnt : Z) : Committee :=
  mkCommittee interval memberCnt (newTeller genesisTime interval memberCnt) None [].
(** [NewConsensus]: the configured [int]s are cut to [int32] for the teller. *)
Definition NewConsensus (genesisTime Interval MemCnt : Z) : Committee :=
  mkCommittee Interval MemCnt (newTeller genesisTime (wrap32 Interval) (wrap32 MemCnt)) None [].

Definition set_teller (self : Committee) (t : teller) : Committee :=
  mkCommittee (c_interval self) (c_memberCnt self) t (subscribeMem self) (signer self).
Definition Authorize (self : Committee) (s : Address) : Committee :=
  mkCommittee (c_interval self) (c_memberCnt self) (c_teller self) (subscribeMem self) s.
Definition Subscribe (self : Committee) (m : option SubscribeMem) : Committee :=
  mkCommittee (c_interval self) (c_memberCnt self) (c_teller self) m (signer self).
Definition Seal (self : Committee) : error := None.

(** The first plan of a member. *)
Definition find_plan (ps : list memberPlan) (name : string) : option memberPlan :=
  List.find (fun p => bool_decide (Address_String (member p) = name)) ps.

Definition verifyProducer (self : Committee) (header : SnapshotBlock) : outcome (Committee * (bool * error)) :=
  '(t, electionResult) ← electionTime (c_teller self) (Unix (Timestamp header) * Second);
  let self := set_teller self t in
  match find_plan (plans electionResult) (Signer header) with
  | Some plan =>
      if decide (Unix (plan_sTime plan) = Unix (Timestamp header)) then Ret (self, (true, None))
      else Ret (self, (false, None))
  | None => Ret (self, (false, None))
  end.

Definition Verify (self : Committee) (header : SnapshotBlock) : outcome (Committee * (bool * error)) :=
  '(self, (result, err)) ← verifyProducer self header;
  match err with
  | None => if (result : bool) then Ret (self, (true, None)) else Ret (self, (false, None))
  | Some _ => Ret (self, (false, None))
  end.

(** One round of the loop of [update], begun at time [now].  [delivered]: the
    miner took the notification before the plan ended; [now2]: the time at the
    round's end.  The result is the committee, [lastIndex], [lastRemoveTime] and
    the notification sent. *)
Definition update_round (self : Committee) (lastIndex lastRemoveTime now : Z) (delivered : bool) (now2 : Z)
    : outcome (Committee * Z * Z * option Z) :=
  '(t, electionResult) ← electionTime (c_teller self) now;
  let self := set_teller self t in
  if decide (er_index electionResult <= lastIndex) then Ret (self, lastIndex, lastRemoveTime, None)
  else
    match subscribeMem self with
    | None => Ret (self, lastIndex, lastRemoveTime, None)
    | Some mem =>
        let current := find_plan (plans electionResult) (Address_String (Mem mem)) in
        let finish notified :=
          let removeTime := now2 - 3600 * Second in
          if decide (lastRemoveTime < removeTime) then
            (set_teller self (removePrevious (c_teller self) removeTime).1, er_index electionResult,
             removeTime, notified)
          else (self, er_index electionResult, lastRemoveTime, notified) in
        match current with
        | Some plan =>
            if decide (lastIndex <> -1) then
              if delivered then Ret (finish (Some (plan_sTime plan)))
              else Ret (self, lastIndex, lastRemoveTime, None)
            else Ret (finish None)
        | None => Ret (finish None)
        end
    end.

(** ** Whole seconds survive the floating-point conversion *)

Lemma digits2_pos_bounds p :
  2 ^ (Z.pos (digits2_pos p) - 1) <= Z.pos p < 2 ^ Z.pos (digits2_pos p).
Proof.
  induction p as [p IH|p IH|]; cbn [digits2_pos]; [| |done].
  - rewrite Pos2Z.inj_succ, Z.sub_succ_l, !Z.pow_succ_r by lia. lia.
  - rewrite Pos2Z.inj_succ, Z.sub_succ_l, !Z.pow_succ_r by lia. lia.
Qed.

Lemma digits2_pos_le p n : 0 <= n -> Z.pos p < 2 ^ n -> Z.pos (digits2_pos p) <= n.
Proof.
  intros Hn Hp. pose proof (digits2_pos_bounds p) as [Hlo _].
  assert (Hlt : 2 ^ (Z.pos (digits2_pos p) - 1) < 2 ^ n) by lia.
  apply Z.pow_lt_mono_r_iff in Hlt; lia.
Qed.

Lemma iter_xO_value p d : Z.pos (Pos.iter xO p d) = Z.pos p * 2 ^ Z.pos d.
Proof.
  induction d as [|d IH] using Pos.peano_ind; [cbn; lia|].
  rewrite Pos.iter_succ, Pos2Z.inj_succ, Z.pow_succ_r by lia. rewrite Pos2Z.inj_xO, IH. lia.
Qed.

Lemma digits2_pos_iter p d :
  Z.pos (digits2_pos (Pos.iter xO p d)) = Z.pos (digits2_pos p) + Z.pos d.
Proof.
  induction d as [|d IH] using Pos.peano_ind; [cbn; lia|].
  rewrite Pos.iter_succ. cbn [digits2_pos]. rewrite Pos2Z.inj_succ, IH. lia.
Qed.

Lemma round_aux_exact m e :
  Z.pos (digits2_pos m) = 53 -> -1074 <= e <= 971 ->
  binary_round_aux 53 1024 false (Z.pos m) e loc_Exact = S754_finite false m e.
Proof.
  intros Hd He. unfold binary_round_aux, shr_fexp, Zdigits2. cbn [shr_record_of_loc].
  assert (F : fexp 53 1024 (Z.pos (digits2_pos m) + e) - e = 0).
  { unfold fexp, emin. rewrite Hd. lia. }
  rewrite F. cbn [shr shr_m loc_of_shr_record round_nearest_even Zdigits2]. rewrite F. cbn [shr shr_m shr_record_of_loc].
  replace (e <=? 1024 - 53) with true by lia. done.
Qed.

Lemma int64_float64 z : 0 <= z < 2 ^ 53 -> int64_of_float (float64 z) = z.
Proof.
  intros Hz. destruct z as [|m|m]; [done| |lia].
  unfold float64. cbn [binary_normalize]. unfold binary_round.
  pose proof (digits2_pos_le m 53 ltac:(lia) ltac:(lia)) as Hd.
  set (d := digits2_pos m) in *. unfold fexp, emin.
  replace (Z.max (Z.pos d + 0 - 53) (3 - 1024 - 53)) with (Z.pos d - 53) by lia.
  unfold shl_align. rewrite Z.sub_0_r.
  destruct (Z.pos d - 53) as [|p|p] eqn:E; [|lia|].
  - rewrite round_aux_exact by lia. cbn [int64_of_float]. rewrite decide_True by lia. lia.
  - rewrite round_aux_exact by (rewrite ?digits2_pos_iter; fold d; lia). cbn [int64_of_float].
    rewrite decide_False by lia. rewrite iter_xO_value. change (- Z.neg p) with (Z.pos p).
    apply Z.div_mul. pose proof (Z.pow_pos_nonneg 2 (Z.pos p)). lia.
Qed.

Lemma Seconds_whole k : 0 <= k < 2 ^ 53 -> int64_of_float (Duration_Seconds (k * Second)) = k.
Proof.
  intros Hk. unfold Duration_Seconds. rewrite Z.quot_mul, Z.rem_mul by done.
  change (SFdiv 53 1024 (float64 0) (float64 1000000000)) with (S754_zero false).
  transitivity (int64_of_float (float64 k)); [|by apply int64_float64].
  by destruct (float64 k) as [[]|[]| |].
Qed.

(** Near the end of a second the conversion rounds up: 388 days after genesis,
    the last nanosecond of plan 0 counts for the next one. *)
Example time2Index_rounds_up :
  time2Index (mkMembersInfo 0 33554432 1) (33554432 * Second - 1) = Ret 1 /\
  time2Index (mkMembersInfo 0 33554432 1) (33554432 * Second - Second) = Ret 0.
Proof. split; vm_compute; reflexivity. Qed.

(** ** Plans in closed form *)
Lemma gen_plans_fst iv sTime ms j m :
  ms !! j = Some m ->
  fst (gen_plans iv sTime ms) !! j = Some (mkMemberPlan (sTime + Z.of_nat j * iv * Second) m).
Proof.
  revert sTime j. induction ms as [|m0 ms IH]; intros sTime j Hj; [done|]. cbn [gen_plans].
  specialize (IH (sTime + iv * Second)). destruct (gen_plans iv (sTime + iv * Second) ms) as [ps e].
  cbn [fst] in *. destruct j as [|j]; cbn in *.
  - injection Hj as <-. f_equal. f_equal. lia.
  - etrans; [exact (IH _ Hj)|]. f_equal. f_equal. lia.
Qed.

Lemma gen_plans_members iv sTime ms : map member (fst (gen_plans iv sTime ms)) = ms.
Proof.
  revert sTime. induction ms as [|m0 ms IH]; intros sTime; [done|]. cbn [gen_plans].
  specialize (IH (sTime + iv * Second)). destruct (gen_plans _ _ ms) as [ps e]. cbn in *. by rewrite IH.
Qed.

Lemma gen_plans_end iv sTime ms :
  snd (gen_plans iv sTime ms) = sTime + Z.of_nat (length ms) * iv * Second.
Proof.
  revert sTime. induction ms as [|m0 ms IH]; intros sTime; cbn [gen_plans length]; [cbn; lia|].
  specialize (IH (sTime + iv * Second)). destruct (gen_plans _ _ ms) as [ps e]. cbn in *. lia.
Qed.

(** A plan's time never needs the wrap-around within the first 2^31 seconds. *)
Lemma genPlan_slot mi index ms j m :
  in32 (interval mi * memberCnt mi) -> in32 (interval mi * memberCnt mi * index) ->
  ms !! j = Some m ->
  plans (genPlan mi index ms) !! j =
  Some (mkMemberPlan (genesisTime mi +
          (interval mi * memberCnt mi * index + Z.of_nat j * interval mi) * Second) m).
Proof.
  intros H1 H2 Hj. unfold genPlan. rewrite (wrap32_id _ H1), (wrap32_id _ H2).
  set (t := genesisTime mi + _). pose proof (gen_plans_fst (interval mi) t ms j m Hj) as E.
  destruct (gen_plans (interval mi) t ms) as [ps e]. cbn [fst plans] in *. rewrite E.
  f_equal. f_equal. unfold t. lia.
Qed.

Lemma find_plan_spec ps name :
  NoDup (map (fun p => Address_String (member p)) ps) ->
  forall p, find_plan ps name = Some p <->
    exists j, ps !! j = Some p /\ Address_String (member p) = name.
Proof.
  unfold find_plan. induction ps as [|p0 ps IH]; intros Hn p; cbn.
  { split; [done|]. intros (j & Hj & _). done. }
  inversion Hn as [|? ? Hnotin Hn']; subst. case_bool_decide as E.
  - split; [intros [= <-]; by exists 0%nat|]. intros ([|j] & Hj & Ep); cbn in Hj; [done|].
    destruct Hnotin. rewrite E, <- Ep. apply (list_elem_of_fmap_2 (fun p => Address_String (member p))).
    by eapply list_elem_of_lookup_2.
  - rewrite IH by done. split.
    + intros (j & Hj & Ep). by exists (S j).
    + intros ([|j] & Hj & Ep); cbn in Hj; [congruence|]. by exists j.
Qed.

(** What the teller remembers is what it would compute. *)
Definition history_ok (t : teller) : Prop :=
  map_Forall (fun k r => r = genPlan (info t) k voteResults) (electionHis t).

Lemma electionIndex_spec t k :
  history_ok t ->
  snd (electionIndex t k) = genPlan (info t) k voteResults /\
  history_ok (fst (electionIndex t k)) /\ info (fst (electionIndex t k)) = info t.
Proof.
  intros Hh. unfold electionIndex. destruct (electionHis t !! k) as [r|] eqn:E; cbn.
  - split; [|done]. by apply Hh.
  - split; [done|]. split; [|done]. unfold history_ok. cbn. by apply map_Forall_insert_2.
Qed.

Lemma removePrevious_history t r : history_ok t -> history_ok (fst (removePrevious t r)).
Proof.
  intros Hh k v Hv. cbn in *. apply map_lookup_filter_Some in Hv as [Hv _]. by apply Hh.
Qed.

(** The index of a whole second after genesis. *)
Lemma time2Index_whole mi g0 k :
  genesisTime mi = g0 * Second -> 0 <= k < 2 ^ 31 ->
  0 < interval mi * memberCnt mi < 2 ^ 31 ->
  time2Index mi ((g0 + k) * Second) = Ret (k / (interval mi * memberCnt mi)).
Proof.
  intros Hg Hk Hd. unfold time2Index. rewrite Hg. unfold Time_Sub.
  replace ((g0 + k) * Second - g0 * Second) with (k * Second) by lia.
  rewrite (decide_False (P := k * Second < _)), (decide_False (P := _ <= k * Second)) by (unfold Second; lia).
  rewrite Seconds_whole by lia. rewrite wrap32_id by (unfold in32; lia).
  rewrite decide_False by lia. f_equal. rewrite Z.quot_div_nonneg by lia. apply wrap32_id.
  unfold in32. pose proof (Z.div_pos k (interval mi * memberCnt mi)).
  pose proof (Z.div_le_upper_bound k (interval mi * memberCnt mi) k). nia.
Qed.

Lemma members_nodup : NoDup (map Address_String voteResults).
Proof. apply (bool_decide_unpack _). vm_compute. exact I. Qed.

Lemma slot_of k iv n j :
  0 < iv -> 0 < n -> 0 <= j < n ->
  iv * n * (k / (iv * n)) + j * iv = k <-> k mod iv = 0 /\ (k / iv) mod n = j.
Proof.
  intros Hiv Hn Hj. pose proof (Z.rem_mul_r k iv n ltac:(lia) Hn) as E.
  pose proof (Z.div_mod k (iv * n) ltac:(nia)) as D.
  pose proof (Z.mod_pos_bound k iv Hiv). pose proof (Z.mod_pos_bound (k / iv) n Hn).
  split.
  - intros Hk. assert (k mod iv + iv * ((k / iv) mod n) = j * iv) as Hx by lia.
    assert (Hq : (k / iv) mod n = j) by nia. split; [nia|done].
  - intros [H1 H2]. rewrite H1, H2 in E. lia.
Qed.

(** The plans of the five default members, [i] of them having gone by. *)
Section default_plans.
Context (mi : membersInfo) (g0 iv i : Z).
Context (Hg : genesisTime mi = g0 * Second) (Hiv : interval mi = iv) (Hn : memberCnt mi = 5).
Context (Hpos : 0 < iv) (Hmax : 5 * iv < 2 ^ 31) (Hi : 0 <= 5 * iv * i < 2 ^ 31).

Let ps := plans (genPlan mi i voteResults).

Definition slot_plan (j : nat) (m : string) : memberPlan :=
  mkMemberPlan ((g0 + (5 * iv * i + Z.of_nat j * iv)) * Second) (HexToAddress m).

Lemma default_plans_lookup j m : DefaultMembers !! j = Some m -> ps !! j = Some (slot_plan j m).
Proof using All.
  intros Hj. assert (Hd : interval mi * memberCnt mi = 5 * iv) by lia.
  unfold ps. rewrite (genPlan_slot mi i voteResults j (HexToAddress m)).
  - unfold slot_plan. rewrite Hd, Hg, Hiv. f_equal. f_equal. lia.
  - unfold in32. lia.
  - rewrite Hd. unfold in32. lia.
  - unfold voteResults, conv. by rewrite list_lookup_fmap, Hj.
Qed.

Lemma default_plans_members : map member ps = voteResults.
Proof using All.
  unfold ps, genPlan. cbv zeta.
  pose proof (gen_plans_members (interval mi)
    (genesisTime mi + wrap32 (wrap32 (interval mi * memberCnt mi) * i) * Second) voteResults) as E.
  by destruct (gen_plans _ _ _).
Qed.

Lemma default_plans_find name p :
  find_plan ps name = Some p <-> exists j, DefaultMembers !! j = Some name /\ p = slot_plan j name.
Proof using All.
  rewrite find_plan_spec.
  2: { rewrite <- (map_map member Address_String), default_plans_members. apply members_nodup. }
  split.
  - intros (j & Hj & Ep).
    assert (Hlen : length ps = 5%nat) by (by rewrite <- (length_map member ps), default_plans_members).
    destruct (lookup_lt_is_Some_2 DefaultMembers j) as [m Em].
    { apply lookup_lt_Some in Hj. rewrite Hlen in Hj. exact Hj. }
    rewrite (default_plans_lookup j m Em) in Hj. injection Hj as <-.
    cbn [slot_plan member] in Ep. rewrite Address_String_HexToAddress in Ep. subst m. by exists j.
  - intros (j & Em & ->). exists j. split; [by apply default_plans_lookup|].
    apply Address_String_HexToAddress.
Qed.
End default_plans.

Lemma Unix_seconds x : Unix (x * Second) = x.
Proof. unfold Unix. by apply Z.div_mul. Qed.

(** Slot [j] of the running plan is at second [k] exactly when it is [j]'s turn. *)
Lemma turn_of k iv name :
  0 < iv ->
  (exists j, DefaultMembers !! j = Some name /\ 5 * iv * (k / (5 * iv)) + Z.of_nat j * iv = k) <->
  k mod iv = 0 /\ DefaultMembers !! Z.to_nat ((k / iv) mod 5) = Some name.
Proof.
  intros Hiv. replace (5 * iv) with (iv * 5) by lia. split.
  - intros (j & Hj & Ek). assert (Hj5 : (j < 5)%nat) by (apply lookup_lt_Some in Hj; cbn in Hj; lia).
    apply slot_of in Ek as [E1 E2]; [|lia..]. rewrite E2, Nat2Z.id. done.
  - intros [E1 E2]. exists (Z.to_nat ((k / iv) mod 5)). split; [done|].
    pose proof (Z.mod_pos_bound (k / iv) 5 ltac:(lia)). apply slot_of; [lia..|].
    rewrite Z2Nat.id by lia. done.
Qed.

(** C21: the producer of a second is decided by arithmetic alone.  For a committee
    of the five default members with a positive interval, genesis at a whole
    second, and a header within 2^31 seconds after it, [verifyProducer] returns,
    and accepts the header exactly when its time is a multiple of the interval
    after genesis and its signer is the member whose turn it is (the number of
    the slot modulo five); what earlier calls left in the teller's memory, and
    what [removePrevious] has dropped from it, makes no difference. *)
Theorem verifyProducer_iff_slot (self : Committee) header g0 iv :
  let mi := info (c_teller self) in
  let k := Unix (Timestamp header) - g0 in
  history_ok (c_teller self) -> genesisTime mi = g0 * Second -> interval mi = iv -> memberCnt mi = 5 ->
  0 < iv -> 5 * iv < 2 ^ 31 -> 0 <= k < 2 ^ 31 ->
  exists self' b, verifyProducer self header = Ret (self', (b, None)) /\
    (b = true <-> k mod iv = 0 /\ DefaultMembers !! Z.to_nat ((k / iv) mod 5) = Some (Signer header)) /\
    history_ok (c_teller self') /\ info (c_teller self') = mi /\
    forall r, history_ok (fst (removePrevious (c_teller self') r)).
Proof.
  intros mi k Hh Hg Hiv Hn Hpos Hmax Hk. unfold verifyProducer, electionTime.
  replace (Unix (Timestamp header)) with (g0 + k) by (unfold k; lia).
  fold mi. rewrite (time2Index_whole mi g0 k Hg Hk), bind_ret_l by lia.
  replace (interval mi * memberCnt mi) with (5 * iv) by lia.
  assert (Hi : 0 <= 5 * iv * (k / (5 * iv)) < 2 ^ 31).
  { pose proof (Z.div_pos k (5 * iv)). pose proof (Z.mul_div_le k (5 * iv)). nia. }
  set (i := k / (5 * iv)) in *.
  destruct (electionIndex_spec (c_teller self) i Hh) as (Er & Eh & Ei).
  destruct (electionIndex (c_teller self) i) as [t r]. cbn [fst snd] in *. subst r.
  rewrite bind_ret_l. fold mi. setoid_rewrite <- (turn_of k iv (Signer header) Hpos). fold i.
  pose proof (default_plans_find mi g0 iv i Hg Hiv Hn Hpos Hmax Hi (Signer header)) as Hfind.
  destruct (find_plan (plans (genPlan mi i voteResults)) (Signer header)) as [p|].
  - destruct (proj1 (Hfind p) eq_refl) as (j & Em & ->). cbn [slot_plan plan_sTime].
    rewrite Unix_seconds.
    exists (set_teller self t), (bool_decide (g0 + (5 * iv * i + Z.of_nat j * iv) = g0 + k)).
    split; [case_decide; case_bool_decide; tauto || done|].
    split; [|split_and!; [done|done|intros r; by apply removePrevious_history]].
    rewrite bool_decide_eq_true. split; [intros Ht; exists j; split; [done|lia]|].
    intros (j' & Hj' & Ek). assert (j' = j) as ->; [|lia].
    eapply (NoDup_lookup DefaultMembers); [|exact Hj'|exact Em].
    apply (bool_decide_unpack _). vm_compute. exact I.
  - eexists _, _. split; [reflexivity|].
    split; [|split_and!; [done|done|intros r; by apply removePrevious_history]].
    split; [done|]. intros (j & Hj & _). exfalso.
    assert (E : None = Some (slot_plan g0 iv i j (Signer header))) by (apply Hfind; by exists j). done.
Qed.

Definition testCommittee : Committee := NewCommittee (1533550878 * Second) 6 5.
Definition testHeader : SnapshotBlock :=
  NewSnapshotBlock 1 "" "" "vite_2ad1b8f936f015fc80a2a5857dffb84b39f7675ab69ae31fc8"
    ((1533550878 + 42) * Second) [].

Lemma verifyProducer_iff_slot_witness :
  exists self', verifyProducer testCommittee testHeader = Ret (self', (true, None)).
Proof.
  destruct (verifyProducer_iff_slot testCommittee testHeader 1533550878 6) as (self' & b & E & Hb & _).
  - apply map_Forall_empty.
  - reflexivity.
  - reflexivity.
  - reflexivity.
  - reflexivity.
  - reflexivity.
  - vm_compute. split; [discriminate | reflexivity].
  - exists self'. rewrite E. replace b with true; [reflexivity|]. symmetry. apply Hb.
    vm_compute. split; reflexivity.
Defined.

(** A committee notifies the miner at most once per plan, and never in the
    first plan it sees.  A round of [update] that sends a notification had seen a
    plan before, is in a later plan than the last one it finished, notifies the
    start of the subscribed member's own slot, and finishes the plan: from then
    on the last index is that of this plan, so that a later round in it does
    nothing.  A round whose notification times out does not finish the plan. *)
Theorem update_notifies_once (self self' : Committee) lastIndex lastRemove now delivered now2 li lr t :
  update_round self lastIndex lastRemove now delivered now2 = Ret (self', li, lr, Some t) ->
  lastIndex <> -1 /\ delivered = true /\ lastIndex < li /\
  (exists mem p, subscribeMem self = Some mem /\ plan_sTime p = t /\
     Address_String (member p) = Address_String (Mem mem)) /\
  forall now' delivered' now2', time2Index (info (c_teller self)) now' = Ret li ->
    history_ok (c_teller self) ->
    exists self'', update_round self' li lr now' delivered' now2' = Ret (self'', li, lr, None).
Proof.
  unfold update_round at 1, electionTime.
  intros ([t1 er] & E1 & E)%bind_ret_inv. apply bind_ret_inv in E1 as (index & Ei & E1).
  assert (E1' : electionIndex (c_teller self) index = (t1, er)) by congruence. clear E1.
  case_decide as Hlast; [done|]. cbn [set_teller subscribeMem] in E.
  destruct (subscribeMem self) as [mem|] eqn:Em; [|done].
  destruct (find_plan (plans er) (Address_String (Mem mem))) as [p|] eqn:Ep; [|by case_decide].
  case_decide as Hne; [|by case_decide]. destruct delivered; [|done].
  assert (Hfin : li = er_index er /\ plan_sTime p = t /\ info (c_teller self') = info t1 /\
    (history_ok t1 -> history_ok (c_teller self'))).
  { case_decide; injection E as <- <- <- <-; (split; [done|]); (split; [done|]); split; try done.
    intros Hh. by apply (removePrevious_history t1). }
  destruct Hfin as (-> & Ht & Hinfo & Hhist). split_and!; [done|done|lia| |].
  - exists mem, p. split_and!; [done|done|].
    apply List.find_some in Ep as [_ Ep]. by apply bool_decide_eq_true in Ep.
  - intros now' delivered' now2' Hi Hh.
    destruct (electionIndex_spec (c_teller self) index Hh) as (F1 & F2 & F3). rewrite E1' in F1, F2, F3.
    cbn [fst snd] in *. unfold update_round, electionTime. rewrite Hinfo, F3, Hi, bind_ret_l.
    destruct (electionIndex_spec (c_teller self') (er_index er) (Hhist F2)) as (G1 & _ & _).
    destruct (electionIndex (c_teller self') (er_index er)) as [t2 er2]. cbn [snd] in G1. rewrite bind_ret_l.
    assert (Hr : er_index er2 = er_index er).
    { rewrite G1. unfold genPlan. by destruct (gen_plans _ _ _). }
    rewrite decide_True by lia. by eexists.
Qed.

Lemma update_notifies_once_witness :
  exists self' li lr t,
    update_round (Subscribe testCommittee (Some (mkSubscribeMem (HexToAddress (Signer testHeader)))))
      0 0 ((1533550878 + 31) * Second) true 0 = Ret (self', li, lr, Some t) /\ 0 < li /\
    t = (1533550878 + 42) * Second.
Proof.
  destruct (update_round (Subscribe testCommittee (Some (mkSubscribeMem (HexToAddress (Signer testHeader)))))
      0 0 ((1533550878 + 31) * Second) true 0) as [[[[self' li] lr] [t|]]| |] eqn:E;
    [|vm_compute in E; discriminate E..].
  exists self', li, lr, t. split; [reflexivity|].
  destruct (update_notifies_once _ _ _ _ _ _ _ _ _ _ E) as (_ & _ & Hl & _).
  split; [exact Hl|]. vm_compute in E. injection E as _ _ _ <-. reflexivity.
Defined.
