(* ===== verification/Ledger.v ===== *)
(** * Ledger: producing blocks for the node's own accounts ([ledger/])

    [reqPool] models [ledger/req_pool.go], the listener that keeps the requests
    (send blocks) of every target account; [ledger] models [ledger/ledger.go].
    The ledger shares one [sync.RWMutex] with the pool; broadcasts are collected
    in the order they are sent. *)
From S2P Require Import Prelude.
From S2P Require Import Common.
From S2P Require Import HashCal.
From S2P Require Import Store.
From S2P Require Import Chain.
From S2P Require Import Reader.
From S2P Require Import Verifier.
From S2P Require Import BCPool.
From S2P Require Import Pools.
From S2P Require Import Sync.

(** ** Requests *)
Record Req := mkReq {
  ReqHash : string;
  acc : option AccountHashH;
  state : Z;                (* 0: dirty  1: confirmed  2: unconfirmed *)
  req_Amount : Z;
  req_From : string
}.

(** [reqPool.accounts]: the requests of every target account, by hash. *)
Definition reqPool : Type := gmap string (gmap string Req).
Definition newReqPool : reqPool := ∅.

Definition account (self : reqPool) (address : string) : option (gmap string Req) := self !! address.

Definition getReq (self : reqPool) (address sourceHash : string) : option Req :=
  match account self address with
  | None => None
  | Some reqs => reqs !! sourceHash
  end.

(** Write through the pointer [getReq] returned. *)
Definition put_req (self : reqPool) (address sourceHash : string) (r : Req) : reqPool :=
  match account self address with
  | None => self
  | Some reqs => <[address := <[sourceHash := r]> reqs]> self
  end.
Definition set_state (r : Req) (s : Z) : Req :=
  {| ReqHash := ReqHash r; acc := acc r; state := s; req_Amount := req_Amount r; req_From := req_From r |}.

Definition blockInsert (self : reqPool) (b : AccountStateBlock) : outcome reqPool :=
  if decide (a_BlockType b = SEND) then
    let req := {| ReqHash := Hash b; acc := None; state := 2; req_Amount := ModifiedAmount b;
                  req_From := From b |} in
    let reqs := match account self (To b) with None => ∅ | Some reqs => reqs end in
    Ret (<[To b := <[ReqHash req := req]> reqs]> self)
  else if decide (a_BlockType b = RECEIVED) then
    req ← deref (getReq self (To b) (SourceHash b)) "nil dereference";
    Ret (put_req self (To b) (SourceHash b)
      {| ReqHash := ReqHash req; acc := Some (NewAccountHashH (To b) (Hash b) (Height b)); state := 1;
         req_Amount := req_Amount req; req_From := req_From req |})
  else Ret self.

Definition blockRollback (self : reqPool) (b : AccountStateBlock) : outcome reqPool :=
  if decide (a_BlockType b = SEND) then
    req ← deref (getReq self (To b) (Hash b)) "nil dereference";
    Ret (put_req self (To b) (Hash b) (set_state req 0))
  else if decide (a_BlockType b = RECEIVED) then
    req ← deref (getReq self (To b) (SourceHash b)) "nil dereference";
    Ret (put_req self (To b) (SourceHash b) (set_state req 2))
  else Ret self.

#[export] Instance reqPool_ChainListener : ChainListener reqPool := {|
  AccountInsertCallback l address b := blockInsert l b;
  AccountRemoveCallback l address b := blockRollback l b
|}.

(** The requests of an account that are not confirmed. *)
Definition getReqs (order : gmap string Req -> list (string * Req)) (self : reqPool) (address : string)
    : list Req :=
  match account self address with
  | None => []
  | Some reqs => filter (fun req => state req <> 1) (snd <$> order reqs)
  end.

Definition confirmed (self : reqPool) (address sourceHash : string) : option AccountHashH :=
  match account self address with
  | None => None
  | Some reqs =>
      match reqs !! sourceHash with
      | Some req => if decide (state req = 1) then acc req else None
      | None => None
      end
  end.

(** ** The read-write mutex, as one goroutine uses it

    [Lock] and [RLock] block while a writer holds the mutex.  When it is the
    calling goroutine itself that holds it, nobody will ever release it: the call
    does not return. *)
Record RWMutex := mkRWMutex { writer : bool; readers : Z }.
Definition Lock (m : RWMutex) : outcome RWMutex :=
  if decide (writer m = true \/ 0 < readers m) then Diverge else Ret {| writer := true; readers := 0 |}.
Definition Unlock (m : RWMutex) : RWMutex := {| writer := false; readers := readers m |}.
Definition RLock (m : RWMutex) : outcome RWMutex :=
  if decide (writer m = true) then Diverge else Ret {| writer := false; readers := readers m + 1 |}.
Definition RUnlock (m : RWMutex) : RWMutex := {| writer := writer m; readers := readers m - 1 |}.

(** ** The ledger *)
Inductive broadcast :=
| BroadcastSnapshotBlocks (blocks : list SnapshotBlock)
| BroadcastAccountBlocks (address : string) (blocks : list AccountStateBlock).

Section ledger.
Context {St : Type} `{Stack St}.

Record ledger := mkLedger {
  bpool : pool St reqPool;      (* the pool and, in it, the block chain with the request pool *)
  rwMutex : RWMutex;
  sent : list broadcast
}.

Definition lbc (self : ledger) : Blockchain.blockchain St reqPool := bc (bpool self).

(** [NewLedger] and [Init] on a new block chain. *)
Definition NewLedger_Init : outcome ledger :=
  b ← (Blockchain.NewChain newReqPool : outcome (Blockchain.blockchain St reqPool));
  p ← NewPool_Init b;
  Ret {| bpool := set_bc p (Blockchain.SetChainListener b (Some newReqPool));
         rwMutex := mkRWMutex false 0; sent := [] |}.

Definition GetAccountBalance (self : ledger) (address : string) : Z :=
  match fst (reader_HeadAccount (lbc self) address) with
  | Some head => Amount head
  | None => 0
  end.

Definition send (self : ledger) (p : pool St reqPool) (m : RWMutex) (b : list broadcast) : ledger :=
  {| bpool := p; rwMutex := m; sent := sent self ++ b |}.

(** The pool's entry points take the read lock. *)
Definition locked_AddDirectSnapshotBlock (now : Z) (m : RWMutex) (p : pool St reqPool) (b : SnapshotBlock)
    : outcome (RWMutex * pool St reqPool * error) :=
  m ← RLock m;
  '(p, e) ← AddDirectSnapshotBlock now p b;
  Ret (RUnlock m, p, e).
Definition locked_AddDirectAccountBlock (now : Z) (m : RWMutex) (p : pool St reqPool) (address : string)
    (b : AccountStateBlock) : outcome (RWMutex * pool St reqPool * error) :=
  m ← RLock m;
  '(p, e) ← AddDirectAccountBlock now p address b;
  Ret (RUnlock m, p, e).

Definition MiningSnapshotBlock
    (order : gmap string (AccountChain.accountChain St) -> list (string * AccountChain.accountChain St))
    (now : Z) (self : ledger) (address : string) (timestamp : Z) : outcome (ledger * error) :=
  m ← Lock (rwMutex self);
  '(hashH, accounts, err) ← Blockchain.NextAccountSnapshot order (lbc self);
  match err with
  | Some err => Ret (send self (bpool self) (Unlock m) [], Some err)
  | None =>
      let b := NewSnapshotBlock (hh_Height hashH + 1) "" (hh_Hash hashH) address
                 (timestamp * 1000000000) accounts in
      let b := s_SetHash b (CalculateSnapshotHash b) in
      '(m, p, err) ← locked_AddDirectSnapshotBlock now m (bpool self) b;
      match err with
      | Some err => Ret (send self p (Unlock m) [], Some err)
      | None => Ret (send self p (Unlock m) [BroadcastSnapshotBlocks [b]], None)
      end
  end.

(** [RequestAccountBlock]: the send block, and its way to the chain. *)
Definition requestBlock (now : Z) (self : ledger) (from to : string) (amount : Z) : outcome AccountStateBlock :=
  let headAccount := fst (reader_HeadAccount (lbc self) from) in
  headSnapshot ← deref (fst (reader_HeadSnapshot (lbc self))) "nil dereference";
  let newBlock := NewAccountBlockFrom headAccount from now amount headSnapshot SEND from to "" (-1) in
  Ret (a_SetHash newBlock (CalculateAccountHash newBlock)).

Definition addOwnBlock (now : Z) (self : ledger) (address : string) (b : AccountStateBlock)
    : outcome (ledger * error) :=
  '(m, p, err) ← locked_AddDirectAccountBlock now (rwMutex self) (bpool self) address b;
  Ret (send self p m (match err with None => [BroadcastAccountBlocks address [b]] | Some _ => [] end), err).

Definition RequestAccountBlock (now : Z) (self : ledger) (from to : string) (amount : Z)
    : outcome (ledger * error) :=
  b ← requestBlock now self from to amount;
  addOwnBlock now self from b.

(** The received block that answers the send block [reqBlock]. *)
Definition responseBlock (now : Z) (self : ledger) (from to reqHash : string) (reqBlock : AccountStateBlock)
    : outcome AccountStateBlock :=
  let '(prevHeight, prevHash, prevAmount) :=
    match fst (reader_HeadAccount (lbc self) to) with
    | Some prev => (Height prev, Hash prev, Amount prev)
    | None => (-1, "", 0)
    end in
  snapshotBlock ← deref (fst (reader_HeadSnapshot (lbc self))) "nil dereference";
  let modifiedAmount := wrap64 (- ModifiedAmount reqBlock) in
  let b := NewAccountBlock (prevHeight + 1) "" prevHash to now (wrap64 (prevAmount + modifiedAmount))
             modifiedAmount (Height snapshotBlock) (Hash snapshotBlock) RECEIVED from to reqHash
             (Height reqBlock) in
  Ret (a_SetHash b (CalculateAccountHash b)).

Definition ResponseAccountBlock (now : Z) (self : ledger) (from to reqHash : string)
    : outcome (ledger * error) :=
  match reader_GetAccountByHash (lbc self) from reqHash with
  | None => Ret (self, Some ("not exist for account[" +:+ from +:+ "]block[" +:+ reqHash +:+ "]"))
  | Some b =>
      if decide (Hash b <> reqHash)
      then Ret (self, Some ("GetByHashError, ReqHash:" +:+ reqHash +:+ ", RealHash:" +:+ Hash b))
      else
        block ← responseBlock now self from to reqHash b;
        addOwnBlock now self to block
  end.

Definition ListRequest (order : gmap string Req -> list (string * Req)) (self : ledger) (address : string)
    : list Req := getReqs order (Blockchain.listenerState (lbc self)) address.

(** The blocks below the head, read one by one, then the head. *)
Fixpoint list_snapshots (bc : Blockchain.blockchain St reqPool) (i : Z) (n : nat)
    : outcome (list (option SnapshotBlock)) :=
  match n with
  | O => Ret []
  | S n =>
      b ← reader_GetSnapshotByHeight bc i;
      bs ← list_snapshots bc (i + 1) n;
      Ret (b :: bs)
  end.
Definition ListSnapshotBlock (self : ledger) : outcome (list (option SnapshotBlock)) :=
  match fst (reader_HeadSnapshot (lbc self)) with
  | None => Ret []
  | Some head =>
      blocks ← list_snapshots (lbc self) 0 (Z.to_nat (Height head));
      Ret (if decide (0 <= Height head) then blocks ++ [Some head] else blocks)
  end.

Definition ListAccountBlock (self : ledger) (address : string) : list (option AccountStateBlock) :=
  match fst (reader_HeadAccount (lbc self) address) with
  | None => []
  | Some head =>
      let blocks := map (fun i => reader_GetAccountByHeight (lbc self) address (Z.of_nat i))
                        (seq 0 (Z.to_nat (Height head))) in
      if decide (0 <= Height head) then blocks ++ [Some head] else blocks
  end.
End ledger.
Arguments ledger St : clear implicits.

(** ** The wallet ([wallet/wallet.go]) *)
Module Wallet.
Record wallet := mkWallet { accounts : gmap string string; current : string }.

Definition NewWallet : wallet := mkWallet ∅ "".

(** [Accounts]: the addresses, sorted ([sort.Strings] of distinct strings). *)
Definition Accounts (self : wallet) : list string := merge_sort string_le (map fst (map_to_list (accounts self))).

Definition SetCoinBase (self : wallet) (address : string) : wallet :=
  mkWallet (<[address := address]> (accounts self)) address.

Definition CoinBase (self : wallet) : wallet * string :=
  if decide (current self = "") then
    match Accounts self with
    | a :: _ => (mkWallet (accounts self) a, a)
    | [] => (self, "")
    end
  else (self, current self).

Definition CreateAccount (self : wallet) (address : string) : wallet * string :=
  (mkWallet (<[address := address]> (accounts self)) (current self), address).

Definition Sign {A} (self : wallet) (address : string) (data : A) : A := data.
End Wallet.
