(* ===== verification/LedgerSpec.v ===== *)
(** * LedgerSpec: what the ledger's blocks achieve

    Mining never returns; the answer to a request verifies; one request can be
    answered by two accounts; a received block without its request stops the
    node. *)
From S2P Require Import Prelude.
From S2P Require Import Common.
From S2P Require Import HashCal.
From S2P Require Import Store.
From S2P Require Import Chain.
From S2P Require Import Reader.
From S2P Require Import Verifier.
From S2P Require Import VerifierSpec.
From S2P Require Import BCPool.
From S2P Require Import Pools.
From S2P Require Import Ledger.

(** The call would have to lock the mutex for reading while it holds it for writing. *)
Lemma mining_not_ret {St} `{Stack St} order now (self : ledger St) address timestamp r :
  MiningSnapshotBlock order now self address timestamp <> Ret r.
Proof.
  intros E. unfold MiningSnapshotBlock in E.
  apply bind_ret_inv in E as (m & Em & E). unfold Lock in Em. case_decide; [done|]. injection Em as <-.
  apply bind_ret_inv in E as ([[hashH accs] err] & En & E).
  assert (err = None) as ->.
  { unfold Blockchain.NextAccountSnapshot in En. apply bind_ret_inv in En as (a & _ & En).
    apply bind_ret_inv in En as (hd & _ & En). by injection En. }
  apply bind_ret_inv in E as ([[m' p] e] & E & _).
  unfold locked_AddDirectSnapshotBlock in E. apply bind_ret_inv in E as (m'' & E & _).
  unfold RLock in E. by case_decide.
Qed.

(** If the accounts of the next snapshot can be collected, it waits for itself. *)
Lemma mining_diverges {St} `{Stack St} order now (self : ledger St) address timestamp :
  returns (Blockchain.NextAccountSnapshot order (lbc self)) ->
  MiningSnapshotBlock order now self address timestamp = Diverge.
Proof.
  intros [[[hashH accs] err] En]. unfold MiningSnapshotBlock, Lock. case_decide; [done|].
  rewrite bind_ret_l, En, bind_ret_l. destruct err as [err|].
  - exfalso. unfold Blockchain.NextAccountSnapshot in En. apply bind_ret_inv in En as (a & _ & En).
    apply bind_ret_inv in En as (hd & _ & En). by injection En.
  - done.
Qed.

(** A node never mines a snapshot block.  [MiningSnapshotBlock] takes the
    write lock of the mutex it shares with the pool and, holding it, calls
    [AddDirectSnapshotBlock], which takes the read lock of the same mutex: for no
    ledger, address, time and accounts does the call return. *)
Theorem mining_never_returns {St} `{Stack St} order now (self : ledger St) address timestamp :
  ~ returns (MiningSnapshotBlock order now self address timestamp).
Proof. intros [r E]. by eapply mining_not_ret. Qed.

Section response.
Context {St : Type} `{HS : Stack St}.

(** C17: the block that answers a request verifies.  Let [req] be a send block of
    [from] that the chain holds under its hash and height, not yet received by
    [to], whose account has a head; let the snapshot head be on the chain and not
    older than the two blocks, and the sum of the balance and the sent amount fit.
    Then [ResponseAccountBlock]'s block verifies: it continues the account, adds
    exactly the sent amount, and names [req]. *)
Theorem response_block_verifies v now (self : ledger St) from to reqHash (req prev : AccountStateBlock) sn :
  let bc := lbc self in
  reader_GetAccountByHash bc from reqHash = Some req -> Hash req = reqHash ->
  reader_GetAccountByHeight bc from (Height req) = Some req ->
  fst (reader_HeadAccount bc to) = Some prev -> 0 <= Height prev ->
  fst (reader_HeadSnapshot bc) = Some sn ->
  reader_GetSnapshotByHashH bc (mkHashHeight (Hash sn) (Height sn)) = Some sn ->
  a_SnapshotHeight prev <= Height sn -> a_SnapshotHeight req <= Height sn ->
  reader_GetAccountBySourceHash bc to reqHash = Ret None ->
  - 2 ^ 63 < ModifiedAmount req <= 0 -> 0 < Amount prev - ModifiedAmount req < 2 ^ 63 ->
  exists b stat, responseBlock now self from to reqHash req = Ret b /\
    AccountVerifier.VerifyReferred v now bc b = Ret stat /\
    AccountVerifier.VerifyResult_ stat = SUCCESS /\
    Signer b = to /\ PreHash b = Hash prev /\ SourceHash b = reqHash /\
    Amount b = Amount prev - ModifiedAmount req.
Proof.
  intros bc Hreq Hx Hrh Hprev Hph Hsn Hsnh Hps Hrs Hsrc Hm Ham.
  unfold responseBlock. fold bc. rewrite Hprev, Hsn. cbn [deref]. rewrite bind_ret_l.
  assert (E1 : wrap64 (- ModifiedAmount req) = - ModifiedAmount req) by (apply wrap64_id; unfold in64; lia).
  rewrite E1. assert (E2 : wrap64 (Amount prev + - ModifiedAmount req) = Amount prev - ModifiedAmount req).
  { rewrite <- (wrap64_id (Amount prev - ModifiedAmount req)) by (unfold in64; lia). f_equal. }
  rewrite E2. set (b := a_SetHash _ _).
  exists b. assert (V : snapshot_valid bc b /\ self_valid bc b /\ from_valid bc b).
  { split; [by exists sn|]. split.
    - unfold self_valid. rewrite decide_False.
      2: { intros [_ Hb]. change (Height prev + 1 = 0) in Hb. lia. }
      split; [by intros _|]. exists prev. split_and!; try done; cbn; try lia.
    - intros _. exists req. split; [exact Hrh|]. split; [exact Hx|]. split; [exact Hrs|]. split.
      + cbn. replace (ModifiedAmount req + - ModifiedAmount req) with 0 by lia. done.
      + cbn. intros s2 Hs2. cbn in Hreq. rewrite Hreq in Hs2. by injection Hs2 as <-. }
  assert (R : exists stat, AccountVerifier.VerifyReferred v now bc b = Ret stat).
  { destruct (VerifyReferred_returns v now bc b) as [stat Hst]; [done|by exists None|]. by exists stat. }
  destruct R as [stat Est]. exists stat. split; [done|]. split; [done|].
  split; [by apply (VerifyReferred_spec v now bc b stat)|]. done.
Qed.
End response.

(** A received block whose request is unknown stops the node.  With the
    request pool registered as listener, inserting a received block into the
    chain of any account panics when its target account has no request with that
    source hash; in particular when a verified block names another account as its
    target, since the verifier never compares the target with the signer. *)
Theorem received_without_request_panics {St} `{Stack St} (bc : Blockchain.blockchain St reqPool) addr b :
  a_BlockType b = RECEIVED ->
  AccountChain.listener (snd (Blockchain.selfAc bc addr)) = RegisteredListener ->
  getReq (Blockchain.listenerState bc) (To b) (SourceHash b) = None ->
  Blockchain.InsertAccountBlock bc addr b = Panic "nil dereference".
Proof.
  intros Ht Hl Hr. unfold Blockchain.InsertAccountBlock.
  pose proof (selfAc_fields bc addr) as (_ & _ & _ & F).
  destruct (Blockchain.selfAc bc addr) as [bc1 c]. cbn [fst snd] in *.
  unfold AccountChain.insertChain. cbn [AccountChain.set_head AccountChain.listener].
  rewrite Hl, F. cbn [notify_insert AccountInsertCallback reqPool_ChainListener]. unfold blockInsert.
  rewrite Ht, (decide_False (P := RECEIVED = SEND)), decide_True by done. by rewrite Hr.
Qed.

(** ** A concrete run, with the request pool listening *)
Definition lchain0 : Blockchain.blockchain (list SnapshotPoint) reqPool :=
  let g := SnapshotChain.genesisSnapshot in
  Blockchain.mk ∅ (SnapshotChain.mk (Some g))
    (SetSnapshotHead (PutSnapshot (NewMemoryStore g) g) (Some (mkHashHeight (Hash g) (Height g))))
    RegisteredListener newReqPool.

(** "eve", a new account, opens her chain by receiving what was sent to "viteshan". *)
Definition eve1 : AccountStateBlock :=
  NewAccountBlock 0 "e1" "" "eve" 0 10 10 0 snapshot_genesis RECEIVED "jie" "viteshan" "send" 1.

Definition lchain1 := default lchain0 (verify_insert lchain0 send10).
Definition lchain2 := default lchain1 (verify_insert lchain1 eve1).
Definition lchain3 := default lchain2 (verify_insert lchain2 receive1).

(** One send block can be received twice.  On the genesis chain with the
    request pool listening, the three blocks "jie sends 10 to viteshan", "eve
    opens her account by receiving it" and "viteshan receives it" are verified and
    inserted one after the other, so the total of the balances grows by 10: the
    verifier does not compare a block's target with its signer, skips the check
    for an earlier receipt on the first block of an account, and otherwise
    searches only the chain of the named target. *)
Theorem send_received_twice :
  verify_insert lchain0 send10 = Some lchain1 /\
  verify_insert lchain1 eve1 = Some lchain2 /\
  verify_insert lchain2 receive1 = Some lchain3 /\
  SourceHash eve1 = SourceHash receive1 /\
  balance lchain0 "jie" + balance lchain0 "viteshan" + balance lchain0 "eve" = 400 /\
  balance lchain3 "jie" + balance lchain3 "viteshan" + balance lchain3 "eve" = 410.
Proof.
  split_and!; try (apply default_Some; vm_compute; reflexivity);
    vm_compute; reflexivity.
Qed.

(** A block that receives what nobody sent. *)
Lemma received_without_request_panics_witness :
  Blockchain.InsertAccountBlock lchain0 "viteshan" receive1 = Panic "nil dereference".
Proof.
  apply (received_without_request_panics lchain0 "viteshan" receive1); vm_compute; reflexivity.
Defined.

(** The ledger after "jie" has sent 10. *)
Definition ledger1 : ledger (list SnapshotPoint) :=
  mkLedger (mkPool (mkSnapshotPool newBlockPool (mkChainPool "" 0 "" ∅ ∅)) ∅ lchain1 (Sync.Version.mk 0) [])
    (mkRWMutex false 0) [].

Lemma response_block_verifies_witness :
  exists b stat, responseBlock 0 ledger1 "jie" "viteshan" "send" send10 = Ret b /\
    AccountVerifier.VerifyReferred 0 0 (lbc ledger1) b = Ret stat /\
    AccountVerifier.VerifyResult_ stat = SUCCESS /\ Amount b = 210.
Proof.
  destruct (response_block_verifies 0 0 ledger1 "jie" "viteshan" "send" send10
    (genesisAccountBlock "viteshan") SnapshotChain.genesisSnapshot)
    as (b & stat & E1 & E2 & E3 & _ & _ & _ & E4).
  1-7: vm_compute; try reflexivity; discriminate.
  1-2: vm_compute; discriminate.
  - vm_compute. reflexivity.
  - split; vm_compute; [reflexivity | discriminate].
  - split; vm_compute; reflexivity.
  - exists b, stat. split; [exact E1|]. split; [exact E2|]. split; [exact E3|].
    rewrite E4. vm_compute. reflexivity.
Defined.
