(* ===== verification/LedgerRun.v ===== *)
(** * LedgerRun: value is conserved by the ledger's transfers

    A run of a ledger is a sequence of its two operations, [RequestAccountBlock]
    and [ResponseAccountBlock].  The state is related to the list of blocks of
    every account ([run_inv]); what the accounts own and what has been sent and not
    received then always add up to the genesis balances, unless an account receives
    again what opened its chain, which the verifier accepts. *)
From S2P Require Import Prelude.
From S2P Require Import Common.
From S2P Require Import HashCal.
From S2P Require Import Links.
From S2P Require Import Store.
From S2P Require Import Chain.
From S2P Require Import ChainSpec.
From S2P Require Import Reader.
From S2P Require Import Verifier.
From S2P Require Import VerifierSpec.
From S2P Require Import BCPool.
From S2P Require Import PoolChains.
From S2P Require Import Pools.
From S2P Require Import PoolsSpec.
From S2P Require Import Sync.
From S2P Require Import Ledger.

(** ** The requests *)

(** What the open requests of a map are worth: the amounts sent are negative. *)
Definition worth (reqs : list Req) : Z := zsum ((fun r => - req_Amount r) <$> reqs).
Definition open_of (m : gmap string Req) : list Req :=
  filter (fun r => state r <> 1) (snd <$> map_to_list m).

Lemma worth_perm l l' : l ≡ₚ l' -> worth l = worth l'.
Proof. intros H. apply zsum_perm. by rewrite H. Qed.

Lemma open_insert m x r :
  open_of (<[x := r]> m) ≡ₚ (if decide (state r <> 1) then [r] else []) ++ open_of (delete x m).
Proof.
  unfold open_of. rewrite <- insert_delete_eq. rewrite map_to_list_insert by apply lookup_delete_eq.
  cbn. by case_decide.
Qed.

Lemma open_delete m x r :
  m !! x = Some r ->
  open_of m ≡ₚ (if decide (state r <> 1) then [r] else []) ++ open_of (delete x m).
Proof. intros Hx. rewrite <- open_insert. by rewrite insert_id. Qed.

(** The requests that [ListRequest] shows. *)
Definition pending (rp : reqPool) (a : string) : Z :=
  worth (open_of (default ∅ (account rp a))).

Lemma pending_empty a : pending ∅ a = 0.
Proof. unfold pending, account, reqPool. by rewrite lookup_empty. Qed.

Lemma getReqs_worth order rp a :
  range_order order -> worth (getReqs order rp a) = pending rp a.
Proof.
  intros Ho. unfold getReqs, pending. destruct (account rp a) as [m|]; cbn; [|done].
  apply worth_perm. unfold open_of. by rewrite (Ho m).
Qed.

(** A new request, and a request that is answered. *)
Lemma pending_send rp b rp' a :
  a_BlockType b = SEND -> getReq rp (To b) (Hash b) = None -> blockInsert rp b = Ret rp' ->
  pending rp' a = pending rp a - (if decide (a = To b) then ModifiedAmount b else 0) /\
  forall x, getReq rp' a x =
    if decide (a = To b /\ x = Hash b)
    then Some {| ReqHash := Hash b; acc := None; state := 2; req_Amount := ModifiedAmount b; req_From := From b |}
    else getReq rp a x.
Proof.
  intros Ht Hf. unfold blockInsert. rewrite decide_True by done. intros [= <-].
  set (m := match account rp (To b) with None => ∅ | Some reqs => reqs end).
  assert (Em : default ∅ (account rp (To b)) = m) by (unfold m; by destruct (account rp (To b))).
  assert (Hm : m !! Hash b = None).
  { revert Hf. unfold getReq, m. destruct (account rp (To b)); [done|]. intros _. apply lookup_empty. }
  unfold pending, getReq, account, reqPool in *. destruct (decide (a = To b)) as [->|Hne].
  - rewrite lookup_insert_eq. cbn [from_option id]. split.
    + rewrite Em, (worth_perm _ _ (open_insert m _ _)), (delete_id m) by done.
      rewrite decide_True by done. unfold worth, zsum; cbn. lia.
    + intros x. destruct (decide (x = Hash b)) as [->|Hx].
      * rewrite decide_True by done. apply lookup_insert_eq.
      * rewrite decide_False by tauto. rewrite lookup_insert_ne by done. unfold m.
        destruct (rp !! To b); [done|apply lookup_empty].
  - rewrite !lookup_insert_ne by done. split; [lia|]. intros x. by rewrite decide_False by tauto.
Qed.

Lemma pending_received rp b r rp' a :
  a_BlockType b = RECEIVED -> getReq rp (To b) (SourceHash b) = Some r -> blockInsert rp b = Ret rp' ->
  let r' := {| ReqHash := ReqHash r; acc := Some (NewAccountHashH (To b) (Hash b) (Height b)); state := 1;
               req_Amount := req_Amount r; req_From := req_From r |} in
  pending rp' a =
    pending rp a + (if decide (a = To b) then if decide (state r <> 1) then req_Amount r else 0 else 0) /\
  forall x, getReq rp' a x =
    if decide (a = To b /\ x = SourceHash b) then Some r' else getReq rp a x.
Proof.
  intros Ht Hr. unfold blockInsert.
  rewrite decide_False by (rewrite Ht; done). rewrite decide_True by done. rewrite Hr. cbn [deref].
  rewrite bind_ret_l. intros [= <-]. unfold put_req. cbn zeta.
  unfold pending, getReq, account, reqPool in *. destruct (rp !! To b) as [m|] eqn:Em; [|done].
  destruct (decide (a = To b)) as [->|Hne].
  - rewrite lookup_insert_eq, Em. cbn [from_option id]. split.
    + erewrite (worth_perm (open_of (<[_:=_]> m))) by apply open_insert.
      erewrite (worth_perm (open_of m)) by by apply open_delete.
      cbn [app state]. rewrite decide_False by (intros Hc; by apply Hc).
      unfold worth, zsum. rewrite fmap_app. destruct (decide (state r <> 1)); cbn; lia.
    + intros x. destruct (decide (x = SourceHash b)) as [->|Hx].
      * rewrite decide_True by done. apply lookup_insert_eq.
      * rewrite decide_False by tauto. by rewrite lookup_insert_ne.
  - rewrite !lookup_insert_ne by done. split; [lia|]. intros x. by rewrite decide_False by tauto.
Qed.

Lemma blockInsert_received rp b rp' :
  a_BlockType b = RECEIVED -> blockInsert rp b = Ret rp' ->
  exists r, getReq rp (To b) (SourceHash b) = Some r.
Proof.
  intros Ht. unfold blockInsert.
  rewrite decide_False by (rewrite Ht; done). rewrite decide_True by done.
  intros (r & Hr%deref_ret_inv & _)%bind_ret_inv. by exists r.
Qed.

(** ** The state of a run *)
Section run.
Context {St : Type} `{HS : Stack St}.
Implicit Types (bc : Blockchain.blockchain St reqPool) (M : string -> list AccountStateBlock) (l : ledger St).

(** A block of the account [a]. *)
Record good_block (a : string) (b : AccountStateBlock) : Prop := {
  gb_signer : Signer b = a;
  gb_amount : 0 <= Amount b < 2 ^ 63;
  gb_send : a_BlockType b = SEND -> From b = a /\ - 2 ^ 63 < ModifiedAmount b <= 0;
  gb_received : a_BlockType b = RECEIVED -> To b = a
}.

(** Nothing in the account has received the request [x]. *)
Definition unreceived M (addr x : string) : Prop :=
  forall g, g ∈ M addr -> a_BlockType g = RECEIVED -> SourceHash g <> x.

(** A request stands for a send block to the account; while it is open no block of
    the account receives it, once it is confirmed one does. *)
Definition explained M (addr x : string) (r : Req) : Prop :=
  (exists a s, s ∈ M a /\ a_BlockType s = SEND /\ To s = addr /\ Hash s = x /\ req_Amount r = ModifiedAmount s /\
     ReqHash r = x /\ req_From r = a) /\
  (state r = 2 /\ unreceived M addr x \/
   state r = 1 /\ exists g, g ∈ M addr /\ a_BlockType g = RECEIVED /\ SourceHash g = x).

(** [M a] are the blocks of the account [a], from the one at height 0. *)
Record run_inv bc M : Prop := {
  ri_address a : AccountChain.address (snd (Blockchain.selfAc bc a)) = a;
  ri_listener a : AccountChain.listener (snd (Blockchain.selfAc bc a)) = RegisteredListener;
  ri_repr a : a <> snapshotHeadKey -> acc_repr (Blockchain.store bc) (snd (Blockchain.selfAc bc a)) (M a);
  ri_blocks a b : b ∈ M a -> a <> snapshotHeadKey /\ good_block a b;
  ri_source a b : b ∈ M a -> a_BlockType b = RECEIVED ->
    is_Some (GetAccountByHash (Blockchain.store bc) (SourceHash b));
  ri_reqs addr x r : getReq (Blockchain.listenerState bc) addr x = Some r -> explained M addr x r
}.

Definition extend M (a : string) (b : AccountStateBlock) : string -> list AccountStateBlock :=
  fun a' => if decide (a' = a) then M a ++ [b] else M a'.

Lemma extend_same M a b : extend M a b a = M a ++ [b].
Proof. unfold extend. by rewrite decide_True. Qed.
Lemma extend_elem M a b a' b' : b' ∈ M a' -> b' ∈ extend M a b a'.
Proof. intros H. unfold extend. case_decide as E; [rewrite E in H; set_solver|done]. Qed.

Lemma unreceived_extend M a b addr x :
  unreceived M addr x -> (a = addr -> a_BlockType b = RECEIVED -> SourceHash b <> x) ->
  unreceived (extend M a b) addr x.
Proof.
  intros Hu Hb g Hg Ht. unfold extend in Hg. case_decide as E; [|by apply Hu].
  apply elem_of_app in Hg as [Hg|Hg%list_elem_of_singleton]; subst; [by apply Hu|by apply Hb].
Qed.

Lemma explained_extend M a b addr x r :
  explained M addr x r -> (a = addr -> a_BlockType b = RECEIVED -> SourceHash b <> x) ->
  explained (extend M a b) addr x r.
Proof.
  intros [(a' & s & Hs & H1) H2] Hb. split.
  - exists a', s. split; [by apply extend_elem|done].
  - destruct H2 as [[H2 Hu]|(H2 & g & Hg & H3)].
    + left. split; [done|]. by apply unreceived_extend.
    + right. split; [done|]. exists g. split; [by apply extend_elem|done].
Qed.

(** ** One insertion *)
Lemma InsertAccountBlock_eq bc M a b :
  run_inv bc M ->
  Blockchain.InsertAccountBlock bc a b =
  (rp ← blockInsert (Blockchain.listenerState bc) b;
   Ret (Blockchain.put_ac (fst (Blockchain.selfAc bc a)) a (inserted (Blockchain.store bc) a b)
          (AccountChain.set_head (snd (Blockchain.selfAc bc a)) (Some b)) rp, None)).
Proof.
  intros I. unfold Blockchain.InsertAccountBlock.
  pose proof (selfAc_fields bc a) as (_ & F2 & _ & F4).
  pose proof (ri_address _ _ I a) as Ha. pose proof (ri_listener _ _ I a) as Hl.
  destruct (Blockchain.selfAc bc a) as [bc1 c]. cbn [fst snd] in *.
  rewrite insertChain_eq, Ha, Hl, F2, F4. cbn [notify_insert AccountInsertCallback reqPool_ChainListener].
  by destruct (blockInsert _ _).
Qed.

(** Another account's chain, cached or not, is the same after it. *)
Lemma insert_other bc a b c rp a' :
  a' <> a ->
  snd (Blockchain.selfAc
         (Blockchain.put_ac (fst (Blockchain.selfAc bc a)) a (inserted (Blockchain.store bc) a b) c rp) a') =
  snd (Blockchain.selfAc bc a').
Proof.
  intros Hne. pose proof (selfAc_fields bc a) as (_ & F2 & F3 & _).
  assert (Eac : Blockchain.ac (fst (Blockchain.selfAc bc a)) !! a' = Blockchain.ac bc !! a').
  { unfold Blockchain.selfAc. destruct (Blockchain.ac bc !! a); [done|]. cbn. by rewrite lookup_insert_ne. }
  generalize dependent (fst (Blockchain.selfAc bc a)). intros bc1 F2 F3 Eac.
  unfold Blockchain.selfAc. cbn [Blockchain.put_ac Blockchain.ac].
  rewrite lookup_insert_ne, Eac by done. destruct (Blockchain.ac bc !! a') as [c'|] eqn:E; [done|].
  cbn [snd Blockchain.put_ac Blockchain.listener Blockchain.store]. rewrite F3. unfold AccountChain.newAccountChain.
  destruct (inserted_lookups (Blockchain.store bc) a b) as (Ih & _ & Ihd).
  rewrite Ihd, decide_False by done.
  destruct (GetAccountHead (Blockchain.store bc) a') as [hd|]; [|done].
  by rewrite Ih, GetAccountByHeight_Put, decide_False by congruence.
Qed.

Lemma run_inv_insert bc M a b rp :
  run_inv bc M -> a <> snapshotHeadKey -> good_block a b ->
  PreHash b = (tip "" (-1) (M a)).1 -> Height b = Z.of_nat (length (M a)) ->
  GetAccountByHash (Blockchain.store bc) (Hash b) = None ->
  blockInsert (Blockchain.listenerState bc) b = Ret rp ->
  (a_BlockType b = RECEIVED -> is_Some (GetAccountByHash (Blockchain.store bc) (SourceHash b))) ->
  (forall addr x r, getReq rp addr x = Some r -> explained (extend M a b) addr x r) ->
  forall bc', Blockchain.InsertAccountBlock bc a b = Ret (bc', None) ->
  run_inv bc' (extend M a b) /\ Blockchain.listenerState bc' = rp.
Proof.
  intros I Hk Hg Hp Hh Hf Hb Hsrc Hr bc'. rewrite (InsertAccountBlock_eq _ _ _ _ I), Hb, bind_ret_l. intros [= <-].
  split; [|done].
  assert (Hfresh : forall a', a' <> snapshotHeadKey -> Hash b ∉ Hash <$> M a').
  { intros a' Ha' (b' & E & Hb')%list_elem_of_fmap. apply (ar_hash _ _ _ (ri_repr _ _ I a' Ha')) in Hb'.
    rewrite <- E, Hf in Hb'. done. }
  assert (Esame : snd (Blockchain.selfAc
     (Blockchain.put_ac (fst (Blockchain.selfAc bc a)) a (inserted (Blockchain.store bc) a b)
        (AccountChain.set_head (snd (Blockchain.selfAc bc a)) (Some b)) rp) a) =
     AccountChain.set_head (snd (Blockchain.selfAc bc a)) (Some b)).
  { unfold Blockchain.selfAc at 1. cbn [Blockchain.put_ac Blockchain.ac]. by rewrite lookup_insert_eq. }
  constructor.
  - intros a'. destruct (decide (a' = a)) as [->|Hne]; [rewrite Esame|rewrite insert_other by done]; apply I.
  - intros a'. destruct (decide (a' = a)) as [->|Hne]; [rewrite Esame|rewrite insert_other by done]; apply I.
  - intros a' Ha'. cbn [Blockchain.put_ac Blockchain.store]. destruct (decide (a' = a)) as [->|Hne].
    + rewrite Esame, extend_same. pose proof (ri_address _ _ I a) as Ea. rewrite <- Ea at 1.
      apply insertChain_acc_repr; [by apply I|done|done|by apply Hfresh].
    + rewrite insert_other by done. unfold extend. rewrite decide_False by done.
      apply inserted_other; [by apply I| |by apply Hfresh]. rewrite (ri_address _ _ I). done.
  - intros a' b' Hb'. unfold extend in Hb'. destruct (decide (a' = a)) as [->|Hne]; [|by apply (ri_blocks _ _ I)].
    apply elem_of_app in Hb' as [Hb'|Hb'%list_elem_of_singleton]; [by apply (ri_blocks _ _ I)|by subst].
  - intros a' b' Hb' Ht. cbn [Blockchain.put_ac Blockchain.store].
    rewrite (proj1 (proj2 (inserted_lookups (Blockchain.store bc) a b))). rewrite GetAccountByHash_Put.
    case_decide; [by eexists|].
    unfold extend in Hb'. destruct (decide (a' = a)) as [->|Hne]; [|by apply (ri_source _ _ I a')].
    apply elem_of_app in Hb' as [Hb'|Hb'%list_elem_of_singleton]; [by apply (ri_source _ _ I a)|subst; by apply Hsrc].
  - exact Hr.
Qed.

(** ** What the readers see *)
Lemma run_head bc M a :
  run_inv bc M -> a <> snapshotHeadKey -> fst (reader_HeadAccount bc a) = last (M a).
Proof.
  intros I Ha. cbn. rewrite HeadAccount_eq. apply (ar_head _ _ _ (ri_repr _ _ I a Ha)).
Qed.

Lemma run_height bc M a h b :
  run_inv bc M -> a <> snapshotHeadKey -> reader_GetAccountByHeight bc a h = Some b -> b ∈ M a.
Proof.
  intros I Ha. cbn. rewrite GetAccountByHeight_eq. unfold AccountChain.GetBlockByHeight.
  case_decide; [done|]. rewrite (ar_height _ _ _ (ri_repr _ _ I a Ha)). case_decide; [done|].
  apply list_elem_of_lookup_2.
Qed.

Lemma run_source bc M a x :
  run_inv bc M -> a <> snapshotHeadKey ->
  reader_GetAccountBySourceHash bc a x =
  Ret (last (filter (fun b => a_BlockType b = RECEIVED /\ SourceHash b = x) (drop 1 (M a)))).
Proof.
  intros I Ha. cbn. rewrite GetAccountBySourceHash_eq. by apply getBySourceBlock_spec, I.
Qed.

Lemma run_elem bc M a b :
  run_inv bc M -> b ∈ M a ->
  a <> snapshotHeadKey /\ good_block a b /\ GetAccountByHash (Blockchain.store bc) (Hash b) = Some b.
Proof.
  intros I Hb. destruct (ri_blocks _ _ I a b Hb) as [Ha Hg]. split; [done|]. split; [done|].
  by apply (ar_hash _ _ _ (ri_repr _ _ I a Ha)).
Qed.

(** The block after the last one of an account. *)
Lemma run_last bc M a prev :
  run_inv bc M -> a <> snapshotHeadKey -> last (M a) = Some prev ->
  Hash prev = (tip "" (-1) (M a)).1 /\ Height prev + 1 = Z.of_nat (length (M a)) /\ prev ∈ M a.
Proof.
  intros I Ha Hl. pose proof (ri_repr _ _ I a Ha) as R.
  rewrite tip_last, Hl. split; [done|]. pose proof (ar_head _ _ _ R) as Hh. rewrite Hl in Hh.
  destruct (acc_repr_head _ _ _ _ R Hh) as (H1 & H2 & H3). split; [lia|]. by apply list_elem_of_lookup_2 in H3.
Qed.

(** ** The arithmetic of the amounts *)
Lemma wrap64_pos z : - 2 ^ 63 <= z < 2 ^ 64 -> 0 < wrap64 z -> wrap64 z = z /\ z < 2 ^ 63.
Proof.
  intros Hz Hw. destruct (Z_lt_le_dec z (2 ^ 63)) as [|Hge].
  - split; [|done]. apply wrap64_id. split; lia.
  - exfalso. revert Hw. unfold wrap64, wrap. change (64 - 1) with 63.
    rewrite Z.mod_small by lia. rewrite decide_False by lia. lia.
Qed.

(** ** A send block *)
Definition bal (bs : list AccountStateBlock) : Z := from_option Amount 0 (last bs).

Lemma bal_extend M a b a' : bal (extend M a b a') = if decide (a' = a) then Amount b else bal (M a').
Proof. unfold bal, extend. case_decide; [|done]. by rewrite last_snoc. Qed.

Lemma request_step bc M b rp a bc' :
  run_inv bc M -> a <> snapshotHeadKey -> Signer b = a -> From b = a -> a_BlockType b = SEND ->
  in64 (ModifiedAmount b) ->
  (forall prev, last (M a) = Some prev -> PreHash b = Hash prev /\ Height b = Height prev + 1) ->
  self_valid bc b ->
  GetAccountByHash (Blockchain.store bc) (Hash b) = None ->
  blockInsert (Blockchain.listenerState bc) b = Ret rp ->
  Blockchain.InsertAccountBlock bc a b = Ret (bc', None) ->
  run_inv bc' (extend M a b) /\ Blockchain.listenerState bc' = rp /\
  Amount b = bal (M a) + ModifiedAmount b /\
  (forall a', pending rp a' =
     pending (Blockchain.listenerState bc) a' - (if decide (a' = To b) then ModifiedAmount b else 0)).
Proof.
  intros I Ha Hs Hfrom Ht Hm Hnext Hv Hf Hb E.
  unfold self_valid in Hv. rewrite Ht, decide_False in Hv by (intros [? _]; done).
  destruct Hv as [_ (prev & Hprev & Hpre & _ & Hneg & _ & Hsum & Hpos)].
  rewrite Hs, (run_head _ _ _ I Ha) in Hprev.
  destruct (run_last _ _ _ _ I Ha Hprev) as (Etip & Eh & Hin).
  destruct (run_elem _ _ _ _ I Hin) as (_ & [_ Hpa _ _] & _).
  specialize (Hneg Ht). destruct (Hnext prev Hprev) as [_ Hh].
  destruct (wrap64_pos (Amount prev + ModifiedAmount b)) as [Ew Hw]; [unfold in64 in Hm; lia|lia|].
  assert (Hreq : getReq (Blockchain.listenerState bc) (To b) (Hash b) = None).
  { destruct (getReq _ _ _) as [r|] eqn:Er; [|done]. exfalso.
    destruct (ri_reqs _ _ I _ _ _ Er) as [(a' & s & Hsm & _ & _ & Ehs & _) _].
    destruct (run_elem _ _ _ _ I Hsm) as (_ & _ & Eg). rewrite Ehs, Hf in Eg. done. }
  assert (P := fun a' => pending_send _ b rp a' Ht Hreq Hb).
  assert (Hg : good_block a b).
  { constructor; [done|lia| |by rewrite Ht]. intros _. split; [done|]. lia. }
  destruct (run_inv_insert bc M a b rp I Ha Hg) with (bc' := bc') as [I' El]; try done.
  - by rewrite <- Etip.
  - lia.
  - by rewrite Ht.
  - intros addr x r Hr. rewrite (proj2 (P addr)) in Hr. case_decide as Ec.
    + injection Hr as <-. destruct Ec as [-> ->]. split.
      * exists a, b. rewrite extend_same. split; [|done]. apply elem_of_app. right. by apply list_elem_of_singleton.
      * left. split; [done|]. apply unreceived_extend; [|by rewrite Ht].
        intros g Hgm Hgt Eg. destruct (ri_source _ _ I _ g Hgm Hgt) as [s Es]. by rewrite Eg, Hf in Es.
    + apply explained_extend; [by apply I|by rewrite Ht].
  - split; [done|]. split; [done|]. split; [|intros a'; apply P].
    unfold bal. rewrite Hprev. cbn. lia.
Qed.

(** ** A received block *)
Definition not_replayed bc (a x : string) : Prop :=
  forall g, reader_GetAccountByHeight bc a 0 = Some g -> a_BlockType g = RECEIVED -> SourceHash g <> x.

Lemma no_receipt bc M a x g :
  run_inv bc M -> a <> snapshotHeadKey -> reader_GetAccountBySourceHash bc a x = Ret None ->
  not_replayed bc a x -> g ∈ M a -> a_BlockType g = RECEIVED -> SourceHash g <> x.
Proof.
  intros I Ha Hs Hn Hg Ht Ex. rewrite (run_source _ _ _ _ I Ha) in Hs. injection Hs as Hs.
  apply last_None in Hs.
  assert (Hc : g ∈ drop 1 (M a) -> False).
  { intros Hd. assert (g ∈ filter (fun b => a_BlockType b = RECEIVED /\ SourceHash b = x) (drop 1 (M a))) as Hf
      by by apply list_elem_of_filter.
    rewrite Hs in Hf. by apply elem_of_nil in Hf. }
  destruct (M a) as [|g0 bs] eqn:EM; [by apply elem_of_nil in Hg|].
  apply elem_of_cons in Hg as [->|Hg]; [|by apply Hc].
  apply (Hn g0); [|done|done]. cbn. rewrite GetAccountByHeight_eq. unfold AccountChain.GetBlockByHeight.
  rewrite decide_False by lia. rewrite (ar_height _ _ _ (ri_repr _ _ I a Ha)), EM. done.
Qed.

(** What a verified receipt does to the balance. *)
Lemma receipt_amount bc M a b s :
  run_inv bc M -> a <> snapshotHeadKey -> Signer b = a -> To b = a -> a_BlockType b = RECEIVED ->
  good_block s.1 s.2 -> a_BlockType s.2 = SEND -> ModifiedAmount b = - ModifiedAmount s.2 ->
  Amount b = wrap64 (bal (M a) + ModifiedAmount b) ->
  Height b = Z.of_nat (length (M a)) ->
  not_replayed bc a (SourceHash b) -> self_valid bc b ->
  Amount b = bal (M a) + ModifiedAmount b /\ 0 <= Amount b < 2 ^ 63 /\
  forall g, g ∈ M a -> a_BlockType g = RECEIVED -> SourceHash g <> SourceHash b.
Proof.
  intros I Ha Hs Hto Ht Hgs Hts Hm Ham Hh Hn Hv.
  destruct (gb_send _ _ Hgs Hts) as [_ Hms]. unfold self_valid in Hv. rewrite Hto, Hs in Hv.
  destruct (decide (a_BlockType b = RECEIVED /\ Height b = 0)) as [[_ H0]|Hc].
  - assert (EM : M a = []) by (apply length_zero_iff_nil; lia). rewrite EM in *. unfold bal in *; cbn in *.
    rewrite Ham. rewrite wrap64_id by (unfold in64; lia). split; [done|]. split; [lia|].
    intros g Hg. by apply elem_of_nil in Hg.
  - destruct Hv as [Hsrc (prev & Hprev & _ & _ & _ & _ & Hsum & Hpos)].
    rewrite Hs, (run_head _ _ _ I Ha) in Hprev.
    destruct (run_last _ _ _ _ I Ha Hprev) as (_ & _ & Hin).
    destruct (run_elem _ _ _ _ I Hin) as (_ & [_ Hpa _ _] & _).
    unfold bal in *. rewrite Hprev in *. cbn [from_option] in *.
    destruct (wrap64_pos (Amount prev + ModifiedAmount b)) as [Ew Hw]; [lia|lia|].
    split; [lia|]. split; [lia|]. intros g Hg Hgt. by eapply no_receipt; eauto.
Qed.

Lemma response_step bc M b rp a req bc' :
  run_inv bc M -> a <> snapshotHeadKey -> From b <> snapshotHeadKey -> Signer b = a -> To b = a ->
  a_BlockType b = RECEIVED ->
  GetAccountByHash (Blockchain.store bc) (SourceHash b) = Some req ->
  ModifiedAmount b = wrap64 (- ModifiedAmount req) ->
  Amount b = wrap64 (bal (M a) + ModifiedAmount b) ->
  PreHash b = (tip "" (-1) (M a)).1 -> Height b = Z.of_nat (length (M a)) ->
  not_replayed bc a (SourceHash b) -> self_valid bc b ->
  GetAccountByHash (Blockchain.store bc) (Hash b) = None ->
  blockInsert (Blockchain.listenerState bc) b = Ret rp ->
  Blockchain.InsertAccountBlock bc a b = Ret (bc', None) ->
  run_inv bc' (extend M a b) /\ Blockchain.listenerState bc' = rp /\
  Amount b = bal (M a) + ModifiedAmount b /\
  (forall a', pending rp a' =
     pending (Blockchain.listenerState bc) a' - (if decide (a' = a) then ModifiedAmount b else 0)).
Proof.
  intros I Ha Hfk Hs Hto Ht Hreq Hm Ham Hp Hh Hn Hv Hf Hb E.
  destruct (blockInsert_received _ _ _ Ht Hb) as [r Hr].
  destruct (ri_reqs _ _ I _ _ _ Hr) as [(a0 & s & Hsm & Hts & Hts2 & Ehs & Era & _) Hst].
  destruct (run_elem _ _ _ _ I Hsm) as (_ & Hgs & Egs). rewrite Ehs, Hreq in Egs. injection Egs as ->.
  destruct (gb_send _ _ Hgs Hts) as [_ Hms].
  rewrite wrap64_id in Hm by (unfold in64; lia).
  destruct (receipt_amount bc M a b (a0, s)) as (Eam & Hpos & Hnew); try done.
  assert (Hst2 : state r = 2).
  { destruct Hst as [[? _]|(_ & g & Hg & Hgt & Hgx)]; [done|]. rewrite Hto in Hg. by destruct (Hnew g Hg Hgt). }
  assert (P := fun a' => pending_received _ b r rp a' Ht Hr Hb). cbn zeta in P.
  assert (Hg : good_block a b).
  { constructor; [done|done|by rewrite Ht|done]. }
  destruct (run_inv_insert bc M a b rp I Ha Hg) with (bc' := bc') as [I' El]; try done.
  - intros addr x r' Hr'. rewrite (proj2 (P addr)) in Hr'. case_decide as Ec.
    + injection Hr' as <-. destruct Ec as [-> ->].
      destruct (ri_reqs _ _ I _ _ _ Hr) as [(a1 & s1 & Hs1 & H1) _]. split.
      * exists a1, s1. split; [by apply extend_elem|exact H1].
      * right. split; [done|]. exists b. rewrite Hto, extend_same. split; [|done].
        apply elem_of_app. right. by apply list_elem_of_singleton.
    + apply explained_extend; [by apply I|]. intros Ea _ Ex. apply Ec. by rewrite Hto, Ex, Ea.
  - split; [done|]. split; [done|]. split; [done|]. intros a'. rewrite (proj1 (P a')), Hto, Era, Hm.
    rewrite (decide_True (P := state r <> 1)) by (rewrite Hst2; done). destruct (decide (a' = a)); lia.
Qed.

(** ** The ledger's operations *)
Lemma selfPendingAc_bc now (p p' : pool St reqPool) addr ap :
  selfPendingAc now p addr = Ret (p', ap) -> bc p' = bc p /\ val p' = val p.
Proof.
  unfold selfPendingAc. destruct (pendingAc p !! addr); [by intros [= <- <-]|].
  intros (cp & _ & [= <- <-])%bind_ret_inv. done.
Qed.

(** An own block is refused, and the chain stays as it is, or it verifies on the
    chain and is inserted. *)
Lemma addOwnBlock_cases now l addr b l' e :
  addOwnBlock now l addr b = Ret (l', e) ->
  (e <> None /\ lbc l' = lbc l) \/
  (e = None /\ Blockchain.InsertAccountBlock (lbc l) addr b = Ret (lbc l', None) /\
   exists v stat, AccountVerifier.VerifyReferred v now (lbc l) b = Ret stat /\
     AccountVerifier.VerifyResult_ stat = SUCCESS).
Proof.
  intros ([[m p] err] & E1 & [= <- <-])%bind_ret_inv.
  apply bind_ret_inv in E1 as (m0 & _ & ([p0 e0] & E1 & [= <- <- <-])%bind_ret_inv).
  unfold AddDirectAccountBlock in E1. apply bind_ret_inv in E1 as ([p1 ap] & Ep & E1).
  apply selfPendingAc_bc in Ep as [Eb Ev].
  apply bind_ret_inv in E1 as ([[w cp] e1] & E1 & [= <- <-]).
  unfold AddDirectBlock in E1. apply bind_ret_inv in E1 as ([res msg] & Es & E1).
  apply bind_ret_inv in Es as (stat & Es & [= <- <-]). cbn [ach ach_bc] in Es. rewrite Eb in Es.
  unfold lbc, send; cbn [bpool set_ac set_bc Pools.bc].
  destruct (AccountVerifier.VerifyResult_ stat) eqn:Er.
  1,2: injection E1 as <- <- <-; left; (split; [done|]); cbn; by rewrite Eb.
  apply bind_ret_inv in E1 as ([w' e2] & Ei & E1).
  change (rw_insertChain (ach p1 addr) b (val p1)) with (ach_insertChain (ach p1 addr) b (val p1)) in Ei.
  unfold ach_insertChain in Ei. rewrite decide_False in Ei by (intros Hc; by apply Hc).
  apply bind_ret_inv in Ei as ([bc' e3] & Ei & [= <- <-]).
  pose proof (InsertAccountBlock_no_error _ _ _ _ _ Ei) as ->.
  apply bind_ret_inv in E1 as (hd & _ & (cp' & _ & [= <- <- <-])%bind_ret_inv).
  right. split; [done|]. cbn [ach_set ach_bc]. cbn [ach ach_bc ach_address] in Ei. rewrite Eb in Ei.
  split; [exact Ei|]. eexists _, stat. split; [exact Es|done].
Qed.

(** The sum of the balances and of the open requests of some accounts. *)
Definition total (order : gmap string Req -> list (string * Req)) (accts : list string) l : Z :=
  zsum ((fun a => GetAccountBalance l a + worth (ListRequest order l a)) <$> accts).
Definition total_of (accts : list string) M (rp : reqPool) : Z :=
  zsum ((fun a => bal (M a) + pending rp a) <$> accts).

Lemma run_balance l M a :
  run_inv (lbc l) M -> a <> snapshotHeadKey -> GetAccountBalance l a = bal (M a).
Proof.
  intros I Ha. unfold GetAccountBalance. rewrite (run_head _ _ _ I Ha). unfold bal. by destruct (last (M a)).
Qed.

Lemma total_eq order accts l M :
  range_order order -> run_inv (lbc l) M -> snapshotHeadKey ∉ accts ->
  total order accts l = total_of accts M (Blockchain.listenerState (lbc l)).
Proof.
  intros Ho I Hk. unfold total, total_of. f_equal. apply list_fmap_ext. intros i a Hi.
  apply list_elem_of_lookup_2 in Hi. rewrite (run_balance _ _ _ I) by (by intros ->).
  unfold ListRequest. by rewrite getReqs_worth.
Qed.

(** What leaves a balance enters the requests, and back. *)
Lemma total_moves accts M a b rp rp' :
  NoDup accts -> a ∈ accts -> To b ∈ accts -> Amount b = bal (M a) + ModifiedAmount b ->
  (forall a', pending rp' a' = pending rp a' - (if decide (a' = To b) then ModifiedAmount b else 0)) ->
  total_of accts (extend M a b) rp' = total_of accts M rp.
Proof.
  intros Hnd Ha Hto Hb Hp. unfold total_of.
  rewrite (zsum_update (fun a' => bal (extend M a b a') + pending rp a') _ (To b)); [|done|done|].
  2: { intros y Hy. rewrite Hp, decide_False by done. lia. }
  rewrite (zsum_update (fun a => bal (M a) + pending rp a) _ a); [|done|done|].
  2: { intros y Hy. rewrite bal_extend, decide_False by done. done. }
  rewrite Hp, bal_extend, !decide_True by done. lia.
Qed.

(** Nothing the chain stores has the hash of the new block. *)
Definition fresh l (m : outcome AccountStateBlock) : Prop :=
  forall b, m = Ret b -> GetAccountByHash (Blockchain.store (lbc l)) (Hash b) = None.

(** One operation between the accounts [accts]; it is refused or goes through. *)
Inductive transfer (accts : list string) l : ledger St -> Prop :=
  | transfer_request now from to amount l' e :
      from ∈ accts -> to ∈ accts -> in64 amount ->
      fresh l (requestBlock now l from to amount) ->
      RequestAccountBlock now l from to amount = Ret (l', e) -> transfer accts l l'
  | transfer_response now from to x l' e :
      from <> snapshotHeadKey -> to ∈ accts ->
      (forall req, reader_GetAccountByHash (lbc l) from x = Some req -> fresh l (responseBlock now l from to x req)) ->
      not_replayed (lbc l) to x ->
      ResponseAccountBlock now l from to x = Ret (l', e) -> transfer accts l l'.

Definition conserved (accts : list string) (l l' : ledger St) : Prop :=
  forall M, run_inv (lbc l) M -> exists M', run_inv (lbc l') M' /\
    total_of accts M' (Blockchain.listenerState (lbc l')) = total_of accts M (Blockchain.listenerState (lbc l)).

(** The same for one operation of the account [a], which adds no block or one that
    satisfies [ok]. *)
Definition grows (accts : list string) (a : string) (ok : AccountStateBlock -> Prop) (l l' : ledger St) : Prop :=
  forall M, run_inv (lbc l) M -> exists M', run_inv (lbc l') M' /\
    total_of accts M' (Blockchain.listenerState (lbc l')) = total_of accts M (Blockchain.listenerState (lbc l)) /\
    (M' = M \/ exists b, ok b /\ M' = extend M a b).

Lemma grows_conserved accts a ok l l' : grows accts a ok l l' -> conserved accts l l'.
Proof. intros G M I. destruct (G M I) as (M' & I' & E & _). by exists M'. Qed.
Lemma grows_refl accts a ok l l' : lbc l' = lbc l -> grows accts a ok l l'.
Proof. intros E M I. exists M. rewrite E. split; [done|]. split; [done|]. by left. Qed.

Lemma requestBlock_fields now l M from to amount b :
  run_inv (lbc l) M -> from <> snapshotHeadKey -> requestBlock now l from to amount = Ret b ->
  Signer b = from /\ From b = from /\ To b = to /\ a_BlockType b = SEND /\ ModifiedAmount b = amount /\
  forall prev, last (M from) = Some prev -> PreHash b = Hash prev /\ Height b = Height prev + 1.
Proof.
  intros I Hk. unfold requestBlock. rewrite (run_head _ _ _ I Hk). intros (sn & _ & [= <-])%bind_ret_inv.
  destruct (last (M from)) as [hd|]; cbn; split_and!; try done. intros prev [= <-]. done.
Qed.

Lemma request_grows accts now l from to amount l' e :
  NoDup accts -> snapshotHeadKey ∉ accts -> from ∈ accts -> to ∈ accts -> in64 amount ->
  fresh l (requestBlock now l from to amount) ->
  RequestAccountBlock now l from to amount = Ret (l', e) -> grows accts from (fun b => a_BlockType b = SEND) l l'.
Proof.
  intros Hnd Hk Hfrom Hto Hm Hf E. assert (Ha : from <> snapshotHeadKey) by (by intros ->).
  apply bind_ret_inv in E as (b & Eb & E). specialize (Hf b Eb).
  apply addOwnBlock_cases in E as [[_ El]|(_ & Ei & v & stat & Ev & Es)]; [by apply grows_refl|]. intros M I.
  destruct (requestBlock_fields _ _ _ _ _ _ _ I Ha Eb) as (F1 & F2 & F3 & F4 & F5 & F6).
  apply (VerifyReferred_spec _ _ _ _ _ ltac:(rewrite F4; done) Ev) in Es as (_ & Hself & _).
  pose proof Ei as Eb'. rewrite (InsertAccountBlock_eq _ _ _ _ I) in Eb'.
  apply bind_ret_inv in Eb' as (rp & Eb' & _).
  destruct (request_step (lbc l) M b rp from (lbc l')) as (I' & El & Eam & Hp); try done; [by rewrite F5|].
  exists (extend M from b). split; [done|]. split; [rewrite El; apply total_moves; try done; by rewrite F3|].
  right. by exists b.
Qed.

Lemma responseBlock_fields now l M from to x req b :
  run_inv (lbc l) M -> to <> snapshotHeadKey -> responseBlock now l from to x req = Ret b ->
  Signer b = to /\ From b = from /\ To b = to /\ a_BlockType b = RECEIVED /\ SourceHash b = x /\
  ModifiedAmount b = wrap64 (- ModifiedAmount req) /\
  Amount b = wrap64 (bal (M to) + ModifiedAmount b) /\
  PreHash b = (tip "" (-1) (M to)).1 /\ Height b = Z.of_nat (length (M to)).
Proof.
  intros I Hk. unfold responseBlock. rewrite (run_head _ _ _ I Hk). unfold bal.
  destruct (last (M to)) as [prev|] eqn:El; intros (sn & _ & [= <-])%bind_ret_inv; split_and!; try done; cbn.
  - apply (run_last _ _ _ _ I Hk El).
  - apply (run_last _ _ _ _ I Hk El).
  - by apply last_None in El as ->.
  - by apply last_None in El as ->.
Qed.

Lemma response_grows accts now l from to x l' e :
  NoDup accts -> snapshotHeadKey ∉ accts -> from <> snapshotHeadKey -> to ∈ accts ->
  (forall req, reader_GetAccountByHash (lbc l) from x = Some req -> fresh l (responseBlock now l from to x req)) ->
  not_replayed (lbc l) to x ->
  ResponseAccountBlock now l from to x = Ret (l', e) -> grows accts to (fun b => SourceHash b = x) l l'.
Proof.
  intros Hnd Hk Hfk Hto Hf Hn E. assert (Ha : to <> snapshotHeadKey) by (by intros ->).
  unfold ResponseAccountBlock in E. destruct (reader_GetAccountByHash (lbc l) from x) as [req|] eqn:Er.
  2: { injection E as <- <-. by apply grows_refl. }
  case_decide as Ex; [injection E as <- <-; by apply grows_refl|].
  apply bind_ret_inv in E as (b & Eb & E). specialize (Hf req eq_refl b Eb).
  apply addOwnBlock_cases in E as [[_ El]|(_ & Ei & v & stat & Ev & Es)]; [by apply grows_refl|]. intros M I.
  destruct (responseBlock_fields _ _ _ _ _ _ _ _ I Ha Eb) as (F1 & F2 & F3 & F4 & F5 & F6 & F7 & F8 & F9).
  apply (VerifyReferred_spec _ _ _ _ _ ltac:(rewrite F4; done) Ev) in Es as (_ & Hself & _).
  pose proof Ei as Eb'. rewrite (InsertAccountBlock_eq _ _ _ _ I) in Eb'.
  apply bind_ret_inv in Eb' as (rp & Eb' & _).
  assert (Er' : GetAccountByHash (Blockchain.store (lbc l)) (SourceHash b) = Some req).
  { rewrite F5, <- Er. cbn. by rewrite GetAccountByHash_eq. }
  destruct (response_step (lbc l) M b rp to req (lbc l')) as (I' & El & Eam & Hp); try done; [by rewrite F2|by rewrite F5|].
  exists (extend M to b). split; [done|]. split; [|right; by exists b].
  rewrite El. apply total_moves; try done; [by rewrite F3|]. by rewrite F3.
Qed.

Lemma transfers_conserve accts l l' :
  NoDup accts -> snapshotHeadKey ∉ accts -> rtc (transfer accts) l l' -> conserved accts l l'.
Proof.
  intros Hnd Hk. induction 1 as [l|l1 l2 l3 St1 _ IH]; intros M I; [by exists M|].
  assert (C : conserved accts l1 l2).
  { destruct St1 as [now from to amount l2 e ?? ?? E|now from to x l2 e ?? ?? E].
    - by eapply grows_conserved, (request_grows accts now l1 from to amount l2 e).
    - by eapply grows_conserved, (response_grows accts now l1 from to x l2 e). }
  destruct (C M I) as (M2 & I2 & E2). destruct (IH M2 I2) as (M3 & I3 & E3). exists M3. split; [done|]. by rewrite E3.
Qed.

(** ** The requests that are listed *)
Lemma listed_open order bc M a r :
  range_order order -> run_inv bc M -> r ∈ getReqs order (Blockchain.listenerState bc) a ->
  unreceived M a (ReqHash r) /\ req_From r <> snapshotHeadKey.
Proof.
  intros Ho I Hr. unfold getReqs in Hr. destruct (account (Blockchain.listenerState bc) a) as [m|] eqn:Em;
    [|by apply elem_of_nil in Hr].
  apply list_elem_of_filter in Hr as [Hst Hr]. apply list_elem_of_fmap in Hr as ([x r'] & -> & Hr). cbn in *.
  apply (range_order_elem _ _ _ _ Ho) in Hr.
  assert (Hg : getReq (Blockchain.listenerState bc) a x = Some r') by (unfold getReq; by rewrite Em).
  destruct (ri_reqs _ _ I _ _ _ Hg) as [(a' & s & Hs & _ & _ & _ & _ & -> & ->) H2].
  split; [|by destruct (ri_blocks _ _ I _ _ Hs)]. destruct H2 as [[_ Hu]|[? _]]; [exact Hu|done].
Qed.

Lemma listed_sent order bc M a r :
  range_order order -> run_inv bc M -> r ∈ getReqs order (Blockchain.listenerState bc) a ->
  exists a' s, s ∈ M a' /\ Hash s = ReqHash r.
Proof.
  intros Ho I Hr. unfold getReqs in Hr. destruct (account (Blockchain.listenerState bc) a) as [m|] eqn:Em;
    [|by apply elem_of_nil in Hr].
  apply list_elem_of_filter in Hr as [_ Hr]. apply list_elem_of_fmap in Hr as ([x r'] & -> & Hr). cbn in *.
  apply (range_order_elem _ _ _ _ Ho) in Hr.
  assert (Hg : getReq (Blockchain.listenerState bc) a x = Some r') by (unfold getReq; by rewrite Em).
  destruct (ri_reqs _ _ I _ _ _ Hg) as [(a' & s & Hs & _ & _ & Ex & _ & -> & _) _]. by exists a', s.
Qed.

Lemma listed_NoDup order bc M a :
  range_order order -> run_inv bc M -> NoDup (ReqHash <$> getReqs order (Blockchain.listenerState bc) a).
Proof.
  intros Ho I. unfold getReqs. destruct (account (Blockchain.listenerState bc) a) as [m|] eqn:Em; [|constructor].
  assert (E : forall l : list (string * Req), (forall x r, (x, r) ∈ l -> ReqHash r = x) ->
    ReqHash <$> (snd <$> l) = fst <$> l).
  { induction l as [|[x r] l IH]; intros Hl; [done|]. cbn. rewrite (Hl x r) by by left. f_equal.
    apply IH. intros y s Hs. apply Hl. by right. }
  apply (sublist_NoDup _ (ReqHash <$> (snd <$> order m))).
  - rewrite E.
    + rewrite (Ho m). apply NoDup_fst_map_to_list.
    + intros x r Hr. apply (range_order_elem _ _ _ _ Ho) in Hr.
      assert (Hg : getReq (Blockchain.listenerState bc) a x = Some r) by (unfold getReq; by rewrite Em).
      by destruct (ri_reqs _ _ I _ _ _ Hg) as [(a' & s & _ & _ & _ & _ & _ & -> & _) _].
  - induction (snd <$> order m) as [|r l IH]; [done|]. rewrite filter_cons. case_decide; cbn.
    + by apply sublist_skip.
    + by apply sublist_cons.
Qed.

Lemma unreceived_not_replayed bc M a x :
  run_inv bc M -> a <> snapshotHeadKey -> unreceived M a x -> not_replayed bc a x.
Proof. intros I Ha Hu g Hg. apply Hu. by eapply run_height. Qed.
End run.

(** ** The genesis ledger *)
Definition genesis_blocks (a : string) : list AccountStateBlock :=
  if decide (a ∈ genesisAccounts) then [genesisAccountBlock a] else [].

Definition genesis_store : blockMemoryStore :=
  let g := SnapshotChain.genesisSnapshot in
  SetSnapshotHead (PutSnapshot (NewMemoryStore g) g) (Some (mkHashHeight (Hash g) (Height g))).

Lemma snapshot_frame st g o :
  (forall a h, GetAccountByHeight (SetSnapshotHead (PutSnapshot st g) o) a h = GetAccountByHeight st a h) /\
  (forall x, GetAccountByHash (SetSnapshotHead (PutSnapshot st g) o) x = GetAccountByHash st x) /\
  (forall a, a <> snapshotHeadKey -> GetAccountHead (SetSnapshotHead (PutSnapshot st g) o) a = GetAccountHead st a).
Proof.
  split; [by destruct o|]. split; [by destruct o|]. intros a Ha.
  by rewrite GetAccountHead_SetSnapshotHead, decide_False.
Qed.

Lemma genesis_store_height a h :
  GetAccountByHeight genesis_store a h =
  if decide (h = 0 /\ a ∈ genesisAccounts) then Some (genesisAccountBlock a) else None.
Proof.
  unfold genesis_store. rewrite (proj1 (snapshot_frame _ _ _)). apply NewMemoryStore_account.
Qed.

Lemma genesis_store_head a :
  a <> snapshotHeadKey ->
  GetAccountHead genesis_store a = hash_height <$> last (genesis_blocks a).
Proof.
  intros Ha. unfold genesis_store. rewrite (proj2 (proj2 (snapshot_frame _ _ _))) by done.
  assert (F : forall st a' b a, GetAccountHead (PutAccount st a' b) a = GetAccountHead st a) by done.
  unfold NewMemoryStore, genesis_blocks, genesisAccounts. cbn [foldl].
  rewrite GetAccountHead_Set, F, GetAccountHead_Set, F.
  destruct (decide ("jie" = a)) as [<-|]; [by rewrite decide_True by set_solver|].
  destruct (decide ("viteshan" = a)) as [<-|]; [by rewrite decide_True by set_solver|].
  rewrite decide_False by set_solver. apply lookup_empty.
Qed.

Lemma genesis_store_hash a :
  a ∈ genesisAccounts ->
  GetAccountByHash genesis_store (Hash (genesisAccountBlock a)) = Some (genesisAccountBlock a).
Proof.
  unfold genesisAccounts. rewrite !elem_of_cons, elem_of_nil.
  intros [->|[->|[]]]; vm_compute; reflexivity.
Qed.

Lemma genesis_acc_repr {St} `{Stack St} a :
  a <> snapshotHeadKey ->
  acc_repr genesis_store (AccountChain.newAccountChain (St := St) a RegisteredListener genesis_store)
    (genesis_blocks a).
Proof.
  intros Ha. pose proof (genesis_store_head a Ha) as Hh.
  assert (Eh : forall h, GetAccountByHeight genesis_store a h =
     if decide (h < 0) then None else genesis_blocks a !! Z.to_nat h).
  { intros h. rewrite genesis_store_height. unfold genesis_blocks.
    destruct (decide (a ∈ genesisAccounts)) as [Hi|Hi].
    - destruct (decide (h = 0)) as [->|]; [by rewrite decide_True|].
      rewrite decide_False by tauto. case_decide; [done|]. by rewrite lookup_ge_None_2 by (cbn; lia).
    - rewrite decide_False by tauto. by case_decide. }
  constructor; cbn [AccountChain.newAccountChain AccountChain.head AccountChain.address]; try done.
  - unfold genesis_blocks. by case_decide.
  - unfold genesis_blocks. case_decide; [apply NoDup_singleton|apply NoDup_nil_2].
  - rewrite Hh. unfold genesis_blocks in *. case_decide; [|done]. cbn. by rewrite Eh.
  - intros b. unfold genesis_blocks. case_decide; [|intros []%elem_of_nil].
    intros ->%list_elem_of_singleton. by apply genesis_store_hash.
Qed.

Lemma genesis_run {St} `{Stack St} (l : ledger St) :
  NewLedger_Init = Ret l ->
  run_inv (lbc l) genesis_blocks /\ Blockchain.listenerState (lbc l) = ∅.
Proof.
  unfold NewLedger_Init. intros (b & Eb & E)%bind_ret_inv. apply bind_ret_inv in E as (p & _ & [= <-]).
  assert (Eb' : b = Blockchain.mk ∅ (SnapshotChain.mk (Some SnapshotChain.genesisSnapshot)) genesis_store
                      DefaultChainListener newReqPool).
  { unfold Blockchain.NewChain, SnapshotChain.newSnapshotChain, SnapshotChain.GetGenesisSnapshot in Eb.
    pose proof (NewMemoryStore_snapshot SnapshotChain.genesisSnapshot) as (E & _). rewrite E in Eb.
    by injection Eb as <-. }
  subst b. clear Eb. unfold lbc; cbn [bpool set_bc Pools.bc Blockchain.SetChainListener].
  split; [|done].
  assert (Es : forall a, snd (Blockchain.selfAc (Blockchain.mk ∅ (SnapshotChain.mk (Some SnapshotChain.genesisSnapshot))
      genesis_store RegisteredListener newReqPool) a) =
      AccountChain.newAccountChain (St := St) a RegisteredListener genesis_store).
  { intros a. unfold Blockchain.selfAc. cbn [Blockchain.ac]. by rewrite lookup_empty. }
  constructor.
  - intros a. change (AccountChain.address (snd (Blockchain.selfAc (Blockchain.mk ∅ (SnapshotChain.mk
      (Some SnapshotChain.genesisSnapshot)) genesis_store RegisteredListener newReqPool) a)) = a). by rewrite Es.
  - intros a. change (AccountChain.listener (snd (Blockchain.selfAc (Blockchain.mk ∅ (SnapshotChain.mk
      (Some SnapshotChain.genesisSnapshot)) genesis_store RegisteredListener newReqPool) a)) = RegisteredListener).
    by rewrite Es.
  - intros a Ha. change (acc_repr genesis_store (snd (Blockchain.selfAc (Blockchain.mk ∅ (SnapshotChain.mk
      (Some SnapshotChain.genesisSnapshot)) genesis_store RegisteredListener newReqPool) a)) (genesis_blocks a)).
    rewrite Es. by apply genesis_acc_repr.
  - intros a b'. unfold genesis_blocks. case_decide as Hin; [|intros Hb; by apply elem_of_nil in Hb].
    intros ->%list_elem_of_singleton. split.
    + intros ->. revert Hin. unfold genesisAccounts, snapshotHeadKey. set_solver.
    + by constructor.
  - intros a b'. unfold genesis_blocks. case_decide; [|intros []%elem_of_nil].
    intros ->%list_elem_of_singleton Ht. discriminate Ht.
  - intros addr x r Hr. exfalso. change (getReq ∅ addr x = Some r) in Hr.
    unfold getReq, account, reqPool in Hr. by rewrite lookup_empty in Hr.
Qed.

(** What is conserved, from the genesis ledger on. *)
Lemma run_total {St} `{Stack St} order accts (l : ledger St) M :
  range_order order -> NoDup accts -> "viteshan" ∈ accts -> "jie" ∈ accts -> snapshotHeadKey ∉ accts ->
  run_inv (lbc l) M -> total_of accts M (Blockchain.listenerState (lbc l)) = total_of accts genesis_blocks ∅ ->
  total order accts l = 400 /\ forall a, a ∈ accts -> 0 <= GetAccountBalance l a < 2 ^ 63.
Proof.
  intros Ho Hnd Hv Hj Hk I Et. split.
  - rewrite (total_eq order accts l M) by done. rewrite Et. unfold total_of.
    transitivity (zsum ((fun a => bal (genesis_blocks a)) <$> accts)).
    { f_equal. apply list_fmap_ext. intros i a _. rewrite pending_empty. lia. }
    rewrite (zsum_update (fun a => if decide (a = "jie") then 200 else 0) _ "viteshan") by
      first [done | intros y Hy; unfold genesis_blocks, genesisAccounts, bal; case_decide as Hin;
        [rewrite decide_True by set_solver; done | rewrite decide_False by set_solver; done]].
    rewrite (zsum_update (fun _ => 0) _ "jie") by first [done | intros y Hy; by rewrite decide_False].
    assert (Ez : forall l1 : list string, zsum ((fun _ => 0) <$> l1) = 0) by (induction l1; cbn in *; done).
    by rewrite Ez.
  - intros a Ha. assert (Hne : a <> snapshotHeadKey) by (by intros ->). rewrite (run_balance l M) by done.
    unfold bal. destruct (last (M a)) as [b|] eqn:El; cbn; [|lia].
    destruct (run_last _ _ _ _ I Hne El) as (_ & _ & Hin). by destruct (run_elem _ _ _ _ I Hin) as (_ & [_ ? _ _] & _).
Qed.

(** C3: transfers conserve value.  From the genesis ledger, let any sequence of
    requests and responses between some accounts be executed, with any amounts and
    at any times, each refused or accepted.  If no two blocks have the same hash
    and no account receives once more what opened its chain, then the balances and
    the requests still listed as open always add up to the 400 of the genesis
    blocks, and no balance is negative or overflows. *)
Theorem transfers_conserve_value {St} `{Stack St} order accts (l0 l : ledger St) :
  range_order order -> NoDup accts -> "viteshan" ∈ accts -> "jie" ∈ accts -> snapshotHeadKey ∉ accts ->
  NewLedger_Init = Ret l0 -> rtc (transfer accts) l0 l ->
  total order accts l = 400 /\ forall a, a ∈ accts -> 0 <= GetAccountBalance l a < 2 ^ 63.
Proof.
  intros Ho Hnd Hv Hj Hk E R. destruct (genesis_run l0 E) as [I0 E0].
  destruct (transfers_conserve accts l0 l Hnd Hk R _ I0) as (M & I & Et).
  apply (run_total order accts l M); [done..|]. by rewrite Et, E0.
Qed.

(** ** Concrete runs *)
Definition no_ledger : ledger (list SnapshotPoint) :=
  mkLedger (mkPool (mkSnapshotPool newBlockPool (mkChainPool "" 0 "" ∅ ∅)) ∅
    (Blockchain.mk ∅ (SnapshotChain.mk None) emptyStore DefaultChainListener ∅) (Sync.Version.mk 0) [])
    (mkRWMutex false 0) [].
Definition genesis_ledger : ledger (list SnapshotPoint) := or_else NewLedger_Init no_ledger.
Definition after (m : outcome (ledger (list SnapshotPoint) * error)) : ledger (list SnapshotPoint) * error :=
  or_else m (no_ledger, None).
(** The hash of the open request of an account. *)
Definition request_of (l : ledger (list SnapshotPoint)) (a : string) : string :=
  from_option ReqHash "" (hd_error (ListRequest map_to_list l a)).

(** "jie" sends 10 to "eve", who has no block yet, and who receives it, twice. *)
Definition eve_1 := RequestAccountBlock 5 genesis_ledger "jie" "eve" (-10).
Definition eve_hash : string := request_of (after eve_1).1 "eve".
Definition eve_2 := ResponseAccountBlock 6 (after eve_1).1 "jie" "eve" eve_hash.
Definition eve_3 := ResponseAccountBlock 7 (after eve_2).1 "jie" "eve" eve_hash.

Definition accepted (m : outcome (ledger (list SnapshotPoint) * error)) : bool :=
  match m with Ret (_, None) => true | _ => false end.
Lemma accepted_after m : accepted m = true -> m = Ret ((after m).1, None).
Proof. unfold accepted, after. destruct m as [[l [e|]]| |]; by intros. Qed.

Definition fresh_b {St} `{Stack St} (l : ledger St) (m : outcome AccountStateBlock) : bool :=
  match m with
  | Ret b => match GetAccountByHash (Blockchain.store (lbc l)) (Hash b) with None => true | Some _ => false end
  | _ => true
  end.
Lemma fresh_b_spec {St} `{Stack St} (l : ledger St) m : fresh_b l m = true -> fresh l m.
Proof. unfold fresh_b. intros Hf b ->. by destruct (GetAccountByHash _ _). Qed.

Lemma transfers_conserve_value_witness :
  exists l, rtc (transfer ["viteshan"; "jie"; "eve"]) genesis_ledger l /\
    total map_to_list ["viteshan"; "jie"; "eve"] l = 400 /\
    GetAccountBalance l "jie" = 190 /\ GetAccountBalance l "eve" = 10 /\ ListRequest map_to_list l "eve" = [].
Proof.
  assert (R : rtc (transfer ["viteshan"; "jie"; "eve"]) genesis_ledger (after eve_2).1).
  { apply (rtc_l _ _ (after eve_1).1); [|apply rtc_once].
    - apply (transfer_request _ _ 5 "jie" "eve" (-10) _ None); try (apply list_elem_of_In; cbn; tauto).
      + split; vm_compute; [discriminate|reflexivity].
      + apply fresh_b_spec. vm_compute. reflexivity.
      + apply accepted_after. vm_compute. reflexivity.
    - apply (transfer_response _ _ 6 "jie" "eve" eve_hash _ None); try (apply list_elem_of_In; cbn; tauto).
      + discriminate.
      + intros req Hreq. apply fresh_b_spec. revert req Hreq.
        assert (E : match reader_GetAccountByHash (lbc (after eve_1).1) "jie" eve_hash with
          | Some req => fresh_b (after eve_1).1 (responseBlock 6 (after eve_1).1 "jie" "eve" eve_hash req)
          | None => true end = true) by (vm_compute; reflexivity).
        intros req Hreq. rewrite Hreq in E. exact E.
      + intros g Hg. assert (E : match reader_GetAccountByHeight (lbc (after eve_1).1) "eve" 0 with
          | Some _ => false | None => true end = true) by (vm_compute; reflexivity).
        rewrite Hg in E. discriminate E.
      + apply accepted_after. vm_compute. reflexivity. }
  exists (after eve_2).1. split; [exact R|].
  destruct (transfers_conserve_value map_to_list ["viteshan"; "jie"; "eve"] genesis_ledger (after eve_2).1) as [E _].
  - apply range_order_map_to_list.
  - apply (bool_decide_unpack (NoDup _)). vm_compute. exact Logic.I.
  - apply list_elem_of_In; cbn; tauto.
  - apply list_elem_of_In; cbn; tauto.
  - apply (bool_decide_unpack (_ ∉ _)). vm_compute. exact Logic.I.
  - apply or_else_Ret. vm_compute. reflexivity.
  - exact R.
  - split; [exact E|]. vm_compute. split_and!; reflexivity.
Defined.

(** C4: what opened an account can be received again.  The search for an earlier
    receipt stops above height 0, so for an account of at most one block it finds
    nothing, whatever the block received; and from the genesis ledger, when "jie"
    sends 10 to the new account "eve", both her first and her second response to
    the same request are accepted: the total grows from 400 to 410. *)
Theorem opening_receipt_replayed :
  (forall St (HS : Stack St) (bc : Blockchain.blockchain St reqPool) M a x,
     run_inv bc M -> a <> snapshotHeadKey -> (length (M a) <= 1)%nat ->
     reader_GetAccountBySourceHash bc a x = Ret None) /\
  eve_1 = Ret ((after eve_1).1, None) /\ eve_2 = Ret ((after eve_2).1, None) /\
  eve_3 = Ret ((after eve_3).1, None) /\
  total map_to_list ["viteshan"; "jie"; "eve"] (after eve_2).1 = 400 /\
  total map_to_list ["viteshan"; "jie"; "eve"] (after eve_3).1 = 410 /\
  GetAccountBalance (after eve_3).1 "eve" = 20.
Proof.
  split.
  { intros St HS bc M a x I Ha Hl. rewrite (run_source _ _ _ _ I Ha). by rewrite drop_ge by lia. }
  split_and!; try (apply accepted_after); vm_compute; reflexivity.
Qed.

(** "jie" has sent 10 to "eve".  A goroutine reads the balance of "eve", finds no chain
    and makes one; before it stores it, another receives the 10. *)
Definition eve_race : ledger (list SnapshotPoint) :=
  let l := (after eve_1).1 in
  let c := Blockchain.selfAc_make (lbc l) "eve" in
  let l := (after eve_2).1 in
  mkLedger (set_bc (bpool l) (Blockchain.selfAc_store (lbc l) "eve" c)) (rwMutex l) (sent l).

(** C14: two goroutines that use an account for the first time at once can lose its
    first block.  [selfAc] looks for the account's chain, makes one and stores it, and
    does not look again.  If between the two halves another goroutine inserts the
    first block of the account, the chain that is stored afterwards has no head: the
    readers see an empty account, although the store holds the block and the account's
    head.  From the genesis ledger: "eve" receives 10 of the 400 while her balance is
    read for the first time; her balance is 0 then, and 390 are left. *)
Theorem selfAc_race_loses_value :
  (forall St (HS : Stack St) (bc bc' : Blockchain.blockchain St reqPool) a b,
     Blockchain.ac bc !! a = None -> GetAccountHead (Blockchain.store bc) a = None ->
     let c := Blockchain.selfAc_make bc a in
     Blockchain.selfAc bc a = (Blockchain.selfAc_store bc a c, c) /\
     (Blockchain.InsertAccountBlock bc a b = Ret (bc', None) ->
      fst (reader_HeadAccount bc' a) = Some b /\
      fst (reader_HeadAccount (Blockchain.selfAc_store bc' a c) a) = None /\
      GetAccountHead (Blockchain.store (Blockchain.selfAc_store bc' a c)) a = Some (hash_height b))) /\
  total map_to_list ["viteshan"; "jie"; "eve"] (after eve_2).1 = 400 /\
  GetAccountBalance (after eve_2).1 "eve" = 10 /\
  total map_to_list ["viteshan"; "jie"; "eve"] eve_race = 390 /\
  GetAccountBalance eve_race "eve" = 0.
Proof.
  split; [|split_and!; vm_compute; reflexivity].
  intros St HS bc bc' a b Hac Hhd c. split; [unfold Blockchain.selfAc; by rewrite Hac|].
  unfold Blockchain.InsertAccountBlock, Blockchain.selfAc. rewrite Hac. fold c.
  cbn [Blockchain.set_ac Blockchain.store Blockchain.listenerState]. rewrite insertChain_eq.
  intros E. apply bind_ret_inv in E as ([[[st c'] l] e] & E & [= <- _]).
  apply bind_ret_inv in E as (l' & _ & [= <- <- _ _]).
  cbn [reader_HeadAccount Blockchain_ChainReader]. rewrite !HeadAccount_eq. unfold Blockchain.selfAc_store, Blockchain.selfAc.
  cbn [Blockchain.put_ac Blockchain.set_ac Blockchain.ac Blockchain.store]. rewrite !lookup_insert_eq. split; [done|].
  split.
  - unfold c, Blockchain.selfAc_make, AccountChain.newAccountChain. by rewrite Hhd.
  - rewrite (proj2 (proj2 (inserted_lookups _ _ _))), decide_True; done.
Qed.
