(* ===== verification/Profile.v ===== *)
(** * Profile: the load test ([cmd/profile/profile.go])

    A process that drives one ledger from nine goroutines: the main one splits the
    genesis amounts over four accounts, then four senders pass tokens round and four
    receivers answer what they find listed.  A sender and a receiver work on each
    account, and no lock covers a transfer from end to end: a call of the ledger
    reads heads and builds a block in one step and, in a later one, hands it to the
    pool, which verifies and inserts it under the mutex [rMu] of its account.  Other
    goroutines run in between, so what is handed over may be built on a head that is
    not the head any more.  The main goroutine is alone while it makes its calls.

    The first use of an account creates its chain ([selfAc]): that is one step here,
    although [chain/chain.go] lets two goroutines create it at once
    ([LedgerRun.selfAc_race_loses_value]). *)
From S2P Require Import Prelude.
From S2P Require Import Common.
From S2P Require Import Links.
From S2P Require Import Store.
From S2P Require Import Chain.
From S2P Require Import Reader.
From S2P Require Import Verifier.
From S2P Require Import VerifierSpec.
From S2P Require Import Pools.
From S2P Require Import PoolsSpec.
From S2P Require Import Ledger.
From S2P Require Import LedgerRun.

(** ** The goroutines *)
Definition N : nat := 4.
Definition addr_of (i : nat) : string := "jie" +:+ Itoa (Z.of_nat i).

(** [more]: the requests the inner loop still makes; [todo]: the rest of the list;
    [built]: the block that the current call of the ledger has built and not yet
    handed to the pool. *)
Inductive client :=
| Sender (from to : string) (more : Z) (built : option AccountStateBlock)
| Receiver (addr : string) (todo : list Req) (built : option AccountStateBlock).

(** The calls of the main goroutine before the others start. *)
Definition setup_calls : list (string * string) :=
  ((fun i => ("jie", addr_of i)) <$> seq 0 N) ++ ((fun i => ("viteshan", addr_of i)) <$> seq 0 N).
Definition senders : list client :=
  (fun i => Sender (addr_of i) (addr_of (if decide (i = 0)%nat then N - 1 else i - 1)) 0 None) <$> seq 0 N.
Definition receivers : list client := (fun i => Receiver (addr_of i) [] None) <$> seq 0 N.

Section load.
Context {St : Type} `{Stack St}.

(** [setup]: [None] when [main] has returned. *)
Record load := mkLoad { led : ledger St; setup : option (list (string * string)); clients : list client }.
Implicit Types (s : load).

(** [main] up to the first request. *)
Definition begin (l : ledger St) : load :=
  if decide (GetAccountBalance l "jie" <> 200) then mkLoad l None []
  else if decide (GetAccountBalance l "viteshan" <> 200) then mkLoad l None []
  else mkLoad l (Some setup_calls) [].

Context (order : gmap string Req -> list (string * Req)).

Inductive pevent :=
| PSetup (now : Z)
| PClient (i : nat) (now : Z).

(** One request of [main]; after the last one the goroutines start. *)
Definition setup_step (now : Z) s : option (outcome load) :=
  match setup s with
  | Some ((from, to) :: calls) =>
      Some ('(l, err) ← RequestAccountBlock now (led s) from to (-30);
            Ret (match err with
                 | Some _ => mkLoad l None []
                 | None => mkLoad l (Some calls) (if decide (calls = []) then senders ++ receivers else [])
                 end))
  | _ => None
  end.

(** [ResponseAccountBlock] up to the block it builds; [inr]: the error. *)
Definition answerBlock (now : Z) (l : ledger St) (from to reqHash : string)
    : outcome (AccountStateBlock + string) :=
  match reader_GetAccountByHash (lbc l) from reqHash with
  | None => Ret (inr ("not exist for account[" +:+ from +:+ "]block[" +:+ reqHash +:+ "]"))
  | Some b =>
      if decide (Hash b <> reqHash)
      then Ret (inr ("GetByHashError, ReqHash:" +:+ reqHash +:+ ", RealHash:" +:+ Hash b))
      else block ← responseBlock now l from to reqHash b; Ret (inl block)
  end.

(** Taken together the halves are the calls. *)
Lemma calls_halves now (l : ledger St) from to x amount :
  RequestAccountBlock now l from to amount =
    (b ← requestBlock now l from to amount; addOwnBlock now l from b) /\
  ResponseAccountBlock now l from to x =
    (r ← answerBlock now l from to x;
     match r with inl b => addOwnBlock now l to b | inr e => Ret (l, Some e) end).
Proof.
  split; [done|]. unfold ResponseAccountBlock, answerBlock.
  destruct (reader_GetAccountByHash _ _ _); [|done]. case_decide; [done|]. by destruct (responseBlock _ _ _ _ _ _).
Qed.

(** The loops of a client, a half of a call at a time; the errors are only logged. *)
Definition sender_step (now : Z) (l : ledger St) (from to : string) (more : Z) (built : option AccountStateBlock)
    : outcome (ledger St * client) :=
  match built with
  | Some b => '(l, _) ← addOwnBlock now l from b; Ret (l, Sender from to (more - 1) None)
  | None =>
      if decide (more = 0) then
        let balance := GetAccountBalance l from in
        Ret (l, Sender from to (if decide (1 < balance) then balance - 1 else 0) None)
      else b ← requestBlock now l from to (-1); Ret (l, Sender from to more (Some b))
  end.
Definition receiver_step (now : Z) (l : ledger St) (addr : string) (todo : list Req) (built : option AccountStateBlock)
    : outcome (ledger St * client) :=
  match built, todo with
  | Some b, _ => '(l, _) ← addOwnBlock now l addr b; Ret (l, Receiver addr todo None)
  | None, [] => Ret (l, Receiver addr (ListRequest order l addr) None)
  | None, r :: todo =>
      b ← answerBlock now l (req_From r) addr (ReqHash r);
      Ret (l, Receiver addr todo (match b with inl b => Some b | inr _ => None end))
  end.
Definition client_step (now : Z) (l : ledger St) (c : client) : outcome (ledger St * client) :=
  match c with
  | Sender from to more built => sender_step now l from to more built
  | Receiver addr todo built => receiver_step now l addr todo built
  end.

Definition pstep (e : pevent) s : option (outcome load) :=
  match e with
  | PSetup now => setup_step now s
  | PClient i now =>
      match setup s, clients s !! i with
      | Some _, Some c =>
          Some ('(l, c) ← client_step now (led s) c; Ret (mkLoad l (setup s) (<[i := c]> (clients s))))
      | _, _ => None
      end
  end.

Fixpoint prun (es : list pevent) s : option (outcome load) :=
  match es with
  | [] => Some (Ret s)
  | e :: es =>
      match pstep e s with
      | Some (Ret s) => prun es s
      | r => r
      end
  end.

(** No block has, when it is handed to the pool, the hash of a stored one. *)
Definition fresh_client (l : ledger St) (c : client) : bool :=
  match c with
  | Sender _ _ _ (Some b) | Receiver _ _ (Some b) => fresh_b l (Ret b)
  | _ => true
  end.
Definition fresh_pstep (e : pevent) s : bool :=
  match e with
  | PSetup now =>
      match setup s with
      | Some ((from, to) :: _) => fresh_b (led s) (requestBlock now (led s) from to (-30))
      | _ => true
      end
  | PClient i now => match clients s !! i with Some c => fresh_client (led s) c | None => true end
  end.
Fixpoint fresh_prun (es : list pevent) s : bool :=
  match es with
  | [] => true
  | e :: es => fresh_pstep e s && match pstep e s with Some (Ret s) => fresh_prun es s | _ => true end
  end.
End load.
Arguments load St : clear implicits.

(** ** The invariant *)
Definition accts : list string := "viteshan" :: "jie" :: (addr_of <$> seq 0 N).

Section conserve.
Context {St : Type} `{HS : Stack St}.
Implicit Types (s : load St) (M : string -> list AccountStateBlock).
Context (order : gmap string Req -> list (string * Req)) (Ho : range_order order).

(** The request [x] to [addr] was sent, and nothing of [addr] has received it. *)
Definition sent_to M (addr x : string) : Prop :=
  unreceived M addr x /\ exists a q, q ∈ M a /\ Hash q = x.

(** A block that was built for [a] when [a] had fewer blocks: it opens [a], or it
    follows one of its blocks. *)
Definition built_for M (a : string) (b : AccountStateBlock) : Prop :=
  Signer b = a /\
  ((a_BlockType b = RECEIVED /\ Height b = 0) \/
   exists prev, prev ∈ M a /\ PreHash b = Hash prev /\ Height b = Height prev + 1).

Definition send_built M (from to : string) (b : AccountStateBlock) : Prop :=
  built_for M from b /\ From b = from /\ To b = to /\ a_BlockType b = SEND /\ ModifiedAmount b = -1.

(** The receipt answers [q]. *)
Definition receipt_built M (addr : string) (b : AccountStateBlock) : Prop :=
  built_for M addr b /\ From b <> snapshotHeadKey /\ To b = addr /\ a_BlockType b = RECEIVED /\
  unreceived M addr (SourceHash b) /\
  exists a q, q ∈ M a /\ Hash q = SourceHash b /\ ModifiedAmount b = wrap64 (- ModifiedAmount q).

Definition client_ok M (c : client) : Prop :=
  match c with
  | Sender from to more built =>
      from ∈ accts /\ to ∈ accts /\ (more <> 0 -> M from <> []) /\
      forall b, built = Some b -> send_built M from to b
  | Receiver addr todo built =>
      addr ∈ accts /\ NoDup (ReqHash <$> todo) /\
      (forall r, r ∈ todo -> req_From r <> snapshotHeadKey /\ sent_to M addr (ReqHash r)) /\
      forall b, built = Some b -> receipt_built M addr b /\ SourceHash b ∉ ReqHash <$> todo
  end.
Definition receiver_of (c : client) : option string :=
  match c with Receiver addr _ _ => Some addr | _ => None end.

Record load_ok (total0 : Z) s M : Prop := {
  ld_run : run_inv (lbc (led s)) M;
  ld_total : total_of accts M (Blockchain.listenerState (lbc (led s))) = total0;
  ld_setup : forall calls, setup s = Some calls -> Forall (fun c => c.1 ∈ accts /\ c.2 ∈ accts) calls;
  ld_clients : Forall (client_ok M) (clients s);
  ld_distinct : NoDup (omap receiver_of (clients s))
}.

(** All of it outlives the growth of an account. *)
Lemma built_for_extend M a b a' b' : built_for M a' b' -> built_for (extend M a b) a' b'.
Proof.
  intros [Hs Hp]. split; [done|]. destruct Hp as [?|(prev & Hp & H)]; [by left|].
  right. exists prev. split; [by apply extend_elem|done].
Qed.
Lemma sent_to_extend M a b addr x :
  sent_to M addr x -> (a = addr -> a_BlockType b = RECEIVED -> SourceHash b <> x) -> sent_to (extend M a b) addr x.
Proof.
  intros [Hu (a' & q & Hq & Hx)] Hb. split; [by apply unreceived_extend|].
  exists a', q. split; [by apply extend_elem|done].
Qed.

Lemma client_ok_extend M a b c :
  client_ok M c ->
  (receiver_of c = Some a -> a_BlockType b <> RECEIVED) ->
  client_ok (extend M a b) c.
Proof.
  destruct c as [from to more built|addr todo built]; cbn.
  - intros (Hf & Ht & Hm & Hb) _. split_and!; try done.
    + intros Hmore. unfold extend. case_decide as E; [|by apply Hm]. by destruct (M a).
    + intros b' Eb. destruct (Hb b' Eb) as (H1 & H2). split; [by apply built_for_extend|done].
  - intros (Ha & Hn & Ht & Hbu) Hb.
    assert (Hx : forall x, a = addr -> a_BlockType b = RECEIVED -> SourceHash b <> x)
      by (intros x -> Hty; by destruct (Hb eq_refl)).
    split; [done|]. split; [done|]. split.
    + intros r Hr. destruct (Ht r Hr) as [Hk Hu]. split; [done|]. apply sent_to_extend; [done|]. by apply Hx.
    + intros b' Eb. destruct (Hbu b' Eb) as [(H1 & H2 & H3 & H4 & H5 & a' & q & Hq & H6) H7]. split; [|done].
      split; [by apply built_for_extend|]. split_and!; try done; [apply unreceived_extend; [done|]; by apply Hx|].
      exists a', q. split; [by apply extend_elem|done].
Qed.

Lemma accts_ok : NoDup accts /\ "viteshan" ∈ accts /\ "jie" ∈ accts /\ snapshotHeadKey ∉ accts.
Proof.
  split; [apply (bool_decide_unpack (NoDup _)); vm_compute; exact Logic.I|].
  split_and!; [apply list_elem_of_In; cbn; tauto..|].
  apply (bool_decide_unpack (_ ∉ _)). vm_compute. exact Logic.I.
Qed.

Lemma addr_in i : (i < N)%nat -> addr_of i ∈ accts.
Proof. intros Hi. do 2 right. apply list_elem_of_fmap_2, elem_of_seq. lia. Qed.

(** A block that verifies continues its account, though it may have been built before
    the account's last blocks. *)
Lemma built_position l M a b :
  run_inv (lbc l) M -> a <> snapshotHeadKey -> built_for M a b -> self_valid (lbc l) b ->
  PreHash b = (tip "" (-1) (M a)).1 /\ Height b = Z.of_nat (length (M a)) /\
  (in64 (ModifiedAmount b) -> Amount b = wrap64 (bal (M a) + ModifiedAmount b)).
Proof.
  intros I Ha [Hs Hb] Hv. unfold self_valid in Hv. rewrite Hs in Hv. case_decide as Hc.
  - destruct Hv as (Hh & Hp & Hm). rewrite (run_head _ _ _ I Ha) in Hh. apply last_None in Hh as EM.
    destruct Hc as [_ H0]. rewrite EM, Hp, H0. split; [done|]. split; [done|]. intros Hi. unfold bal. cbn.
    rewrite Z.add_0_l, wrap64_id by done. done.
  - destruct Hb as [Hb|(prev & Hin & Hp & Hh)]; [done|]. unfold amounts_valid in Hv. rewrite Hs in Hv.
    destruct Hv as [_ (hd & Hhd & Hpre & _ & _ & _ & Hsum & _)]. rewrite (run_head _ _ _ I Ha) in Hhd.
    destruct (run_last _ _ _ _ I Ha Hhd) as (Et & El & Hin').
    assert (prev = hd) as ->.
    { destruct (run_elem _ _ _ _ I Hin) as (_ & _ & E1). destruct (run_elem _ _ _ _ I Hin') as (_ & _ & E2).
      rewrite <- Hp, <- Hpre, E2 in E1. by injection E1. }
    split; [by rewrite Hp|]. split; [lia|]. intros _. unfold bal. rewrite Hhd. by rewrite <- Hsum.
Qed.

(** Half a call: a block is handed to the pool. *)
Definition inserted_or_not (l l' : ledger St) M (a : string) (b : AccountStateBlock) : Prop :=
  exists M', run_inv (lbc l') M' /\
    total_of accts M' (Blockchain.listenerState (lbc l')) = total_of accts M (Blockchain.listenerState (lbc l)) /\
    (M' = M \/ M' = extend M a b).

Lemma send_handed now l M from to b l' e :
  run_inv (lbc l) M -> from ∈ accts -> to ∈ accts -> send_built M from to b -> fresh_b l (Ret b) = true ->
  addOwnBlock now l from b = Ret (l', e) -> inserted_or_not l l' M from b.
Proof.
  intros I Hfrom Hto (Hbf & F2 & F3 & F4 & F5) Hf E. destruct accts_ok as (Hnd & _ & _ & Hk).
  assert (Ha : from <> snapshotHeadKey) by (by intros ->).
  apply fresh_b_spec in Hf. specialize (Hf b eq_refl).
  apply addOwnBlock_cases in E as [[_ El]|(_ & Ei & v & stat & Ev & Es)].
  { exists M. rewrite El. split; [done|]. split; [done|]. by left. }
  apply (VerifyReferred_spec _ _ _ _ _ ltac:(rewrite F4; done) Ev) in Es as (_ & Hself & _).
  destruct (built_position l M from b I Ha Hbf Hself) as (Hp & Hh & _).
  pose proof Ei as Eb'. rewrite (InsertAccountBlock_eq _ _ _ _ I) in Eb'.
  apply bind_ret_inv in Eb' as (rp & Eb' & _).
  destruct (request_step (lbc l) M b rp from (lbc l')) as (I' & El & Eam & Hpe); try done; [apply Hbf|by rewrite F5| |].
  { intros prev Hprev. destruct (run_last _ _ _ _ I Ha Hprev) as (Et & Ehh & _). rewrite Hp, Et. split; [done|lia]. }
  exists (extend M from b). split; [done|]. split; [|by right].
  rewrite El. apply total_moves; try done; by rewrite F3.
Qed.

Lemma receipt_handed now l M addr b l' e :
  run_inv (lbc l) M -> addr ∈ accts -> receipt_built M addr b -> fresh_b l (Ret b) = true ->
  addOwnBlock now l addr b = Ret (l', e) -> inserted_or_not l l' M addr b.
Proof.
  intros I Hto (Hbf & F2 & F3 & F4 & F5 & a & q & Hq & Hqx & F6) Hf E. destruct accts_ok as (Hnd & _ & _ & Hk).
  assert (Ha : addr <> snapshotHeadKey) by (by intros ->).
  apply fresh_b_spec in Hf. specialize (Hf b eq_refl).
  apply addOwnBlock_cases in E as [[_ El]|(_ & Ei & v & stat & Ev & Es)].
  { exists M. rewrite El. split; [done|]. split; [done|]. by left. }
  apply (VerifyReferred_spec _ _ _ _ _ ltac:(rewrite F4; done) Ev) in Es as (_ & Hself & _).
  destruct (built_position l M addr b I Ha Hbf Hself) as (Hp & Hh & Ham).
  pose proof Ei as Eb'. rewrite (InsertAccountBlock_eq _ _ _ _ I) in Eb'.
  apply bind_ret_inv in Eb' as (rp & Eb' & _).
  destruct (run_elem _ _ _ _ I Hq) as (_ & _ & Eq). rewrite Hqx in Eq.
  destruct (response_step (lbc l) M b rp addr q (lbc l')) as (I' & El & Eam & Hpe); try done.
  - apply Hbf.
  - apply Ham. rewrite F6. apply wrap64_bounds.
  - by eapply unreceived_not_replayed.
  - exists (extend M addr b). split; [done|]. split; [|by right].
    rewrite El. apply total_moves; try done; by rewrite F3.
Qed.

(** Half a call: a block is built. *)
Lemma request_built now l M from to b :
  run_inv (lbc l) M -> from <> snapshotHeadKey -> M from <> [] ->
  requestBlock now l from to (-1) = Ret b -> send_built M from to b.
Proof.
  intros I Ha Hne Eb. destruct (requestBlock_fields _ _ _ _ _ _ _ I Ha Eb) as (F1 & F2 & F3 & F4 & F5 & F6).
  split; [|done]. split; [done|]. right. destruct (last (M from)) as [prev|] eqn:El; [|by apply last_None in El].
  exists prev. split; [by apply (run_last _ _ _ _ I Ha El)|]. by apply F6.
Qed.

Lemma answer_built now l M from addr x b :
  run_inv (lbc l) M -> addr <> snapshotHeadKey -> from <> snapshotHeadKey -> sent_to M addr x ->
  answerBlock now l from addr x = Ret (inl b) -> receipt_built M addr b /\ SourceHash b = x.
Proof.
  intros I Ha Hfk [Hu (a & q & Hq & Hqx)]. unfold answerBlock.
  destruct (reader_GetAccountByHash (lbc l) from x) as [req|] eqn:Er; [|done]. case_decide as Ex; [done|].
  intros (b0 & Eb & [= <-])%bind_ret_inv.
  destruct (responseBlock_fields _ _ _ _ _ _ _ _ I Ha Eb) as (F1 & F2 & F3 & F4 & F5 & F6 & F7 & F8 & F9).
  assert (req = q) as ->.
  { destruct (run_elem _ _ _ _ I Hq) as (_ & _ & Eq). cbn in Er. rewrite GetAccountByHash_eq, <- Hqx, Eq in Er.
    by injection Er. }
  split; [|done]. split_and!; try done.
  - split; [done|]. destruct (last (M addr)) as [prev|] eqn:El.
    + right. exists prev. destruct (run_last _ _ _ _ I Ha El) as (Et & Eh & Hin). rewrite F8, F9, Et.
      split; [done|]. split; [done|lia].
    + left. split; [done|]. apply last_None in El. by rewrite F9, El.
  - by rewrite F2.
  - by rewrite F5.
  - exists a, q. by rewrite F5.
Qed.

(** Half a call of a client, of which [c'] is what remains; the others see at most
    one new block, and one of their own account only if it is a send block or they
    have no receiver. *)
Lemma client_step_ok now l c l' c' M :
  run_inv (lbc l) M -> client_ok M c -> fresh_client l c = true -> client_step order now l c = Ret (l', c') ->
  receiver_of c' = receiver_of c /\
  exists M', run_inv (lbc l') M' /\
    total_of accts M' (Blockchain.listenerState (lbc l')) = total_of accts M (Blockchain.listenerState (lbc l)) /\
    client_ok M' c' /\ forall c2, client_ok M c2 -> receiver_of c2 <> receiver_of c \/ receiver_of c = None -> client_ok M' c2.
Proof.
  intros I Hc Hf E. destruct accts_ok as (_ & _ & _ & Hk). destruct c as [from to more [b|]|addr todo [b|]];
    cbn [client_ok fresh_client client_step receiver_of] in *.
  - destruct Hc as (Hfrom & Hto & Hm & Hb). specialize (Hb b eq_refl).
    apply bind_ret_inv in E as ([l1 e] & E & [= <- <-]). split; [done|].
    destruct (send_handed now l M from to b l1 e I Hfrom Hto Hb Hf E) as (M' & I' & Et & HM).
    assert (Hsend : a_BlockType b <> RECEIVED) by (destruct Hb as (_ & _ & _ & -> & _); done).
    assert (Hne : M from <> []).
    { destruct Hb as ([_ [[Hr _]|(prev & Hin & _)]] & _ & _ & Hty & _); [by rewrite Hty in Hr|].
      intros E0. rewrite E0 in Hin. by apply elem_of_nil in Hin. }
    exists M'. split; [done|]. split; [done|]. destruct HM as [->| ->]; [split; [by split_and!|by auto]|].
    split; [split_and!; try done; intros _; rewrite extend_same; by destruct (M from)|].
    intros c2 H2 _. by apply client_ok_extend.
  - destruct Hc as (Hfrom & Hto & Hm & _). unfold sender_step in E. case_decide as H0.
    + injection E as <- <-. split; [done|]. exists M. split; [done|]. split; [done|]. split; [|by auto].
      split; [done|]. split; [done|]. split; [|done]. case_decide as Hb; [intros _|done].
      rewrite (run_balance l M) in Hb by (try done; by intros ->). intros E0. unfold bal in Hb. by rewrite E0 in Hb.
    + apply bind_ret_inv in E as (b & Eb & [= <- <-]). split; [done|]. exists M. split; [done|]. split; [done|]. split; [|by auto].
      split; [done|]. split; [done|]. split; [done|]. intros b' [= <-]. apply (request_built now l); try done; [by intros ->|by apply Hm].
  - destruct Hc as (Ha & Hn & Ht & Hb). destruct (Hb b eq_refl) as [Hrb Hnew].
    apply bind_ret_inv in E as ([l1 e] & E & [= <- <-]). split; [done|].
    destruct (receipt_handed now l M addr b l1 e I Ha Hrb Hf E) as (M' & I' & Et & HM).
    exists M'. split; [done|]. split; [done|]. destruct HM as [->| ->]; [by split_and!|]. split.
    + split; [done|]. split; [done|]. split; [|done]. intros r Hr. destruct (Ht r Hr) as [Hrk Hs]. split; [done|].
      apply sent_to_extend; [done|]. intros _ _ Ex. apply Hnew. rewrite Ex. by apply list_elem_of_fmap_2.
    + intros c2 H2 [Hne|?]; [|done]. apply client_ok_extend; [done|]. by intros E2 _.
  - destruct Hc as (Ha & Hn & Ht & _). assert (Hak : addr <> snapshotHeadKey) by (by intros ->).
    destruct todo as [|r todo].
    + injection E as <- <-. split; [done|]. exists M. split; [done|]. split; [done|]. split; [|by auto].
      split; [done|]. split; [by eapply listed_NoDup|]. split; [|done]. intros r Hr. destruct (listed_open _ _ _ _ _ Ho I Hr) as [? ?]. split; [done|]. split; [done|].
      by eapply listed_sent.
    + apply bind_ret_inv in E as (b & Eb & [= <- <-]). split; [done|]. exists M. split; [done|]. split; [done|]. split; [|by auto].
      destruct (Ht r ltac:(by left)) as [Hrk Hs]. apply NoDup_cons in Hn as [Hn1 Hn2].
      split; [done|]. split; [done|]. split; [intros r' Hr'; apply Ht; by right|].
      intros b' Eb'. destruct b as [b|]; [|done]. injection Eb' as ->.
      by destruct (answer_built now l M (req_From r) addr (ReqHash r) b' I Hak Hrk Hs Eb) as [? ->].
Qed.

Lemma omap_insert_same {A B} (f : A -> option B) (l : list A) i c c' :
  l !! i = Some c -> f c' = f c -> omap f (<[i := c']> l) = omap f l.
Proof.
  intros Hi E. revert i Hi. induction l as [|x l IH]; intros [|i] Hi; try done.
  - injection Hi as ->. cbn. by rewrite E.
  - cbn. destruct (f x); [f_equal|]; by apply IH.
Qed.

Lemma omap_distinct {A B} (f : A -> option B) (l : list A) i j c c2 a :
  NoDup (omap f l) -> i <> j -> l !! i = Some c -> l !! j = Some c2 -> f c = Some a -> f c2 <> Some a.
Proof.
  revert i j. induction l as [|x l IH]; intros [|i] [|j] Hn Hij Hi Hj Hc Hc2; try done; cbn in *.
  - injection Hi as ->. rewrite Hc in Hn. apply NoDup_cons in Hn as [Hn _]. apply Hn.
    apply list_elem_of_omap. exists c2. split; [by eapply list_elem_of_lookup_2|done].
  - injection Hj as ->. rewrite Hc2 in Hn. apply NoDup_cons in Hn as [Hn _]. apply Hn.
    apply list_elem_of_omap. exists c. split; [by eapply list_elem_of_lookup_2|done].
  - destruct (f x); [apply NoDup_cons in Hn as [_ Hn]|]; by apply (IH i j Hn ltac:(congruence) Hi Hj Hc).
Qed.

Lemma start_clients_ok M : Forall (client_ok M) (senders ++ receivers) /\ NoDup (omap receiver_of (senders ++ receivers)).
Proof.
  split; [|apply (bool_decide_unpack (NoDup _)); vm_compute; exact Logic.I].
  apply Forall_app. split; apply Forall_forall; intros c (i & -> & Hi%elem_of_seq)%list_elem_of_fmap; unfold N in Hi.
  - split_and!; try done; apply addr_in; [|case_decide]; unfold N; lia.
  - split; [apply addr_in; unfold N; lia|]. split; [constructor|]. split; [|done]. by intros r []%elem_of_nil.
Qed.

Lemma setup_ok T s M now s' :
  load_ok T s M -> fresh_pstep (PSetup now) s = true -> setup_step now s = Some (Ret s') ->
  exists M', load_ok T s' M'.
Proof.
  intros [I Et Hs Hc Hd] Hf E. unfold setup_step in E. cbn in Hf. destruct accts_ok as (Hnd & _ & _ & Hk).
  destruct (setup s) as [[|[from to] calls]|]; try done. injection E as E.
  apply bind_ret_inv in E as ([l e] & E & [= <-]). specialize (Hs _ eq_refl).
  apply Forall_cons in Hs as [[Hfrom Hto] Hs]. apply fresh_b_spec in Hf.
  destruct (request_grows accts now (led s) from to (-30) l e Hnd Hk Hfrom Hto ltac:(by split) Hf E M I)
    as (M' & I' & Et' & _).
  exists M'. destruct e as [e|]; split; cbn [led setup clients]; try done.
  - by rewrite Et'.
  - constructor.
  - by rewrite Et'.
  - by intros calls' [= <-].
  - case_decide; [apply start_clients_ok|constructor].
  - case_decide; [by apply (start_clients_ok M)|constructor].
Qed.

Lemma client_ok_step T s M i now s' :
  load_ok T s M -> fresh_pstep (PClient i now) s = true -> pstep order (PClient i now) s = Some (Ret s') ->
  exists M', load_ok T s' M'.
Proof.
  intros [I Et Hs Hc Hd] Hf E. cbn [pstep] in E. cbn [fresh_pstep] in Hf.
  destruct (setup s) as [calls|] eqn:Es; [|done]. destruct (clients s !! i) as [c|] eqn:Hi; [|done].
  injection E as E. apply bind_ret_inv in E as ([l c'] & E & [= <-]).
  destruct (client_step_ok now (led s) c l c' M I) as (Er & M' & I' & Et' & Hc' & Ho'); try done.
  { by apply (Forall_lookup_1 _ _ _ _ Hc Hi). }
  exists M'. split; cbn [led setup clients]; [done|by rewrite Et'|exact Hs| |by erewrite omap_insert_same].
  apply Forall_lookup_2. intros j c2 Hj. destruct (decide (j = i)) as [->|Hne].
  - rewrite list_lookup_insert_eq in Hj by by eapply lookup_lt_Some. by injection Hj as <-.
  - rewrite list_lookup_insert_ne in Hj by done. apply Ho'; [by apply (Forall_lookup_1 _ _ _ _ Hc Hj)|].
    destruct (receiver_of c) as [a|] eqn:Ea; [|by right]. left. intros E2.
    by apply (omap_distinct receiver_of _ i j c c2 a Hd).
Qed.

Lemma prun_ok T es s s' M :
  load_ok T s M -> fresh_prun order es s = true -> prun order es s = Some (Ret s') -> exists M', load_ok T s' M'.
Proof.
  revert s M. induction es as [|e es IH]; intros s M Hl Hf E; [injection E as <-; by exists M|].
  cbn in Hf, E. apply andb_prop in Hf as [Hf Hfs]. destruct (pstep order e s) as [[s1| |]|] eqn:Es; try done.
  assert (exists M1, load_ok T s1 M1) as [M1 Hl1]
    by (destruct e; [by eapply setup_ok|by eapply client_ok_step]).
  by eapply IH.
Qed.

Lemma begin_ok (l0 : ledger St) :
  NewLedger_Init = Ret l0 -> exists M, load_ok (total_of accts genesis_blocks ∅) (begin l0) M.
Proof.
  intros E. destruct (genesis_run l0 E) as [I0 E0]. exists genesis_blocks.
  assert (K : forall o, (forall calls, o = Some calls -> Forall (fun c => c.1 ∈ accts /\ c.2 ∈ accts) calls) ->
    load_ok (total_of accts genesis_blocks ∅) (mkLoad l0 o []) genesis_blocks).
  { intros o Hs. split; [done|by rewrite <- E0|done|constructor|constructor]. }
  unfold begin. repeat case_decide; apply K; try done. intros calls [= <-].
  repeat constructor; apply list_elem_of_In; cbn; tauto.
Qed.

(** C18: the load test conserves value, however its goroutines interleave between
    the halves of their calls: to read the heads and build a block, and to have it
    verified and inserted under its account's mutex.  A block that was overtaken in
    between is refused.  The goroutines answer only what they find listed, so no
    receipt is replayed.  If no block is handed over with the hash of a stored one,
    the balances of the six accounts and their open requests add up to the 400 of the
    genesis blocks after every run, and no balance is negative or overflows.  That
    an account's chain is created in one step is part of the model; the code does not
    ensure it. *)
Theorem load_test_conserves (l0 : ledger St) es s :
  NewLedger_Init = Ret l0 -> fresh_prun order es (begin l0) = true -> prun order es (begin l0) = Some (Ret s) ->
  total order accts (led s) = 400 /\ forall a, a ∈ accts -> 0 <= GetAccountBalance (led s) a < 2 ^ 63.
Proof.
  intros E Hf Er. destruct (begin_ok l0 E) as [M0 H0]. destruct (prun_ok _ _ _ _ _ H0 Hf Er) as [M [I Et _ _ _]].
  destruct accts_ok as (Hnd & Hv & Hj & Hk). by apply (run_total order accts (led s) M).
Qed.
End conserve.

(** ** A run *)

(** A run and whether it is fresh, every step taken once. *)
Fixpoint paudit (es : list pevent) (s : load (list SnapshotPoint)) : bool * option (outcome (load (list SnapshotPoint))) :=
  match es with
  | [] => (true, Some (Ret s))
  | e :: es =>
      match pstep map_to_list e s with
      | Some (Ret s') => let '(f, r) := paudit es s' in (fresh_pstep e s && f, r)
      | r => (fresh_pstep e s, r)
      end
  end.
Lemma paudit_eq es s : paudit es s = (fresh_prun map_to_list es s, prun map_to_list es s).
Proof.
  revert s. induction es as [|e es IH]; intros s; [done|]. cbn.
  destruct (pstep map_to_list e s) as [[s'| |]|]; [by rewrite IH|..]; by rewrite andb_true_r.
Qed.
Definition preport (es : list pevent) (l : ledger (list SnapshotPoint)) (names : list string) : bool * list Z :=
  let '(f, r) := paudit es (begin l) in
  (f, match r with Some (Ret s) => GetAccountBalance (led s) <$> names | _ => [] end).
Lemma preport_inv es l names x vs :
  preport es l names = (true, x :: vs) ->
  fresh_prun map_to_list es (begin l) = true /\
  exists s, prun map_to_list es (begin l) = Some (Ret s) /\ GetAccountBalance (led s) <$> names = x :: vs.
Proof.
  unfold preport. rewrite paudit_eq. destruct (prun map_to_list es (begin l)) as [[s| |]|]; try done.
  intros [= -> Hl]. split; [done|]. by exists s.
Qed.

(** The amounts are split; the first receiver answers a request, the first sender
    finds 30 and sends one; then both build a block on the same head, the
    receiver's is inserted and the sender's is refused. *)
Definition load_events : list pevent :=
  (PSetup <$> [1; 2; 3; 4; 5; 6; 7; 8]) ++
  [PClient 4 9; PClient 4 10; PClient 4 11; PClient 0 12; PClient 0 13; PClient 0 14;
   PClient 0 15; PClient 4 16; PClient 4 17; PClient 0 18].

Definition shown : list string := ["jie"; "viteshan"; "jie0"; "jie1"].

Lemma load_test_conserves_witness :
  exists s, prun map_to_list load_events (begin genesis_ledger) = Some (Ret s) /\
    GetAccountBalance (led s) <$> shown = [80; 80; 59; 0] /\ total map_to_list accts (led s) = 400.
Proof.
  assert (R : preport load_events genesis_ledger shown = (true, [80; 80; 59; 0])) by (vm_compute; reflexivity).
  destruct (preport_inv _ _ _ _ _ R) as (Hf & s & E & Hv). exists s. split; [exact E|]. split; [exact Hv|].
  assert (E0 : NewLedger_Init = Ret genesis_ledger) by (apply or_else_Ret; vm_compute; reflexivity).
  destruct (load_test_conserves map_to_list range_order_map_to_list genesis_ledger load_events s E0 Hf E) as [Ht _].
  exact Ht.
Defined.
