(* ===== verification/P2p.v ===== *)
(** * P2p: the peer-to-peer network ([p2p/*.go])

    Peers with their bounded write queues, the peer table of a node, the
    handshake and the dials.  Sockets (gorilla/websocket) are not
    under [src/]: what a connection delivers is an argument of the steps.  A
    [*peer] is named by a number; [objs] is the store of the peer objects, so
    that "the same id" and "the same object" are different questions, as in the
    code.  The clients see the network through the interface [P2P]. *)
From S2P Require Import Prelude.
From S2P Require Import Common.
From S2P Require Import Sync.

(** ** Messages and the interface ([p2p/p2p.go:59-88]) *)
Record Msg (D : Type) := mkMsg { T : Z; Data : option D }.
Arguments mkMsg {D} _ _.
Arguments T {D} _.
Arguments Data {D} _.

Definition NewMsg {D} (t : Z) (data : option D) : Msg D := {| T := t; Data := data |}.

(** A [Peer] is a reference to a peer object, and so a number; [PS] is the type
    of the states the peers report. *)
Class P2P (N D PS : Type) := {
  net_BestPeer : N -> option nat * error;
  net_AllPeer : N -> list nat * error;
  net_Write : N -> nat -> Msg D -> outcome (N * error);
  net_Id : N -> nat -> string;
  net_GetState : N -> nat -> option PS;
  net_SetState : N -> nat -> option PS -> N
}.

(** [HandShaker]: [PS] is the state a peer reports, [D] its bytes; [None] is nil. *)
Class HandShaker (H D PS : Type) := {
  hs_GetState : H -> outcome (option PS * error);
  hs_Handshake : H -> string -> option D -> outcome error;
  hs_DecodeState : H -> option D -> option PS;
  hs_EncodeState : H -> option PS -> option D
}.

(** [defaultHandShaker] *)
#[export] Instance defaultHandShaker {D PS} : HandShaker unit D PS := {|
  hs_GetState _ := Ret (None, None);
  hs_Handshake _ _ _ := Ret None;
  hs_DecodeState _ _ := None;
  hs_EncodeState _ _ := None
|}.

Section p2p.
Context {D PS : Type}.

(** ** Peers ([p2p/peer.go]) *)
Record peer := mkPeer {
  peerId : string;
  selfId : string;
  peerSrvAddr : string;
  peer_state : option PS;
  peer_closed : bool;
  writeCh : list (Msg D)
}.

Definition writeChCap : Z := 1000.

Definition newPeer (fromId toId addr : string) (s : option PS) : peer :=
  {| peerId := fromId; selfId := toId; peerSrvAddr := addr; peer_state := s;
     peer_closed := false; writeCh := [] |}.

Definition SetState (self : peer) (s : option PS) : peer :=
  {| peerId := peerId self; selfId := selfId self; peerSrvAddr := peerSrvAddr self;
     peer_state := s; peer_closed := peer_closed self; writeCh := writeCh self |}.
Definition set_queue (self : peer) (q : list (Msg D)) : peer :=
  {| peerId := peerId self; selfId := selfId self; peerSrvAddr := peerSrvAddr self;
     peer_state := peer_state self; peer_closed := peer_closed self; writeCh := q |}.

(** [close]: [once.Do], the channels are closed at most once. *)
Definition close (self : peer) : peer :=
  {| peerId := peerId self; selfId := selfId self; peerSrvAddr := peerSrvAddr self;
     peer_state := peer_state self; peer_closed := true; writeCh := writeCh self |}.

(** [Write]: a full queue drops the message; sending on a closed channel panics. *)
Definition Write (self : peer) (msg : Msg D) : outcome (peer * error) :=
  if decide (writeChCap <= Z.of_nat (length (writeCh self)))
  then Ret (self, Some "write channel is full.")
  else if peer_closed self then Panic "send on closed channel"
  else Ret (set_queue self (writeCh self ++ [msg]), None).

(** One iteration of [loopWrite] that takes a message off the queue: the message
    that goes to the connection. *)
Definition loopWrite_iter (self : peer) : option (peer * Msg D) :=
  match writeCh self with
  | [] => None
  | m :: q => Some (set_queue self q, m)
  end.

Definition info (self : peer) : string := "[" +:+ selfId self +:+ "]-[" +:+ peerId self +:+ "]".

(** ** The node ([p2p/p2p.go]) *)

(** A [loopRead] that has been started, or that has told its handler that the
    peer is connected and reads. *)
Inductive loopPhase := Spawned | Reading.

(** The calls of the message handler: its type, its data and the peer, with the
    id the peer was made with. *)
Record event := mkEvent { ev_T : Z; ev_Data : option D; ev_peer : nat; ev_Id : string }.

Record p2p := mkP2p {
  status : Z;
  id : string;
  netId : Z;
  addr : string;
  linkBootAddr : string;
  objs : gmap nat peer;
  peers : gmap string nat;
  pendingDials : gmap string string;
  hasHandler : bool;
  p2p_closed : bool;
  loops : gmap nat loopPhase;
  events : list event
}.

Definition NewP2P (NodeId : string) (Port NetId : Z) (LinkBootAddr : string) : p2p :=
  {| status := 0; id := NodeId; netId := NetId; addr := "localhost:" +:+ Itoa Port;
     linkBootAddr := LinkBootAddr; objs := ∅; peers := ∅; pendingDials := ∅; hasHandler := false;
     p2p_closed := false; loops := ∅; events := [] |}.

Definition set_status (self : p2p) (s : Z) : p2p :=
  {| status := s; id := id self; netId := netId self; addr := addr self;
     linkBootAddr := linkBootAddr self; objs := objs self; peers := peers self;
     pendingDials := pendingDials self; hasHandler := hasHandler self;
     p2p_closed := p2p_closed self; loops := loops self; events := events self |}.
Definition set_objs (self : p2p) (m : gmap nat peer) : p2p :=
  {| status := status self; id := id self; netId := netId self; addr := addr self;
     linkBootAddr := linkBootAddr self; objs := m; peers := peers self;
     pendingDials := pendingDials self; hasHandler := hasHandler self;
     p2p_closed := p2p_closed self; loops := loops self; events := events self |}.
Definition set_peers (self : p2p) (m : gmap string nat) (l : gmap nat loopPhase) : p2p :=
  {| status := status self; id := id self; netId := netId self; addr := addr self;
     linkBootAddr := linkBootAddr self; objs := objs self; peers := m;
     pendingDials := pendingDials self; hasHandler := hasHandler self;
     p2p_closed := p2p_closed self; loops := l; events := events self |}.
Definition set_dials (self : p2p) (m : gmap string string) : p2p :=
  {| status := status self; id := id self; netId := netId self; addr := addr self;
     linkBootAddr := linkBootAddr self; objs := objs self; peers := peers self;
     pendingDials := m; hasHandler := hasHandler self;
     p2p_closed := p2p_closed self; loops := loops self; events := events self |}.
Definition set_handler (self : p2p) (h c : bool) (es : list event) : p2p :=
  {| status := status self; id := id self; netId := netId self; addr := addr self;
     linkBootAddr := linkBootAddr self; objs := objs self; peers := peers self;
     pendingDials := pendingDials self; hasHandler := h;
     p2p_closed := c; loops := loops self; events := es |}.

(** [msgHandleFn], when there is one. *)
Definition msgHandleFn (self : p2p) (t : Z) (data : option D) (o : nat) (pr : peer) : p2p :=
  if hasHandler self
  then set_handler self true (p2p_closed self) (events self ++ [mkEvent t data o (peerId pr)])
  else self.

Definition close_obj (self : p2p) (o : nat) : p2p := set_objs self (alter close o (objs self)).

Definition SetHandlerFn (self : p2p) : outcome p2p :=
  if decide (Lifecycle.PreStart_ <= status self) then Panic "p2p has started, could not set handleFn."
  else Ret (set_handler self true (p2p_closed self) (events self)).

(** [SetHandShaker]: the guard; the hand shaker itself is an argument of [handshake]. *)
Definition SetHandShaker (self : p2p) : outcome p2p :=
  if decide (Lifecycle.PreInit_ <= status self) then Panic "p2p has started, could not set HandShaker."
  else Ret self.

Definition Init (self : p2p) : outcome p2p :=
  s ← Lifecycle.PreInit (status self);
  s ← Lifecycle.PostInit s;
  Ret (set_dials (set_peers (set_status self s) ∅ (loops self)) ∅).

(** [Start]: the server, the link to the boot node and the dialling loop are goroutines. *)
Definition Start (self : p2p) : outcome p2p :=
  s ← Lifecycle.PreStart (status self);
  s ← Lifecycle.PostStart s;
  Ret (set_status self s).

(** [addPeer]: the second connection to an id is closed and forgotten. *)
Definition addPeer (self : p2p) (o : nat) (pr : peer) : p2p :=
  match peers self !! peerId pr with
  | Some old =>
      if decide (old <> o) then close_obj self o
      else set_peers self (<[peerId pr := o]> (peers self)) (<[o := Spawned]> (loops self))
  | None => set_peers self (<[peerId pr := o]> (peers self)) (<[o := Spawned]> (loops self))
  end.

(** [loopRead]: its beginning, a message, and its end (the deferred calls, the
    last one first). *)
Definition loopRead_start (self : p2p) (o : nat) (pr : peer) : p2p :=
  set_peers (msgHandleFn self PeerConnected None o pr) (peers self) (<[o := Reading]> (loops self)).

Inductive readResult :=
| CloseMessage
| ReadError
| BinaryMessage (msg : option (Msg D))     (* [None]: it could not be decoded *)
| OtherMessage.

(** One message: the node, and whether the loop goes on. *)
Definition loopRead_message (self : p2p) (o : nat) (pr : peer) (r : readResult) : p2p * bool :=
  if p2p_closed self then (self, false)
  else
    match r with
    | CloseMessage | ReadError => (self, false)
    | BinaryMessage (Some msg) => (msgHandleFn self (T msg) (Data msg) o pr, true)
    | BinaryMessage None | OtherMessage => (self, true)
    end.

(** The end of the loop: its deferred calls, last first, in one step.  Other goroutines
    may run between them, and the delete does not take [mu]. *)
Definition loopRead_end (self : p2p) (o : nat) (pr : peer) : p2p :=
  let self := msgHandleFn self PeerClosed None o pr in
  let self := set_peers self (delete (peerId pr) (peers self)) (delete o (loops self)) in
  close_obj self o.

(** [BestPeer] answers the first peer the range visits. *)
Definition BestPeer (order : gmap string nat -> list (string * nat)) (self : p2p) : option nat * error :=
  if decide (0 < base.size (peers self))%nat then
    match order (peers self) with
    | (_, v) :: _ => (Some v, None)
    | [] => (None, Some "can't find best peer.")
    end
  else (None, Some "can't find best peer.").

Definition AllPeer (order : gmap string nat -> list (string * nat)) (self : p2p) : list nat * error :=
  (snd <$> order (peers self), None).

Definition allPeers (self : p2p) : gmap string nat := peers self.

(** [addDial]: neither the node itself, nor a peer, nor an id already pending. *)
Definition addDial (self : p2p) (i addr : string) : p2p * bool :=
  if decide (i = id self) then (self, false)
  else if decide (peers self !! i = None /\ pendingDials self !! i = None)
  then (set_dials self (<[i := addr]> (pendingDials self)), true)
  else (self, false).

(** One tick of [loop]: every pending dial that is not a peer is tried and
    forgotten; [connect] is what the dial does to the node. *)
Fixpoint loop_tick (connect : p2p -> string -> p2p * bool) (self : p2p) (ds : list (string * string)) : p2p :=
  match ds with
  | [] => self
  | (i, v) :: ds =>
      match peers self !! i with
      | Some _ => loop_tick connect self ds
      | None =>
          let '(self, connected) := connect self v in
          loop_tick connect (set_dials self (delete i (pendingDials self))) ds
      end
  end.

(** [Stop] closes every peer, then the node. *)
Definition Stop (self : p2p) : outcome p2p :=
  s ← Lifecycle.PreStop (status self);
  s ← Lifecycle.PostStop s;
  let self := foldl (fun self '(_, o) => close_obj self o) (set_status self s) (map_to_list (peers self)) in
  Ret (set_handler self (hasHandler self) true (events self)).

(** ** The handshake ([p2p/handshaker.go]) *)
Record handshakeMsg := mkHandshake { hm_NetId : Z; hm_Id : string; hm_Addr : string; hm_S : option D }.

(** The message sent, if the state could be read, and the new peer or the error.
    [reply]: what [ReadJSON] delivers. *)
Definition handshake {H} `{HandShaker H D PS} (self : p2p) (biz : H) (reply : handshakeMsg * error)
    : outcome (option handshakeMsg * (peer + string)) :=
  '(s, e) ← hs_GetState biz;
  match e with
  | Some e => Ret (None, inr e)
  | None =>
      let out := {| hm_Id := id self; hm_NetId := netId self; hm_Addr := addr self;
                    hm_S := hs_EncodeState biz s |} in
      let '(req, err) := reply in
      match err with
      | Some err => Ret (Some out, inr err)
      | None =>
          if decide (hm_NetId req <> netId self) then
            Ret (Some out, inr ("NetId diff, self[" +:+ Itoa (netId self) +:+ "], peer[" +:+
                                Itoa (hm_NetId req) +:+ "]"))
          else
            err ← hs_Handshake biz (hm_Id req) (hm_S req);
            match err with
            | Some err => Ret (Some out, inr err)
            | None =>
                Ret (Some out,
                     inl (newPeer (hm_Id req) (id self) (hm_Addr req) (hs_DecodeState biz (hm_S req))))
            end
      end
  end.

(** [server.ws] and [dial.connect]: shake hands, then add the peer under the
    name [o] of a new object. *)
Definition connected (self : p2p) (o : nat) (r : peer + string) : p2p :=
  match r with
  | inl pr => addPeer (set_objs self (<[o := pr]> (objs self))) o pr
  | inr _ => self
  end.
End p2p.
Arguments peer D PS : clear implicits.
Arguments p2p D PS : clear implicits.
Arguments event D : clear implicits.
Arguments readResult D : clear implicits.
Arguments handshakeMsg D : clear implicits.

(** ** The network of a node as its clients see it *)
#[export] Instance p2p_P2P {D PS} (order : gmap string nat -> list (string * nat)) : P2P (p2p D PS) D PS := {|
  net_BestPeer := BestPeer order;
  net_AllPeer := AllPeer order;
  net_Write self o msg :=
    pr ← deref (objs self !! o) "nil dereference";
    '(pr, e) ← Write pr msg;
    Ret (set_objs self (<[o := pr]> (objs self)), e);
  net_Id self o := from_option peerId "" (objs self !! o);
  net_GetState self o := pr ← objs self !! o; peer_state pr;
  net_SetState self o s := set_objs self (alter (fun pr => SetState pr s) o (objs self))
|}.
