(* ===== verification/P2pSpec.v ===== *)
(** * P2pSpec: what the network promises its clients

    The peer table as a state machine: connections that have shaken hands,
    the read loops of the peers, writes, dials and closes, in any order.  The
    message handler learns of it only through its calls; [view] is the table it
    can build from them, as the synchroniser does. *)
From S2P Require Import Prelude.
From S2P Require Import Common.
From S2P Require Import Sync.
From S2P Require Import P2p.

Section spec.
Context {D PS : Type}.
Implicit Types (self : p2p D PS) (pr : peer D PS) (es : list (event D)).

(** The peers a handler takes to be connected after the calls [es]. *)
Definition view_step (v : gmap string nat) (e : event D) : gmap string nat :=
  if decide (ev_T e = PeerConnected) then <[ev_Id e := ev_peer e]> v
  else if decide (ev_T e = PeerClosed) then delete (ev_Id e) v
  else v.
Definition view es : gmap string nat := foldl view_step ∅ es.

(** A message whose type is one of the two that the node itself uses. *)
Definition internal_type (t : Z) : Prop := t = PeerConnected \/ t = PeerClosed.
Definition external (r : readResult D) : Prop :=
  match r with BinaryMessage (Some m) => ~ internal_type (T m) | _ => True end.

(** The steps of a node, given which messages connections may deliver. *)
Inductive step (allowed : readResult D -> Prop) : p2p D PS -> p2p D PS -> Prop :=
| step_connected self o i t a s :
    objs self !! o = None -> step allowed self (connected self o (inl (newPeer i t a s)))
| step_start self o pr :
    loops self !! o = Some Spawned -> objs self !! o = Some pr ->
    step allowed self (loopRead_start self o pr)
| step_message self o pr r :
    loops self !! o = Some Reading -> objs self !! o = Some pr -> allowed r ->
    step allowed self (loopRead_message self o pr r).1
| step_end self o pr :
    loops self !! o = Some Reading -> objs self !! o = Some pr ->
    step allowed self (loopRead_end self o pr)
| step_write self o pr m pr' e :
    objs self !! o = Some pr -> Write pr m = Ret (pr', e) ->
    step allowed self (set_objs self (<[o := pr']> (objs self)))
| step_loopWrite self o pr pr' m :
    objs self !! o = Some pr -> loopWrite_iter pr = Some (pr', m) ->
    step allowed self (set_objs self (<[o := pr']> (objs self)))
| step_close self o : step allowed self (close_obj self o)
| step_state self o s :
    step allowed self (set_objs self (alter (fun pr => SetState pr s) o (objs self)))
| step_dial self i a : step allowed self (addDial self i a).1.

Record table_ok self : Prop := {
  t_obj : forall i o, peers self !! i = Some o ->
    exists pr, objs self !! o = Some pr /\ peerId pr = i /\ is_Some (loops self !! o);
  t_loop : forall o, is_Some (loops self !! o) ->
    exists pr, objs self !! o = Some pr /\ peers self !! peerId pr = Some o;
  t_queue : forall o pr, objs self !! o = Some pr -> Z.of_nat (length (writeCh pr)) <= writeChCap
}.

Definition view_ok self : Prop :=
  forall i o, view (events self) !! i = Some o <->
    peers self !! i = Some o /\ loops self !! o = Some Reading.

Lemma view_snoc es e : view (es ++ [e]) = view_step (view es) e.
Proof. unfold view. by rewrite foldl_app. Qed.

(** ** Peers *)
Lemma Write_ok pr m pr' e :
  Write pr m = Ret (pr', e) -> Z.of_nat (length (writeCh pr)) <= writeChCap ->
  peerId pr' = peerId pr /\ Z.of_nat (length (writeCh pr')) <= writeChCap.
Proof.
  unfold Write. case_decide; [by intros [= <- <-]|].
  destruct (peer_closed pr); [done|]. intros [= <- <-] _. cbn.
  rewrite length_app. cbn. split; [done|lia].
Qed.

Lemma loopWrite_ok pr pr' m :
  loopWrite_iter pr = Some (pr', m) -> Z.of_nat (length (writeCh pr)) <= writeChCap ->
  peerId pr' = peerId pr /\ Z.of_nat (length (writeCh pr')) <= writeChCap.
Proof.
  unfold loopWrite_iter. destruct (writeCh pr); [done|]. intros [= <- <-]. cbn. split; [done|lia].
Qed.

(** Replacing a peer object by one with the same id keeps the table. *)
Lemma table_ok_update self o pr pr' :
  table_ok self -> objs self !! o = Some pr -> peerId pr' = peerId pr ->
  Z.of_nat (length (writeCh pr')) <= writeChCap ->
  table_ok (set_objs self (<[o := pr']> (objs self))).
Proof.
  intros [T1 T2 T3] Ho Hid Hq. constructor; cbn.
  - intros i o' Hp. destruct (T1 _ _ Hp) as (q & Hq' & Hi & Hl).
    destruct (decide (o = o')) as [<-|Hn].
    + exists pr'. rewrite lookup_insert_eq. split; [done|]. split; [congruence|done].
    + exists q. by rewrite lookup_insert_ne.
  - intros o' Hl. destruct (T2 _ Hl) as (q & Hq' & Hp).
    destruct (decide (o = o')) as [<-|Hn].
    + exists pr'. rewrite lookup_insert_eq. split; [done|]. rewrite Hid. congruence.
    + exists q. by rewrite lookup_insert_ne.
  - intros o' q. destruct (decide (o = o')) as [<-|Hn].
    + rewrite lookup_insert_eq. by intros [= <-].
    + rewrite lookup_insert_ne by done. apply T3.
Qed.

Lemma table_ok_alter self o f :
  table_ok self -> (forall pr, peerId (f pr) = peerId pr /\ writeCh (f pr) = writeCh pr) ->
  table_ok (set_objs self (alter f o (objs self))).
Proof.
  intros T Hf. destruct (objs self !! o) as [pr|] eqn:Ho.
  - destruct (Hf pr) as [H1 H2].
    replace (alter f o (objs self)) with (<[o := f pr]> (objs self)).
    + apply (table_ok_update _ _ pr); [done..|]. rewrite H2. by eapply t_queue.
    + apply map_eq. intros k. destruct (decide (o = k)) as [<-|Hn].
      * by rewrite lookup_insert_eq, lookup_alter_eq, Ho.
      * by rewrite lookup_insert_ne, lookup_alter_ne.
  - assert (E : alter f o (objs self) = objs self).
    { apply map_eq. intros k. destruct (decide (o = k)) as [<-|Hn].
      - by rewrite lookup_alter_eq, Ho.
      - by rewrite lookup_alter_ne. }
    rewrite E. by destruct T.
Qed.

Lemma table_ok_close self o : table_ok self -> table_ok (close_obj self o).
Proof. intros T. by apply table_ok_alter. Qed.

Lemma table_ok_new self o pr :
  table_ok self -> objs self !! o = None -> Z.of_nat (length (writeCh pr)) <= writeChCap ->
  table_ok (set_objs self (<[o := pr]> (objs self))).
Proof.
  intros [T1 T2 T3] Ho Hq. constructor; cbn.
  - intros i o' Hp. destruct (T1 _ _ Hp) as (q & Hq' & ?). exists q.
    rewrite lookup_insert_ne by congruence. done.
  - intros o' Hl. destruct (T2 _ Hl) as (q & Hq' & ?). exists q.
    rewrite lookup_insert_ne by congruence. done.
  - intros o' q. destruct (decide (o = o')) as [<-|Hn].
    + rewrite lookup_insert_eq. by intros [= <-].
    + rewrite lookup_insert_ne by done. apply T3.
Qed.

(** The two ways a new connection ends: in the table, or closed at once. *)
Lemma connected_eq self o pr :
  table_ok self -> objs self !! o = None ->
  connected self o (inl pr) =
    let self' := set_objs self (<[o := pr]> (objs self)) in
    match peers self !! peerId pr with
    | Some _ => close_obj self' o
    | None => set_peers self' (<[peerId pr := o]> (peers self)) (<[o := Spawned]> (loops self))
    end.
Proof.
  intros [T1 _ _] Ho. unfold connected, addPeer. cbn.
  destruct (peers self !! peerId pr) as [old|] eqn:E; [|done].
  destruct (T1 _ _ E) as (q & Hq & _). rewrite decide_True by congruence. done.
Qed.

Lemma loops_obj self o : table_ok self -> objs self !! o = None -> loops self !! o = None.
Proof.
  intros T Ho. destruct (loops self !! o) eqn:E; [|done].
  destruct (t_loop _ T o ltac:(eauto)) as (q & Hq & _). congruence.
Qed.

Lemma connected_table_ok self o i t a s :
  table_ok self -> objs self !! o = None ->
  table_ok (connected self o (inl (newPeer i t a s))).
Proof.
  intros T Ho. rewrite connected_eq by done. cbn zeta.
  assert (T' : table_ok (set_objs self (<[o := newPeer i t a s]> (objs self))))
    by (apply table_ok_new; [done|done|cbn; unfold writeChCap; lia]).
  cbn [peerId newPeer]. destruct (peers self !! i) eqn:E; [by apply table_ok_close|].
  destruct T' as [T1 T2 T3]. cbn in T1, T2, T3. constructor; cbn.
  - intros i' o'. destruct (decide (i = i')) as [<-|Hn].
    + rewrite lookup_insert_eq. intros [= <-]. rewrite !lookup_insert_eq. eauto.
    + rewrite lookup_insert_ne by done. intros Hp. destruct (T1 _ _ Hp) as (q & Hq & Hi & Hl).
      exists q. split; [done|]. split; [done|]. destruct (decide (o = o')) as [<-|Ho'].
      * by rewrite lookup_insert_eq.
      * by rewrite lookup_insert_ne.
  - intros o' Hl. destruct (decide (o = o')) as [<-|Ho'].
    + exists (newPeer i t a s). by rewrite !lookup_insert_eq.
    + rewrite lookup_insert_ne in Hl by done. destruct (T2 _ Hl) as (q & Hq & Hp).
      exists q. split; [done|]. rewrite lookup_insert_ne; [done|]. congruence.
  - exact T3.
Qed.

Lemma loopRead_end_table_ok self o pr :
  table_ok self -> loops self !! o = Some Reading -> objs self !! o = Some pr ->
  table_ok (loopRead_end self o pr).
Proof.
  intros T Hl Ho. unfold loopRead_end. apply table_ok_close.
  unfold msgHandleFn. destruct T as [T1 T2 T3].
  assert (G : forall self0, objs self0 = objs self -> peers self0 = peers self -> loops self0 = loops self ->
    table_ok (set_peers self0 (delete (peerId pr) (peers self0)) (delete o (loops self0)))).
  { intros self0 E1 E2 E3. rewrite E2, E3. constructor; cbn; rewrite ?E1.
    - intros i o'. rewrite lookup_delete_Some. intros [Hn Hp].
      destruct (T1 _ _ Hp) as (q & Hq & Hi & Hlo). exists q. split; [done|]. split; [done|].
      rewrite lookup_delete_ne; [done|]. intros <-. congruence.
    - intros o' Hlo. destruct (decide (o = o')) as [<-|Hn].
      { rewrite lookup_delete_eq in Hlo. by destruct Hlo. }
      rewrite lookup_delete_ne in Hlo by done. destruct (T2 _ Hlo) as (q & Hq & Hp).
      exists q. split; [done|]. rewrite lookup_delete_ne; [done|]. intros E.
      destruct (T2 o ltac:(eauto)) as (q' & Hq' & Hp'). congruence.
    - exact T3. }
  destruct (hasHandler self); apply G; done.
Qed.

Lemma step_table_ok allowed self self' : step allowed self self' -> table_ok self -> table_ok self'.
Proof.
  intros Hs T. destruct Hs.
  - by apply connected_table_ok.
  - unfold loopRead_start, msgHandleFn. destruct T as [T1 T2 T3].
    destruct (hasHandler self); constructor; cbn; try done.
    1,3: intros i o' Hp; destruct (T1 _ _ Hp) as (q & Hq & Hi & Hl); exists q;
      (split; [done|]); (split; [done|]); destruct (decide (o = o')) as [<-|];
      [by rewrite lookup_insert_eq | by rewrite lookup_insert_ne].
    all: intros o' Hl; apply T2; destruct (decide (o = o')) as [<-|];
      [eauto | by rewrite lookup_insert_ne in Hl].
  - unfold loopRead_message, msgHandleFn.
    destruct (p2p_closed self); [done|]. destruct r as [| |[m|]|]; try done.
    destruct (hasHandler self); [|done]. by destruct T.
  - by apply loopRead_end_table_ok.
  - destruct (Write_ok _ _ _ _ H0 (t_queue _ T _ _ H)). by eapply table_ok_update.
  - destruct (loopWrite_ok _ _ _ H0 (t_queue _ T _ _ H)). by eapply table_ok_update.
  - by apply table_ok_close.
  - by apply table_ok_alter.
  - unfold addDial. repeat case_decide; [done| |done]. by destruct T.
Qed.

(** ** The handler's view *)
Lemma step_handler allowed self self' :
  step allowed self self' -> hasHandler self = true -> hasHandler self' = true.
Proof.
  intros Hs Hh. destruct Hs;
    unfold connected, addPeer, loopRead_start, loopRead_message, loopRead_end, msgHandleFn, addDial;
    cbn; rewrite ?Hh; try done.
  - repeat case_match; done.
  - destruct (p2p_closed self), r as [| |[m|]|]; done.
  - repeat case_decide; done.
Qed.

(** A handler call whose type is not internal leaves the view alone. *)
Lemma view_external es t d o i :
  ~ internal_type t -> view (es ++ [mkEvent t d o i]) = view es.
Proof.
  intros Hn. rewrite view_snoc. unfold view_step. cbn.
  rewrite !decide_False; [done| |]; intros ->; apply Hn; [by right|by left].
Qed.

Lemma start_view_ok self o pr :
  table_ok self -> hasHandler self = true -> view_ok self ->
  loops self !! o = Some Spawned -> objs self !! o = Some pr ->
  view_ok (loopRead_start self o pr).
Proof.
  intros T Hh V Hl Ho i o'. unfold loopRead_start, msgHandleFn. rewrite Hh. cbn.
  rewrite view_snoc. unfold view_step. cbn [ev_T ev_Id ev_peer]. rewrite decide_True by done.
  destruct (t_loop _ T o ltac:(eauto)) as (q & Hq & Hp). simplify_eq.
  destruct (decide (i = peerId pr)) as [->|Hi].
  - rewrite lookup_insert_eq. split.
    + intros [= <-]. by rewrite lookup_insert_eq.
    + intros [Hp' _]. congruence.
  - rewrite lookup_insert_ne by done. rewrite (V i o').
    destruct (decide (o = o')) as [<-|Hn].
    + rewrite lookup_insert_eq. split; [intros [_ ?]; congruence|].
      intros [Hp' _]. destruct (t_obj _ T _ _ Hp') as (q' & ? & ? & _). congruence.
    + by rewrite lookup_insert_ne.
Qed.

Lemma end_view_ok self o pr :
  table_ok self -> hasHandler self = true -> view_ok self ->
  loops self !! o = Some Reading -> objs self !! o = Some pr ->
  view_ok (loopRead_end self o pr).
Proof.
  intros T Hh V Hl Ho i o'. unfold loopRead_end, msgHandleFn. rewrite Hh. cbn.
  rewrite view_snoc. unfold view_step. cbn [ev_T ev_Id ev_peer].
  rewrite decide_False, decide_True by done.
  destruct (t_loop _ T o ltac:(eauto)) as (q & Hq & Hp). simplify_eq.
  destruct (decide (i = peerId pr)) as [->|Hi].
  - rewrite !lookup_delete_eq. naive_solver.
  - rewrite !lookup_delete_ne by done. rewrite (V i o').
    destruct (decide (o = o')) as [<-|Hn]; [|by rewrite lookup_delete_ne].
    rewrite lookup_delete_eq. split; [|naive_solver].
    intros [Hp' _]. destruct (t_obj _ T _ _ Hp') as (q' & ? & ? & _). congruence.
Qed.

Lemma connected_view_ok self o i t a s :
  table_ok self -> view_ok self -> objs self !! o = None ->
  view_ok (connected self o (inl (newPeer i t a s))).
Proof.
  intros T V Ho. rewrite connected_eq by done. cbn zeta. cbn [peerId newPeer].
  pose proof (loops_obj _ _ T Ho) as Hlo.
  destruct (peers self !! i) eqn:E; [exact V|].
  intros i' o'. cbn. rewrite (V i' o').
  destruct (decide (o = o')) as [<-|Hn].
  - rewrite lookup_insert_eq, Hlo. naive_solver.
  - rewrite (lookup_insert_ne (loops self)) by done. destruct (decide (i = i')) as [<-|Hi].
    + rewrite lookup_insert_eq, E. naive_solver.
    + by rewrite lookup_insert_ne.
Qed.

Lemma step_view_ok self self' :
  step external self self' -> table_ok self -> hasHandler self = true -> view_ok self -> view_ok self'.
Proof.
  intros Hs T Hh V. destruct Hs; try exact V.
  - by apply connected_view_ok.
  - by apply start_view_ok.
  - unfold loopRead_message, msgHandleFn. rewrite Hh.
    destruct (p2p_closed self); [done|]. destruct r as [| |[m|]|]; try done.
    intros i o'. cbn. rewrite view_external by done. apply V.
  - by apply end_view_ok.
  - unfold addDial. repeat case_decide; done.
Qed.

Lemma Init_ok i port net boot self :
  (p ← SetHandlerFn (NewP2P (D := D) (PS := PS) i port net boot); Init p) = Ret self ->
  table_ok self /\ hasHandler self = true /\ view_ok self.
Proof.
  intros [= <-]. split; [|split; [done|]].
  - constructor; cbn; intros *; rewrite lookup_empty; [done|by intros []|done].
  - intros j o. cbn. rewrite !lookup_empty. naive_solver.
Qed.
End spec.

(** C31: the peer table.  Start a node with a message handler and let
    connections shake hands, be read, written, dialled and closed in any order,
    as long as no connection delivers a message of the two types the node uses
    itself.  Then at most one connection per peer id is being read, the object in
    the table under an id carries that id and is being read, no write queue
    exceeds its 1000 messages, and the handler's calls tell it exactly who is
    connected: the peers it has seen connect and not close are the ones whose
    read loop is running. *)
Theorem peer_table_correct {D PS} i port net boot (p0 p : p2p D PS) :
  (q ← SetHandlerFn (NewP2P i port net boot); Init q) = Ret p0 ->
  rtc (step external) p0 p ->
  (forall o1 o2 pr1 pr2, is_Some (loops p !! o1) -> is_Some (loops p !! o2) ->
     objs p !! o1 = Some pr1 -> objs p !! o2 = Some pr2 -> peerId pr1 = peerId pr2 -> o1 = o2) /\
  (forall j o, peers p !! j = Some o ->
     exists pr, objs p !! o = Some pr /\ peerId pr = j /\ is_Some (loops p !! o)) /\
  (forall o pr, objs p !! o = Some pr -> Z.of_nat (length (writeCh pr)) <= 1000) /\
  (forall j o, view (events p) !! j = Some o <->
     peers p !! j = Some o /\ loops p !! o = Some Reading).
Proof.
  intros H0 Hr. destruct (Init_ok _ _ _ _ _ H0) as (T0 & Hh0 & V0).
  assert (table_ok p /\ hasHandler p = true /\ view_ok p) as (T & _ & V).
  { refine (rtc_preserves _ (fun p => table_ok p /\ hasHandler p = true /\ view_ok p) _ _ _ Hr _);
      [|done]. intros x y Hs (Tx & Hx & Vx).
    split; [by eapply step_table_ok|]. split; [by eapply step_handler|]. by eapply step_view_ok. }
  split; [|split; [apply T|split; [apply (t_queue _ T)|exact V]]].
  intros o1 o2 pr1 pr2 H1 H2 Ho1 Ho2 E.
  destruct (t_loop _ T _ H1) as (q1 & ? & Hp1), (t_loop _ T _ H2) as (q2 & ? & Hp2).
  simplify_eq. congruence.
Qed.

Definition node_a : p2p unit unit :=
  default (NewP2P "a" 8080 1 "") (match (q ← SetHandlerFn (NewP2P "a" 8080 1 ""); Init q) with
                                   | Ret p => Some p | _ => None end).
Definition peer_b : peer unit unit := newPeer "b" "a" "localhost:8081" None.
(** "b" has shaken hands with "a", and is being read. *)
Definition node_ab : p2p unit unit :=
  loopRead_start (connected node_a 0%nat (inl peer_b)) 0%nat peer_b.

Lemma node_ab_run allowed : rtc (step allowed) node_a node_ab.
Proof.
  eapply rtc_l.
  { apply (step_connected _ node_a 0%nat "b" "a" "localhost:8081" None). reflexivity. }
  eapply rtc_l; [|apply rtc_refl]. apply step_start; reflexivity.
Qed.

Lemma peer_table_correct_witness :
  view (events node_ab) !! "b" = Some 0%nat /\ loops node_ab !! 0%nat = Some Reading /\
  (peers node_ab !! "b" = Some 0%nat /\ loops node_ab !! 0%nat = Some Reading).
Proof.
  split; [reflexivity|]. split; [reflexivity|].
  destruct (peer_table_correct "a" 8080 1 "" node_a node_ab eq_refl (node_ab_run _)) as (_ & _ & _ & H).
  apply (H "b" 0%nat). reflexivity.
Defined.

(** A peer can sign itself off while it stays connected.  [loopRead] hands the
    type of a message to the handler as the connection delivered it, and two
    types mean "connected" and "closed" to the handler.  A peer that sends a
    message of the second kind is still in the table and still read, but the
    handler believes it gone. *)
Theorem peer_can_forge_close :
  exists p : p2p unit unit, rtc (step (fun _ => True)) node_a p /\
    peers p !! "b" = Some 0%nat /\ loops p !! 0%nat = Some Reading /\
    view (events p) !! "b" = None.
Proof.
  exists (loopRead_message node_ab 0%nat peer_b (BinaryMessage (Some (mkMsg PeerClosed None)))).1.
  split; [|repeat split; reflexivity].
  eapply rtc_r; [apply node_ab_run|]. by apply step_message.
Qed.
