(* ===== verification/Boot.v ===== *)
(** * Boot: how nodes find each other ([p2p/bootnode.go], [p2p/bootnode_linker.go])

    The boot node keeps the connections of the nodes that have linked to it and
    answers every question with the list of them; a node's linker announces the
    node, asks again and again, and turns the answers into dials.  Connections are
    named by numbers, as peers are in [P2p]; what arrives on a connection is an
    argument of the steps. *)
From S2P Require Import Prelude.
From S2P Require Import Common.
From S2P Require Import P2p.

Record bootReq := mkBootReq { Tp : Z; bq_Id : string; bq_Addr : string }.
(** The zero value, which [ReadJSON] leaves when it fails. *)
Definition zeroReq : bootReq := {| Tp := 0; bq_Id := ""; bq_Addr := "" |}.

Record BootLinkPeer := mkBootLinkPeer { bl_Id : string; bl_Addr : string }.

Module Bootnode.
Section bootnode.
Context {D PS : Type}.

(** [loops]: the connections whose [loopread] runs. *)
Record bootnode := mk {
  bn_id : string;
  objs : gmap nat (peer D PS);
  peers : gmap string nat;
  BootAddr : string;
  closed : bool;
  loops : gset nat
}.
Implicit Types (self : bootnode).

Definition set_peers self (os : gmap nat (peer D PS)) (ps : gmap string nat) : bootnode :=
  {| bn_id := bn_id self; objs := os; peers := ps; BootAddr := BootAddr self; closed := closed self; loops := loops self |}.
Definition set_loops self (ls : gset nat) : bootnode :=
  {| bn_id := bn_id self; objs := objs self; peers := peers self; BootAddr := BootAddr self; closed := closed self; loops := ls |}.

(** [NewBoot]: nil without an address. *)
Definition NewBoot (addr : string) : option bootnode :=
  if decide (addr = "") then None
  else Some {| bn_id := ""; objs := ∅; peers := ∅; BootAddr := addr; closed := false; loops := ∅ |}.

(** [addPeer]: the newer connection replaces the older one. *)
Definition addPeer self (o : nat) (pr : peer D PS) : bootnode :=
  let self :=
    match peers self !! peerId pr with
    | Some old =>
        if decide (old <> o) then set_peers self (alter close old (objs self)) (peers self) else self
    | None => self
    end in
  set_loops (set_peers self (objs self) (<[peerId pr := o]> (peers self))) ({[o]} ∪ loops self).

(** [removePeer]: only the connection that is still in the table is removed. *)
Definition removePeer self (o : nat) (pr : peer D PS) : bootnode :=
  if decide (peers self !! peerId pr = Some o)
  then set_peers self (alter close o (objs self)) (delete (peerId pr) (peers self))
  else self.

(** [All]: ids and server addresses. *)
Definition All (order : gmap string nat -> list (string * nat)) self : list BootLinkPeer :=
  omap (fun '(_, o) => (fun pr => mkBootLinkPeer (peerId pr) (peerSrvAddr pr)) <$> objs self !! o)
    (order (peers self)).

(** [ws]: a new connection [o] that has been upgraded.  The first message says
    who is there; when it cannot be read this is only logged, and the zero value
    is used. *)
Definition ws self (o : nat) (read : bootReq + string) : bootnode :=
  let req := match read with inl req => req | inr _ => zeroReq end in
  let pr := newPeer (bq_Id req) (bn_id self) (bq_Addr req) None in
  addPeer (set_peers self (<[o := pr]> (objs self)) (peers self)) o pr.

(** The connection's close handler, called while it is read. *)
Definition closeHandler self (o : nat) (pr : peer D PS) : bootnode := removePeer self o pr.

(** [loopread] ends: the deferred [removePeer]. *)
Definition loopread_end self (o : nat) (pr : peer D PS) : bootnode :=
  set_loops (removePeer self o pr) (loops self ∖ {[o]}).

(** One iteration of [loopread]: the answer that is written to the connection,
    if any. *)
Definition loopread_iter (order : gmap string nat -> list (string * nat)) self (o : nat) (pr : peer D PS)
    (read : bootReq + string) : bootnode * option (list BootLinkPeer) :=
  if closed self then (loopread_end self o pr, None)
  else if peer_closed pr then (loopread_end self o pr, None)
  else
    match read with
    | inr _ => (loopread_end self o pr, None)
    | inl req => if decide (Tp req = 1) then (self, Some (All order self)) else (self, None)
    end.

(** [Stop]: every connection in the table, then the channel; the loops end by
    themselves. *)
Definition Stop self : outcome bootnode :=
  let os := foldl (fun os '(_, o) => alter close o os) (objs self) (map_to_list (peers self)) in
  if closed self then Panic "close of closed channel"
  else
    Ret {| bn_id := bn_id self; objs := os; peers := peers self; BootAddr := BootAddr self; closed := true;
           loops := loops self |}.
End bootnode.
Arguments bootnode D PS : clear implicits.
End Bootnode.

(** ** The linker of a node *)
Section linker.
Context {D PS : Type}.
Implicit Types (self : p2p D PS).

(** [loopRead]: the boot node's answer becomes dials. *)
Definition linker_loopRead_iter self (res : list BootLinkPeer) : p2p D PS :=
  foldl (fun self r => (addDial self (bl_Id r) (bl_Addr r)).1) self res.

(** [loopWrite]: the first message, and one at every tick. *)
Definition linker_hello self : bootReq := {| Tp := 0; bq_Id := id self; bq_Addr := addr self |}.
Definition linker_ask : bootReq := {| Tp := 1; bq_Id := ""; bq_Addr := "" |}.
End linker.
