(* ===== verification/BootSpec.v ===== *)
(** * BootSpec: what the boot node promises

    The boot node as a state machine: connections arrive, are read, end, and the
    node is stopped.  Its table is always the set of open connections, the newest
    for each id; a node that asks dials the others it does not know. *)
From S2P Require Import Prelude.
From S2P Require Import Common.
From S2P Require Import P2p.
From S2P Require Import Boot.

Section boot.
Context {D PS : Type}.
Implicit Types (b : Bootnode.bootnode D PS) (pr : peer D PS) (self : p2p D PS).
Import Bootnode.

(** A connection that has arrived, and the id and server address it gave. *)
Record joined := mkJoined { j_conn : nat; j_id : string; j_addr : string }.

Definition hello (o : nat) (r : bootReq + string) : joined :=
  let req := match r with inl req => req | inr _ => zeroReq end in
  mkJoined o (bq_Id req) (bq_Addr req).

(** New connections have new names; a stopped server accepts none.  A step is
    labelled with the connection that arrives in it. *)
Inductive boot_step : bootnode D PS -> list joined -> bootnode D PS -> Prop :=
| boot_ws b o r : objs b !! o = None -> closed b = false -> boot_step b [hello o r] (ws b o r)
| boot_read order b o pr r :
    o ∈ loops b -> objs b !! o = Some pr -> boot_step b [] (loopread_iter order b o pr r).1
| boot_close b o pr : o ∈ loops b -> objs b !! o = Some pr -> boot_step b [] (closeHandler b o pr)
| boot_stop b b' : Stop b = Ret b' -> boot_step b [] b'.

(** A run, and the connections that have arrived in it, the oldest first. *)
Inductive boot_run (b0 : bootnode D PS) : list joined -> bootnode D PS -> Prop :=
| boot_run_start : boot_run b0 [] b0
| boot_run_step h b h1 b' : boot_run b0 h b -> boot_step b h1 b' -> boot_run b0 (h ++ h1) b'.

Record boot_inv b : Prop := {
  bi_table i o : Bootnode.peers b !! i = Some o ->
    exists pr, objs b !! o = Some pr /\ peerId pr = i /\ (closed b = false -> peer_closed pr = false);
  bi_open o pr : objs b !! o = Some pr -> peer_closed pr = false ->
    Bootnode.peers b !! peerId pr = Some o /\ o ∈ loops b
}.

(** Closing a connection and taking it off the table. *)
Lemma removePeer_inv b o pr : boot_inv b -> objs b !! o = Some pr -> boot_inv (removePeer b o pr).
Proof.
  intros [I1 I2] Ho. unfold removePeer. case_decide as Ht; [|done]. split; cbn.
  - intros i o' [Hne Hi]%lookup_delete_Some. destruct (I1 _ _ Hi) as (pr' & Hp & Hid & Hc).
    exists pr'. rewrite lookup_alter_ne; [done|]. intros ->. simplify_eq.
  - intros o' pr' Hp Hc. destruct (decide (o' = o)) as [->|Hne].
    + rewrite lookup_alter_eq, Ho in Hp. cbn in Hp. by injection Hp as <-.
    + rewrite lookup_alter_ne in Hp by done. destruct (I2 _ _ Hp Hc) as [Hi Hl]. split; [|done].
      rewrite lookup_delete_ne; [done|]. intros E. rewrite E in Ht. congruence.
Qed.

(** A loop may end once its connection is closed or replaced. *)
Lemma loopread_end_inv b o pr : boot_inv b -> objs b !! o = Some pr -> boot_inv (loopread_end b o pr).
Proof.
  intros I Ho. pose proof (removePeer_inv b o pr I Ho) as [J1 J2]. split; cbn; [exact J1|].
  intros o' pr' Hp Hc. destruct (J2 _ _ Hp Hc) as [Hi Hl]. split; [done|].
  assert (El : loops (removePeer b o pr) = loops b) by (unfold removePeer; by case_decide).
  rewrite El in Hl. apply elem_of_difference. split; [done|]. intros ->%elem_of_singleton.
  unfold removePeer in Hi, Hp. destruct (decide (Bootnode.peers b !! peerId pr = Some o)) as [Ht|Ht]; cbn in Hi, Hp.
  - rewrite lookup_alter_eq, Ho in Hp. injection Hp as <-. done.
  - rewrite Ho in Hp. injection Hp as <-. done.
Qed.

Lemma ws_inv b o r : boot_inv b -> objs b !! o = None -> boot_inv (ws b o r).
Proof.
  intros [I1 I2] Ho. unfold ws. set (req := match r with inl q => q | inr _ => zeroReq end).
  set (pr := newPeer (bq_Id req) (bn_id b) (bq_Addr req) None). unfold addPeer. cbn.
  assert (Hnew : forall i o', Bootnode.peers b !! i = Some o' -> o' <> o).
  { intros i o' Hi ->. destruct (I1 _ _ Hi) as (pr' & Hp & _). congruence. }
  destruct (Bootnode.peers b !! bq_Id req) as [old|] eqn:Eold.
  - rewrite decide_True by (by eapply Hnew). split; cbn.
    + intros i o' [[<- <-]|[Hne Hi]]%lookup_insert_Some.
      * exists pr. rewrite lookup_alter_ne by (by eapply Hnew). by rewrite lookup_insert_eq.
      * destruct (I1 _ _ Hi) as (pr' & Hp & Hid & Hc). exists pr'.
        rewrite lookup_alter_ne, lookup_insert_ne; [done|by apply not_eq_sym; eapply Hnew|].
        intros ->. destruct (I1 _ _ Eold) as (pr2 & Hp2 & Hid2 & _). congruence.
    + intros o' pr' Hp Hc. destruct (decide (o' = old)) as [->|Hne].
      { rewrite lookup_alter_eq in Hp. destruct (<[o:=pr]> (objs b) !! old); [|done]. by injection Hp as <-. }
      rewrite lookup_alter_ne in Hp by done. apply lookup_insert_Some in Hp as [[<- <-]|[Hne' Hp]].
      * rewrite lookup_insert_eq. split; [done|set_solver].
      * destruct (I2 _ _ Hp Hc) as [Hi Hl]. split; [|set_solver].
        rewrite lookup_insert_ne; [done|]. intros E. rewrite <- E in Hi. congruence.
  - split; cbn.
    + intros i o' [[<- <-]|[Hne Hi]]%lookup_insert_Some; [exists pr; by rewrite lookup_insert_eq|].
      destruct (I1 _ _ Hi) as (pr' & Hp & Hid & Hc). exists pr'. rewrite lookup_insert_ne; [done|].
      by apply not_eq_sym; eapply Hnew.
    + intros o' pr' [[<- <-]|[Hne' Hp]]%lookup_insert_Some Hc.
      * rewrite lookup_insert_eq. split; [done|set_solver].
      * destruct (I2 _ _ Hp Hc) as [Hi Hl]. split; [|set_solver].
        rewrite lookup_insert_ne; [done|]. intros E. rewrite <- E in Hi. congruence.
Qed.

(** Closing connections: what is left open was open, and keeps its id. *)
Lemma close_all_lookup (l : list (string * nat)) (os : gmap nat (peer D PS)) o pr :
  foldl (fun os '(_, o) => alter close o os) os l !! o = Some pr ->
  exists pr0, os !! o = Some pr0 /\ peerId pr = peerId pr0 /\ (peer_closed pr = false -> pr = pr0).
Proof.
  revert os. induction l as [|[i o1] l IH]; intros os; [by exists pr|]. cbn [foldl].
  intros (pr1 & Hp & Hid & Hc)%IH. destruct (decide (o1 = o)) as [->|Hne].
  - rewrite lookup_alter_eq in Hp. destruct (os !! o) as [pr0|]; [|done]. injection Hp as <-.
    exists pr0. split; [done|]. split; [done|]. intros E. specialize (Hc E) as ->. done.
  - rewrite lookup_alter_ne in Hp by done. by exists pr1.
Qed.

Lemma close_all_some (l : list (string * nat)) (os : gmap nat (peer D PS)) o pr0 :
  os !! o = Some pr0 -> exists pr, foldl (fun os '(_, o) => alter close o os) os l !! o = Some pr.
Proof.
  revert os pr0. induction l as [|[i o1] l IH]; intros os pr0 Ho; [by exists pr0|]. cbn [foldl].
  destruct (decide (o1 = o)) as [->|Hne]; [apply (IH _ (close pr0)); by rewrite lookup_alter_eq, Ho|].
  apply (IH _ pr0). by rewrite lookup_alter_ne.
Qed.

Lemma boot_step_inv b h b' : boot_step b h b' -> boot_inv b -> boot_inv b'.
Proof.
  intros St I. destruct St as [b o r Ho _|order b o pr r _ Ho|b o pr _ Ho|b b' E].
  - by apply ws_inv.
  - unfold loopread_iter. destruct (closed b); [by apply loopread_end_inv|].
    destruct (peer_closed pr); [by apply loopread_end_inv|].
    destruct r as [req|]; [|by apply loopread_end_inv]. by case_decide.
  - by apply removePeer_inv.
  - unfold Stop in E. destruct (closed b); [done|]. injection E as <-. destruct I as [I1 I2]. split; cbn.
    + intros i o Hi. destruct (I1 _ _ Hi) as (pr & Hp & Hid & _).
      destruct (close_all_some (map_to_list (Bootnode.peers b)) _ _ _ Hp) as [pr' Hp']. exists pr'.
      destruct (close_all_lookup _ _ _ _ Hp') as (pr0 & Hp0 & Hid' & _). split; [done|]. split; [congruence|done].
    + intros o pr Hp Hc. destruct (close_all_lookup _ _ _ _ Hp) as (pr0 & Hp0 & _ & Hsame).
      pose proof (Hsame Hc) as E. rewrite <- E in Hp0. by apply I2.
Qed.

Lemma boot_run_inv b h b' : boot_run b h b' -> boot_inv b -> boot_inv b'.
Proof. induction 1 as [|h b' h1 b'' _ IH St]; [done|]. intros I. by eapply boot_step_inv; [|apply IH]. Qed.

Lemma NewBoot_inv addr b : NewBoot addr = Some b -> boot_inv b.
Proof. unfold NewBoot. case_decide; [done|]. intros [= <-]. split; [done|]. by intros o pr Hp. Qed.

(** ** The connections that have arrived *)

(** The newest connection of an id. *)
Definition newest (i : string) (h : list joined) : option joined := last (filter (fun j => j_id j = i) h).

Record boot_hist b (h : list joined) : Prop := {
  bh_known j : j ∈ h -> exists pr, objs b !! j_conn j = Some pr /\ peerId pr = j_id j /\ peerSrvAddr pr = j_addr j;
  bh_newest o pr : objs b !! o = Some pr -> peer_closed pr = false ->
    newest (peerId pr) h = Some (mkJoined o (peerId pr) (peerSrvAddr pr))
}.

(** Closing keeps ids and addresses. *)
Definition only_closes (os os' : gmap nat (peer D PS)) : Prop :=
  forall o, match os !! o, os' !! o with
            | Some pr, Some pr' => pr' = pr \/ pr' = close pr
            | None, None => True
            | _, _ => False
            end.

Lemma only_closes_alter o os : only_closes os (alter close o os).
Proof.
  intros o'. destruct (decide (o = o')) as [->|Hne].
  - rewrite lookup_alter_eq. destruct (os !! o'); cbn; auto.
  - rewrite lookup_alter_ne by done. destruct (os !! o'); auto.
Qed.
Lemma only_closes_trans os1 os2 os3 : only_closes os1 os2 -> only_closes os2 os3 -> only_closes os1 os3.
Proof.
  intros H1 H2 o. specialize (H1 o). specialize (H2 o).
  destruct (os1 !! o), (os2 !! o), (os3 !! o); try done. destruct H1 as [-> | ->], H2 as [-> | ->]; auto.
Qed.
Lemma only_closes_refl os : only_closes os os.
Proof. intros o. destruct (os !! o); auto. Qed.

Lemma only_closes_all (l : list (string * nat)) os : only_closes os (foldl (fun os '(_, o) => alter close o os) os l).
Proof.
  revert os. induction l as [|[i o] l IH]; intros os; [apply only_closes_refl|]. cbn [foldl].
  eapply only_closes_trans; [apply only_closes_alter|apply IH].
Qed.

Lemma only_closes_hist b b' h : only_closes (objs b) (objs b') -> boot_hist b h -> boot_hist b' h.
Proof.
  intros C [H1 H2]. split.
  - intros j Hj. destruct (H1 j Hj) as (pr & Hp & Hi & Ha). specialize (C (j_conn j)). rewrite Hp in C.
    destruct (objs b' !! j_conn j) as [pr'|]; [|done]. exists pr'. destruct C as [-> | ->]; auto.
  - intros o pr' Hp Hc. specialize (C o). rewrite Hp in C. destruct (objs b !! o) as [pr|] eqn:E; [|done].
    destruct C as [-> | ->]; [by apply H2|done].
Qed.

Lemma removePeer_closes b o pr : only_closes (objs b) (objs (removePeer b o pr)).
Proof. unfold removePeer. case_decide; [apply only_closes_alter|apply only_closes_refl]. Qed.

Lemma ws_hist b o r h :
  boot_inv b -> boot_hist b h -> objs b !! o = None -> boot_hist (ws b o r) (h ++ [hello o r]).
Proof.
  intros I [H1 H2] Ho. unfold ws, hello. set (req := match r with inl q => q | inr _ => zeroReq end).
  set (pr := newPeer (bq_Id req) (bn_id b) (bq_Addr req) None).
  set (os := <[o := pr]> (objs b)). set (b' := addPeer _ o pr).
  assert (C : only_closes os (objs b') /\ (forall old, peers b !! bq_Id req = Some old -> old <> o ->
    forall p, objs b' !! old = Some p -> peer_closed p = true)).
  { unfold b', addPeer. cbn. destruct (peers b !! bq_Id req) as [old|]; [case_decide as Hd|]; cbn.
    - split; [apply only_closes_alter|]. intros ? [= <-] _ p. rewrite lookup_alter_eq.
      destruct (os !! old); [|done]. by intros [= <-].
    - split; [apply only_closes_refl|]. intros ? [= <-] Hne. by destruct Hd.
    - split; [apply only_closes_refl|done]. }
  destruct C as [C Hold]. split.
  - intros j [Hj|Hj%list_elem_of_singleton]%elem_of_app.
    + destruct (H1 j Hj) as (p & Hp & Hi & Ha). specialize (C (j_conn j)). unfold os in C.
      rewrite lookup_insert_ne, Hp in C by congruence.
      destruct (objs b' !! j_conn j) as [p'|]; [|done]. exists p'. destruct C as [-> | ->]; auto.
    + subst j. cbn [j_conn j_id j_addr]. specialize (C o). unfold os in C. rewrite lookup_insert_eq in C.
      destruct (objs b' !! o) as [p'|]; [|done]. exists p'. destruct C as [-> | ->]; auto.
  - intros o' p' Hp' Hc. pose proof (C o') as Co. rewrite Hp' in Co.
    destruct (os !! o') as [p|] eqn:Ep; [|done]. destruct Co as [-> | ->]; [|done]. unfold newest. rewrite filter_app.
    apply lookup_insert_Some in Ep as [[<- <-]|[Hne Ep]].
    + rewrite filter_cons_True by done. by rewrite filter_nil, last_snoc.
    + destruct (bi_open _ I o' p Ep Hc) as [Ht _]. destruct (decide (peerId p = bq_Id req)) as [E|E].
      * rewrite E in Ht. rewrite (Hold o' Ht (not_eq_sym Hne) p Hp') in Hc. done.
      * rewrite filter_cons_False by (cbn; congruence). rewrite filter_nil, app_nil_r. by apply H2.
Qed.

Lemma boot_step_hist b h h1 b' : boot_step b h1 b' -> boot_inv b -> boot_hist b h -> boot_hist b' (h ++ h1).
Proof.
  intros St I Hh. destruct St as [b o r Ho _|order b o pr r _ Ho|b o pr _ Ho|b b' E]; [by apply ws_hist|..];
    rewrite app_nil_r; apply (only_closes_hist b); try done.
  - unfold loopread_iter. destruct (closed b); [apply removePeer_closes|].
    destruct (peer_closed pr); [apply removePeer_closes|].
    destruct r as [req|]; [case_decide; apply only_closes_refl|apply removePeer_closes].
  - apply removePeer_closes.
  - unfold Stop in E. destruct (closed b); [done|]. injection E as <-. apply only_closes_all.
Qed.

Lemma boot_run_hist b0 h b : boot_run b0 h b -> boot_inv b0 -> boot_hist b0 [] -> boot_hist b h.
Proof.
  induction 1 as [|h b h1 b' R IH St]; [done|]. intros I Hh.
  eapply boot_step_hist; [done|by eapply boot_run_inv|by apply IH].
Qed.

(** The newest connection of the id [i] gave the address [a], and is open. *)
Definition linked_node b (h : list joined) (i a : string) : Prop :=
  exists o pr, newest i h = Some (mkJoined o i a) /\ objs b !! o = Some pr /\ peer_closed pr = false.

Lemma All_elem order b h i a :
  boot_inv b -> boot_hist b h -> closed b = false -> range_order order ->
  mkBootLinkPeer i a ∈ All order b <-> linked_node b h i a.
Proof.
  intros [I1 I2] [H1 H2] Hc Ho. unfold All. rewrite list_elem_of_omap. split.
  - intros ([j o] & Hj & E). apply (range_order_elem order _ _ _ Ho) in Hj.
    destruct (I1 _ _ Hj) as (pr & Hp & Hid & Hcl). rewrite Hp in E. injection E as <- <-. exists o, pr.
    split; [|by auto]. apply H2; auto.
  - intros (o & pr & Hn & Hp & Hcl). pose proof Hn as Hin. unfold newest in Hin.
    apply last_Some_elem_of, list_elem_of_filter in Hin as [_ Hin].
    destruct (H1 _ Hin) as (pr' & Hp' & Hi & Ha). cbn [j_conn j_id j_addr] in *. rewrite Hp in Hp'. injection Hp' as <-.
    exists (i, o). rewrite Hp. cbn. rewrite Hi, Ha. split; [|done].
    apply (range_order_elem order _ _ _ Ho). rewrite <- Hi. by apply I2.
Qed.

Lemma All_NoDup order b :
  boot_inv b -> range_order order -> NoDup (bl_Id <$> All order b).
Proof.
  intros [I1 _] Ho. unfold All. assert (E : bl_Id <$> omap (fun '(_, o) =>
      (fun pr => mkBootLinkPeer (peerId pr) (peerSrvAddr pr)) <$> objs b !! o) (order (Bootnode.peers b)) =
    (order (Bootnode.peers b)).*1).
  { assert (Hall : Forall (fun x => Bootnode.peers b !! x.1 = Some x.2) (order (Bootnode.peers b))).
    { apply Forall_forall. intros [j o] Hj. by apply (range_order_elem order _ _ _ Ho) in Hj. }
    induction Hall as [|[j o] l Hj Hall IH]; [done|]. cbn in Hj |- *.
    destruct (I1 _ _ Hj) as (pr & Hp & <- & _). rewrite Hp. cbn. by f_equal. }
  rewrite E, (Ho (Bootnode.peers b)). apply NoDup_fst_map_to_list.
Qed.

(** ** Dials *)
Lemma linker_dials_spec self rs :
  NoDup (bl_Id <$> rs) ->
  let self' := linker_loopRead_iter self rs in
  P2p.peers self' = P2p.peers self /\ id self' = id self /\ P2p.objs self' = P2p.objs self /\
  forall i a, pendingDials self' !! i = Some a <->
    pendingDials self !! i = Some a \/
    pendingDials self !! i = None /\ P2p.peers self !! i = None /\ i <> id self /\ mkBootLinkPeer i a ∈ rs.
Proof.
  unfold linker_loopRead_iter. revert self. induction rs as [|[j aj] rs IH]; intros self Hnd.
  { cbn. split_and!; try done. intros i a. split; [by left|]. intros [?|(_ & _ & _ & ?%elem_of_nil)]; done. }
  cbn in Hnd. apply NoDup_cons in Hnd as [Hj Hnd]. cbn [foldl bl_Id bl_Addr].
  destruct (IH (addDial self j aj).1 Hnd) as (E1 & E2 & E3 & E4). unfold addDial in *.
  assert (Hfresh : forall a, mkBootLinkPeer j a ∉ rs).
  { intros a Ha. apply Hj. by apply (list_elem_of_fmap_2 bl_Id _ (mkBootLinkPeer j a)). }
  destruct (decide (j = id self)) as [->|Hid]; cbn [fst] in *; [|destruct (decide _) as [[Hp Hd]|Hn]; cbn [fst set_dials P2p.peers id P2p.objs pendingDials] in *].
  - split_and!; try done. intros i a. rewrite E4, elem_of_cons. naive_solver.
  - split_and!; try done. intros i a. rewrite E4, elem_of_cons. destruct (decide (i = j)) as [->|Hne].
    + rewrite lookup_insert_eq. split.
      * intros [[= ->]|(? & _)]; [|done]. right. split_and!; try done. by left.
      * intros [?|(_ & _ & _ & [[= ->]|Hin])]; [congruence|by left|by destruct (Hfresh a)].
    + rewrite lookup_insert_ne by done. naive_solver.
  - split_and!; try done. intros i a. rewrite E4, elem_of_cons. naive_solver.
Qed.

(** A dial only adds peers, and leaves the pending dials alone. *)
Definition dialling (connect : p2p D PS -> string -> p2p D PS * bool) : Prop :=
  forall self v, P2p.peers self ⊆ P2p.peers (connect self v).1 /\ pendingDials (connect self v).1 = pendingDials self.

Lemma loop_tick_peers connect self ds i :
  dialling connect -> is_Some (P2p.peers self !! i) -> is_Some (P2p.peers (loop_tick connect self ds) !! i).
Proof.
  intros Hd. revert self. induction ds as [|[j v] ds IH]; intros self Hi; [done|]. cbn [loop_tick].
  destruct (P2p.peers self !! j); [by apply IH|]. pose proof (Hd self v) as [Hsub _].
  destruct (connect self v) as [self1 c]. apply IH. cbn. destruct Hi as [o Hi]. exists o. by eapply lookup_weaken.
Qed.

Lemma loop_tick_connects connect self ds i a :
  dialling connect -> (forall s, is_Some (P2p.peers (connect s a).1 !! i)) -> (i, a) ∈ ds ->
  is_Some (P2p.peers (loop_tick connect self ds) !! i).
Proof.
  intros Hd Hreach. revert self. induction ds as [|[j v] ds IH]; intros self Hin; [by apply elem_of_nil in Hin|].
  cbn [loop_tick]. apply elem_of_cons in Hin as [[= <- <-]|Hin].
  - destruct (P2p.peers self !! i) as [o|] eqn:Ei; [apply loop_tick_peers; [done|by exists o]|].
    pose proof (Hreach self) as Hr. destruct (connect self a) as [self1 c]. by apply loop_tick_peers.
  - destruct (P2p.peers self !! j); [by apply IH|]. destruct (connect self v). by apply IH.
Qed.
End boot.


(** C32: nodes that link to one boot node find each other.  Take a boot node at any
    time before it is stopped, whatever has happened to its connections; [h] are the
    connections that have arrived, in their order, with the ids and addresses they
    gave.  Its answer lists exactly the ids whose newest connection is open, each
    id once, with the address that this connection gave.  A node that receives the
    answer dials exactly those it does not know, is not connected to and is not
    itself, next to the dials that were pending.  At its next tick it has every
    listed node as a peer whose dial succeeds: the dial is to the listed address, or
    to the address that was pending for the id already. *)
Theorem nodes_find_each_other {D PS} bootAddr (b0 b : Bootnode.bootnode D PS) h order (self : p2p D PS) :
  Bootnode.NewBoot bootAddr = Some b0 -> boot_run b0 h b -> Bootnode.closed b = false -> range_order order ->
  let answer := Bootnode.All order b in
  let self' := linker_loopRead_iter self answer in
  (forall i a, mkBootLinkPeer i a ∈ answer <-> linked_node b h i a) /\ NoDup (bl_Id <$> answer) /\
  (forall i a, pendingDials self' !! i = Some a <->
     pendingDials self !! i = Some a \/
     pendingDials self !! i = None /\ peers self !! i = None /\ i <> id self /\ linked_node b h i a) /\
  forall connect dials i a, dialling connect -> dials ≡ₚ map_to_list (pendingDials self') ->
    linked_node b h i a -> i <> id self ->
    (forall s, is_Some (peers (connect s (default a (pendingDials self !! i))).1 !! i)) ->
    is_Some (peers (loop_tick connect self' dials) !! i).
Proof.
  intros Hn R Hc Ho answer self'. pose proof (boot_run_inv _ _ _ R (NewBoot_inv _ _ Hn)) as I.
  assert (Hh : boot_hist b h).
  { apply (boot_run_hist _ _ _ R (NewBoot_inv _ _ Hn)). unfold Bootnode.NewBoot in Hn. case_decide; [done|].
    injection Hn as <-. split; [by intros j ?%elem_of_nil|]. by intros o pr Hp. }
  pose proof (All_NoDup order b I Ho) as Hnd.
  assert (Hel : forall i a, mkBootLinkPeer i a ∈ answer <-> linked_node b h i a) by (intros; by apply All_elem).
  destruct (linker_dials_spec self answer Hnd) as (E1 & E2 & E3 & E4). fold self' in E1, E2, E3, E4.
  assert (E4' : forall i a, pendingDials self' !! i = Some a <-> pendingDials self !! i = Some a \/
     pendingDials self !! i = None /\ peers self !! i = None /\ i <> id self /\ linked_node b h i a).
  { intros i a. rewrite E4. by rewrite Hel. }
  split; [done|]. split; [done|]. split; [done|].
  intros connect dials i a Hd Hperm Hl Hid Hreach.
  destruct (peers self !! i) as [o|] eqn:Ei; [apply loop_tick_peers; [done|rewrite E1; by exists o]|].
  apply (loop_tick_connects connect self' dials i _ Hd Hreach). rewrite Hperm.
  apply elem_of_map_to_list, E4'. destruct (pendingDials self !! i) as [v|]; [by left|by right].
Qed.

(** ** Two nodes and a boot node

    "b" has linked; "a" asks, dials and shakes hands with the default hand shaker. *)
Definition dial_b (self : p2p unit unit) (a : string) : p2p unit unit * bool :=
  match handshake self tt ({| hm_NetId := netId self; hm_Id := "b"; hm_Addr := a; hm_S := None |}, None) with
  | Ret (_, r) => (connected self (fresh (dom (objs self))) r, true)
  | _ => (self, false)
  end.
Definition boot0 : Bootnode.bootnode unit unit :=
  {| Bootnode.bn_id := ""; Bootnode.objs := ∅; Bootnode.peers := ∅; Bootnode.BootAddr := ":8000";
     Bootnode.closed := false; Bootnode.loops := ∅ |}.
Definition boot_b := Bootnode.ws boot0 0 (inl {| Tp := 0; bq_Id := "b"; bq_Addr := "localhost:9000" |}).
Definition lone_a : p2p unit unit := NewP2P "a" 8081 1 ":8000".

Lemma dial_b_connects s : is_Some (peers (dial_b s "localhost:9000").1 !! "b").
Proof.
  unfold dial_b, handshake. cbn. rewrite decide_False by (intros E; apply E; reflexivity). cbn.
  unfold connected, addPeer. cbn. destruct (peers s !! "b") as [old|] eqn:Eb; cbn.
  - case_decide; cbn; [rewrite Eb; by eexists|rewrite lookup_insert_eq; by eexists].
  - rewrite lookup_insert_eq. by eexists.
Qed.

Lemma dial_b_dialling : dialling dial_b.
Proof.
  intros s v. unfold dial_b, handshake. cbn. rewrite decide_False by (intros E; apply E; reflexivity). cbn.
  unfold connected, addPeer. cbn. destruct (peers s !! "b") as [old|] eqn:Eb; cbn; [case_decide as Hf; cbn|].
  - done.
  - split; [|done]. rewrite insert_id; [done|]. rewrite Eb. f_equal. destruct (decide (old = fresh (dom (objs s)))); [done|tauto].
  - split; [|done]. by apply insert_subseteq.
Qed.

Lemma nodes_find_each_other_witness :
  is_Some (peers (loop_tick dial_b (linker_loopRead_iter lone_a (Bootnode.All (fun m => map_to_list m) boot_b))
    [("b", "localhost:9000")]) !! "b").
Proof.
  destruct (nodes_find_each_other ":8000" boot0 boot_b [mkJoined 0 "b" "localhost:9000"] (fun m => map_to_list m) lone_a) as (_ & _ & _ & H).
  - reflexivity.
  - apply (boot_run_step _ [] boot0 [mkJoined 0 "b" "localhost:9000"] boot_b (boot_run_start _)).
    exact (boot_ws boot0 0 (inl {| Tp := 0; bq_Id := "b"; bq_Addr := "localhost:9000" |}) eq_refl eq_refl).
  - reflexivity.
  - apply range_order_map_to_list.
  - apply (H dial_b [("b", "localhost:9000")] "b"%string "localhost:9000"%string).
    + exact dial_b_dialling.
    + apply reflexive_eq. vm_compute. reflexivity.
    + exists 0%nat. eexists. split; [reflexivity|]. split; [vm_compute; reflexivity|]. done.
    + done.
    + exact dial_b_connects.
Defined.

(** A connection whose first message cannot be read is entered under the empty id. *)
Lemma unreadable_peer_is_listed {D PS} (b : Bootnode.bootnode D PS) o e :
  Bootnode.peers b = ∅ ->
  Bootnode.All (fun m => map_to_list m) (Bootnode.ws b o (inr e)) = [mkBootLinkPeer "" ""].
Proof.
  intros E. unfold Bootnode.All, Bootnode.ws, Bootnode.addPeer. cbn. rewrite E, lookup_empty. cbn.
  rewrite insert_empty, map_to_list_singleton. cbn. by rewrite lookup_insert_eq.
Qed.

(** A boot node keeps the newest connection of an id: the older one is closed,
    and its own end does not remove the newer. *)
Lemma bootnode_newest_wins {D PS} (b : Bootnode.bootnode D PS) o1 o2 pr1 pr2 :
  o1 <> o2 -> peerId pr1 = peerId pr2 ->
  let b' := Bootnode.removePeer (Bootnode.addPeer (Bootnode.addPeer b o1 pr1) o2 pr2) o1 pr1 in
  Bootnode.peers b' !! peerId pr1 = Some o2 /\
  forall pr, Bootnode.objs (Bootnode.addPeer b o1 pr1) !! o1 = Some pr ->
    Bootnode.objs b' !! o1 = Some (close pr).
Proof.
  intros Hn E. cbn zeta. set (b1 := Bootnode.addPeer b o1 pr1).
  assert (E1 : Bootnode.peers b1 !! peerId pr1 = Some o1) by (unfold b1, Bootnode.addPeer; cbn; apply lookup_insert_eq).
  unfold Bootnode.removePeer. set (b2 := Bootnode.addPeer b1 o2 pr2).
  assert (E2 : Bootnode.peers b2 !! peerId pr1 = Some o2) by (unfold b2, Bootnode.addPeer; cbn; rewrite E; apply lookup_insert_eq).
  rewrite E2, decide_False by congruence. split; [done|]. intros pr Hpr.
  unfold b2, Bootnode.addPeer. rewrite <- E, E1, decide_True by done. cbn [Bootnode.objs Bootnode.set_peers Bootnode.set_loops]. by rewrite lookup_alter_eq, Hpr.
Qed.
