(* ===== verification/Syncer.v ===== *)
(** * Syncer: block synchronisation between nodes ([syncer/*.go])

    Retry policies and the fetcher that asks for blocks, the sender, the request
    and answer handlers, the receiver that dispatches messages to them, and the
    state that drives the first synchronisation.

    [encoding/json] appears through the interface [Json]: a value of one of the
    message types becomes bytes, and bytes become a value of the type the handler
    expects, with an error.  The chain and the pool are the interfaces
    [ChainReader] and [PoolWriter], the network is the interface [P2P]. *)
From S2P Require Import Prelude.
From S2P Require Import Common.
From S2P Require Import Store.
From S2P Require Import Chain.
From S2P Require Import Reader.
From S2P Require Import Verifier.
From S2P Require Import BCPool.
From S2P Require Import PoolChains.
From S2P Require Import Sync.
From S2P Require Import Pools.
From S2P Require Import P2p.

(** ** Messages ([syncer/types.go], [syncer/state.go:42-45]) *)
Record stateMsg := mkStateMsg { sm_Height : Z; sm_Hash : string }.
(** A decoded list of block pointers may hold nil. *)
Record accountBlocksMsg := mkAccountBlocksMsg {
  abm_Address : string; abm_Blocks : list (option AccountStateBlock) }.
Record snapshotBlocksMsg := mkSnapshotBlocksMsg { sbm_Blocks : list (option SnapshotBlock) }.
Record accountHashesMsg := mkAccountHashesMsg { ahm_Address : string; ahm_Hashes : list HashHeight }.
Record snapshotHashesMsg := mkSnapshotHashesMsg { shm_Hashes : list HashHeight }.
Record requestAccountHashMsg := mkRequestAccountHashMsg {
  rah_Address : string; rah_Height : Z; rah_Hash : string; rah_PrevCnt : Z }.
Record requestSnapshotHashMsg := mkRequestSnapshotHashMsg {
  rsh_Height : Z; rsh_Hash : string; rsh_PrevCnt : Z }.
Record requestAccountBlockMsg := mkRequestAccountBlockMsg {
  rab_Address : string; rab_Hashes : list HashHeight }.
Record requestSnapshotBlockMsg := mkRequestSnapshotBlockMsg { rsb_Hashes : list HashHeight }.
Record peerState := mkPeerState { ps_Height : Z; ps_Hash : string }.
Record handState := mkHandState { GenesisHash : string; S_ : peerState }.

(** The types of the values that travel. *)
Inductive shape :=
| ShState | ShAccountBlocks | ShSnapshotBlocks | ShAccountHashes | ShSnapshotHashes
| ShRequestAccountHash | ShRequestSnapshotHash | ShRequestAccountBlock | ShRequestSnapshotBlock
| ShHandState.
Definition msg_of (s : shape) : Type :=
  match s with
  | ShState => stateMsg
  | ShAccountBlocks => accountBlocksMsg
  | ShSnapshotBlocks => snapshotBlocksMsg
  | ShAccountHashes => accountHashesMsg
  | ShSnapshotHashes => snapshotHashesMsg
  | ShRequestAccountHash => requestAccountHashMsg
  | ShRequestSnapshotHash => requestSnapshotHashMsg
  | ShRequestAccountBlock => requestAccountBlockMsg
  | ShRequestSnapshotBlock => requestSnapshotBlockMsg
  | ShHandState => handState
  end.

(** Encoding fails for some times only; decoding always leaves some value, and
    says whether the bytes were right.  [None] is a nil slice. *)
Class Json (D : Type) := {
  Marshal : forall s, msg_of s -> D + string;
  Unmarshal : forall s, option D -> msg_of s * error
}.
(** What was encoded is decoded again. *)
Class JsonLaws (D : Type) `{Json D} := {
  Unmarshal_Marshal s m d : Marshal s m = inl d -> Unmarshal s (Some d) = (m, None)
}.

(** [face.PoolWriter] *)
Class PoolWriter (W : Type) := {
  writer_AddSnapshotBlock : W -> SnapshotBlock -> outcome (W * error);
  writer_AddAccountBlock : W -> string -> AccountStateBlock -> outcome (W * error)
}.

(** ** Retry policies ([syncer/fetcher.go:15-124]) *)
Module Retry.
(** The zero [time.Time], in nanoseconds since the Unix epoch. *)
Definition zeroTime : Z := -62135596800 * Second.

Record RetryStatus := mk { cnt : Z; done : bool; ftime : Z; dtime : Z }.

Definition newRetryStatus (now : Z) : RetryStatus := {| cnt := 1; done := false; ftime := now; dtime := zeroTime |}.
Definition reset (now : Z) (self : RetryStatus) : RetryStatus :=
  {| cnt := 1; done := false; ftime := now; dtime := dtime self |}.
Definition finish (now : Z) (self : RetryStatus) : RetryStatus :=
  {| cnt := 0; done := true; ftime := ftime self; dtime := now |}.
Definition inc (self : RetryStatus) : RetryStatus :=
  {| cnt := wrap64 (cnt self + 1); done := done self; ftime := ftime self; dtime := dtime self |}.

(** [defaultRetryPolicy], its map of statuses. *)
Abbreviation policy := (gmap string RetryStatus) (only parsing).

Definition mark_done (now : Z) (self : policy) (hash : string) : policy :=
  match self !! hash with
  | Some status => <[hash := finish now status]> self
  | None => <[hash := finish now (newRetryStatus now)]> self
  end.

Definition retry (now : Z) (self : policy) (hash : string) : policy * bool :=
  match self !! hash with
  | Some status =>
      let status := inc status in
      if done status then
        if decide (5 < cnt status /\ dtime status + Second * 3 < now)
        then (<[hash := reset now status]> self, true)
        else (<[hash := status]> self, false)
      else
        if decide (10 < cnt status /\ ftime status + Second * 2 < now)
        then (<[hash := reset now status]> self, true)
        else (<[hash := status]> self, false)
  | None => (<[hash := newRetryStatus now]> self, true)
  end.

(** [addressRetryPolicy.retry] *)
Definition address_retry (now : Z) (self : policy) (key : string) : policy * bool :=
  match self !! key with
  | Some status =>
      let status := inc status in
      if decide (dtime status + Second < now) then (<[key := status]> self, true)
      else if decide (3 < cnt status) then (<[key := reset now status]> self, true)
      else (<[key := status]> self, false)
  | None => (<[key := newRetryStatus now]> self, true)
  end.
Definition address_done (self : policy) (key : string) : policy := self.
End Retry.

(** ** Chunks ([syncer/handler_reqs.go:11-22]) *)
Fixpoint split_loop {A} (fuel : nat) (buf : list A) (lim : nat) : outcome (list (list A)) :=
  if decide (lim <= length buf)%nat then
    match fuel with
    | O => Diverge
    | S fuel => cs ← split_loop fuel (drop lim buf) lim; Ret (take lim buf :: cs)
    end
  else Ret (if decide (0 < length buf)%nat then [buf] else []).
(** A limit of zero divides by zero, a negative one is a bad slice bound. *)
Definition split {A} (buf : list A) (lim : Z) : outcome (list (list A)) :=
  if decide (lim <= 0) then Panic "integer divide by zero or slice bounds out of range"
  else split_loop (S (length buf)) buf (Z.to_nat lim).

(** The loop of the hash handlers: from [hashH] down the previous hashes, at most
    [n] blocks, as long as [get] finds them. *)
Fixpoint hash_walk {B} `{Block B} (n : nat) (get : HashHeight -> option B) (hashH : HashHeight) : list HashHeight :=
  match n with
  | O => []
  | S n =>
      match get hashH with
      | None => []
      | Some block => hashH :: hash_walk n get (mkHashHeight (PreHash block) (Height block - 1))
      end
  end.

Section syncer.
Context {D : Type} `{Json D} {N : Type} `{P2P N D handState} {W : Type} `{ChainReader W} `{PoolWriter W}.

(** ** The sender ([syncer/sender.go]) *)
Section sender.
Implicit Types (net : N).

(** The range over all peers: a failed write is remembered, the last one wins. *)
Fixpoint write_all net (ps : list nat) (msg : Msg D) (err : error) : outcome (N * error) :=
  match ps with
  | [] => Ret (net, err)
  | p :: ps =>
      '(net, tmpE) ← net_Write net p msg;
      write_all net ps msg (match tmpE with Some e => Some e | None => err end)
  end.

Definition broadcast net (what : string) (t : Z) (s : shape) (m : msg_of s) : outcome (N * error) :=
  match Marshal s m with
  | inr e => Ret (net, Some (what +:+ ", format fail. err:" +:+ e))
  | inl bytM =>
      match net_AllPeer net with
      | (_, Some err) => Ret (net, Some err)
      | ([], None) => Ret (net, None)
      | (peers, None) => write_all net peers (NewMsg t (Some bytM)) None
      end
  end.
Definition broadcastState net (s : stateMsg) : outcome (N * error) :=
  broadcast net "broadcastState" State ShState s.
Definition BroadcastAccountBlocks net (address : string) (blocks : list AccountStateBlock) : outcome (N * error) :=
  broadcast net "BroadcastAccountBlocks" AccountBlocks ShAccountBlocks
    (mkAccountBlocksMsg address (Some <$> blocks)).
Definition BroadcastSnapshotBlocks net (blocks : list SnapshotBlock) : outcome (N * error) :=
  broadcast net "BroadcastSnapshotBlocks" SnapshotBlocks ShSnapshotBlocks
    (mkSnapshotBlocksMsg (Some <$> blocks)).

Definition send_to net (what : string) (t : Z) (s : shape) (m : msg_of s) (peer : nat) : outcome (N * error) :=
  match Marshal s m with
  | inr e => Ret (net, Some (what +:+ ", format fail. err:" +:+ e))
  | inl bytM => net_Write net peer (NewMsg t (Some bytM))
  end.
Definition SendAccountBlocks net (address : string) (blocks : list AccountStateBlock) (peer : nat) :=
  send_to net "SendAccountBlocks" AccountBlocks ShAccountBlocks
    (mkAccountBlocksMsg address (Some <$> blocks)) peer.
Definition SendSnapshotBlocks net (blocks : list SnapshotBlock) (peer : nat) :=
  send_to net "SendSnapshotBlocks" SnapshotBlocks ShSnapshotBlocks (mkSnapshotBlocksMsg (Some <$> blocks)) peer.
Definition SendAccountHashes net (address : string) (hashes : list HashHeight) (peer : nat) :=
  send_to net "SendAccountHashes" AccountHashes ShAccountHashes (mkAccountHashesMsg address hashes) peer.
Definition SendSnapshotHashes net (hashes : list HashHeight) (peer : nat) :=
  send_to net "SendSnapshotHashes" SnapshotHashes ShSnapshotHashes (mkSnapshotHashesMsg hashes) peer.
Definition requestSnapshotBlockByPeer net (height : HashHeight) (peer : nat) :=
  send_to net "requestSnapshotBlockByPeer" RequestSnapshotBlocks ShRequestSnapshotBlock
    (mkRequestSnapshotBlockMsg [height]) peer.

(** Requests go to the best peer. *)
Definition request net (what : string) (t : Z) (s : shape) (m : msg_of s) : outcome (N * error) :=
  match net_BestPeer net with
  | (_, Some e) => Ret (net, Some e)
  | (peer, None) =>
      match Marshal s m with
      | inr e => Ret (net, Some (what +:+ ", format fail. err:" +:+ e))
      | inl bytM => peer ← deref peer "nil dereference"; net_Write net peer (NewMsg t (Some bytM))
      end
  end.
Definition RequestAccountHash net (address : string) (height : HashHeight) (prevCnt : Z) :=
  request net "sendAccountHash" RequestAccountHash ShRequestAccountHash
    (mkRequestAccountHashMsg address (hh_Height height) (hh_Hash height) prevCnt).
Definition RequestSnapshotHash net (height : HashHeight) (prevCnt : Z) :=
  request net "sendSnapshotHash" RequestSnapshotHash ShRequestSnapshotHash
    (mkRequestSnapshotHashMsg (hh_Height height) (hh_Hash height) prevCnt).
Definition RequestAccountBlocks net (address : string) (hashes : list HashHeight) :=
  request net "RequestAccountBlocks" RequestAccountBlocks ShRequestAccountBlock
    (mkRequestAccountBlockMsg address hashes).
Definition RequestSnapshotBlocks net (hashes : list HashHeight) :=
  request net "RequestSnapshotBlocks" RequestSnapshotBlocks ShRequestSnapshotBlock
    (mkRequestSnapshotBlockMsg hashes).
End sender.

(** ** The node's synchroniser ([syncer/syncer.go], [syncer/state.go])

    [fetchedHashs]: the retry policy of the fetcher; [rw]: the chain and the
    pool; [statePeers]: the peers of [state], by id. *)
Record syncer := mkSyncer {
  net : N;
  fetchedHashs : gmap string Retry.RetryStatus;
  rw : W;
  statePeers : gmap string nat
}.
Implicit Types (self : syncer).

Definition set_net self (n : N) : syncer :=
  {| net := n; fetchedHashs := fetchedHashs self; rw := rw self; statePeers := statePeers self |}.
Definition set_policy self (p : gmap string Retry.RetryStatus) : syncer :=
  {| net := net self; fetchedHashs := p; rw := rw self; statePeers := statePeers self |}.
Definition set_rw self (w : W) : syncer :=
  {| net := net self; fetchedHashs := fetchedHashs self; rw := w; statePeers := statePeers self |}.
Definition set_statePeers self (ps : gmap string nat) : syncer :=
  {| net := net self; fetchedHashs := fetchedHashs self; rw := rw self; statePeers := ps |}.

(** An action of the sender whose error is dropped. *)
Definition sending self (m : outcome (N * error)) : outcome syncer := '(n, _) ← m; Ret (set_net self n).

(** [NewSyncer] and [Init] over a network that has not been started. *)
Definition NewSyncer_Init (n : N) (w : W) : syncer :=
  {| net := n; fetchedHashs := ∅; rw := w; statePeers := ∅ |}.

(** The time of the operation. *)
Context (now : Z).

(** *** The fetcher ([syncer/fetcher.go:126-191]) *)
Definition retry self (key : string) : syncer * bool :=
  let '(p, ok) := Retry.retry now (fetchedHashs self) key in (set_policy self p, ok).

Definition fetchSnapshotBlockFromPeer self (hash : HashHeight) (peer : nat) : outcome syncer :=
  let '(self, ok) := retry self (hh_Hash hash) in
  if ok then sending self (requestSnapshotBlockByPeer (net self) hash peer) else Ret self.

Definition FetchAccount self (address : string) (hash : HashHeight) (prevCnt : Z) : outcome syncer :=
  if decide (prevCnt <= 0) then Ret self
  else
    let '(self, ok) := retry self (hh_Hash hash +:+ Itoa (hh_Height hash)) in
    if ok then sending self (RequestAccountHash (net self) address hash prevCnt) else Ret self.

Definition FetchSnapshot self (hash : HashHeight) (prevCnt : Z) : outcome syncer :=
  if decide (prevCnt <= 0) then Ret self
  else
    let '(self, ok) := retry self (hh_Hash hash +:+ Itoa (hh_Height hash)) in
    if ok then sending self (RequestSnapshotHash (net self) hash prevCnt) else Ret self.

Definition Fetch self (request : FetchRequest) : outcome syncer :=
  if decide (fr_PrevCnt request <= 0) then Ret self
  else
    let '(self, ok) := retry self (fr_Hash request +:+ Itoa (fr_Height request)) in
    if ok then
      let hashH := mkHashHeight (fr_Hash request) (fr_Height request) in
      if decide (fr_Chain request = "") then
        sending self (RequestSnapshotHash (net self) hashH (fr_PrevCnt request))
      else sending self (RequestAccountHash (net self) (fr_Chain request) hashH (fr_PrevCnt request))
    else Ret self.

(** The hashes whose block is to be asked for. *)
Fixpoint retry_hashes self (tasks : list HashHeight) : syncer * list HashHeight :=
  match tasks with
  | [] => (self, [])
  | task :: tasks =>
      let '(self, ok) := retry self (hh_Hash task) in
      let '(self, target) := retry_hashes self tasks in
      (self, if (ok : bool) then task :: target else target)
  end.

Definition fetchSnapshotBlockByHash self (tasks : list HashHeight) : outcome syncer :=
  let '(self, target) := retry_hashes self tasks in
  match target with
  | [] => Ret self
  | _ => sending self (RequestSnapshotBlocks (net self) target)
  end.

Definition fetchAccountBlockByHash self (address : string) (tasks : list HashHeight) : outcome syncer :=
  let '(self, target) := retry_hashes self tasks in
  match target with
  | [] => Ret self
  | _ => sending self (RequestAccountBlocks (net self) address target)
  end.

Definition fetcher_done self (block : string) (height : Z) : syncer :=
  set_policy self (Retry.mark_done now (fetchedHashs self) block).

(** *** State ([syncer/state.go]) *)
Definition getHandState (w : W) : outcome (option handState * error) :=
  let '(head, e) := reader_HeadSnapshot w in
  match e with
  | Some _ => Ret (None, Some "get snapshot head block fail.")
  | None =>
      let '(genesis, e) := reader_GenesisSnapshot w in
      match e with
      | Some _ => Ret (None, Some "get genesis block fail.")
      | None =>
          head ← deref head "nil dereference";
          Ret (Some (mkHandState (Hash genesis) (mkPeerState (Height head) (Hash head))), None)
      end
  end.

Definition Handshake (w : W) (peerId : string) (state : option D) : outcome error :=
  match Unmarshal ShHandState state with
  | (_, Some err) => Ret (Some err)
  | (msg, None) =>
      '(hs, err) ← getHandState w;
      match err with
      | Some err => Ret (Some err)
      | None =>
          hs ← deref hs "nil dereference";
          if decide (GenesisHash hs <> GenesisHash msg) then
            Ret (Some ("Genesis diff, self[" +:+ GenesisHash hs +:+ "], peer[" +:+ GenesisHash msg +:+ "]"))
          else if decide (ps_Hash (S_ msg) = "") then Ret (Some "Snapshot Hash empty.")
          else Ret None
      end
  end.

Definition DecodeState (state : option D) : option handState :=
  match state with
  | None => None
  | Some _ => match Unmarshal ShHandState state with (msg, None) => Some msg | (_, Some _) => None end
  end.

Definition EncodeState (state : option handState) : option D :=
  match state with
  | None => None
  | Some state => match Marshal ShHandState state with inl b => Some b | inr _ => None end
  end.

(** [update]: remember what the peer says, and ask for its head if it is higher. *)
Definition update self (msg : stateMsg) (peer : nat) : outcome syncer :=
  let self :=
    match net_GetState (net self) peer with
    | None => self
    | Some state =>
        set_net self (net_SetState (net self) peer
          (Some (mkHandState (GenesisHash state) (mkPeerState (sm_Height msg) (sm_Hash msg)))))
    end in
  let '(head, e) := reader_HeadSnapshot (rw self) in
  match e with
  | Some _ => Ret self
  | None =>
      head ← deref head "nil dereference";
      if decide (Height head < sm_Height msg)
      then fetchSnapshotBlockFromPeer self (mkHashHeight (sm_Hash msg) (sm_Height msg)) peer
      else Ret self
  end.
Definition peerConnected self (peer : nat) : syncer :=
  set_statePeers self (<[net_Id (net self) peer := peer]> (statePeers self)).
Definition peerClosed self (peer : nat) : syncer :=
  set_statePeers self (delete (net_Id (net self) peer) (statePeers self)).

(** A tick of [loop]. *)
Definition state_loop_tick self : outcome syncer :=
  let '(head, e) := reader_HeadSnapshot (rw self) in
  match e with
  | Some _ => Ret self
  | None =>
      head ← deref head "nil dereference";
      sending self (broadcastState (net self) (mkStateMsg (Height head) (Hash head)))
  end.

(** The range loop of [bestPeer], which ends at the first peer higher than [h]. *)
Fixpoint bestPeer_loop (n : N) (ps : list nat) (h : Z) : outcome (option nat) :=
  match ps with
  | [] => Ret None
  | p :: ps =>
      s ← deref (net_GetState n p) "interface conversion: interface is nil";
      if decide (h < ps_Height (S_ s)) then Ret (Some p) else bestPeer_loop n ps h
  end.
Definition bestPeer (order : gmap string nat -> list (string * nat)) self : outcome (option nat) :=
  bestPeer_loop (net self) (snd <$> order (statePeers self)) (-1).

(** *** Handlers ([syncer/handler_reqs.go], [syncer/receiver.go]) *)
Inductive innerHandler :=
| accountHashHandler | snapshotHashHandler | snapshotBlocksHandler | accountBlocksHandler
| stateHandler | reqAccountHashHandler | reqSnapshotHashHandler | reqAccountBlocksHandler
| reqSnapshotBlocksHandler.

Definition Types (h : innerHandler) : list Z :=
  match h with
  | accountHashHandler => [AccountHashes]
  | snapshotHashHandler => [SnapshotHashes]
  | snapshotBlocksHandler => [SnapshotBlocks]
  | accountBlocksHandler => [AccountBlocks]
  | stateHandler => [State; PeerConnected; PeerClosed]
  | reqAccountHashHandler => [Common.RequestAccountHash]
  | reqSnapshotHashHandler => [Common.RequestSnapshotHash]
  | reqAccountBlocksHandler => [Common.RequestAccountBlocks]
  | reqSnapshotBlocksHandler => [Common.RequestSnapshotBlocks]
  end.

(** The chunks are sent one after the other. *)
Fixpoint send_chunks self (address : string) (chunks : list (list HashHeight)) (peer : nat) : outcome syncer :=
  match chunks with
  | [] => Ret self
  | m1 :: chunks =>
      self ← sending self (SendAccountHashes (net self) address m1 peer);
      send_chunks self address chunks peer
  end.

Definition Handle_reqAccountHash self (d : option D) (p : nat) : outcome syncer :=
  match Unmarshal ShRequestAccountHash d with
  | (_, Some _) => Ret self
  | (msg, None) =>
      let hashes := hash_walk (Z.to_nat (rah_PrevCnt msg))
        (reader_GetAccountByHashH (rw self) (rah_Address msg))
        (mkHashHeight (rah_Hash msg) (rah_Height msg)) in
      match hashes with
      | [] => Ret self
      | _ => m ← split hashes 1000; send_chunks self (rah_Address msg) m p
      end
  end.

Definition Handle_reqSnapshotHash self (d : option D) (p : nat) : outcome syncer :=
  match Unmarshal ShRequestSnapshotHash d with
  | (_, Some _) => Ret self
  | (msg, None) =>
      let hashes := hash_walk (Z.to_nat (rsh_PrevCnt msg)) (reader_GetSnapshotByHashH (rw self))
        (mkHashHeight (rsh_Hash msg) (rsh_Height msg)) in
      match hashes with
      | [] => Ret self
      | _ => sending self (SendSnapshotHashes (net self) hashes p)
      end
  end.

(** The block handlers log a decoding error and go on with what was decoded. *)
Definition Handle_reqAccountBlocks self (d : option D) (p : nat) : outcome syncer :=
  let msg := fst (Unmarshal ShRequestAccountBlock d) in
  match omap (reader_GetAccountByHashH (rw self) (rab_Address msg)) (rab_Hashes msg) with
  | [] => Ret self
  | blocks => sending self (SendAccountBlocks (net self) (rab_Address msg) blocks p)
  end.

Definition Handle_reqSnapshotBlocks self (d : option D) (p : nat) : outcome syncer :=
  let msg := fst (Unmarshal ShRequestSnapshotBlock d) in
  match omap (reader_GetSnapshotByHashH (rw self)) (rsb_Hashes msg) with
  | [] => Ret self
  | blocks => sending self (SendSnapshotBlocks (net self) blocks p)
  end.

Definition Handle_state self (t : Z) (msg : option D) (peer : nat) : outcome syncer :=
  if decide (t = PeerClosed) then Ret (peerClosed self peer)
  else if decide (t = PeerConnected) then Ret (peerConnected self peer)
  else if decide (t = State) then
    match Unmarshal ShState msg with
    | (_, Some _) => Ret self
    | (stateMsg, None) => update self stateMsg peer
    end
  else Ret self.

Definition Handle_snapshotHashes self (msg : option D) : outcome syncer :=
  fetchSnapshotBlockByHash self (shm_Hashes (fst (Unmarshal ShSnapshotHashes msg))).
Definition Handle_accountHashes self (msg : option D) : outcome syncer :=
  let hashesMsg := fst (Unmarshal ShAccountHashes msg) in
  fetchAccountBlockByHash self (ahm_Address hashesMsg) (ahm_Hashes hashesMsg).

Fixpoint add_snapshots self (blocks : list (option SnapshotBlock)) : outcome syncer :=
  match blocks with
  | [] => Ret self
  | v :: blocks =>
      v ← deref v "nil dereference";
      let self := fetcher_done self (Hash v) (Height v) in
      '(w, _) ← writer_AddSnapshotBlock (rw self) v;
      add_snapshots (set_rw self w) blocks
  end.
Definition Handle_snapshotBlocks self (msg : option D) : outcome syncer :=
  add_snapshots self (sbm_Blocks (fst (Unmarshal ShSnapshotBlocks msg))).

Fixpoint add_accounts self (blocks : list (option AccountStateBlock)) : outcome syncer :=
  match blocks with
  | [] => Ret self
  | v :: blocks =>
      v ← deref v "nil dereference";
      let self := fetcher_done self (Hash v) (Height v) in
      '(w, _) ← writer_AddAccountBlock (rw self) (Signer v) v;
      add_accounts (set_rw self w) blocks
  end.
Definition Handle_accountBlocks self (msg : option D) : outcome syncer :=
  add_accounts self (abm_Blocks (fst (Unmarshal ShAccountBlocks msg))).

Definition inner_Handle (h : innerHandler) self (t : Z) (d : option D) (peer : nat) : outcome syncer :=
  match h with
  | accountHashHandler => Handle_accountHashes self d
  | snapshotHashHandler => Handle_snapshotHashes self d
  | snapshotBlocksHandler => Handle_snapshotBlocks self d
  | accountBlocksHandler => Handle_accountBlocks self d
  | stateHandler => Handle_state self t d peer
  | reqAccountHashHandler => Handle_reqAccountHash self d peer
  | reqSnapshotHashHandler => Handle_reqSnapshotHash self d peer
  | reqAccountBlocksHandler => Handle_reqAccountBlocks self d peer
  | reqSnapshotBlocksHandler => Handle_reqSnapshotBlocks self d peer
  end.

(** *** The receiver ([syncer/receiver.go]) *)

(** A handler registered from outside. *)
Record MsgHandler := mkMsgHandler {
  mh_Id : string;
  mh_Types : list Z;
  mh_Handle : syncer -> Z -> option D -> nat -> outcome syncer
}.

Record receiver := mkReceiver {
  innerHandlers : gmap Z (list innerHandler);
  handlers : gmap Z (gmap string MsgHandler)
}.

Definition innerhandlers : list innerHandler :=
  [accountHashHandler; snapshotHashHandler; snapshotBlocksHandler; accountBlocksHandler; stateHandler;
   reqAccountHashHandler; reqSnapshotHashHandler; reqAccountBlocksHandler; reqSnapshotBlocksHandler].

Definition add_inner (m : gmap Z (list innerHandler)) (h : innerHandler) : gmap Z (list innerHandler) :=
  foldl (fun m t => <[t := default [] (m !! t) ++ [h]]> m) m (Types h).
Definition newReceiver : receiver :=
  {| innerHandlers := foldl add_inner ∅ innerhandlers; handlers := ∅ |}.

Definition RegisterHandler (self : receiver) (h : MsgHandler) : receiver :=
  {| innerHandlers := innerHandlers self;
     handlers := foldl (fun m t => <[t := <[mh_Id h := h]> (default ∅ (m !! t))]> m)
                       (handlers self) (mh_Types h) |}.
(** Deleting from a nil map does nothing. *)
Definition UnRegisterHandler (self : receiver) (h : MsgHandler) : receiver :=
  {| innerHandlers := innerHandlers self;
     handlers := foldl (fun m t => alter (delete (mh_Id h)) t m) (handlers self) (mh_Types h) |}.

Definition Handle (order : gmap string MsgHandler -> list (string * MsgHandler)) (r : receiver)
    (t : Z) (msg : option D) (peer : nat) self : outcome syncer :=
  self ← foldl (fun s h => s ← s; inner_Handle h s t msg peer) (Ret self)
           (default [] (innerHandlers r !! t));
  foldl (fun s h => s ← s; mh_Handle h s t msg peer) (Ret self)
    (snd <$> order (default ∅ (handlers r !! t))).
End syncer.
Arguments syncer N W : clear implicits.
Arguments receiver D N W : clear implicits.
Arguments MsgHandler D N W : clear implicits.

(** [state] is the hand shaker of the network. *)
#[export] Instance state_HandShaker {D} `{Json D} {W} `{ChainReader W} : HandShaker W D handState := {|
  hs_GetState := getHandState;
  hs_Handshake := Handshake;
  hs_DecodeState _ := DecodeState;
  hs_EncodeState _ := EncodeState
|}.

(** The pool as the synchroniser's chain and pool ([chainRw]). *)
#[export] Instance pool_ChainReader {St} `{Stack St} {L} `{ChainListener L} : ChainReader (pool St L) := {|
  reader_GenesisSnapshot p := reader_GenesisSnapshot (bc p);
  reader_HeadSnapshot p := reader_HeadSnapshot (bc p);
  reader_GetSnapshotByHashH p := reader_GetSnapshotByHashH (bc p);
  reader_GetSnapshotByHash p := reader_GetSnapshotByHash (bc p);
  reader_GetSnapshotByHeight p := reader_GetSnapshotByHeight (bc p);
  reader_HeadAccount p := reader_HeadAccount (bc p);
  reader_GetAccountByHashH p := reader_GetAccountByHashH (bc p);
  reader_GetAccountByHash p := reader_GetAccountByHash (bc p);
  reader_GetAccountByHeight p := reader_GetAccountByHeight (bc p);
  reader_GetAccountBySourceHash p := reader_GetAccountBySourceHash (bc p);
  reader_FindAccountAboveSnapshotHeight p := reader_FindAccountAboveSnapshotHeight (bc p)
|}.
#[export] Instance pool_PoolWriter {St} `{Stack St} {L} `{ChainListener L} (now : Z) : PoolWriter (pool St L) := {|
  writer_AddSnapshotBlock p b := Ret (AddSnapshotBlock p b);
  writer_AddAccountBlock p address b := AddAccountBlock now p address b
|}.

(** ** The first synchronisation ([state.syncFirst])

    A goroutine that waits in a [select]: [Choosing] a peer to copy, then
    [Syncing] until the chain has grown; [Returned] when it is over.
    [published]: how often the event [DwlDone] was published. *)
Module FirstSync.
Section first.
Context {D : Type} `{Json D} {N : Type} `{P2P N D handState} {W : Type} `{ChainReader W}.

Inductive phase := Choosing | Syncing | Returned.
Record syncTask := mk {
  ph : phase;
  ta_height : Z;
  ta_hash : string;
  ta_peer : option nat;
  ta_closed : bool;
  ta_done : Z;
  published : nat
}.
Definition start : syncTask :=
  {| ph := Choosing; ta_height := 0; ta_hash := ""; ta_peer := None; ta_closed := false; ta_done := 0;
     published := 0 |}.

(** What a [select] may take: the node is stopped, the task's channel is closed,
    the 50-second timeout, a 2-second tick. *)
Inductive ev := EvStop | EvClosed | EvTimeout | EvTick.

Definition set_ph (f : syncTask) (p : phase) : syncTask :=
  {| ph := p; ta_height := ta_height f; ta_hash := ta_hash f; ta_peer := ta_peer f;
     ta_closed := ta_closed f; ta_done := ta_done f; published := published f |}.

Definition firstSyncDone (f : syncTask) : outcome syncTask :=
  if ta_closed f then Panic "close of closed channel"
  else Ret {| ph := ph f; ta_height := ta_height f; ta_hash := ta_hash f; ta_peer := ta_peer f;
              ta_closed := true; ta_done := 1; published := S (published f) |}.

(** A tick while choosing: the target, if there is a peer, and what follows the loop. *)
Definition choose_tick (order : gmap string nat -> list (string * nat)) (s : syncer N W) (f : syncTask)
    : outcome (syncer N W * syncTask) :=
  if decide (0 < base.size (statePeers s))%nat then
    p ← bestPeer order s;
    match p with
    | None => Ret (s, f)
    | Some p =>
        st ← deref (net_GetState (net s) p) "interface conversion: interface is nil";
        let f := {| ph := ph f; ta_height := ps_Height (S_ st); ta_hash := ps_Hash (S_ st);
                    ta_peer := Some p; ta_closed := ta_closed f; ta_done := ta_done f;
                    published := published f |} in
        let '(head, e) := reader_HeadSnapshot (rw s) in
        match e with
        | Some _ => Ret (s, set_ph f Returned)
        | None =>
            head ← deref head "nil dereference";
            if decide (ta_height f <= Height head) then
              f ← firstSyncDone f; Ret (s, set_ph f Returned)
            else
              s ← sending s (requestSnapshotBlockByPeer (net s) (mkHashHeight (ta_hash f) (ta_height f)) p);
              Ret (s, set_ph f Syncing)
        end
    end
  else Ret (s, f).

Definition sync_tick (s : syncer N W) (f : syncTask) : outcome (syncer N W * syncTask) :=
  let '(head, e) := reader_HeadSnapshot (rw s) in
  match e with
  | Some _ => Ret (s, f)
  | None =>
      head ← deref head "nil dereference";
      if decide (ta_height f < Height head)
      then f ← firstSyncDone f; Ret (s, set_ph f Returned)
      else Ret (s, f)
  end.

(** One [select], given the case it takes. *)
Definition select (order : gmap string nat -> list (string * nat)) (e : ev) (s : syncer N W) (f : syncTask)
    : outcome (syncer N W * syncTask) :=
  match ph f, e with
  | Returned, _ => Ret (s, f)
  | _, EvStop | _, EvClosed => Ret (s, set_ph f Returned)
  | Choosing, EvTimeout => f ← firstSyncDone f; Ret (s, f)
  | Choosing, EvTick => choose_tick order s f
  | Syncing, EvTick => sync_tick s f
  | Syncing, EvTimeout => Ret (s, f)       (* not a case of the second select *)
  end.

(** The task's channel can be received from once it is closed; the second select
    does not listen to the timeout. *)
Definition enabled (e : ev) (f : syncTask) : Prop :=
  ph f <> Returned /\
  match e with
  | EvClosed => ta_closed f = true
  | EvTimeout => ph f = Choosing
  | _ => True
  end.

Definition syncDone (f : syncTask) : bool := bool_decide (0 < ta_done f).
End first.
End FirstSync.
