(* ===== verification/SyncerSpec.v ===== *)
(** * SyncerSpec: what the synchroniser promises

    The answers to requests, the pace of retries, the dispatch of messages, the
    exchange that brings a peer's blocks into a node's pool, and the goroutine of
    the first synchronisation. *)
From S2P Require Import Prelude.
From S2P Require Import Common.
From S2P Require Import Links.
From S2P Require Import Store.
From S2P Require Import Chain.
From S2P Require Import ChainSpec.
From S2P Require Import Reader.
From S2P Require Import Verifier.
From S2P Require Import VerifierSpec.
From S2P Require Import BCPool.
From S2P Require Import PoolChains.
From S2P Require Import Sync.
From S2P Require Import Pools.
From S2P Require Import P2p.
From S2P Require Import Syncer.

(** ** Chunks *)
Lemma split_loop_ok {A} lim fuel (buf : list A) :
  (0 < lim)%nat -> (length buf < fuel)%nat ->
  exists cs, split_loop fuel buf lim = Ret cs /\ concat cs = buf /\
    Forall (fun c => 0 < length c <= lim)%nat cs /\
    forall i c, cs !! i = Some c -> (S i < length cs)%nat -> length c = lim.
Proof.
  intros Hl. revert buf. induction fuel as [|fuel IH]; intros buf Hf; [lia|]. cbn [split_loop].
  destruct (decide (lim <= length buf)%nat) as [Hge|Hlt].
  - destruct (IH (drop lim buf)) as (cs & -> & Hj & Hc & Hfull); [rewrite length_drop; lia|].
    exists (take lim buf :: cs). split; [done|]. cbn. rewrite Hj, take_drop. split; [done|].
    split; [constructor; [rewrite length_take; lia|done]|].
    intros [|i] c; cbn; [intros [= <-] _; rewrite length_take; lia|]. intros Hi Hn. eapply Hfull; [done|lia].
  - case_decide as H0.
    + exists [buf]. cbn. rewrite app_nil_r. split_and!; try done.
      * constructor; [lia|constructor].
      * intros [|i] c; cbn; [lia|done].
    + exists []. destruct buf; [|cbn in H0; lia]. done.
Qed.

(** ** Walking down the previous hashes *)
Section walk.
Context {B : Type} `{Block B}.

(** Reading a list of blocks by hash and height. *)
Definition list_get (bs : list B) (hh : HashHeight) : option B :=
  if decide (hh_Height hh < 0) then None
  else match bs !! Z.to_nat (hh_Height hh) with
       | Some b => if decide (hh_Hash hh = Hash b) then Some b else None
       | None => None
       end.

Lemma list_get_at bs i b :
  bs !! i = Some b -> Height b = Z.of_nat i ->
  list_get bs (hash_height b) = Some b.
Proof.
  intros Hi Hh. unfold list_get. cbn. rewrite Hh, decide_False by lia.
  rewrite Nat2Z.id, Hi. by rewrite decide_True.
Qed.

Lemma hash_walk_linked pre get bs n i b :
  linked pre (-1) bs -> (forall hh, get hh = list_get bs hh) -> bs !! i = Some b ->
  hash_walk n get (hash_height b) = hash_height <$> take n (reverse (take (S i) bs)).
Proof.
  intros Hl Hget. revert i b. induction n as [|n IH]; intros i b Hi; [done|].
  pose proof (linked_lookup _ _ _ _ _ Hl Hi) as Hh.
  cbn [hash_walk]. rewrite Hget, (list_get_at _ i) by (done || lia).
  rewrite (take_S_r _ _ _ Hi), reverse_snoc. cbn [take fmap list_fmap]. f_equal.
  destruct i as [|i].
  - rewrite take_0, reverse_nil, take_nil. destruct n as [|n]; [done|]. cbn [hash_walk]. rewrite Hget.
    unfold list_get. cbn [hh_Height]. by rewrite decide_True by lia.
  - destruct (lookup_lt_is_Some_2 bs i) as [b' Hb']; [apply lookup_lt_Some in Hi; lia|].
    rewrite (linked_prev _ _ _ _ _ _ Hl Hb' Hi).
    replace (Height b - 1) with (Height b'); [by apply IH|].
    rewrite (linked_lookup _ _ _ _ _ Hl Hb'). lia.
Qed.

Lemma hash_walk_unknown get bs n hh :
  (forall hh, get hh = list_get bs hh) -> list_get bs hh = None -> hash_walk n get hh = [].
Proof. intros Hget Hn. destruct n as [|n]; [done|]. cbn. by rewrite Hget, Hn. Qed.
End walk.

(** ** A network that loses nothing

    One peer, number 0, and the list of the messages written to it. *)
Section outbox.
Context {D PS : Type}.
#[export] Instance outbox_P2P : P2P (list (Msg D)) D PS := {|
  net_BestPeer _ := (Some 0%nat, None);
  net_AllPeer _ := ([0%nat], None);
  net_Write n _ m := Ret (n ++ [m], None);
  net_Id _ _ := "peer";
  net_GetState _ _ := None;
  net_SetState n _ _ := n
|}.
End outbox.

(** ** What the handlers answer *)
Section answers.
Context {D : Type} `{JsonLaws D} {W : Type} `{ChainReader W} `{PoolWriter W}.
Implicit Types (self : syncer (list (Msg D)) W).

(** A message can be encoded when the times in it can: those of the years 0 to 9999
    in their own zone, here from the year 1 to a day before the year 10000. *)
Definition dated {B} `{Block B} (b : B) : Prop := - 62135596800 * Second <= Timestamp b < 253402214400 * Second.
Definition times_ok (s : shape) : msg_of s -> Prop :=
  match s with
  | ShAccountBlocks => fun m => forall b, Some b ∈ abm_Blocks m -> dated b
  | ShSnapshotBlocks => fun m => forall b, Some b ∈ sbm_Blocks m -> dated b
  | _ => fun _ => True
  end.
Definition encodable : Prop := forall s (m : msg_of s), times_ok s m -> exists d, Marshal s m = inl d.

Lemma send_to_Ret (n : list (Msg D)) what t s (m : msg_of s) p :
  encodable -> times_ok s m -> exists d, send_to n what t s m p = Ret (n ++ [mkMsg t (Some d)], None) /\
    Unmarshal s (Some d) = (m, None).
Proof.
  intros He Ht. destruct (He s m Ht) as [d Hd]. exists d. unfold send_to. rewrite Hd.
  split; [done|]. by apply Unmarshal_Marshal.
Qed.

Lemma request_Ret (n : list (Msg D)) what t s (m : msg_of s) :
  encodable -> times_ok s m -> exists d, request n what t s m = Ret (n ++ [mkMsg t (Some d)], None) /\
    Unmarshal s (Some d) = (m, None).
Proof.
  intros He Ht. destruct (He s m Ht) as [d Hd]. exists d. unfold request. cbn. rewrite Hd.
  split; [done|]. by apply Unmarshal_Marshal.
Qed.

Lemma send_chunks_Ret self a chunks p :
  encodable -> exists ds, send_chunks self a chunks p =
      Ret (set_net self (net self ++ ((fun d => mkMsg AccountHashes (Some d)) <$> ds))) /\
    Forall2 (fun c d => Unmarshal ShAccountHashes (Some d) = (mkAccountHashesMsg a c, None)) chunks ds.
Proof.
  intros He. revert self. induction chunks as [|c chunks IH]; intros self; cbn.
  - exists []. cbn. rewrite app_nil_r. split; [by destruct self | constructor].
  - destruct (send_to_Ret (net self) "SendAccountHashes" AccountHashes ShAccountHashes
      (mkAccountHashesMsg a c) p He Logic.I) as (d & Hs & Hu).
    unfold sending, SendAccountHashes. rewrite Hs. cbn.
    destruct (IH (set_net self (net self ++ [mkMsg AccountHashes (Some d)]))) as (ds & Hr & Hf).
    exists (d :: ds). rewrite Hr. cbn. rewrite <- app_assoc. split; [done|]. by constructor.
Qed.

(** The hashes a request asks for, of a chain that holds the blocks [bs]. *)
Definition hashes_below {B} `{Block B} (bs : list B) (i : nat) (prevCnt : Z) : list HashHeight :=
  hash_height <$> take (Z.to_nat prevCnt) (reverse (take (S i) bs)).

Lemma hashes_below_nonempty {B} `{Block B} (bs : list B) i b n :
  bs !! i = Some b -> 0 < n -> hashes_below bs i n <> [].
Proof.
  intros Hi Hn. unfold hashes_below. rewrite (take_S_r _ _ _ Hi), reverse_snoc.
  replace (Z.to_nat n) with (S (Z.to_nat (n - 1))) by lia. done.
Qed.

Lemma reqSnapshotHash_Ret pre self bs i b n msg p :
  encodable -> linked pre (-1) bs ->
  (forall hh, reader_GetSnapshotByHashH (rw self) hh = list_get bs hh) ->
  bs !! i = Some b -> 0 < n ->
  Unmarshal ShRequestSnapshotHash msg = (mkRequestSnapshotHashMsg (Height b) (Hash b) n, None) ->
  exists d, Handle_reqSnapshotHash self msg p =
      Ret (set_net self (net self ++ [mkMsg SnapshotHashes (Some d)])) /\
    Unmarshal ShSnapshotHashes (Some d) = (mkSnapshotHashesMsg (hashes_below bs i n), None).
Proof.
  intros He Hl Hg Hi Hn Hu. unfold Handle_reqSnapshotHash. rewrite Hu. cbn [rsh_PrevCnt rsh_Hash rsh_Height].
  change (mkHashHeight (Hash b) (Height b)) with (hash_height b).
  rewrite (hash_walk_linked pre _ _ _ _ _ Hl Hg Hi).
  change (hash_height <$> _) with (hashes_below bs i n).
  destruct (send_to_Ret (net self) "SendSnapshotHashes" SnapshotHashes ShSnapshotHashes
    (mkSnapshotHashesMsg (hashes_below bs i n)) p He Logic.I) as (d & Hs & Hd).
  exists d. split; [|done].
  pose proof (hashes_below_nonempty bs i b n Hi Hn) as Hne.
  destruct (hashes_below bs i n) as [|hh hs]; [done|].
  unfold sending, SendSnapshotHashes. by rewrite Hs.
Qed.
End answers.

(** ** The chain as a list of blocks *)
Section chain.
Context {St : Type} `{Stack St} {L : Type} `{ChainListener L}.
Implicit Types (b : Blockchain.blockchain St L).

Lemma chain_list_get pre b bs hh :
  snap_repr pre (Blockchain.store b) (Blockchain.sc b) bs ->
  reader_GetSnapshotByHashH b hh = list_get bs hh.
Proof.
  intros R. cbn. unfold Blockchain.GetSnapshotByHashH, SnapshotChain.GetBlockByHashH, list_get.
  case_decide as Hh; [done|]. rewrite (sr_height _ _ _ _ R), decide_False by lia. done.
Qed.

Lemma account_list_get b a bs hh :
  acc_repr (Blockchain.store b) (snd (Blockchain.selfAc b a)) bs ->
  reader_GetAccountByHashH b a hh = list_get bs hh.
Proof.
  intros R. cbn. unfold Blockchain.GetAccountByHashH.
  pose proof (selfAc_fields b a) as (_ & Es & _).
  destruct (Blockchain.selfAc b a) as [b' c] eqn:E. cbn in R, Es |- *. rewrite Es.
  unfold AccountChain.GetBlockByHashH, list_get.
  case_decide as Hh; [done|]. rewrite (ar_height _ _ _ R), decide_False by lia.
  destruct (bs !! Z.to_nat (hh_Height hh)) as [v|]; [|done].
  destruct (decide (Hash v = hh_Hash hh)), (decide (hh_Hash hh = Hash v)); congruence.
Qed.
End chain.

(** C29: a request for the hashes of an account is answered with its chain.  Let
    the account's chain hold the linked blocks [bs].  Asked for [n > 0] hashes from
    the block at index [i] down, the handler sends the hashes and heights of
    exactly the blocks [i], [i - 1], ..., at most [n] of them and none below the
    first block, newest first, cut into messages of at most 1000 hashes, all but
    the last one full; asked from a hash that is not on the chain at that height it
    sends nothing. *)
Theorem account_hash_request_answered {D} `{JsonLaws D} {St} `{Stack St} {L} `{ChainListener L}
    (self : syncer (list (Msg D)) (Blockchain.blockchain St L)) a bs hh n msg p :
  encodable (D := D) ->
  acc_repr (Blockchain.store (rw self)) (snd (Blockchain.selfAc (rw self) a)) bs ->
  Unmarshal ShRequestAccountHash msg = (mkRequestAccountHashMsg a (hh_Height hh) (hh_Hash hh) n, None) ->
  0 < n ->
  match list_get bs hh with
  | None => Handle_reqAccountHash self msg p = Ret self
  | Some _ =>
      exists ds chunks,
        Handle_reqAccountHash self msg p =
          Ret (set_net self (net self ++ ((fun d => mkMsg AccountHashes (Some d)) <$> ds))) /\
        Forall2 (fun c d => Unmarshal ShAccountHashes (Some d) = (mkAccountHashesMsg a c, None)) chunks ds /\
        concat chunks = hashes_below bs (Z.to_nat (hh_Height hh)) n /\
        Forall (fun c => 0 < length c <= 1000)%nat chunks /\
        (forall j c, chunks !! j = Some c -> (S j < length chunks)%nat -> length c = 1000%nat)
  end.
Proof.
  intros He R Hu Hn. unfold Handle_reqAccountHash. rewrite Hu.
  cbn [rah_PrevCnt rah_Hash rah_Height rah_Address].
  pose proof (fun hh => account_list_get (rw self) a bs hh R) as Hg.
  destruct hh as [x h]. cbn [hh_Hash hh_Height].
  destruct (list_get bs (mkHashHeight x h)) as [b|] eqn:E.
  - unfold list_get in E. cbn [hh_Height hh_Hash] in E. case_decide as Hh; [done|].
    destruct (bs !! Z.to_nat h) as [b'|] eqn:Hb; [|done].
    case_decide as Hx; [|done]. simplify_eq.
    assert (mkHashHeight (Hash b) h = hash_height b) as ->.
    { unfold hash_height. rewrite (linked_lookup _ _ _ _ _ (ar_linked _ _ _ R) Hb).
      f_equal. lia. }
    rewrite (hash_walk_linked "" _ _ _ _ _ (ar_linked _ _ _ R) Hg Hb).
    change (hash_height <$> _) with (hashes_below bs (Z.to_nat h) n).
    pose proof (hashes_below_nonempty bs _ b n Hb Hn) as Hne.
    destruct (split_loop_ok 1000 (S (length (hashes_below bs (Z.to_nat h) n)))
      (hashes_below bs (Z.to_nat h) n)) as (cs & Hs & Hc & Hf & Hfull); [lia|lia|].
    destruct (send_chunks_Ret self a cs p He) as (ds & Hr & Hd).
    exists ds, cs. split; [|done].
    destruct (hashes_below bs (Z.to_nat h) n) as [|hh hs] eqn:Eh; [done|].
    unfold split. rewrite decide_False by lia.
    change (Z.to_nat 1000) with 1000%nat. rewrite Hs. cbn. exact Hr.
  - by rewrite (hash_walk_unknown _ bs _ _ Hg E).
Qed.

(** ** Dispatch *)
Section dispatch.
Context {D : Type} `{Json D} {N : Type} `{P2P N D handState} {W : Type} `{ChainReader W} `{PoolWriter W}.
Context (order : gmap string (MsgHandler D N W) -> list (string * MsgHandler D N W)) (now : Z).
Context (Horder : range_order order).

Lemma order_empty : order ∅ = [].
Proof. apply Permutation_nil_r. rewrite <- (map_to_list_empty (M := gmap string)). apply Horder. Qed.

Lemma order_singleton i x : order {[i := x]} = [(i, x)].
Proof.
  apply Permutation_singleton_r. rewrite <- (map_to_list_singleton (M := gmap string)). apply Horder.
Qed.

Lemma innerHandlers_new h t :
  t ∈ Types h -> innerHandlers (newReceiver (D := D) (N := N) (W := W)) !! t = Some [h].
Proof.
  intros Ht.
  assert (Forall (fun t => innerHandlers (newReceiver (D := D) (N := N) (W := W)) !! t = Some [h]) (Types h))
    as HF by (destruct h; repeat constructor).
  rewrite Forall_forall in HF. by apply HF.
Qed.

Lemma innerHandlers_other t :
  (forall h, t ∉ Types h) -> innerHandlers (newReceiver (D := D) (N := N) (W := W)) !! t = None.
Proof.
  intros Ht.
  assert (Hn : forall s, bool_decide (s ∈ innerhandlers ≫= Types) = true -> s <> t).
  { intros s Hs%bool_decide_eq_true ->. apply list_elem_of_bind in Hs as (h & Hs & _).
    exact (Ht h Hs). }
  unfold newReceiver, innerhandlers, add_inner. cbn [innerHandlers foldl Types].
  rewrite !lookup_insert_ne; [done|apply Hn; reflexivity..].
Qed.

Lemma bind_Ret_r {A} (m : outcome A) : (m ≫= fun a => Ret a) = m.
Proof. by destruct m. Qed.

Lemma Handle_new h t d p self :
  t ∈ Types h -> Handle now order newReceiver t d p self = inner_Handle now h self t d p.
Proof.
  intros Ht. unfold Handle. rewrite (innerHandlers_new h t Ht).
  change (handlers newReceiver) with (∅ : gmap Z (gmap string (MsgHandler D N W))).
  rewrite lookup_empty. cbn [default foldl]. rewrite order_empty. cbn. by destruct inner_Handle.
Qed.
End dispatch.

(** Who is to answer what. *)
Definition routing : list (Z * innerHandler) :=
  [(PeerConnected, stateHandler); (PeerClosed, stateHandler); (State, stateHandler);
   (Common.RequestAccountHash, reqAccountHashHandler); (Common.RequestSnapshotHash, reqSnapshotHashHandler);
   (Common.RequestAccountBlocks, reqAccountBlocksHandler);
   (Common.RequestSnapshotBlocks, reqSnapshotBlocksHandler);
   (AccountHashes, accountHashHandler); (SnapshotHashes, snapshotHashHandler);
   (AccountBlocks, accountBlocksHandler); (SnapshotBlocks, snapshotBlocksHandler)].

Lemma routing_Types t h : (t, h) ∈ routing -> t ∈ Types h.
Proof.
  assert (HF : Forall (fun '(t, h) => t ∈ Types h) routing)
    by (repeat constructor; apply (bool_decide_eq_true_1 _); reflexivity).
  rewrite Forall_forall in HF. apply (HF (t, h)).
Qed.

Lemma Types_routing t h : t ∈ Types h -> t ∈ routing.*1.
Proof.
  assert (HF : Forall (fun t => t ∈ routing.*1) (Types h))
    by (destruct h; repeat constructor; apply (bool_decide_eq_true_1 _); reflexivity).
  rewrite Forall_forall in HF. apply HF.
Qed.

(** ** Registration

    A sequence of registrations and unregistrations; for a type and an id the last
    one of them that names both decides. *)
Section registrations.
Context {D : Type} `{Json D} {N : Type} `{P2P N D handState} {W : Type} `{ChainReader W, PoolWriter W}.
Implicit Types (h : MsgHandler D N W) (t : Z) (i : string).

Inductive registration := Reg h | Unreg h.
Definition reg_handler (o : registration) : MsgHandler D N W := match o with Reg h | Unreg h => h end.
Definition apply_reg (r : receiver D N W) (o : registration) : receiver D N W :=
  match o with Reg h => RegisterHandler r h | Unreg h => UnRegisterHandler r h end.

Definition concerns i t (o : registration) : Prop := mh_Id (reg_handler o) = i /\ t ∈ mh_Types (reg_handler o).
#[local] Instance concerns_dec i t o : Decision (concerns i t o).
Proof. unfold concerns. apply _. Defined.

Definition registered (os : list registration) i t : option (MsgHandler D N W) :=
  match last (filter (concerns i t) os) with Some (Reg h) => Some h | _ => None end.

Lemma register_lookup i h ts (m : gmap Z (gmap string (MsgHandler D N W))) t :
  default ∅ (foldl (fun m t => <[t := <[i := h]> (default ∅ (m !! t))]> m) m ts !! t) =
  if decide (t ∈ ts) then <[i := h]> (default ∅ (m !! t)) else default ∅ (m !! t).
Proof.
  revert m. induction ts as [|t' ts IH]; intros m; cbn [foldl].
  { rewrite decide_False; [done|apply not_elem_of_nil]. }
  rewrite IH. destruct (decide (t' = t)) as [->|Hne].
  - rewrite lookup_insert_eq. cbn. rewrite (decide_True (P := t ∈ t :: ts)) by by left.
    case_decide; [apply insert_insert_eq|done].
  - rewrite lookup_insert_ne by done. apply decide_ext. rewrite elem_of_cons. naive_solver.
Qed.
Lemma unregister_lookup i ts (m : gmap Z (gmap string (MsgHandler D N W))) t :
  default ∅ (foldl (fun m t => alter (delete i) t m) m ts !! t) =
  if decide (t ∈ ts) then delete i (default ∅ (m !! t)) else default ∅ (m !! t).
Proof.
  revert m. induction ts as [|t' ts IH]; intros m; cbn [foldl].
  { rewrite decide_False; [done|apply not_elem_of_nil]. }
  rewrite IH. destruct (decide (t' = t)) as [->|Hne].
  - rewrite lookup_alter_eq, (decide_True (P := t ∈ t :: ts)) by by left.
    destruct (m !! t); cbn; [case_decide; [apply delete_delete_eq|done]|].
    rewrite delete_empty. by case_decide.
  - rewrite lookup_alter_ne by done. apply decide_ext. rewrite elem_of_cons. naive_solver.
Qed.

Lemma registered_spec os t i :
  innerHandlers (foldl apply_reg newReceiver os) = innerHandlers (newReceiver (D := D) (N := N) (W := W)) /\
  (default ∅ (handlers (foldl apply_reg newReceiver os) !! t) !! i) = registered os i t.
Proof.
  induction os as [|o os [IH1 IH2]] using rev_ind.
  { split; [done|]. change (handlers _) with (∅ : gmap Z (gmap string (MsgHandler D N W))).
    by rewrite lookup_empty. }
  rewrite foldl_app. cbn [foldl]. set (r := foldl apply_reg newReceiver os) in *. unfold registered in *.
  rewrite filter_app. split; [by destruct o|].
  destruct (decide (concerns i t o)) as [[Hi Ht]|Hn].
  - rewrite filter_cons_True, filter_nil, last_snoc by by split.
    destruct o as [h|h]; cbn [apply_reg RegisterHandler UnRegisterHandler handlers reg_handler] in *.
    + rewrite register_lookup, decide_True, Hi by done. apply lookup_insert_eq.
    + rewrite unregister_lookup, decide_True, Hi by done. apply lookup_delete_eq.
  - rewrite filter_cons_False, filter_nil, app_nil_r by done. rewrite <- IH2.
    assert (Hd : t ∈ mh_Types (reg_handler o) -> mh_Id (reg_handler o) <> i) by (intros ? ?; by destruct Hn).
    destruct o as [h|h]; cbn [apply_reg RegisterHandler UnRegisterHandler handlers reg_handler] in *.
    + rewrite register_lookup. case_decide; [|done]. rewrite lookup_insert_ne by auto. done.
    + rewrite unregister_lookup. case_decide; [|done]. rewrite lookup_delete_ne by auto. done.
Qed.
End registrations.
Arguments registration D N W : clear implicits.

(** C36: every message reaches one built-in handler, and every handler registered for
    it.  Let handlers be registered and unregistered at a new receiver in any order,
    each under any id and for any types.  A message of one of the eleven types of
    [routing] goes to the built-in handler named there, and to that one only; one of
    another type to none.  Then it goes to each registered handler once, in the
    order in which the map is visited: under an id, to the one that was registered
    last for this type, unless that id has been unregistered for this type
    since; one that fails ends the run. *)
Theorem messages_reach_one_handler {D} `{Json D} {N} `{P2P N D handState} {W} `{ChainReader W, PoolWriter W}
    (order : gmap string (MsgHandler D N W) -> list (string * MsgHandler D N W)) now
    (os : list (registration D N W)) t (d : option D) (p : nat) (self : syncer N W) :
  range_order order ->
  exists hs : list (string * MsgHandler D N W),
    NoDup hs.*1 /\ (forall i h, (i, h) ∈ hs <-> registered os i t = Some h) /\
    let others (s : syncer N W) := foldl (fun s x => s ← s; mh_Handle x.2 s t d p) (Ret s) hs in
    let r := foldl apply_reg newReceiver os in
    (forall h, (t, h) ∈ routing -> Handle now order r t d p self = (s ← inner_Handle now h self t d p; others s)) /\
    (t ∉ routing.*1 -> Handle now order r t d p self = others self).
Proof.
  intros Ho. set (m := default ∅ (handlers (foldl apply_reg newReceiver os) !! t)).
  assert (Hm : forall i, m !! i = registered os i t) by (intros i; apply registered_spec).
  exists (order m). split_and!.
  - rewrite (Ho m). apply NoDup_fst_map_to_list.
  - intros i h. by rewrite (range_order_elem order m i h Ho), Hm.
  - cbn zeta. unfold Handle. rewrite (proj1 (registered_spec os t "")). fold m.
    assert (E : forall s, foldl (fun s h => s ← s; mh_Handle h s t d p) s (snd <$> order m) =
      foldl (fun s x => s ← s; mh_Handle x.2 s t d p) s (order m)).
    { induction (order m) as [|x l IH]; intros s; [done|]. cbn. apply IH. }
    split.
    + intros h Ht. rewrite (innerHandlers_new h t) by by apply routing_Types. cbn.
      destruct (inner_Handle now h self t d p); cbn; [apply E|done|done].
    + intros Ht. rewrite (innerHandlers_other t) by (intros h Hh; by apply Ht, (Types_routing t h)).
      cbn. apply E.
Qed.

(** ** Fetching and adding blocks *)
Section adding.
Context {D : Type} `{JsonLaws D}.

(** The policy lets a hash be asked for now: it is new, or long enough ago. *)
Definition granted (now : Z) (p : gmap string Retry.RetryStatus) (x : string) : Prop :=
  snd (Retry.retry now p x) = true.

Lemma fresh_granted now p x : p !! x = None -> granted now p x.
Proof. intros E. unfold granted, Retry.retry. by rewrite E. Qed.
Lemma granted_retry now p x : granted now p x -> exists st, Retry.retry now p x = (<[x := st]> p, true).
Proof.
  unfold granted, Retry.retry. destruct (p !! x); [|intros _; by eexists].
  destruct (Retry.done _); case_decide; intros [=]; by eexists.
Qed.
Lemma granted_insert now p x y st : x <> y -> granted now p x -> granted now (<[y := st]> p) x.
Proof.
  intros Hne. unfold granted, Retry.retry. rewrite lookup_insert_ne by done.
  destruct (p !! x); [|done]. destruct (Retry.done _); by case_decide.
Qed.

(** Hashes that may be asked for are all asked for. *)
Lemma retry_hashes_granted {N W} now (self : syncer N W) tasks :
  NoDup (hh_Hash <$> tasks) -> (forall t, t ∈ tasks -> granted now (fetchedHashs self) (hh_Hash t)) ->
  exists p, retry_hashes now self tasks = (set_policy self p, tasks).
Proof.
  revert self. induction tasks as [|t tasks IH]; intros self Hnd Hf; cbn.
  - exists (fetchedHashs self). by destruct self.
  - apply NoDup_cons in Hnd as [Hn Hnd]. unfold retry.
    destruct (granted_retry now (fetchedHashs self) (hh_Hash t)) as [st ->]; [by apply Hf; left|].
    destruct (IH (set_policy self (<[hh_Hash t := st]> (fetchedHashs self)))) as [q Hq].
    + done.
    + intros u Hu. apply granted_insert; [|by apply Hf; right].
      intros E. apply Hn. rewrite <- E. by apply list_elem_of_fmap_2.
    + rewrite Hq. by exists q.
Qed.

Context {St : Type} `{Stack St} {L : Type} `{ChainListener L} (now : Z).
#[local] Instance pool_writer : PoolWriter (pool St L) := pool_PoolWriter now.

(** The snapshot pool has the block, loose or joined to a snippet. *)
Definition in_pool (p : pool St L) (b : SnapshotBlock) : Prop :=
  blockPool_contains (sp_blockpool (pendingSc p)) (Hash b) (Height b) = true.

Lemma AddBlock_in {B} `{Block B} v (bp : blockPool B) (b : B) :
  blockPool_contains (AddBlock v bp b) (Hash b) (Height b) = true.
Proof.
  unfold AddBlock. destruct (blockPool_contains bp (Hash b) (Height b)) eqn:E; cbn [negb]; [exact E|].
  unfold blockPool_contains, putBlock. cbn [freeBlocks compoundBlocks].
  rewrite lookup_insert_eq. by rewrite bool_decide_true by eauto.
Qed.

Lemma AddBlock_keeps {B} `{Block B} v (bp : blockPool B) (b c : B) :
  blockPool_contains bp (Hash c) (Height c) = true ->
  blockPool_contains (AddBlock v bp b) (Hash c) (Height c) = true.
Proof.
  intros Hc. unfold AddBlock.
  destruct (blockPool_contains bp (Hash b) (Height b)); cbn [negb]; [exact Hc|].
  unfold blockPool_contains, putBlock in *. cbn [freeBlocks compoundBlocks].
  apply orb_true_iff in Hc. apply orb_true_iff. destruct Hc as [Hc|Hc]; [left|by right].
  apply bool_decide_eq_true in Hc. apply bool_decide_eq_true.
  destruct (decide (Hash b = Hash c)) as [->|Hn]; [by rewrite lookup_insert_eq|].
  by rewrite lookup_insert_ne.
Qed.

Lemma AddSnapshotBlock_in_pool p b : in_pool (AddSnapshotBlock p b).1 b.
Proof. apply AddBlock_in. Qed.
Lemma AddSnapshotBlock_keeps p b c : in_pool p c -> in_pool (AddSnapshotBlock p b).1 c.
Proof. apply AddBlock_keeps. Qed.

(** The pool after blocks were added one after the other. *)
Definition add_all (p : pool St L) (bs : list SnapshotBlock) : pool St L :=
  foldl (fun p b => (AddSnapshotBlock p b).1) p bs.

Lemma add_all_in_pool p bs :
  (forall b, b ∈ bs -> in_pool (add_all p bs) b) /\ (forall b, in_pool p b -> in_pool (add_all p bs) b).
Proof.
  revert p. induction bs as [|b bs IH]; intros p; [split; [set_solver|done]|].
  destruct (IH (AddSnapshotBlock p b).1) as [IH1 IH2]. cbn. split.
  - intros c [->|Hc]%elem_of_cons; [|by apply IH1]. apply IH2, AddSnapshotBlock_in_pool.
  - intros c Hc. by apply IH2, AddSnapshotBlock_keeps.
Qed.

Lemma add_snapshots_Ret {N} (self : syncer N (pool St L)) bs :
  exists self', add_snapshots now self (Some <$> bs) = Ret self' /\
    net self' = net self /\ rw self' = add_all (rw self) bs.
Proof.
  revert self. induction bs as [|b bs IH]; intros self; cbn; [by exists self|].
  edestruct IH as (self' & Hs & Hn & Hw). rewrite Hs. by exists self'.
Qed.

Lemma omap_pointwise {A B} (f g : A -> option B) (l : list A) : (forall x, f x = g x) -> omap f l = omap g l.
Proof. intros E. induction l as [|x l IH]; [done|]. cbn. by rewrite E, IH. Qed.

Lemma omap_list_get pre (bs us : list SnapshotBlock) :
  linked pre (-1) bs -> (forall u, u ∈ us -> u ∈ bs) ->
  omap (list_get bs) (hash_height <$> us) = us.
Proof.
  intros Hl Hsub. induction us as [|u us IH]; [done|]. cbn.
  assert (list_get bs (hash_height u) = Some u) as ->.
  { destruct (proj1 (list_elem_of_lookup bs u) (Hsub u ltac:(set_solver))) as [i Hi].
    apply (list_get_at bs i); [done|]. rewrite (linked_lookup _ _ _ _ _ Hl Hi). lia. }
  f_equal. apply IH. set_solver.
Qed.

(** The blocks a request for [n] hashes from index [i] down is about. *)
Definition blocks_below (bs : list SnapshotBlock) (i : nat) (n : Z) : list SnapshotBlock :=
  take (Z.to_nat n) (reverse (take (S i) bs)).

Lemma blocks_below_sub bs i n u : u ∈ blocks_below bs i n -> u ∈ bs.
Proof.
  intros Hu%list_elem_of_lookup. destruct Hu as [k Hu].
  apply lookup_take_Some in Hu as [Hu _]. apply list_elem_of_lookup_2 in Hu.
  rewrite elem_of_reverse in Hu. apply list_elem_of_lookup in Hu as [j Hu].
  apply lookup_take_Some in Hu as [Hu _]. by eapply list_elem_of_lookup_2.
Qed.

Lemma blocks_below_elem bs i n j u :
  bs !! j = Some u -> (j <= i)%nat -> (i < length bs)%nat -> Z.of_nat i - n < Z.of_nat j ->
  u ∈ blocks_below bs i n.
Proof.
  intros Hj Hji Hi Hn. apply list_elem_of_lookup. exists (i - j)%nat.
  unfold blocks_below. rewrite lookup_take_lt by lia.
  rewrite reverse_lookup by (rewrite length_take; lia).
  rewrite length_take, lookup_take_lt by lia.
  replace (_ - _)%nat with j by lia. done.
Qed.

Lemma blocks_below_NoDup bs i n : NoDup (Hash <$> bs) -> NoDup (Hash <$> blocks_below bs i n).
Proof.
  intros Hnd. unfold blocks_below. rewrite fmap_take, fmap_reverse, fmap_take.
  assert (G : forall k (l : list string), NoDup l -> NoDup (take k l)).
  { intros k l Hl. rewrite <- (take_drop k l) in Hl. apply NoDup_app in Hl as [Hl _]. exact Hl. }
  apply G. rewrite reverse_Permutation. by apply G.
Qed.

(** What is sent to a receiver, handled message by message. *)
Definition deliver {W} `{ChainReader W, PoolWriter W}
    (order : gmap string (MsgHandler D (list (Msg D)) W) -> list (string * MsgHandler D (list (Msg D)) W))
    (ms : list (Msg D)) (self : syncer (list (Msg D)) W) : outcome (syncer (list (Msg D)) W) :=
  foldl (fun s m => s ← s; Handle now order newReceiver (T m) (Data m) 0%nat s) (Ret self) ms.

(** A request of node [a], and the messages between [a] and the peer [b] that follow. *)
Definition exchange ordA ordB (a b : syncer (list (Msg D)) (pool St L)) (req : FetchRequest)
    : outcome (syncer (list (Msg D)) (pool St L)) :=
  a ← Fetch now a req;
  b ← deliver ordB (net a) b;
  a ← deliver ordA (net b) (set_net a []);
  b ← deliver ordB (net a) (set_net b []);
  deliver ordA (net b) (set_net a []).

Lemma deliver_one ordr h (self : syncer (list (Msg D)) (pool St L)) t d :
  range_order ordr -> t ∈ Types h ->
  deliver ordr [mkMsg t d] self = inner_Handle now h self t d 0%nat.
Proof. intros Ho Ht. unfold deliver. cbn. by apply Handle_new. Qed.
End adding.

Lemma Forall_some_elem {A} (Q : A -> Prop) (l : list A) : (forall x, x ∈ l -> Q x) -> forall x, Some x ∈ Some <$> l -> Q x.
Proof. intros Hq x (y & [= ->] & Hy)%list_elem_of_fmap. by apply Hq. Qed.

Lemma exchange_spec {D} `{JsonLaws D} {St} `{Stack St} {L} `{ChainListener L} now ordA ordB
    (a b : syncer (list (Msg D)) (pool St L)) bs i v n :
  encodable (D := D) -> range_order ordA -> range_order ordB ->
  snap_repr "" (Blockchain.store (bc (rw b))) (Blockchain.sc (bc (rw b))) bs ->
  bs !! i = Some v -> 0 < n -> net a = [] -> net b = [] ->
  granted now (fetchedHashs a) (Hash v +:+ Itoa (Height v)) ->
  (forall u, u ∈ blocks_below bs i n ->
     dated u /\ granted now (fetchedHashs a) (Hash u) /\ Hash u <> Hash v +:+ Itoa (Height v)) ->
  exists a', exchange now ordA ordB a b (mkFetchRequest "" (Height v) (Hash v) n) = Ret a' /\
    rw a' = add_all (rw a) (blocks_below bs i n).
Proof.
  intros He HoA HoB R Hi Hn Ha Hb Hk Hfresh.
  pose proof (sr_linked _ _ _ _ R) as Hl.
  assert (Hg : forall hh, reader_GetSnapshotByHashH (rw b) hh = list_get bs hh).
  { intros hh. apply (chain_list_get "" (bc (rw b))). exact R. }
  unfold exchange, Fetch. cbn [fr_PrevCnt fr_Hash fr_Height fr_Chain].
  rewrite decide_False by lia. unfold retry. destruct (granted_retry _ _ _ Hk) as [st0 ->].
  rewrite decide_True by done. unfold sending, RequestSnapshotHash. cbn [net set_policy hh_Height hh_Hash].
  destruct (request_Ret (net a) "sendSnapshotHash" Common.RequestSnapshotHash ShRequestSnapshotHash
    (mkRequestSnapshotHashMsg (Height v) (Hash v) n) He Logic.I) as (d1 & -> & U1).
  rewrite !bind_ret_l. cbn [net set_net set_policy]. rewrite Ha. cbn [app].
  rewrite (deliver_one _ _ reqSnapshotHashHandler) by (done || by constructor). cbn [inner_Handle].
  destruct (reqSnapshotHash_Ret "" b bs i v n (Some d1) 0%nat He Hl Hg Hi Hn U1) as (d2 & -> & U2).
  rewrite !bind_ret_l. cbn [net set_net]. rewrite Hb. cbn [app].
  rewrite (deliver_one _ _ snapshotHashHandler) by (done || by constructor). cbn [inner_Handle].
  unfold Handle_snapshotHashes, fetchSnapshotBlockByHash. rewrite U2. cbn [fst shm_Hashes].
  change (hashes_below bs i n) with (hash_height <$> blocks_below bs i n) in *.
  set (us := blocks_below bs i n) in *.
  assert (Hus : forall u, u ∈ us -> u ∈ bs) by apply blocks_below_sub.
  assert (Hne : hash_height <$> us <> []) by exact (hashes_below_nonempty bs i v n Hi Hn).
  match goal with |- context [retry_hashes now ?s _] =>
    destruct (retry_hashes_granted now s (hash_height <$> us)) as [p ->] end.
  { rewrite <- list_fmap_compose. exact (blocks_below_NoDup bs i n (sr_nodup _ _ _ _ R)). }
  { intros t (u & -> & Hu)%list_elem_of_fmap. destruct (Hfresh u Hu) as (_ & Hf & Hx).
    change (hh_Hash (hash_height u)) with (Hash u). cbn [fetchedHashs set_net set_policy].
    by apply granted_insert. }
  unfold RequestSnapshotBlocks. cbn [net set_net set_policy].
  destruct (request_Ret ([] : list (Msg D)) "RequestSnapshotBlocks" Common.RequestSnapshotBlocks
    ShRequestSnapshotBlock (mkRequestSnapshotBlockMsg (hash_height <$> us)) He Logic.I) as (d3 & E3 & U3).
  destruct (hash_height <$> us) as [|hh hs] eqn:Eus; [done|]. unfold sending. rewrite E3.
  rewrite !bind_ret_l. cbn [net set_net app].
  rewrite (deliver_one _ _ reqSnapshotBlocksHandler) by (done || by constructor). cbn [inner_Handle].
  unfold Handle_reqSnapshotBlocks. rewrite U3. cbn [fst rsb_Hashes].
  rewrite <- Eus. rewrite (omap_pointwise _ (list_get bs)) by (intros; apply Hg).
  rewrite (omap_list_get "" bs us Hl Hus).
  destruct (send_to_Ret ([] : list (Msg D)) "SendSnapshotBlocks" SnapshotBlocks ShSnapshotBlocks
    (mkSnapshotBlocksMsg (Some <$> us)) 0%nat He) as (d4 & E4 & U4); [exact (Forall_some_elem dated us (fun u Hu => proj1 (Hfresh u Hu)))|].
  unfold SendSnapshotBlocks. cbn [net set_net].
  destruct us as [|u0 us'] eqn:Eu; [done|]. unfold sending. rewrite E4.
  rewrite !bind_ret_l. cbn [net set_net app].
  rewrite (deliver_one _ _ snapshotBlocksHandler) by (done || by constructor). cbn [inner_Handle].
  unfold Handle_snapshotBlocks. rewrite U4. cbn [fst sbm_Blocks].
  match goal with |- context [add_snapshots now ?s _] =>
    destruct (add_snapshots_Ret now s (u0 :: us')) as (a' & E & _ & Hw) end.
  exists a'. by split.
Qed.

(** C28: a request brings the blocks.  Node [b]'s snapshot chain holds the blocks
    [bs] and [a] asks it, through its fetcher, for [n > 0] blocks from the block
    [v] at index [i] down.  If [a] has asked for none of the hashes before, the
    times of the blocks can be encoded and the network loses nothing, the four messages that follow (the request for
    hashes, the hashes, the request for their blocks, the blocks) run without a
    panic and leave in [a]'s snapshot pool the blocks [i], [i - 1], ... of [bs], [n]
    of them or down to the first one. *)
Theorem exchange_brings_blocks {D} `{JsonLaws D} {St} `{Stack St} {L} `{ChainListener L} now ordA ordB
    (a b : syncer (list (Msg D)) (pool St L)) bs i v n :
  encodable (D := D) -> range_order ordA -> range_order ordB ->
  snap_repr "" (Blockchain.store (bc (rw b))) (Blockchain.sc (bc (rw b))) bs ->
  bs !! i = Some v -> 0 < n -> net a = [] -> net b = [] ->
  fetchedHashs a !! (Hash v +:+ Itoa (Height v)) = None ->
  (forall u, u ∈ bs -> dated u) ->
  (forall u, u ∈ bs -> fetchedHashs a !! Hash u = None /\ Hash u <> Hash v +:+ Itoa (Height v)) ->
  exists a', exchange now ordA ordB a b (mkFetchRequest "" (Height v) (Hash v) n) = Ret a' /\
    forall j u, bs !! j = Some u -> (j <= i)%nat -> Z.of_nat i - n < Z.of_nat j ->
      in_pool (rw a') u.
Proof.
  intros He HoA HoB R Hi Hn Ha Hb Hk Hdated Hfresh.
  destruct (exchange_spec now ordA ordB a b bs i v n He HoA HoB R Hi Hn Ha Hb (fresh_granted _ _ _ Hk)) as (a' & E & Hw).
  { intros u Hu%blocks_below_sub. destruct (Hfresh u Hu) as [Hf Hx]. split; [by apply Hdated|].
    split; [by apply fresh_granted|done]. }
  exists a'. split; [exact E|]. intros j u Hj Hji Hjn. rewrite Hw. apply (proj1 (add_all_in_pool _ _)).
  apply (blocks_below_elem _ _ _ j); [done|done| |done]. by eapply lookup_lt_Some.
Qed.

(** ** The pace of retries *)
Section retry.
Import Retry.

(** What happens at the policy: a hash is asked for, or its block is delivered. *)
Inductive op := Ask (x : string) (t : Z) | Delivered (x : string) (t : Z).

(** [os] happens, in which [x] is not delivered and every question for [x] is answered
    no; their number, and the policy after them. *)
Fixpoint refused (x : string) (p : gmap string RetryStatus) (os : list op) : option (nat * gmap string RetryStatus) :=
  match os with
  | [] => Some (0%nat, p)
  | Ask y t :: os =>
      let '(p, ok) := Retry.retry t p y in
      if decide (y = x) then
        if (ok : bool) then None else '(k, p) ← refused x p os; Some (S k, p)
      else refused x p os
  | Delivered y t :: os => if decide (y = x) then None else refused x (mark_done t p y) os
  end.

(** The status of [x]: [c] questions since the time [t] of the last yes or delivery. *)
Definition waits (p : gmap string RetryStatus) (x : string) (d : bool) (c t : Z) : Prop :=
  exists s, p !! x = Some s /\ cnt s = c /\ Retry.done s = d /\ (if d then dtime s else ftime s) = t.

Definition pace (d : bool) (c t now : Z) : Prop :=
  if d then 5 < c /\ t + 3 * Second < now else 10 < c /\ t + 2 * Second < now.

Lemma retry_waits p x d c t now :
  waits p x d c t -> in64 (c + 1) ->
  let '(p', ok) := Retry.retry now p x in
  (ok = true <-> pace d (c + 1) t now) /\ (ok = false -> waits p' x d (c + 1) t) /\
  (ok = true -> waits p' x false 1 now).
Proof.
  intros (s & Hs & Hc & Hd & Ht) Hin. unfold Retry.retry, pace. rewrite Hs. cbn [Retry.done inc cnt ftime dtime].
  rewrite Hd, Hc, wrap64_id by done.
  destruct d; cbn [Retry.done] in *; rewrite Ht; case_decide as Hy; cbn; (split; [split; [|try done]; by try lia|]);
    (split; [try done|try done]); intros _; (eexists; split; [apply lookup_insert_eq|]); cbn; rewrite ?Hc, ?Hd, ?wrap64_id by done; auto.
Qed.

Lemma retry_other p x y now : x <> y -> fst (Retry.retry now p y) !! x = p !! x.
Proof.
  intros Hne. unfold Retry.retry. destruct (p !! y) as [s|]; [|cbn; by rewrite lookup_insert_ne].
  destruct (Retry.done (inc s)); case_decide; cbn; by rewrite lookup_insert_ne.
Qed.
Lemma mark_done_waits p x now : waits (mark_done now p x) x true 0 now.
Proof. unfold mark_done. destruct (p !! x); (eexists; split; [apply lookup_insert_eq|done]). Qed.
Lemma mark_done_other p x y now : x <> y -> mark_done now p y !! x = p !! x.
Proof. intros Hne. unfold mark_done. destruct (p !! y); by rewrite lookup_insert_ne. Qed.

Lemma refused_waits x p os k p' d c t :
  refused x p os = Some (k, p') -> waits p x d c t -> 0 <= c -> c + Z.of_nat (length os) < 2 ^ 63 ->
  (k <= length os)%nat /\ waits p' x d (c + Z.of_nat k) t.
Proof.
  revert p c k. induction os as [|[y now|y now] os IH]; intros p c k E Hw Hc Hlen; cbn [refused length] in *.
  - injection E as <- <-. split; [done|]. by rewrite Z.add_0_r.
  - destruct (decide (y = x)) as [->|Hne].
    + pose proof (retry_waits p x d c t now Hw ltac:(unfold in64; lia)) as Hr.
      destruct (Retry.retry now p x) as [p1 [|]]; [done|]. destruct Hr as (_ & Hw1 & _).
      apply bind_Some in E as ([k1 p2] & E & [= <- <-]).
      destruct (IH p1 (c + 1) k1 E (Hw1 eq_refl)) as [Hk Hw2]; [lia|lia|]. split; [lia|].
      by replace (c + Z.of_nat (S k1)) with (c + 1 + Z.of_nat k1) by lia.
    + pose proof (retry_other p x y now (not_eq_sym Hne)) as Eo. destruct (Retry.retry now p y) as [p1 ok].
      cbn [fst] in Eo. destruct (IH p1 c k E) as [Hk Hw1]; [unfold waits; by rewrite Eo|lia|lia|]. split; [lia|done].
  - destruct (decide (y = x)) as [|Hne]; [done|].
    destruct (IH (mark_done now p y) c k E) as [Hk Hw1];
      [unfold waits; by rewrite mark_done_other by by apply not_eq_sym|lia|lia|]. split; [lia|done].
Qed.

End retry.

(** C34: a block is asked for again, but not too often.  The retry policy answers the
    first question for a hash yes.  After a yes at the time [t0], while the block is not
    delivered and however often the policy is used for other hashes, the next
    question that is answered yes is the first one that is at least the tenth after it
    and comes more than two seconds after it; after a delivery, the first that is at
    least the sixth after it and comes more than three seconds after it.  This is the
    pace of the code; the comments there name other numbers (five attempts; five and
    ten seconds). *)
Theorem retry_paced x t0 t p os k p' :
  Z.of_nat (length os) < 2 ^ 63 - 2 ->
  (p !! x = None -> snd (Retry.retry t0 p x) = true) /\
  (snd (Retry.retry t0 p x) = true -> refused x (fst (Retry.retry t0 p x)) os = Some (k, p') ->
   snd (Retry.retry t p' x) = true <-> (9 <= k)%nat /\ t0 + 2 * Second < t) /\
  (refused x (Retry.mark_done t0 p x) os = Some (k, p') ->
   snd (Retry.retry t p' x) = true <-> (5 <= k)%nat /\ t0 + 3 * Second < t).
Proof.
  intros Hlen.
  assert (K : forall q d c, waits q x d c t0 -> 0 <= c <= 1 -> refused x q os = Some (k, p') ->
    snd (Retry.retry t p' x) = true <-> pace d (c + Z.of_nat k + 1) t0 t).
  { intros q d c Hw Hc E. destruct (refused_waits x q os k p' d c t0 E Hw) as [Hk Hw']; [lia|lia|].
    pose proof (retry_waits p' x d _ t0 t Hw' ltac:(unfold in64; lia)) as Hr.
    destruct (Retry.retry t p' x). apply Hr. }
  split; [intros E; unfold Retry.retry; by rewrite E|]. split.
  - intros Hy E. rewrite (K (fst (Retry.retry t0 p x)) false 1); [unfold pace; lia| |lia|exact E].
    unfold Retry.retry in *. destruct (p !! x) as [s|]; [|cbn; eexists; split; [apply lookup_insert_eq|done]].
    destruct (Retry.done (Retry.inc s)); case_decide; try done; cbn; (eexists; split; [apply lookup_insert_eq|done]).
  - intros E. rewrite (K (Retry.mark_done t0 p x) true 0); [unfold pace; lia|apply mark_done_waits|lia|exact E].
Qed.

(** Ten questions in two seconds, one of another hash among them; delivered, and asked
    six times more. *)
Lemma retry_paced_witness :
  let os := Ask "g" 5 :: replicate 9 (Ask "h" 1) in
  let os' := replicate 5 (Ask "h" 1) in
  (exists p', refused "h" (fst (Retry.retry 0 ∅ "h")) os = Some (9%nat, p') /\
     snd (Retry.retry (3 * Second) p' "h") = true) /\
  exists p', refused "h" (Retry.mark_done 0 ∅ "h") os' = Some (5%nat, p') /\
     snd (Retry.retry (3 * Second) p' "h") = false.
Proof.
  intros os os'. split.
  - destruct (refused "h" (fst (Retry.retry 0 ∅ "h")) os) as [[k p']|] eqn:E;
      [|exfalso; revert E; vm_compute; discriminate].
    assert (k = 9%nat) as -> by (revert E; vm_compute; congruence). exists p'. split; [done|].
    destruct (retry_paced "h" 0 (3 * Second) ∅ os 9 p') as (_ & H & _); [vm_compute; reflexivity|].
    apply (proj2 (H eq_refl E)). split; [lia|vm_compute; reflexivity].
  - destruct (refused "h" (Retry.mark_done 0 ∅ "h") os') as [[k p']|] eqn:E;
      [|exfalso; revert E; vm_compute; discriminate].
    assert (k = 5%nat) as -> by (revert E; vm_compute; congruence). exists p'. split; [done|].
    destruct (retry_paced "h" 0 (3 * Second) ∅ os' 5 p') as (_ & _ & H); [vm_compute; reflexivity|].
    apply not_true_is_false. intros Hy. apply (proj1 (H E)) in Hy as [_ Hy]. vm_compute in Hy. discriminate.
Defined.

(** A null in a list of blocks stops the node.  A peer sends a message of
    blocks, JSON that holds a [null] among them: the handler reads the hash of the
    nil pointer, whatever the other blocks are. *)
Theorem null_block_stops_node {D} `{Json D} {N} `{P2P N D handState} {St} `{Stack St} {L} `{ChainListener L} now
    (order : gmap string (MsgHandler D N (pool St L)) -> list (string * MsgHandler D N (pool St L)))
    (self : syncer N (pool St L)) msg bs bs' e peer :
  range_order order ->
  Unmarshal ShSnapshotBlocks msg = (mkSnapshotBlocksMsg ((Some <$> bs) ++ None :: bs'), e) ->
  @Handle _ _ _ _ _ _ (pool_PoolWriter now) now order newReceiver SnapshotBlocks msg peer self =
    Panic "nil dereference".
Proof.
  intros Ho Hu. rewrite (@Handle_new _ _ _ _ _ _ (pool_PoolWriter now) _ _ Ho snapshotBlocksHandler)
    by constructor.
  cbn [inner_Handle]. unfold Handle_snapshotBlocks. rewrite Hu. cbn [fst sbm_Blocks]. clear Hu.
  revert self. induction bs as [|b bs IH]; intros self; [done|]. cbn. apply IH.
Qed.

(** ** The first synchronisation *)
Section first.
Context {D : Type} `{Json D} {N : Type} `{P2P N D handState} {W : Type} `{ChainReader W}.
Import FirstSync.

(** A step of the goroutine: the rest of the node may have changed anything in
    between.  [timeouts]: whether the timeout may fire. *)
Inductive first_step (timeouts : bool) : syncTask -> syncTask -> Prop :=
| first_select order e (s s' : syncer N W) f f' :
    enabled e f -> (timeouts = false -> e <> EvTimeout) ->
    select order e s f = Ret (s', f') -> first_step timeouts f f'.

Definition first_inv (f : syncTask) : Prop :=
  if ta_closed f then ph f = Returned /\ ta_done f = 1 /\ published f = 1%nat
  else ta_done f = 0 /\ published f = 0%nat.

Lemma firstSyncDone_Ret f f' :
  firstSyncDone f = Ret f' -> ta_closed f = false /\ ta_closed f' = true /\ ta_done f' = 1 /\
    published f' = S (published f) /\ ph f' = ph f.
Proof. unfold firstSyncDone. destruct (ta_closed f); [done|]. by intros [= <-]. Qed.

Lemma choose_tick_cases order (s s' : syncer N W) f f' :
  choose_tick order s f = Ret (s', f') ->
  f' = f \/
  (ta_closed f' = ta_closed f /\ ta_done f' = ta_done f /\ published f' = published f /\ ph f' <> Choosing) \/
  (ta_closed f = false /\ ta_closed f' = true /\ ta_done f' = 1 /\ published f' = S (published f) /\
   ph f' = Returned).
Proof.
  unfold choose_tick. case_decide; [|intros [= <- <-]; by left].
  intros (p & _ & Hk)%bind_ret_inv. destruct p as [p|]; [|injection Hk as <- <-; by left].
  apply bind_ret_inv in Hk as (st & _ & Hk).
  destruct (reader_HeadSnapshot (rw s)) as [head [e|]].
  { injection Hk as <- <-. right; left. done. }
  apply bind_ret_inv in Hk as (h & _ & Hk). case_decide.
  - apply bind_ret_inv in Hk as (f1 & Hd & Hk). injection Hk as <- <-.
    apply firstSyncDone_Ret in Hd as (D1 & D2 & D3 & D4 & _). right; right. done.
  - apply bind_ret_inv in Hk as (s1 & _ & Hk). injection Hk as <- <-. right; left. done.
Qed.

Lemma sync_tick_cases (s s' : syncer N W) f f' :
  sync_tick s f = Ret (s', f') ->
  f' = f \/
  (exists head, reader_HeadSnapshot (rw s) = (Some head, None) /\ ta_height f < Height head /\
   ta_closed f = false /\ ta_closed f' = true /\ ta_done f' = 1 /\ published f' = S (published f) /\
   ph f' = Returned).
Proof.
  unfold sync_tick. destruct (reader_HeadSnapshot (rw s)) as [head [e|]].
  { intros [= <- <-]. by left. }
  intros (h & Hh & Hk)%bind_ret_inv. apply deref_ret_inv in Hh as ->. case_decide.
  - apply bind_ret_inv in Hk as (f1 & Hd & Hk). injection Hk as <- <-.
    apply firstSyncDone_Ret in Hd as (D1 & D2 & D3 & D4 & _). right. eauto 10.
  - injection Hk as <- <-. by left.
Qed.

Lemma first_step_inv f f' : first_step false f f' -> first_inv f -> first_inv f'.
Proof.
  intros [order e s s' ? ? [Hph Hen] Hne Hsel] I. specialize (Hne eq_refl). unfold first_inv in *.
  destruct (ta_closed f0) eqn:Hcl; [by destruct I|].
  unfold select in Hsel. destruct (ph f0) eqn:Ep; [| |done].
  - destruct e; try done; try (injection Hsel as <- <-; cbn; by rewrite Hcl).
    destruct (choose_tick_cases _ _ _ _ _ Hsel) as [->|[(E1 & E2 & E3 & _)|(E1 & E2 & E3 & E4 & E5)]].
    + by rewrite Hcl.
    + by rewrite E1, E2, E3, Hcl.
    + rewrite E2, E3, E4, E5. destruct I as [_ ->]. done.
  - destruct e; try done; try (injection Hsel as <- <-; cbn; by rewrite Hcl).
    destruct (sync_tick_cases _ _ _ _ Hsel) as [->|(h & _ & _ & E1 & E2 & E3 & E4 & E5)].
    + by rewrite Hcl.
    + rewrite E2, E3, E4, E5. destruct I as [_ ->]. done.
Qed.

Lemma firstSyncDone_open f : ta_closed f = false -> exists f', firstSyncDone f = Ret f'.
Proof. unfold firstSyncDone. intros ->. by eexists. Qed.

(** While the channel is open no case closes it twice. *)
Lemma select_open order e (s : syncer N W) f :
  ta_closed f = false ->
  (forall n h p m, requestSnapshotBlockByPeer (N := N) n h p = Panic m -> m <> "close of closed channel") ->
  select order e s f <> Panic "close of closed channel".
Proof.
  intros Hcl Hw. unfold select.
  destruct (firstSyncDone_open f Hcl) as [f1 Ef1].
  assert (Hc : choose_tick order s f <> Panic "close of closed channel").
  { unfold choose_tick. case_decide; [|done].
    assert (Hb : forall ps h w, bestPeer_loop (net s) ps h = Panic w -> w <> "close of closed channel").
    { induction ps as [|p ps IH]; intros h w; cbn; [done|].
      destruct (net_GetState (net s) p); cbn; [|by intros [= <-]]. case_decide; [done|apply IH]. }
    unfold bestPeer. specialize (Hb (snd <$> order (statePeers s)) (-1)).
    destruct (bestPeer_loop _ _ _) as [[p|]|w|]; cbn; [|done|intros [= ->]; by apply (Hb _ eq_refl)|done].
    destruct (net_GetState (net s) p) as [st|]; cbn; [|done].
    destruct (reader_HeadSnapshot (rw s)) as [[head|] [e'|]]; cbn; [done| |done|done].
    case_decide; [unfold firstSyncDone; cbn; by rewrite Hcl|].
    unfold sending. destruct (requestSnapshotBlockByPeer (net s) _ p) as [[n' e']|w|] eqn:Er; cbn; [done| |done].
    intros [= ->]. by apply (Hw _ _ _ _ Er). }
  assert (Hs : sync_tick s f <> Panic "close of closed channel").
  { unfold sync_tick. destruct (reader_HeadSnapshot (rw s)) as [[head|] [e'|]]; cbn; [done| |done|done].
    case_decide; [|done]. by rewrite Ef1. }
  destruct (ph f), e; try done. by rewrite Ef1.
Qed.

(** The ticks that find the node in the states [ss], while [Syncing]. *)
Fixpoint ticks (ss : list (syncer N W)) (f : syncTask) : outcome syncTask :=
  match ss with
  | [] => Ret f
  | s :: ss => '(_, f) ← select (fun m => map_to_list m) EvTick s f; ticks ss f
  end.
End first.

(** The first synchronisation succeeds at most once.  As long as the timeout
    does not fire, in whatever way the node changes between its ticks, the
    goroutine announces success at most once, says so in [Done], returns when it
    does, and never closes its channel twice. *)
Theorem first_sync_once {D} `{Json D} {N} `{P2P N D handState} {W} `{ChainReader W} f :
  (forall (n : N) h p m, requestSnapshotBlockByPeer n h p = Panic m -> m <> "close of closed channel") ->
  rtc (first_step (D := D) (N := N) (W := W) false) FirstSync.start f ->
  (FirstSync.published f <= 1)%nat /\
  (FirstSync.syncDone f = true <-> FirstSync.published f = 1%nat) /\
  (FirstSync.published f = 1%nat -> FirstSync.ph f = FirstSync.Returned) /\
  forall order e (s : syncer N W), FirstSync.enabled e f ->
    FirstSync.select order e s f <> Panic "close of closed channel".
Proof.
  intros Hw Hr. assert (I : first_inv f).
  { eapply rtc_preserves; [intros x y; apply first_step_inv | exact Hr | done]. }
  unfold first_inv in I. unfold FirstSync.syncDone.
  destruct (FirstSync.ta_closed f) eqn:Hcl.
  - destruct I as (Hp & -> & ->). split_and!; [lia|done|done|]. intros order e s [Hph _]. done.
  - destruct I as (-> & ->). split_and!; [lia|done|done|]. intros order e s _. by apply select_open.
Qed.

(** The head in state [s] is strictly above the target of [f]. *)
Definition outgrown {N W} `{ChainReader W} (f : FirstSync.syncTask) (s : syncer N W) : Prop :=
  exists head, reader_HeadSnapshot (rw s) = (Some head, None) /\ FirstSync.ta_height f < Height head.

Lemma ticks_Returned {D} `{Json D} {N} `{P2P N D handState} {W} `{ChainReader W} (ss : list (syncer N W)) f :
  FirstSync.ph f = FirstSync.Returned -> ticks ss f = Ret f.
Proof.
  intros Hp. induction ss as [|s ss IH]; [done|]. cbn [ticks]. unfold FirstSync.select.
  rewrite Hp, bind_ret_l. apply IH.
Qed.

(** C33: the first synchronisation ends when the chain outgrows its target, and not
    before.  Once the goroutine has asked its peer for the block at height
    [ta_height], a sequence of ticks ends in success, announced once, if one of
    them finds a head strictly above that height; otherwise it goes on waiting,
    also when the head has reached exactly the height the peer reported. *)
Theorem first_sync_ends {D} `{Json D} {N} `{P2P N D handState} {W} `{ChainReader W}
    (ss : list (syncer N W)) f :
  FirstSync.ph f = FirstSync.Syncing -> FirstSync.ta_closed f = false ->
  Forall (fun s => exists head, reader_HeadSnapshot (rw s) = (Some head, None)) ss ->
  exists f', ticks ss f = Ret f' /\
    (Exists (outgrown f) ss -> FirstSync.ph f' = FirstSync.Returned /\
       FirstSync.syncDone f' = true /\ FirstSync.published f' = S (FirstSync.published f)) /\
    (~ Exists (outgrown f) ss -> f' = f).
Proof.
  intros Hp Hcl. induction ss as [|s ss IH]; intros Hh.
  { exists f. split; [done|]. split; [by intros ?%Exists_nil|done]. }
  apply Forall_cons in Hh as [[head Hs] Hh]. cbn [ticks]. unfold FirstSync.select at 1.
  rewrite Hp. unfold FirstSync.sync_tick. rewrite Hs. cbn [deref]. rewrite bind_ret_l.
  destruct (decide (FirstSync.ta_height f < Height head)) as [Hlt|Hge].
  - unfold FirstSync.firstSyncDone. rewrite Hcl, !bind_ret_l, ticks_Returned by done.
    eexists. split; [done|]. split; [done|]. intros Hn. destruct Hn. left. by exists head.
  - rewrite bind_ret_l. destruct (IH Hh) as (f' & -> & H1' & H2'). exists f'. split; [done|].
    rewrite Exists_cons. split; [|tauto]. intros [(h & Hh' & Hlt)|He]; [|tauto].
    rewrite Hs in Hh'. injection Hh' as ->. lia.
Qed.

(** The timeout can stop the node.  While the goroutine waits for a peer the
    timeout announces success and closes the channel, but stays in its loop: if
    the next [select] takes a tick instead of the closed channel, and there is
    a peer that is no higher, it closes the channel again, which panics.  (The
    timeout of 50 seconds is a multiple of the tick of 2 seconds: both are ready
    together.) *)
Theorem first_sync_timeout_panics {D} `{Json D} {N} `{P2P N D handState} {W} `{ChainReader W}
    order (s : syncer N W) p st head :
  (0 < base.size (statePeers s))%nat -> bestPeer order s = Ret (Some p) ->
  net_GetState (net s) p = Some st -> reader_HeadSnapshot (rw s) = (Some head, None) ->
  ps_Height (S_ st) <= Height head ->
  exists f, FirstSync.select order FirstSync.EvTimeout s FirstSync.start = Ret (s, f) /\
    FirstSync.published f = 1%nat /\ FirstSync.enabled FirstSync.EvTick f /\
    FirstSync.select order FirstSync.EvTick s f = Panic "close of closed channel".
Proof.
  intros Hs Hb Hg Hh Hle. eexists. split; [reflexivity|]. split; [done|]. split; [done|].
  cbn [FirstSync.select FirstSync.set_ph FirstSync.ph FirstSync.start]. unfold FirstSync.choose_tick.
  rewrite decide_True, Hb by done. rewrite bind_ret_l, Hg. cbn [deref]. rewrite bind_ret_l, Hh.
  cbn [deref FirstSync.ta_height]. rewrite bind_ret_l, decide_True by done. done.
Qed.

(** ** A concrete node

    The bytes are the message with its type, and decoding as another type fails. *)
#[export] Instance shape_eq_dec : EqDecision shape.
Proof. solve_decision. Defined.

Definition zero_msg (s : shape) : msg_of s :=
  match s with
  | ShState => mkStateMsg 0 ""
  | ShAccountBlocks => mkAccountBlocksMsg "" []
  | ShSnapshotBlocks => mkSnapshotBlocksMsg []
  | ShAccountHashes => mkAccountHashesMsg "" []
  | ShSnapshotHashes => mkSnapshotHashesMsg []
  | ShRequestAccountHash => mkRequestAccountHashMsg "" 0 "" 0
  | ShRequestSnapshotHash => mkRequestSnapshotHashMsg 0 "" 0
  | ShRequestAccountBlock => mkRequestAccountBlockMsg "" []
  | ShRequestSnapshotBlock => mkRequestSnapshotBlockMsg []
  | ShHandState => mkHandState "" (mkPeerState 0 "")
  end.

Definition tagged : Type := {s : shape & msg_of s}.
#[export] Instance tagged_Json : Json tagged := {|
  Marshal s m := inl (existT s m);
  Unmarshal s d :=
    match d with
    | Some (existT s' m) =>
        match decide (s' = s) with
        | left E => (eq_rect s' msg_of m s E, None)
        | right _ => (zero_msg s, Some "json: cannot unmarshal")
        end
    | None => (zero_msg s, Some "unexpected end of JSON input")
    end
|}.
#[export] Instance tagged_JsonLaws : JsonLaws tagged.
Proof.
  constructor. intros s m d [= <-]. cbn. destruct (decide (s = s)) as [E|]; [|done].
  by rewrite (proof_irrel E eq_refl).
Qed.
Lemma tagged_encodable : encodable (D := tagged).
Proof. intros s m _. by eexists. Qed.

Definition chain_pool (b : Blockchain.blockchain (list SnapshotPoint) unit) : pool (list SnapshotPoint) unit :=
  mkPool (mkSnapshotPool newBlockPool (mkChainPool "" 0 "" ∅ ∅)) ∅ b (Version.mk 0) [].
Abbreviation node := (syncer (list (Msg tagged)) (pool (list SnapshotPoint) unit)).
Definition node0 : node := mkSyncer [] ∅ (chain_pool chain0) ∅.

Lemma chain0_repr :
  snap_repr "" (Blockchain.store chain0) (Blockchain.sc chain0) [SnapshotChain.genesisSnapshot].
Proof.
  destruct (genesis_is_consistent (St := list SnapshotPoint) tt) as (_ & b & Hb & R & _).
  rewrite chain0_NewChain in Hb. injection Hb as <-. exact R.
Qed.

Lemma exchange_brings_blocks_witness :
  exists a', exchange 0 (fun m => map_to_list m) (fun m => map_to_list m) node0 node0
      (mkFetchRequest "" 0 (Hash SnapshotChain.genesisSnapshot) 5) = Ret a' /\
    in_pool (rw a') SnapshotChain.genesisSnapshot.
Proof.
  destruct (exchange_brings_blocks 0 (fun m => map_to_list m) (fun m => map_to_list m) node0 node0
    [SnapshotChain.genesisSnapshot] 0 SnapshotChain.genesisSnapshot 5) as (a' & E & Hin).
  - exact tagged_encodable.
  - apply range_order_map_to_list.
  - apply range_order_map_to_list.
  - exact chain0_repr.
  - reflexivity.
  - lia.
  - reflexivity.
  - reflexivity.
  - apply lookup_empty.
  - intros u Hu. apply list_elem_of_singleton in Hu as ->. split; vm_compute; [discriminate|reflexivity].
  - intros u Hu. apply list_elem_of_singleton in Hu as ->. split; [apply lookup_empty|].
    vm_compute. discriminate.
  - exists a'. split; [exact E|]. apply (Hin 0%nat); [reflexivity|lia|lia].
Defined.

Definition bob_node : syncer (list (Msg tagged)) (Blockchain.blockchain (list SnapshotPoint) unit) :=
  mkSyncer [] ∅
    (Blockchain.mk {["bob" := bob_chain]} (Blockchain.sc chain0) bob_store DefaultChainListener tt) ∅.

Lemma account_hash_request_answered_witness :
  exists ds chunks,
    Handle_reqAccountHash bob_node
      (Some (existT ShRequestAccountHash (mkRequestAccountHashMsg "bob" 0 "h1" 7) : tagged)) 0%nat =
      Ret (set_net bob_node ([] ++ ((fun d => mkMsg AccountHashes (Some d)) <$> ds))) /\
    concat chunks = [mkHashHeight "h1" 0] /\ Forall (fun c => 0 < length c <= 1000)%nat chunks.
Proof.
  pose proof (account_hash_request_answered bob_node "bob" [bob_block] (mkHashHeight "h1" 0) 7
    (Some (existT ShRequestAccountHash (mkRequestAccountHashMsg "bob" 0 "h1" 7) : tagged)) 0%nat
    tagged_encodable bob_repr eq_refl eq_refl) as T.
  destruct T as (ds & chunks & H1 & _ & H3 & H4 & _).
  exists ds, chunks. split; [exact H1|]. split; [exact H3 | exact H4].
Defined.

(** A handler that enters the peer [q]; one is registered for two types and
    replaced, another registered and unregistered. *)
Definition echo (i : string) (ts : list Z) (q : nat)
    : MsgHandler tagged (list (Msg tagged)) (pool (list SnapshotPoint) unit) :=
  mkMsgHandler i ts (fun s _ _ _ => Ret (peerConnected (D := tagged) s q)).

Lemma messages_reach_one_handler_witness :
  let os := [Reg (echo "x" [State; PeerConnected] 5); Reg (echo "x" [State; PeerConnected] 6);
             Reg (echo "y" [PeerConnected] 7); Unreg (echo "y" [PeerConnected; State] 8)] in
  @Handle _ _ _ _ _ _ (pool_PoolWriter 0) 0 (fun m => map_to_list m) (foldl apply_reg newReceiver os)
    PeerConnected None 3%nat node0 = Ret (peerConnected (peerConnected node0 3%nat) 6%nat).
Proof.
  intros os. destruct (@messages_reach_one_handler _ _ _ _ _ _ (pool_PoolWriter 0) (fun m => map_to_list m) 0
    os PeerConnected None 3%nat node0 range_order_map_to_list) as (hs & Hnd & Hel & Hr & _).
  assert (Ehs : hs = [("x", echo "x" [State; PeerConnected] 6)]).
  { apply Permutation_singleton_r, NoDup_Permutation.
    - by eapply NoDup_fmap_1.
    - apply NoDup_singleton.
    - intros [i h]. rewrite Hel, list_elem_of_singleton. unfold registered, os.
      destruct (decide (i = "x")) as [->|Hx]; [split; [by intros [= <-]|by intros [= ->]]|].
      destruct (decide (i = "y")) as [->|Hy]; [split; [done|by intros [=]]|].
      rewrite !filter_cons_False by (intros [E _]; cbn in E; congruence). split; [done|]. by intros [= -> _]. }
  rewrite (Hr stateHandler) by apply list_elem_of_here. rewrite Ehs. reflexivity.
Defined.

Lemma null_block_stops_node_witness :
  @Handle _ _ _ _ _ _ (pool_PoolWriter 0) 0 (fun m => map_to_list m) newReceiver SnapshotBlocks
    (Some (existT ShSnapshotBlocks (mkSnapshotBlocksMsg [None]) : tagged)) 0%nat node0 = Panic "nil dereference".
Proof.
  apply (null_block_stops_node 0 (fun m => map_to_list m) node0 _ [] [] None 0%nat).
  - apply range_order_map_to_list.
  - reflexivity.
Defined.

Definition waiting_task : FirstSync.syncTask :=
  FirstSync.mk FirstSync.Syncing 0 "h" (Some 0%nat) false 0 0.

(** A node whose head has exactly the height of its target goes on waiting. *)
Lemma first_sync_ends_witness :
  ticks (D := tagged) [node0; node0] waiting_task = Ret waiting_task.
Proof.
  assert (Hh : reader_HeadSnapshot (rw node0) = (Some SnapshotChain.genesisSnapshot, None)) by reflexivity.
  destruct (first_sync_ends (D := tagged) [node0; node0] waiting_task) as (f' & E & _ & Hn).
  - reflexivity.
  - reflexivity.
  - repeat constructor; eexists; exact Hh.
  - rewrite E. f_equal. apply Hn. rewrite !Exists_cons, Exists_nil.
    assert (Ho : ~ outgrown waiting_task node0).
    { intros (h & Eh & Hlt). rewrite Hh in Eh. injection Eh as <-. cbn in Hlt. lia. }
    tauto.
Defined.

(** Node "a" with the peer "b", which reports the genesis block. *)
Definition net_ab : p2p tagged handState :=
  set_peers (set_objs (NewP2P "a" 8080 1 "")
    {[0%nat := newPeer "b" "a" "localhost:8081" (Some (mkHandState "g" (mkPeerState 0 "g")))]})
    {["b" := 0%nat]} {[0%nat := Reading]}.
Definition node_ab : syncer (p2p tagged handState) (pool (list SnapshotPoint) unit) :=
  mkSyncer net_ab ∅ (chain_pool chain0) {["b" := 0%nat]}.
#[local] Instance net_ab_P2P : P2P (p2p tagged handState) tagged handState := p2p_P2P (fun m => map_to_list m).

Lemma first_sync_timeout_panics_witness :
  exists f, FirstSync.select (fun m => map_to_list m) FirstSync.EvTimeout node_ab FirstSync.start = Ret (node_ab, f) /\
    FirstSync.select (fun m => map_to_list m) FirstSync.EvTick node_ab f = Panic "close of closed channel".
Proof.
  destruct (first_sync_timeout_panics (fun m => map_to_list m) node_ab 0%nat
    (mkHandState "g" (mkPeerState 0 "g")) SnapshotChain.genesisSnapshot) as (f & E1 & _ & _ & E2).
  - vm_compute. lia.
  - vm_compute. reflexivity.
  - vm_compute. reflexivity.
  - reflexivity.
  - cbn. lia.
  - exists f. split; [exact E1 | exact E2].
Defined.

(** A tick finds the peer "b", no higher than the node itself: the synchronisation is over. *)
Definition synced : FirstSync.syncTask :=
  FirstSync.mk FirstSync.Returned 0 "g" (Some 0%nat) true 1 1.

Lemma tick_ab : FirstSync.select (fun m => map_to_list m) FirstSync.EvTick node_ab FirstSync.start = Ret (node_ab, synced).
Proof. vm_compute. reflexivity. Qed.

Lemma first_sync_once_witness :
  rtc (first_step (D := tagged) (N := p2p tagged handState) (W := pool (list SnapshotPoint) unit) false)
    FirstSync.start synced /\ FirstSync.syncDone synced = true.
Proof.
  assert (R : rtc (first_step (D := tagged) (N := p2p tagged handState) (W := pool (list SnapshotPoint) unit) false)
    FirstSync.start synced).
  { eapply rtc_once, (first_select false _ FirstSync.EvTick node_ab node_ab); [by split|done|apply tick_ab]. }
  split; [exact R|].
  destruct (first_sync_once (N := p2p tagged handState) (W := pool (list SnapshotPoint) unit) synced)
    as (_ & Hd & _).
  - intros n h p m. unfold requestSnapshotBlockByPeer, send_to. cbn.
    destruct (objs n !! p) as [pr|]; cbn; [|by intros [= <-]].
    unfold Write. case_decide; [done|]. destruct (peer_closed pr); [by intros [= <-]|done].
  - exact R.
  - by apply Hd.
Defined.
