(* ===== verification/WireSpec.v ===== *)
(** * WireSpec: the types of the messages on the wire

    Bytes carry no type: a message is a number and a JSON text.  A handler decodes
    the text as the type that belongs to the number ([shape_of]); every message
    the synchroniser writes, whatever it was asked, encodes a value of that type. *)
From S2P Require Import Prelude.
From S2P Require Import Common.
From S2P Require Import Store.
From S2P Require Import Chain.
From S2P Require Import VerifierSpec.
From S2P Require Import Reader.
From S2P Require Import Pools.
From S2P Require Import P2p.
From S2P Require Import Syncer.
From S2P Require Import SyncerSpec.

(** The type a handler decodes. *)
Definition shape_of (h : innerHandler) : shape :=
  match h with
  | accountHashHandler => ShAccountHashes
  | snapshotHashHandler => ShSnapshotHashes
  | snapshotBlocksHandler => ShSnapshotBlocks
  | accountBlocksHandler => ShAccountBlocks
  | stateHandler => ShState
  | reqAccountHashHandler => ShRequestAccountHash
  | reqSnapshotHashHandler => ShRequestSnapshotHash
  | reqAccountBlocksHandler => ShRequestAccountBlock
  | reqSnapshotBlocksHandler => ShRequestSnapshotBlock
  end.

(** ** A tapped network: the messages written to it, oldest first *)
Section tap.
Context {D N PS : Type} `{P2P N D PS}.
Definition tapped : Type := N * list (Msg D).
#[export] Instance tapped_P2P : P2P tapped D PS := {|
  net_BestPeer n := net_BestPeer n.1;
  net_AllPeer n := net_AllPeer n.1;
  net_Write n p m := '(n', e) ← net_Write n.1 p m; Ret ((n', n.2 ++ [m]), e);
  net_Id n := net_Id n.1;
  net_GetState n := net_GetState n.1;
  net_SetState n p s := (net_SetState n.1 p s, n.2)
|}.
End tap.
Arguments tapped D N : clear implicits.

Section wire.
Context {D : Type} `{HJ : Json D, HJL : !JsonLaws D} {N : Type} `{P2P N D handState} {W : Type} `{ChainReader W} `{PoolWriter W}.
Implicit Types (n : tapped D N) (self : syncer (tapped D N) W) (m : Msg D).

(** Some handler is registered for the message, and decodes it without an error. *)
Definition well_typed m : Prop :=
  exists h x, T m ∈ Types h /\ T m <> PeerConnected /\ T m <> PeerClosed /\ Unmarshal (shape_of h) (Data m) = (x, None).

(** Everything written so far is well typed. *)
Definition typed n : Prop := Forall well_typed n.2.
Definition typed_ret (r : outcome (tapped D N * error)) : Prop := forall n e, r = Ret (n, e) -> typed n.
Definition typed_next (r : outcome (syncer (tapped D N) W)) : Prop := forall self, r = Ret self -> typed (net self).

Lemma write_typed n p m : typed n -> well_typed m -> typed_ret (net_Write n p m).
Proof.
  intros Hn Hm n' e ([n1 e1] & _ & [= <- <-])%bind_ret_inv. apply Forall_app. by split; [|constructor].
Qed.

Lemma Marshal_typed h s (x : msg_of s) d t :
  Marshal s x = inl d -> shape_of h = s -> t ∈ Types h -> t <> PeerConnected -> t <> PeerClosed ->
  well_typed (NewMsg t (Some d)).
Proof. intros Hd <- Ht Hc1 Hc2. exists h, x. split_and!; try done. by apply Unmarshal_Marshal. Qed.

Section kinds.
Context (h : innerHandler) (s : shape) (t : Z).
Context (Hs : shape_of h = s) (Ht : t ∈ Types h) (Hc : t <> PeerConnected) (Hd : t <> PeerClosed).

Lemma send_to_typed n what (x : msg_of s) p : typed n -> typed_ret (send_to n what t s x p).
Proof using HJL Hs Ht Hc Hd.
  intros Hn. unfold send_to. destruct (Marshal s x) as [d|e] eqn:E; [|by intros n' e' [= <- _]].
  apply write_typed; [done|]. by eapply Marshal_typed.
Qed.

Lemma request_typed n what (x : msg_of s) : typed n -> typed_ret (request n what t s x).
Proof using HJL Hs Ht Hc Hd.
  intros Hn. unfold request. destruct (net_BestPeer n) as [peer [e|]]; [by intros n' e' [= <- _]|].
  destruct (Marshal s x) as [d|e] eqn:E; [|by intros n' e' [= <- _]].
  intros n' e' (p & _ & Ew)%bind_ret_inv. revert Ew. apply write_typed; [done|]. by eapply Marshal_typed.
Qed.

Lemma broadcast_typed n what (x : msg_of s) : typed n -> typed_ret (broadcast n what t s x).
Proof using HJL Hs Ht Hc Hd.
  intros Hn. unfold broadcast. destruct (Marshal s x) as [d|e] eqn:E; [|by intros n' e' [= <- _]].
  destruct (net_AllPeer n) as [[|p ps] [e|]]; try (by intros n' e' [= <- _]).
  assert (Hm : well_typed (NewMsg t (Some d))) by (by eapply Marshal_typed).
  clear E. generalize (None : error). generalize (p :: ps). clear p ps. intros ps. revert n Hn.
  induction ps as [|p ps IH]; intros n Hn err; [by intros n' e' [= <- _]|].
  intros n' e' ([n1 e1] & Ew & Er)%bind_ret_inv. revert Er. apply IH. revert Ew. by apply write_typed.
Qed.
End kinds.

Lemma sending_typed self r : typed_ret r -> typed_next (sending self r).
Proof. intros Hr self' ([n e] & E & [= <-])%bind_ret_inv. by eapply Hr. Qed.

Ltac kind h := first [apply (send_to_typed h) | apply (request_typed h) | apply (broadcast_typed h)];
  try done; try (cbn; set_solver).

Lemma SendAccountBlocks_typed n a bs p : typed n -> typed_ret (SendAccountBlocks n a bs p).
Proof. intros Hn. kind accountBlocksHandler. Qed.
Lemma SendSnapshotBlocks_typed n bs p : typed n -> typed_ret (SendSnapshotBlocks n bs p).
Proof. intros Hn. kind snapshotBlocksHandler. Qed.
Lemma SendAccountHashes_typed n a hs p : typed n -> typed_ret (SendAccountHashes n a hs p).
Proof. intros Hn. kind accountHashHandler. Qed.
Lemma SendSnapshotHashes_typed n hs p : typed n -> typed_ret (SendSnapshotHashes n hs p).
Proof. intros Hn. kind snapshotHashHandler. Qed.
Lemma requestSnapshotBlockByPeer_typed n hh p : typed n -> typed_ret (requestSnapshotBlockByPeer n hh p).
Proof. intros Hn. kind reqSnapshotBlocksHandler. Qed.
Lemma RequestAccountHash_typed n a hh k : typed n -> typed_ret (RequestAccountHash n a hh k).
Proof. intros Hn. kind reqAccountHashHandler. Qed.
Lemma RequestSnapshotHash_typed n hh k : typed n -> typed_ret (RequestSnapshotHash n hh k).
Proof. intros Hn. kind reqSnapshotHashHandler. Qed.
Lemma RequestAccountBlocks_typed n a hs : typed n -> typed_ret (RequestAccountBlocks n a hs).
Proof. intros Hn. kind reqAccountBlocksHandler. Qed.
Lemma RequestSnapshotBlocks_typed n hs : typed n -> typed_ret (RequestSnapshotBlocks n hs).
Proof. intros Hn. kind reqSnapshotBlocksHandler. Qed.
Lemma broadcastState_typed n s : typed n -> typed_ret (broadcastState n s).
Proof. intros Hn. kind stateHandler. Qed.
Lemma BroadcastAccountBlocks_typed n a bs : typed n -> typed_ret (BroadcastAccountBlocks n a bs).
Proof. intros Hn. kind accountBlocksHandler. Qed.
Lemma BroadcastSnapshotBlocks_typed n bs : typed n -> typed_ret (BroadcastSnapshotBlocks n bs).
Proof. intros Hn. kind snapshotBlocksHandler. Qed.
#[local] Hint Resolve SendAccountBlocks_typed SendSnapshotBlocks_typed SendAccountHashes_typed
  SendSnapshotHashes_typed requestSnapshotBlockByPeer_typed RequestAccountHash_typed RequestSnapshotHash_typed
  RequestAccountBlocks_typed RequestSnapshotBlocks_typed broadcastState_typed BroadcastAccountBlocks_typed
  BroadcastSnapshotBlocks_typed sending_typed : wire.

Context (now : Z).

Lemma Ret_typed self : typed (net self) -> typed_next (Ret self).
Proof. by intros Hn self' [= <-]. Qed.
#[local] Hint Resolve Ret_typed : wire.

Lemma retry_hashes_net self tasks : net (retry_hashes now self tasks).1 = net self.
Proof.
  revert self. induction tasks as [|t tasks IH]; intros self; [done|]. cbn. unfold retry.
  destruct (Retry.retry now (fetchedHashs self) (hh_Hash t)) as [p ok].
  pose proof (IH (set_policy self p)) as E. by destruct (retry_hashes now (set_policy self p) tasks).
Qed.

Lemma bind_typed {A} (m : outcome A) f : (forall a, typed_next (f a)) -> typed_next (m ≫= f).
Proof. intros Hf self (a & _ & E)%bind_ret_inv. by eapply Hf. Qed.
Lemma bind_typed_next (m : outcome (syncer (tapped D N) W)) f :
  typed_next m -> (forall self, typed (net self) -> typed_next (f self)) -> typed_next (m ≫= f).
Proof. intros Hm Hf self (a & E1 & E2)%bind_ret_inv. eapply Hf; [by eapply Hm|exact E2]. Qed.

Lemma add_snapshots_net self bs self' : add_snapshots now self bs = Ret self' -> net self' = net self.
Proof.
  revert self. induction bs as [|b bs IH]; intros self; [by intros [= <-]|]. cbn [add_snapshots].
  intros (v & _ & ([w e] & _ & E)%bind_ret_inv)%bind_ret_inv. by rewrite (IH _ E).
Qed.
Lemma add_accounts_net self bs self' : add_accounts now self bs = Ret self' -> net self' = net self.
Proof.
  revert self. induction bs as [|b bs IH]; intros self; [by intros [= <-]|]. cbn [add_accounts].
  intros (v & _ & ([w e] & _ & E)%bind_ret_inv)%bind_ret_inv. by rewrite (IH _ E).
Qed.

Lemma send_chunks_typed self a cs p : typed (net self) -> typed_next (send_chunks self a cs p).
Proof using HJL.
  revert self. induction cs as [|c cs IH]; intros self Hn; [by apply Ret_typed|]. cbn [send_chunks].
  apply bind_typed_next; [|apply IH]. eauto with wire.
Qed.

Lemma fetchSnapshotBlockFromPeer_typed self hh p : typed (net self) -> typed_next (fetchSnapshotBlockFromPeer now self hh p).
Proof using HJL.
  intros Hn. unfold fetchSnapshotBlockFromPeer, retry. destruct (Retry.retry _ _ _) as [q []]; eauto with wire.
Qed.
Lemma fetchSnapshotBlockByHash_typed self tasks : typed (net self) -> typed_next (fetchSnapshotBlockByHash now self tasks).
Proof using HJL.
  intros Hn. unfold fetchSnapshotBlockByHash. pose proof (retry_hashes_net self tasks) as En.
  destruct (retry_hashes now self tasks) as [self1 [|hh hs]]; cbn in En; rewrite <- En in Hn; eauto with wire.
Qed.
Lemma fetchAccountBlockByHash_typed self a tasks : typed (net self) -> typed_next (fetchAccountBlockByHash now self a tasks).
Proof using HJL.
  intros Hn. unfold fetchAccountBlockByHash. pose proof (retry_hashes_net self tasks) as En.
  destruct (retry_hashes now self tasks) as [self1 [|hh hs]]; cbn in En; rewrite <- En in Hn; eauto with wire.
Qed.
Lemma Fetch_typed self req : typed (net self) -> typed_next (Fetch now self req).
Proof using HJL.
  intros Hn. unfold Fetch, retry. case_decide; [eauto with wire|].
  destruct (Retry.retry _ _ _) as [q []]; [|eauto with wire]. case_decide; eauto with wire.
Qed.

Lemma update_typed self msg p : typed (net self) -> typed_next (update now self msg p).
Proof using HJL.
  intros Hn. unfold update. match goal with |- context [reader_HeadSnapshot (rw ?s)] => set (self1 := s) end.
  assert (Hn1 : typed (net self1)) by (unfold self1; by destruct (net_GetState (PS := handState) (net self) p)).
  destruct (reader_HeadSnapshot (rw self1)) as [head [e|]]; [eauto with wire|].
  apply bind_typed. intros b. case_decide; [|eauto with wire].
  by apply fetchSnapshotBlockFromPeer_typed.
Qed.

Lemma state_loop_tick_typed self : typed (net self) -> typed_next (state_loop_tick self).
Proof using HJL.
  intros Hn. unfold state_loop_tick. destruct (reader_HeadSnapshot (rw self)) as [head [e|]]; [eauto with wire|].
  apply bind_typed. intros b. eauto with wire.
Qed.

#[local] Hint Resolve send_chunks_typed fetchSnapshotBlockByHash_typed fetchAccountBlockByHash_typed update_typed : wire.

Lemma inner_Handle_typed h self t d p : typed (net self) -> typed_next (inner_Handle now h self t d p).
Proof using HJL.
  intros Hn. destruct h; cbn [inner_Handle].
  - unfold Handle_accountHashes. eauto with wire.
  - unfold Handle_snapshotHashes. eauto with wire.
  - intros self' E. unfold Handle_snapshotBlocks in E. by rewrite (add_snapshots_net _ _ _ E).
  - intros self' E. unfold Handle_accountBlocks in E. by rewrite (add_accounts_net _ _ _ E).
  - unfold Handle_state. repeat case_decide; try (by apply Ret_typed).
    destruct (Unmarshal ShState d) as [x [e|]]; eauto with wire.
  - unfold Handle_reqAccountHash. destruct (Unmarshal ShRequestAccountHash d) as [x [e|]]; [eauto with wire|].
    destruct (hash_walk _ _ _) as [|hh hs]; [eauto with wire|].
    apply bind_typed. intros cs. eauto with wire.
  - unfold Handle_reqSnapshotHash. destruct (Unmarshal ShRequestSnapshotHash d) as [x [e|]]; [eauto with wire|].
    destruct (hash_walk _ _ _) as [|hh hs]; eauto with wire.
  - unfold Handle_reqAccountBlocks. destruct (omap _ _) as [|b bs]; eauto with wire.
  - unfold Handle_reqSnapshotBlocks. destruct (omap _ _) as [|b bs]; eauto with wire.
Qed.

Lemma Handle_typed order t d p self :
  range_order order -> typed (net self) -> typed_next (Handle now order newReceiver t d p self).
Proof using HJL.
  intros Ho Hn. unfold Handle. change (handlers newReceiver) with (∅ : gmap Z (gmap string (MsgHandler D (tapped D N) W))).
  rewrite lookup_empty. cbn [default]. rewrite (order_empty order Ho). cbn [fmap list_fmap foldl].
  set (hs := default [] _). clearbody hs. intros self' (self1 & E & [= <-])%bind_ret_inv. revert self Hn E.
  induction hs as [|h hs IH]; intros self Hn; cbn [foldl]; [by intros [= <-]|]. rewrite bind_ret_l.
  destruct (inner_Handle now h self t d p) as [self2|w|] eqn:E2.
  - apply IH. by eapply inner_Handle_typed.
  - clear IH. induction hs as [|h' hs IH]; [done|exact IH].
  - clear IH. induction hs as [|h' hs IH]; [done|exact IH].
Qed.

(** ** A node at work

    Messages of any kind arrive, well typed or not; blocks are asked for and
    broadcast; the state is announced; the chain, the pool, the peers and the
    policy change by themselves. *)
Inductive sync_step : syncer (tapped D N) W -> syncer (tapped D N) W -> Prop :=
| step_handle self order t d p self' :
    range_order order -> Handle now order newReceiver t d p self = Ret self' -> sync_step self self'
| step_fetch self req self' : Fetch now self req = Ret self' -> sync_step self self'
| step_tick self self' : state_loop_tick self = Ret self' -> sync_step self self'
| step_accounts self a bs self' :
    sending self (BroadcastAccountBlocks (net self) a bs) = Ret self' -> sync_step self self'
| step_snapshots self bs self' :
    sending self (BroadcastSnapshotBlocks (net self) bs) = Ret self' -> sync_step self self'
| step_world self (world : N) w policy peers :
    sync_step self (mkSyncer (world, (net self).2) policy w peers).

Lemma sync_step_typed self self' : sync_step self self' -> typed (net self) -> typed (net self').
Proof using HJL.
  intros St Hn. destruct St as [self order t d p self' Ho E|self req self' E|self self' E|self a bs self' E|self bs self' E|self world w q ps];
    [by eapply Handle_typed|by eapply Fetch_typed|by eapply state_loop_tick_typed| | |exact Hn].
  - by eapply (sending_typed self (BroadcastAccountBlocks (net self) a bs)); [apply BroadcastAccountBlocks_typed|].
  - by eapply (sending_typed self (BroadcastSnapshotBlocks (net self) bs)); [apply BroadcastSnapshotBlocks_typed|].
Qed.
End wire.

(** C35: what is sent can be read.  A node runs for any time: messages of any kind
    arrive, well typed or not; it fetches, broadcasts and announces its state; its
    chain, pool, peers and retry policy change in between.  If every message it
    had written was well typed, so is every message it has written by then: a
    handler is registered for its number, and decodes its bytes without an error,
    and a handler looks at a message only through this decoding. *)
Theorem sent_messages_well_typed {D} `{HJ : Json D, HJL : !JsonLaws D} {N} `{P2P N D handState} {W}
    `{ChainReader W, PoolWriter W} now (self self' : syncer (tapped D N) W) :
  rtc (sync_step now) self self' -> typed (net self) ->
  Forall well_typed (net self').2 /\
  forall h s t p (d d' : option D), Unmarshal (shape_of h) d = Unmarshal (shape_of h) d' ->
    inner_Handle (N := tapped D N) now h s t d p = inner_Handle now h s t d' p.
Proof.
  intros R Hn. split.
  - induction R as [s|s1 s2 s3 St R IH]; [exact Hn|]. apply IH. by eapply sync_step_typed.
  - intros h s t p d d' E. destruct h; cbn [inner_Handle shape_of] in *;
      unfold Handle_accountHashes, Handle_snapshotHashes, Handle_snapshotBlocks, Handle_accountBlocks, Handle_state,
        Handle_reqAccountHash, Handle_reqSnapshotHash, Handle_reqAccountBlocks, Handle_reqSnapshotBlocks; by rewrite E.
Qed.

(** A node that answers a request and announces its state. *)
Definition answering : syncer (tapped tagged (list (Msg tagged))) (pool (list SnapshotPoint) unit) :=
  mkSyncer ([], []) ∅ (chain_pool chain0) ∅.
Definition ask0 : option tagged :=
  Some (existT ShRequestSnapshotHash (mkRequestSnapshotHashMsg 0 (Hash SnapshotChain.genesisSnapshot) 1)).
#[local] Instance answering_writer : PoolWriter (pool (list SnapshotPoint) unit) := pool_PoolWriter 0.

Definition answered := or_else (Handle 0 map_to_list newReceiver Common.RequestSnapshotHash ask0 0%nat answering) answering.
Definition announced := or_else (state_loop_tick answered) answered.

Lemma answered_eq : Handle 0 map_to_list newReceiver Common.RequestSnapshotHash ask0 0%nat answering = Ret answered.
Proof. apply or_else_Ret. vm_compute. reflexivity. Qed.
Lemma announced_eq : state_loop_tick answered = Ret announced.
Proof. apply or_else_Ret. vm_compute. reflexivity. Qed.
Lemma announced_types : T <$> (net announced).2 = [SnapshotHashes; State].
Proof. vm_cast_no_check (eq_refl [SnapshotHashes; State]). Qed.

Lemma sent_messages_well_typed_witness :
  exists self', rtc (sync_step 0) answering self' /\ (T <$> (net self').2) = [SnapshotHashes; State] /\
    Forall well_typed (net self').2.
Proof.
  assert (R : rtc (sync_step 0) answering announced).
  { apply (rtc_l _ answering answered); [|apply rtc_once].
    - apply (step_handle 0 answering map_to_list Common.RequestSnapshotHash ask0 0%nat);
        [apply range_order_map_to_list|exact answered_eq].
    - apply step_tick. exact announced_eq. }
  exists announced. split; [exact R|]. split; [exact announced_types|].
  apply (sent_messages_well_typed 0 answering announced R). constructor.
Defined.
