(* ===== verification/CatchUp.v ===== *)
(** * CatchUp: a node that is behind reaches its peer

    The parts in one run: the synchroniser asks and receives ([SyncerSpec]), the
    snapshot pool joins what has arrived ([JoinSpec]), appends it to its current
    chain ([AppendSpec]), verifies it and writes it to the chain. *)
From S2P Require Import Prelude.
From S2P Require Import Common.
From S2P Require Import Links.
From S2P Require Import Store.
From S2P Require Import Chain.
From S2P Require Import ChainSpec.
From S2P Require Import Reader.
From S2P Require Import Verifier.
From S2P Require Import VerifierSpec.
From S2P Require Import BCPool.
From S2P Require Import BCPoolSpec.
From S2P Require Import AppendSpec.
From S2P Require Import JoinSpec.
From S2P Require Import PoolRun.
From S2P Require Import PoolChains.
From S2P Require Import Pools.
From S2P Require Import P2p.
From S2P Require Import Syncer.
From S2P Require Import SyncerSpec.

#[local] Arguments Height : simpl never.
#[local] Arguments Hash : simpl never.
#[local] Arguments PreHash : simpl never.

(** ** One snippet, one chain *)
Section append.
Context {B : Type} `{Block B} {W : Type} `{HRw : ChainRw B W, !ChainRwGrow B W}.
Implicit Types (w : W) (cp : chainPool B) (c : forkedChain B) (bs fs : list B) (ms ns : list (PoolBlock B)).

Lemma range_order_singleton {A} (f : gmap string A -> list (string * A)) i x :
  range_order f -> f {[i := x]} = [(i, x)].
Proof. intros Hf. apply Permutation_singleton_r. rewrite (Hf _). by rewrite map_to_list_singleton. Qed.

(** The only chain is the current one. *)
Lemma tree_single w cp bs fs :
  pool_tree w cp bs [(current cp, fs)] ->
  exists c ms, chains cp = {[current cp := c]} /\ fc_chainId c = current cp /\ fc_referChain c = Some RDisk /\
    fc_tailHash c = (tip "" (-1) bs).1 /\ fc_tailHeight c = Z.of_nat (length bs) - 1 /\
    forked_wf c (fc_tailHash c) ms /\ fs = bs ++ map block ms /\ tip "" (-1) fs = (fc_headHash c, fc_headHeight c).
Proof.
  intros T. destruct (pt_current_inv _ _ _ _ T) as (c & ms & Hc & Hid & Href & Ht & Hx & Hwf & Hin).
  destruct (pt_chain _ _ _ _ _ _ T Hin) as (c' & _ & Hc' & _ & _ & _ & Htip & _).
  rewrite Hc in Hc'. injection Hc' as <-.
  apply list_elem_of_singleton in Hin. injection Hin as <-. exists c, ms. split_and!; try done.
  apply map_eq. intros id. destruct (decide (id = current cp)) as [->|Hne]; [by rewrite lookup_singleton_eq|].
  rewrite lookup_singleton_ne by done. apply eq_None_not_Some. rewrite (pt_dom _ _ _ _ T). cbn. set_solver.
Qed.

(** A snippet that continues the only chain is appended to it whole. *)
Lemma loopAppend_run orderS orderC w val cp bs fs id s ns :
  range_order orderS -> range_order orderC -> pool_tree w cp bs [(current cp, fs)] ->
  snippetChains cp = {[id := s]} -> sn_chainId s = id -> snippet_wf s ns ->
  (sn_tailHash s, sn_tailHeight s) = tip "" (-1) fs ->
  exists cp', loopAppendChains orderS orderC w val cp = Ret (cp', 1) /\ snippetChains cp' = ∅ /\
    current cp' = current cp /\ pool_tree w cp' bs [(current cp, fs ++ map block ns)].
Proof.
  intros HoS HoC T Hsn Hid Hwf Htail.
  destruct (tree_single _ _ _ _ T) as (c & ms & Hch & _ & _ & _ & _ & _ & _ & Htip).
  rewrite Htip in Htail. injection Htail as Ex Eh.
  assert (Hc : chains cp !! current cp = Some c) by (by rewrite Hch, lookup_singleton_eq).
  destruct (insertSnippet_at cp c s ns Hwf Eh Ex) as (s' & Ei).
  eexists. split.
  - unfold loopAppendChains. rewrite Hsn, Hch, map_size_singleton, !range_order_singleton by done.
    unfold sortSnippets. rewrite range_order_singleton by done. cbn [merge_sort fmap list_fmap fst snd].
    rewrite decide_False by done. change (merge_sort tail_le [s]) with [s]. cbn [append_loop].
    assert (Ef : forky w val cp s [current cp] = Ret (cp, s, AppendTo (current cp))).
    { unfold forky. cbn [forky_loop]. unfold get_chain. rewrite Hc. cbn [deref].
      rewrite bind_ret_l, decide_True, bind_ret_l by done. done. }
    rewrite Ef, bind_ret_l. unfold get_chain. rewrite Hc. cbn [deref].
    rewrite bind_ret_l, Ei, bind_ret_l. reflexivity.
  - cbn [set_snippets snippetChains put_chain current]. rewrite Hsn, Hid, delete_singleton_eq.
    split; [done|]. split; [done|].
    destruct (tree_append (fun _ => True) w cp bs _ (current cp) c s ns ∅ T) as (T' & _); try done.
    + unfold in_play. apply Forall_forall. intros x _. by apply Forall_forall.
    + by apply Forall_forall.
    + cbn in T'. by rewrite decide_True in T' by done.
Qed.

(** The blocks of the current chain may be replaced by the same with other fork versions. *)
Lemma tree_revision w cp bs l c c' ms ms' :
  pool_tree w cp bs l -> chains cp !! current cp = Some c -> forked_wf c (fc_tailHash c) ms ->
  fc_chainId c' = fc_chainId c -> fc_referChain c' = fc_referChain c -> fc_tailHeight c' = fc_tailHeight c ->
  fc_tailHash c' = fc_tailHash c -> forked_wf c' (fc_tailHash c) ms' -> map block ms' = map block ms ->
  pool_tree w (put_chain cp c') bs l.
Proof.
  intros T Hc Hwf E1 E2 E3 E4 Hwf' Em.
  destruct (pt_current_inv _ _ _ _ T) as (c0 & ms0 & Hc0 & Hid & Href & Ht & Hx & Hwf0 & Hin).
  rewrite Hc in Hc0. injection Hc0 as <-.
  assert (ms0 = ms) as -> by (eapply at_heights_inj; [apply Hwf0|apply Hwf]).
  apply (tree_reroot w w cp bs bs l c' ms'); try congruence; try apply T.
Qed.

Lemma hash_block ms : Hash <$> map block ms = Hash <$> ms.
Proof. induction ms as [|q ms IH]; [done|]. cbn. by rewrite <- IH. Qed.

(** In a linked sequence of distinct hashes, other than the hash below it, a link
    goes to the block before. *)
Lemma run_consistent th h ms :
  linked th h ms -> NoDup (th :: (Hash <$> ms)) ->
  forall p q, p ∈ ms -> q ∈ ms -> Hash p = PreHash q -> Height q = Height p + 1.
Proof.
  intros Hl [Hth Hnd]%NoDup_cons p q [i Hi]%list_elem_of_lookup [[|j] Hj]%list_elem_of_lookup E.
  - destruct ms as [|q0 ms]; [done|]. injection Hj as ->. destruct Hl as (Hq & _ & _).
    destruct Hth. rewrite <- Hq, <- E. apply list_elem_of_fmap_2. by eapply list_elem_of_lookup_2.
  - destruct (lookup_lt_is_Some_2 ms j) as [r Hr]; [apply lookup_lt_Some in Hj; lia|].
    rewrite (linked_prev _ _ _ _ _ _ Hl Hr Hj) in E.
    assert (i = j) as ->.
    { apply (NoDup_lookup _ i j (Hash r) Hnd); rewrite list_lookup_fmap; [by rewrite Hi, <- E|by rewrite Hr]. }
    rewrite (linked_lookup _ _ _ _ _ Hl Hi), (linked_lookup _ _ _ _ _ Hl Hj). lia.
Qed.

(** A chain whose lowest block has another fork version. *)
Definition revise c (h : Z) (q' : PoolBlock B) : forkedChain B :=
  {| fc_heightBlocks := <[h := q']> (fc_heightBlocks c); fc_headHeight := fc_headHeight c;
     fc_tailHeight := fc_tailHeight c; fc_chainId := fc_chainId c; fc_headHash := fc_headHash c;
     fc_tailHash := fc_tailHash c; fc_referChain := fc_referChain c |}.

Lemma revise_wf c th q q' ms :
  forked_wf c th (q :: ms) -> block q' = block q -> forked_wf (revise c (fc_tailHeight c + 1) q') th (q' :: ms).
Proof.
  intros [(Hp & Hh & Hl) Ht Hm] E.
  assert (EH : Hash q' = Hash q) by (by change (Hash (block q') = Hash q); rewrite E).
  assert (EP : PreHash q' = PreHash q) by (by change (PreHash (block q') = PreHash q); rewrite E).
  assert (Eh : Height q' = Height q) by (by change (Height (block q') = Height q); rewrite E).
  split; cbn [revise fc_heightBlocks fc_headHeight fc_tailHeight fc_headHash].
  - cbn. rewrite EH, EP, Eh. done.
  - cbn. by rewrite EH.
  - rewrite <- insert_delete_eq, <- Hh, <- Eh. rewrite Eh at 2. rewrite Hh.
    apply at_heights_cons; [by eapply at_heights_tail|lia].
Qed.
Lemma tree_counter w cp bs l : pool_tree w cp bs l -> 0 < lastestChainIdx cp.
Proof.
  intros T. destruct (pt_current _ _ _ _ T) as (c & fs & _ & Hin & _).
  destruct (pt_ids _ _ _ _ T (current cp)) as (k & Hk & _); [by apply (list_elem_of_fmap_2 fst _ (_, fs))|lia].
Qed.

(** Loose blocks that continue the only chain are joined to one snippet, and the
    snippet is appended. *)
Lemma join_append orderB orderS orderC w val bp cp bs ms :
  range_order orderB -> range_order orderS -> range_order orderC ->
  pool_tree w cp bs [(current cp, bs)] -> snippetChains cp = ∅ ->
  map_Forall (fun x q => Hash q = x) (freeBlocks bp) -> loose bp ≡ₚ ms ->
  linked (tip "" (-1) bs).1 (tip "" (-1) bs).2 ms -> ms <> [] ->
  NoDup ("" :: (Hash <$> (bs ++ map block ms))) ->
  lastestChainIdx cp + Z.of_nat (length ms) < 2 ^ 31 ->
  exists bp1 cp1 n cp2, loopGenSnippetChains orderB orderS bp cp = Ret (bp1, cp1, n) /\
    loopAppendChains orderS orderC w val cp1 = Ret (cp2, 1) /\ freeBlocks bp1 = ∅ /\
    snippetChains cp2 = ∅ /\ pool_tree w cp2 bs [(current cp2, bs ++ map block ms)].
Proof.
  intros HoB HoS HoC T Hsn Hkey Hloose Hl Hne Hnd Hidx.
  pose proof (tree_counter _ _ _ _ T) as Hpos. pose proof (pt_nonempty _ _ _ _ T) as Hbs.
  assert (Hms : NoDup ((tip "" (-1) bs).1 :: (Hash <$> ms))).
  { destruct bs as [|b0 bs0 _] using rev_ind; [done|]. rewrite tip_snoc. cbn [fst].
    rewrite fmap_app, fmap_app, hash_block in Hnd. cbn in Hnd.
    apply NoDup_cons in Hnd as [_ Hnd]. rewrite <- app_assoc in Hnd. by apply NoDup_app in Hnd as (_ & _ & Hnd). }
  assert (Hcons := run_consistent _ _ _ Hl Hms).
  assert (Hun : forall q r, q ∈ ms -> r ∈ ms -> Height q = Height r -> Hash q = Hash r).
  { intros q r Hq Hr E. by rewrite (linked_height_inj _ _ _ _ _ Hl Hq Hr E). }
  assert (Hfree : map_Forall (fun x q => Hash q = x /\ q ∈ ms) (freeBlocks bp)).
  { intros x q Hq. split; [by apply Hkey|]. rewrite <- Hloose. unfold loose. apply list_elem_of_fmap.
    exists (x, q). split; [done|]. by apply elem_of_map_to_list. }
  assert (Hsize : base.size (freeBlocks bp) = length ms).
  { rewrite <- Hloose. unfold loose. by rewrite length_fmap, length_map_to_list. }
  destruct (loopGenSnippetChains_joins (fun q => q ∈ ms) Hcons Hun orderB orderS bp cp [])
    as (bp1 & cp1 & n & Lp & E1 & Hcov & Eb & Hmax); try done.
  { rewrite Hsn. split; [by split; constructor|]. intros id. rewrite lookup_empty. split; [by intros [? ?]|by intros ?%elem_of_nil]. }
  { intros q Hq. by apply elem_of_nil in Hq. }
  { constructor. }
  { lia. }
  { by rewrite Hsize. }
  rewrite app_nil_r, Hloose in Eb.
  destruct (pieces_of_run _ Hcons Hun _ Lp _ _ ms Hcov Eb Hl) as (id & s & Es & Hid & Hwf); try done.
  { apply NoDup_cons in Hms as [_ Hms]. by eapply NoDup_fmap_1. }
  destruct (loopGenSnippetChains_spec (fun q => q ∈ ms) orderB orderS bp cp Hcons)
    as (bp2 & cp2 & E2 & Hf & _ & _ & Ech & Ecu & Emv); try done.
  { rewrite Hsn. apply map_Forall_empty. }
  rewrite E1 in E2. injection E2 as <- <- _. rewrite Hsize in Emv.
  assert (T1 : pool_tree w cp1 bs [(current cp1, bs)]).
  { rewrite Ecu. by eapply tree_joined. }
  destruct (loopAppend_run orderS orderC w val cp1 bs bs id s ms)
    as (cp3 & E3 & Es3 & Ec3 & T3); try done.
  { destruct ms as [|q ms']; [done|]. pose proof (sg_linked _ _ _ _ _ _ Hwf) as (G1 & G2 & _).
    destruct Hl as (G3 & G4 & _). rewrite G1 in G3. rewrite G2 in G4. rewrite G3.
    replace (sn_tailHeight s) with (tip "" (-1) bs).2 by lia. by destruct (tip "" (-1) bs). }
  exists bp1, cp1, n, cp3. rewrite Ec3. by split_and!.
Qed.
(** A direct insertion on the disk below an only chain without blocks of its own. *)
Lemma direct_run w w1 val verify msg cp bs b :
  pool_tree w cp bs [(current cp, bs)] ->
  PreHash b = (tip "" (-1) bs).1 -> Height b = Z.of_nat (length bs) -> Hash b ∉ "" :: (Hash <$> bs) ->
  verify w b = Ret (SUCCESS, msg) -> rw_insertChain w b val = Ret (w1, None) ->
  exists cp', AddDirectBlock verify w val cp b = Ret (w1, cp', None) /\
    pool_tree w1 cp' (bs ++ [b]) [(current cp', bs ++ [b])] /\ snippetChains cp' = snippetChains cp.
Proof.
  intros T Hp Hh Hf Ev Ew. destruct (tree_single _ _ _ _ T) as (c & ms & Hch & Hid & Href & Hx & Ht & Hwf & Efs & Htip).
  rewrite <- (app_nil_r bs) in Efs at 1. apply app_inv_head in Efs. destruct ms; [|done].
  assert (Hc : chains cp !! current cp = Some c) by (by rewrite Hch, lookup_singleton_eq).
  rewrite Htip in Hp. cbn [fst] in Hp. set (q := {| block := b; forkVersion := val |}).
  pose proof (tip_height "" (-1) bs) as Hl. rewrite Htip in Hl. cbn [snd] in Hl.
  assert (Hh' : Height b - 1 = fc_headHeight c) by lia.
  destruct (tree_append (fun _ => True) w cp bs _ (current cp) c (snippet_init "" q) [q] (snippetChains cp) T)
    as (T1 & _); [by apply Forall_forall; intros x _; apply Forall_forall|done|apply snippet_init_wf|
      by repeat constructor|exact Hh'|exact Hp|].
  set (cp1 := set_snippets _ _) in T1. cbn [grow map] in T1. rewrite decide_True in T1 by done.
  assert (Hid1 : fc_chainId (addHeads c [q]) = current cp) by exact Hid.
  assert (Hwf1 : forked_wf (addHeads c [q]) (fc_tailHash c) [q]).
  { apply (addHeads_wf c _ [] [q]); [done|]. cbn. split; [exact Hp|]. split; [|done]. change (Height q) with (Height b). lia. }
  pose proof (tree_write w w1 cp1 bs _ (addHeads c [q]) q [] T1) as T2.
  exists (put_chain cp1 (removeTail (addHeads c [q]) q)).
  assert (T3 : pool_tree w1 (put_chain cp1 (removeTail (addHeads c [q]) q)) (bs ++ [b]) [(current cp, bs ++ [b])]).
  { apply T2; [|done|exact Hf|exact Ew]. unfold cp1. cbn. by rewrite Hid, lookup_insert_eq. }
  split; [|by split]. apply (direct_eq w w1 val verify msg cp bs c b); try done. apply T3.
Qed.
End append.

(** ** The snapshot pool *)
Section pool.
Context {St : Type} `{Stack St} {L : Type} `{ChainListener L}.
Implicit Types (p : pool St L) (bs ns : list SnapshotBlock) (ms : list (PoolBlock SnapshotBlock)).
Notation chain := (Blockchain.blockchain St L).

(** The chain takes the blocks one after the other: it holds the account blocks
    that each of them lists, and their snapshot points fit. *)
Inductive accepts : chain -> list SnapshotBlock -> chain -> Prop :=
| accepts_nil c : accepts c [] c
| accepts_cons c b bs c1 c2 :
    Forall (present c) (Accounts b) -> Blockchain.InsertSnapshotBlock c b = Ret (c1, None) ->
    accepts c1 bs c2 -> accepts c (b :: bs) c2.

Lemma present_success val now (c : chain) b :
  Forall (present c) (Accounts b) ->
  SnapshotVerifier.VerifyResult_ (SnapshotVerifier.VerifyReferred val now c b) = SUCCESS.
Proof.
  intros HF. unfold SnapshotVerifier.VerifyReferred.
  assert (E : forall vs i st t, Forall (present c) vs ->
    exists st', SnapshotVerifier.verify_accounts c vs i st t = inl (i + Z.of_nat (length vs), st', t)).
  { intros vs. induction vs as [|v vs IH]; intros i st t HF'; [exists st; by rewrite Z.add_0_r|].
    apply Forall_cons in HF' as [(b' & Hb' & Hx) HF']. cbn [SnapshotVerifier.verify_accounts].
    rewrite Hb', decide_True by done. destruct (IH (i + 1) (SnapshotVerifier.mkStat (SnapshotVerifier.result st)
      (SnapshotVerifier.accounts st) (<[ah_Addr v := SUCCESS]> (SnapshotVerifier.results st))
      (SnapshotVerifier.errMsg st) (SnapshotVerifier.task st)) t HF') as [st' Es].
    exists st'. rewrite Es. cbn [length]. do 3 f_equal. lia. }
  destruct (E (Accounts b) 0 (SnapshotVerifier.newVerifyStat b)
    {| tasks := []; task_version := val; task_fail := false; task_t := now |} HF) as [st ->].
  by rewrite decide_True.
Qed.

Context (order : forall A, gmap string A -> list (string * A)) (now : Z).
Notation orderB := (order (PoolBlock SnapshotBlock)).

(** The pool of a chain that holds [bs], its current chain holding [fs], and no other. *)
Definition pool_at p bs fs : Prop :=
  pool_tree (sch p) (sp_chainpool (pendingSc p)) bs [(current (sp_chainpool (pendingSc p)), fs)] /\
  snippetChains (sp_chainpool (pendingSc p)) = ∅.

(** Writing the blocks of the current chain, each once it has verified. *)
Lemma snapshotTryInsert_all fuel p bs fs ns c' :
  pool_at p bs fs -> fs = bs ++ ns -> NoDup ("" :: (Hash <$> fs)) -> accepts (bc p) ns c' ->
  exists p', snapshotTryInsert_loop order now fuel (length ns) (Z.of_nat (length bs)) p = Ret p' /\
    bc p' = c' /\ pool_at p' fs fs /\ sp_blockpool (pendingSc p') = sp_blockpool (pendingSc p) /\
    pendingAc p' = pendingAc p /\ version p' = version p /\ fetched p' = fetched p.
Proof.
  intros Hat Efs Hnd Hacc. remember (bc p) as c0 eqn:Ec. revert p bs Hat Efs Ec.
  induction Hacc as [c0|c0 b ns c1 c2 HF Hins Hacc IH]; intros p bs [T Hsn] Efs Ec.
  { exists p. rewrite app_nil_r in Efs. subst fs. by split_and!. }
  destruct (tree_single _ _ _ _ T) as (c & ms & Hch & Hid & Href & Hx & Hh & Hwf & Efs' & _).
  rewrite Efs in Efs'. apply app_inv_head in Efs'. destruct ms as [|w ms]; [done|]. injection Efs' as -> Ems.
  set (cp := sp_chainpool (pendingSc p)) in *.
  assert (Hc : chains cp !! current cp = Some c) by (by rewrite Hch, lookup_singleton_eq).
  pose proof (at_heights_head _ _ _ _ (sg_map _ _ _ _ _ _ Hwf)) as Hw.
  replace (fc_tailHeight c + 1) with (Z.of_nat (length bs)) in Hw by lia.
  cbn [length snapshotTryInsert_loop]. fold cp. unfold get_chain. rewrite Hc. cbn [deref]. rewrite bind_ret_l, Hw.
  cbn [deref]. rewrite bind_ret_l.
  set (w' := if negb (checkForkVersion (val p) w) then reset (val p) w else w).
  assert (Hw' : block w' = block w /\ checkForkVersion (val p) w' = true).
  { unfold w'. destruct (checkForkVersion (val p) w) eqn:Ev; cbn [negb]; [done|].
    split; [done|]. by apply bool_decide_eq_true. }
  destruct Hw' as [Hbw Hver]. cbv zeta.
  match goal with |- context [put_chain cp ?c1] => change c1 with (revise c (Z.of_nat (length bs)) w') end.
  pose proof (revise_wf c _ w w' ms Hwf Hbw) as Hwf'. replace (fc_tailHeight c + 1) with (Z.of_nat (length bs)) in Hwf' by lia.
  set (c' := revise c (Z.of_nat (length bs)) w') in *.
  assert (T1 : pool_tree (sch p) (put_chain cp c') bs [(current cp, fs)]).
  { apply (tree_revision _ _ _ _ c c' (w :: ms) (w' :: ms)); try done. cbn. by rewrite Hbw. }
  set (cp1 := put_chain cp c') in *. set (p1 := set_sp_chainpool p cp1).
  assert (Hc1 : chains cp1 !! current cp1 = Some c').
  { unfold cp1. cbn. by rewrite Hid, lookup_insert_eq. }
  change (val p1) with (val p). rewrite Hver. cbn [negb]. rewrite Hbw.
  assert (Hok : SnapshotVerifier.VerifyResult_ (verifySnapshotBlock now p1 (block w)) = SUCCESS).
  { unfold verifySnapshotBlock. change (bc p1) with (bc p). rewrite <- Ec. by apply present_success. }
  rewrite Hok.
  assert (Hhw : Height (block w) = fc_tailHeight c' + 1).
  { pose proof (sg_linked _ _ _ _ _ _ Hwf) as (_ & Hhw & _). exact Hhw. }
  rewrite decide_True by exact Hhw.
  assert (Ew : rw_insertChain (sch p1) (block w') (forkVersion w') = Ret (mkSnapshotCh c1 (val p), None)).
  { rewrite Hbw. change (rw_insertChain (sch p1) (block w) (forkVersion w')) with
      ('(b, e) ← Blockchain.InsertSnapshotBlock (bc p) (block w); Ret (sch_set (sch p1) b, e)).
    by rewrite <- Ec, Hins. }
  unfold writeToChain. rewrite Ew, !bind_ret_l.
  rewrite Forall_forall in HF.
  assert (T2 : pool_tree (mkSnapshotCh c1 (val p)) (put_chain cp1 (removeTail c' w')) (bs ++ [block w]) [(current cp, fs)]).
  { rewrite <- Hbw. apply (tree_write (sch p1) _ _ _ _ c' w' ms); try done.
    change (Hash w') with (Hash (block w')). rewrite Hbw, Efs, fmap_app in *. cbn in Hnd.
    apply NoDup_cons in Hnd as [Hn1 Hnd]. apply NoDup_app in Hnd as (_ & Hn2 & _).
    intros [E|Hin]%elem_of_cons; [apply Hn1; rewrite <- E; set_solver|].
    apply (Hn2 _ Hin). by left. }
  destruct (IH (set_sp_chainpool (set_bc p1 c1) (put_chain cp1 (removeTail c' w'))) (bs ++ [block w]))
    as (p' & E & E1 & Hat' & E2 & E3 & E4 & E5); [by split|by rewrite <- app_assoc|done|].
  rewrite length_app in E. cbn [length] in E. rewrite Nat.add_1_r, Nat2Z.inj_succ in E. unfold Z.succ in E.
  exists p'. split; [exact E|]. by split_and!.
Qed.

Context (order_ok : forall A, range_order (order A)).

(** One round of the snapshot pool: what has arrived above the head of the chain,
    in whatever order, is on the chain. *)
Lemma round_catches_up fuel p bs ms c' :
  pool_at p bs bs -> map_Forall (fun x q => Hash q = x) (freeBlocks (sp_blockpool (pendingSc p))) ->
  loose (sp_blockpool (pendingSc p)) ≡ₚ ms -> linked (tip "" (-1) bs).1 (tip "" (-1) bs).2 ms -> ms <> [] ->
  NoDup ("" :: (Hash <$> (bs ++ map block ms))) -> accepts (bc p) (map block ms) c' ->
  lastestChainIdx (sp_chainpool (pendingSc p)) + Z.of_nat (length ms) < 2 ^ 31 ->
  exists p', snapshot_loop_round order now fuel p = Ret p' /\ bc p' = c' /\
    pool_at p' (bs ++ map block ms) (bs ++ map block ms) /\ freeBlocks (sp_blockpool (pendingSc p')) = ∅ /\
    pendingAc p' = pendingAc p /\ version p' = version p /\ fetched p' = fetched p.
Proof using order_ok.
  intros [T Hsn] Hkey Hloose Hl Hne Hnd Hacc Hidx.
  set (cp := sp_chainpool (pendingSc p)) in *. set (bp := sp_blockpool (pendingSc p)) in *.
  destruct (join_append (order _) (order _) (order _) (sch p) (val p) bp cp bs ms)
    as (bp1 & cp1 & n & cp3 & E1 & E3 & Hf & Es3 & T3); try done.
  unfold snapshot_loop_round. fold cp bp. rewrite E1, bind_ret_l, E3, bind_ret_l.
  unfold loopFetchForSnippets. rewrite Es3, map_size_empty. cbn [decide]. rewrite decide_True, bind_ret_l by done.
  set (p1 := fetch _ _ _).
  destruct (tree_single _ _ _ _ T3) as (c & ms3 & Hch & _ & _ & _ & Hh & Hwf3 & Efs & _). apply app_inv_head in Efs.
  assert (Hlen : length ms3 = length ms) by (by rewrite <- (length_map block ms3), <- Efs, length_map).
  pose proof (segment_length _ _ _ _ _ _ Hwf3) as Hsz. rewrite Hlen in Hsz.
  unfold loopCheckCurrentInsert. change (sp_chainpool (pendingSc p1)) with cp3. unfold get_chain.
  rewrite Hch, lookup_singleton_eq. cbn [deref]. rewrite bind_ret_l. unfold size.
  rewrite decide_False by (destruct ms; [done|cbn in *; lia]).
  replace (fc_tailHeight c + 1) with (Z.of_nat (length bs)) by lia.
  replace (Z.to_nat (fc_headHeight c - fc_tailHeight c)) with (length (map block ms)) by (rewrite length_map; lia).
  destruct (snapshotTryInsert_all fuel p1 bs (bs ++ map block ms) (map block ms) c')
    as (p' & E & R1 & R2 & R3 & R4 & R5 & R6); [by split|done|done|done|].
  exists p'. split; [exact E|]. split_and!; try done; [by rewrite R3|by rewrite R6; cbn; rewrite app_nil_r].
Qed.
End pool.

(** ** The whole way *)
Section way.
Context {St : Type} `{Stack St} {L : Type} `{ChainListener L}.
Implicit Types (p : pool St L) (us : list SnapshotBlock).

(** New blocks are loose after they were added, and nothing else has changed. *)
Lemma add_all_loose p us :
  NoDup (Hash <$> us) ->
  (forall u, u ∈ us -> blockPool_contains (sp_blockpool (pendingSc p)) (Hash u) (Height u) = false) ->
  map_Forall (fun x q => Hash q = x) (freeBlocks (sp_blockpool (pendingSc p))) ->
  let p' := add_all p us in
  loose (sp_blockpool (pendingSc p')) ≡ₚ map (lift (val p)) us ++ loose (sp_blockpool (pendingSc p)) /\
  map_Forall (fun x q => Hash q = x) (freeBlocks (sp_blockpool (pendingSc p'))) /\
  sp_chainpool (pendingSc p') = sp_chainpool (pendingSc p) /\ bc p' = bc p /\ version p' = version p.
Proof.
  revert p. induction us as [|u us IH]; intros p Hnd Hnew Hkey; [done|].
  cbn in Hnd. apply NoDup_cons in Hnd as [Hu Hnd]. cbn [add_all foldl].
  pose proof (Hnew u ltac:(by left)) as Hnu.
  set (p1 := (AddSnapshotBlock p u).1).
  assert (Ebp : sp_blockpool (pendingSc p1) =
    putBlock (sp_blockpool (pendingSc p)) (Hash u) {| block := u; forkVersion := val p |}).
  { unfold p1. cbn. unfold AddBlock. by rewrite Hnu. }
  apply orb_false_iff in Hnu as [Hnf _]. apply bool_decide_eq_false, eq_None_not_Some in Hnf.
  destruct (IH p1 Hnd) as (E1 & E2 & E3 & E4 & E5).
  - intros w Hw. pose proof (Hnew w ltac:(by right)) as Hnw. rewrite Ebp.
    unfold blockPool_contains, putBlock in *. cbn [freeBlocks compoundBlocks].
    rewrite lookup_insert_ne; [exact Hnw|]. intros E. apply Hu. rewrite E. by apply list_elem_of_fmap_2.
  - rewrite Ebp. cbn [putBlock freeBlocks]. by apply map_Forall_insert_2.
  - split; [|by split_and!]. change (val p1) with (val p) in E1. unfold add_all in E1. rewrite E1, Ebp. unfold loose, putBlock.
    cbn [freeBlocks]. rewrite map_to_list_insert by done. cbn. by rewrite <- Permutation_middle.
Qed.

(** The blocks a node is behind, from the newest down. *)
Lemma blocks_below_suffix (bs ns : list SnapshotBlock) :
  ns <> [] -> blocks_below (bs ++ ns) (length (bs ++ ns) - 1) (Z.of_nat (length ns)) = reverse ns.
Proof.
  intros Hne. unfold blocks_below. rewrite Nat2Z.id, (take_ge (bs ++ ns)), reverse_app.
  - by rewrite take_app_le, take_ge by (rewrite length_reverse; lia).
  - rewrite length_app. destruct ns; [done|]. cbn. lia.
Qed.
End way.

(** C2: a node that is behind reaches its peer.  The chain of node [a] holds the
    snapshot blocks [bs], that of its peer [b] holds [bs ++ ns]; [a]'s snapshot
    pool is at rest and has none of [ns], and [a]'s chain would take [ns] one
    after the other (it holds the account blocks they list).  Let [a] ask for the
    last block of [ns] and the ones above its own head, at a time when its retry
    policy lets it ask for that block and for each block of [ns]: for all of them
    if it has asked for none before.  If the times of [ns] can be encoded, nothing is
    lost on the way and the pool's counter of chain ids has room for [ns], then the four messages
    between the nodes and one round of [a]'s snapshot pool run to their end,
    whatever order the maps are visited in, and leave [a] with the chain of [b],
    its pool at rest again. *)
Theorem node_catches_up {D} `{JsonLaws D} {St} `{Stack St} {L} `{ChainListener L} order now ordA ordB fuel
    (a b : syncer (list (Msg D)) (pool St L)) bs ns v c' :
  encodable (D := D) -> (forall A, range_order (order A)) -> range_order ordA -> range_order ordB ->
  snap_repr "" (Blockchain.store (bc (rw b))) (Blockchain.sc (bc (rw b))) (bs ++ ns) ->
  last ns = Some v -> (forall u, u ∈ bs ++ ns -> Hash u <> "") -> (forall u, u ∈ ns -> dated u) ->
  pool_at (rw a) bs bs -> freeBlocks (sp_blockpool (pendingSc (rw a))) = ∅ ->
  (forall u, u ∈ ns -> blockPool_contains (sp_blockpool (pendingSc (rw a))) (Hash u) (Height u) = false) ->
  accepts (bc (rw a)) ns c' ->
  lastestChainIdx (sp_chainpool (pendingSc (rw a))) + Z.of_nat (length ns) < 2 ^ 31 ->
  net a = [] -> net b = [] -> granted now (fetchedHashs a) (Hash v +:+ Itoa (Height v)) ->
  (forall u, u ∈ ns -> granted now (fetchedHashs a) (Hash u) /\ Hash u <> Hash v +:+ Itoa (Height v)) ->
  exists a' p', exchange now ordA ordB a b (mkFetchRequest "" (Height v) (Hash v) (Z.of_nat (length ns))) = Ret a' /\
    snapshot_loop_round order now fuel (rw a') = Ret p' /\ bc p' = c' /\
    snap_repr "" (Blockchain.store c') (Blockchain.sc c') (bs ++ ns) /\
    pool_at p' (bs ++ ns) (bs ++ ns) /\ freeBlocks (sp_blockpool (pendingSc p')) = ∅.
Proof.
  intros He Ho HoA HoB R Hv Hempty Hdated Hat Hfree Hnew Hacc Hidx Ha Hb Hk Hfresh.
  assert (Hne : ns <> []) by (by destruct ns). pose proof (sr_nodup _ _ _ _ R) as Hnd.
  destruct (exchange_spec now ordA ordB a b (bs ++ ns) (length (bs ++ ns) - 1) v (Z.of_nat (length ns)))
    as (a' & E & Hw); try done.
  { rewrite last_lookup in Hv. rewrite lookup_app_r by (rewrite length_app; destruct ns; cbn; [done|lia]).
    rewrite <- Hv. f_equal. rewrite length_app. destruct ns; [done|cbn; lia]. }
  { destruct ns; [done|cbn; lia]. }
  { rewrite blocks_below_suffix by done. intros u Hu. rewrite elem_of_reverse in Hu. split; [by apply Hdated|by apply Hfresh]. }
  rewrite blocks_below_suffix in Hw by done.
  destruct (add_all_loose (rw a) (reverse ns)) as (E1 & E2 & E3 & E4 & E5).
  { rewrite reverse_Permutation. rewrite fmap_app in Hnd. by apply NoDup_app in Hnd as (_ & _ & Hnd). }
  { intros u Hu. apply Hnew. by rewrite elem_of_reverse in Hu. }
  { rewrite Hfree. apply map_Forall_empty. }
  rewrite <- Hw in *. unfold loose at 2 in E1. rewrite Hfree, map_to_list_empty in E1. cbn in E1. rewrite app_nil_r in E1.
  set (ms := map (lift (val (rw a))) ns).
  assert (Ems : map block ms = ns) by (unfold ms; by rewrite map_map, map_id).
  assert (Esch : sch (rw a') = sch (rw a)) by (unfold sch, val; by rewrite E4, E5).
  destruct (round_catches_up order now Ho fuel (rw a') bs ms c') as (p' & E' & R1 & R2 & R3 & _).
  - unfold pool_at. rewrite Esch, E3. exact Hat.
  - done.
  - rewrite E1. unfold ms. by rewrite reverse_Permutation.
  - apply linked_block. rewrite Ems. pose proof (sr_linked _ _ _ _ R) as Hl. by apply linked_app in Hl as [_ Hl].
  - unfold ms. by destruct ns.
  - rewrite Ems. apply NoDup_cons. split; [|done]. intros (u & Eu & Hu)%list_elem_of_fmap. by apply (Hempty u).
  - by rewrite E4, Ems.
  - rewrite E3. unfold ms. by rewrite length_map.
  - rewrite Ems in *. exists a', p'. split; [exact E|]. split; [exact E'|]. split; [exact R1|].
    split; [|by split]. destruct R2 as [T _]. pose proof (pt_disk _ _ _ _ T) as Hd. rewrite <- R1. exact Hd.
Qed.

(** ** Two nodes

    [a] has just started, [b] is two snapshot blocks ahead; the first of them
    lists the genesis blocks of both accounts. *)
Definition s1 : SnapshotBlock :=
  NewSnapshotBlock 1 "s1" (Hash SnapshotChain.genesisSnapshot) "viteshan" 0 (Accounts SnapshotChain.genesisSnapshot).
Definition s2 : SnapshotBlock := NewSnapshotBlock 2 "s2" "s1" "jie" 0 [].
Definition insert_at (c : Blockchain.blockchain (list SnapshotPoint) unit) b :=
  match Blockchain.InsertSnapshotBlock c b with Ret (c, None) => c | _ => c end.
Definition chain1 := insert_at chain0 s1.
Definition chain2 := insert_at chain1 s2.
Definition pool0 : pool (list SnapshotPoint) unit :=
  match NewPool_Init chain0 with Ret p => p | _ => chain_pool chain0 end.
Definition node_a : node := mkSyncer [] ∅ pool0 ∅.
Definition node_b : node := mkSyncer [] ∅ (chain_pool chain2) ∅.
Definition dict_order (A : Type) (m : gmap string A) : list (string * A) := map_to_list m.
Notation bs0 := [SnapshotChain.genesisSnapshot].

Lemma insert_at_accepted c b :
  match Blockchain.InsertSnapshotBlock c b with Ret (_, None) => true | _ => false end = true ->
  Blockchain.InsertSnapshotBlock c b = Ret (insert_at c b, None).
Proof. unfold insert_at. by destruct (Blockchain.InsertSnapshotBlock c b) as [[? [|]]| |]. Qed.

Lemma insert1 : Blockchain.InsertSnapshotBlock chain0 s1 = Ret (chain1, None).
Proof. apply insert_at_accepted. vm_compute. reflexivity. Qed.
Lemma insert2 : Blockchain.InsertSnapshotBlock chain1 s2 = Ret (chain2, None).
Proof. apply insert_at_accepted. vm_compute. reflexivity. Qed.

Lemma chain2_accepts : accepts chain0 [s1; s2] chain2.
Proof.
  apply (accepts_cons _ _ _ chain1); [|exact insert1|].
  - repeat constructor; eexists; (split; [vm_compute; reflexivity|reflexivity]).
  - apply (accepts_cons _ _ _ chain2); [constructor|exact insert2|constructor].
Qed.

Lemma chain2_repr : snap_repr "" (Blockchain.store chain2) (Blockchain.sc chain2) (bs0 ++ [s1; s2]).
Proof.
  assert (I : forall c b bs c', sch_repr (L := unit) (mkSnapshotCh c 0) bs -> bs <> [] -> PreHash b = (tip "" (-1) bs).1 ->
    Height b = Z.of_nat (length bs) -> Hash b ∉ "" :: (Hash <$> bs) -> Blockchain.InsertSnapshotBlock c b = Ret (c', None) ->
    sch_repr (L := unit) (mkSnapshotCh c' 0) (bs ++ [b])).
  { intros c b bs c' R Hne Hp Hh Hf E. apply (disk_rw_insertChain (ChainRwGrow := snapshotCh_ChainRwGrow (L := unit)) (mkSnapshotCh c 0) _ bs b 0 R Hne Hp Hh Hf).
    change (rw_insertChain _ _ _) with ('(bc, e) ← Blockchain.InsertSnapshotBlock c b; Ret (mkSnapshotCh bc 0, e)).
    by rewrite E. }
  apply (I chain1 s2 (bs0 ++ [s1])); [|done|reflexivity|reflexivity| |exact insert2].
  - apply (I chain0 s1 bs0 chain1); [exact chain0_repr|done|reflexivity|reflexivity| |exact insert1].
    apply (bool_decide_unpack (_ ∉ _)). vm_compute. exact Logic.I.
  - apply (bool_decide_unpack (_ ∉ _)). vm_compute. exact Logic.I.
Qed.

Lemma pool0_at : pool_at pool0 bs0 bs0.
Proof.
  destruct (chainPool_init_tree (mkSnapshotCh chain0 0) bs0 "snapshotPool") as (cp & E & T & Es); [exact chain0_repr|done|].
  unfold pool0, NewPool_Init. rewrite E. by split.
Qed.

Lemma node_catches_up_witness :
  exists a' p', exchange 0 (fun m => map_to_list m) (fun m => map_to_list m) node_a node_b
      (mkFetchRequest "" 2 "s2" 2) = Ret a' /\
    snapshot_loop_round dict_order 0 0 (rw a') = Ret p' /\ bc p' = chain2.
Proof.
  assert (E : forall Q : SnapshotBlock -> Prop, Forall Q (bs0 ++ [s1; s2]) -> forall u, u ∈ bs0 ++ [s1; s2] -> Q u).
  { intros Q F u Hu. rewrite Forall_forall in F. exact (F u Hu). }
  destruct (node_catches_up dict_order 0 (fun m => map_to_list m) (fun m => map_to_list m) 0 node_a node_b
    bs0 [s1; s2] s2 chain2) as (a' & p' & H1 & H2 & H3 & _).
  - exact tagged_encodable.
  - intros A. apply range_order_map_to_list.
  - apply range_order_map_to_list.
  - apply range_order_map_to_list.
  - exact chain2_repr.
  - reflexivity.
  - apply E. repeat constructor; vm_compute; discriminate.
  - intros u Hu. apply (E dated); [repeat constructor; vm_compute; first [discriminate|reflexivity]|].
    by apply elem_of_app; right.
  - exact pool0_at.
  - reflexivity.
  - intros u Hu. reflexivity.
  - exact chain2_accepts.
  - vm_compute. reflexivity.
  - reflexivity.
  - reflexivity.
  - vm_compute. reflexivity.
  - intros u Hu. apply (E (fun u => granted 0 (fetchedHashs node_a) (Hash u) /\ Hash u <> Hash s2 +:+ Itoa (Height s2))).
    + repeat constructor; vm_compute; reflexivity || discriminate.
    + apply elem_of_app. by right.
  - exists a', p'. split; [exact H1|]. split; [exact H2|exact H3].
Defined.
