(* ===== verification/Transfer.v ===== *)
(** * Transfer: a transfer between two nodes

    The account side of a node in one run: a block of one of the node's own
    accounts is written and broadcast ([Ledger]), arrives at a peer ([Syncer]), is
    appended to the account's pool and written to the chain once it has verified
    ([Pools]), and the peer's ledger lists and answers the request. *)
From S2P Require Import Prelude.
From S2P Require Import Common.
From S2P Require Import HashCal.
From S2P Require Import Links.
From S2P Require Import Store.
From S2P Require Import Chain.
From S2P Require Import ChainSpec.
From S2P Require Import Reader.
From S2P Require Import Verifier.
From S2P Require Import VerifierSpec.
From S2P Require Import BCPool.
From S2P Require Import BCPoolSpec.
From S2P Require Import AppendSpec.
From S2P Require Import JoinSpec.
From S2P Require Import PoolRun.
From S2P Require Import PoolChains.
From S2P Require Import Pools.
From S2P Require Import PoolsSpec.
From S2P Require Import Ledger.
From S2P Require Import LedgerRun.
From S2P Require Import P2p.
From S2P Require Import Syncer.
From S2P Require Import SyncerSpec.
From S2P Require Import CatchUp.

#[local] Arguments Height : simpl never.
#[local] Arguments Hash : simpl never.
#[local] Arguments PreHash : simpl never.

(** ** The pool of one account *)
Section account_pool.
Context {St : Type} `{Stack St} {L : Type} `{ChainListener L}.
Implicit Types (p : pool St L) (ap : accountPool) (bs ns : list AccountStateBlock).
Implicit Types (ms : list (PoolBlock AccountStateBlock)).
Notation chain := (Blockchain.blockchain St L).

(** The verifier accepts the block on this chain. *)
Definition verifies (c : chain) (b : AccountStateBlock) : Prop :=
  forall v now, exists stat, AccountVerifier.VerifyReferred v now c b = Ret stat /\
    AccountVerifier.VerifyResult_ stat = SUCCESS.

(** The chain takes the blocks of one account, one after the other. *)
Inductive takes addr : chain -> list AccountStateBlock -> chain -> Prop :=
| takes_nil c : takes addr c [] c
| takes_cons c b bs c1 c2 :
    verifies c b -> Blockchain.InsertAccountBlock c addr b = Ret (c1, None) ->
    takes addr c1 bs c2 -> takes addr c (b :: bs) c2.

(** The pool holds the chain [cp] of the account whose blocks on disk are [bs]; read
    along the only chain, there are [fs]. *)
Definition account_at p addr (cp : chainPool AccountStateBlock) bs fs : Prop :=
  pool_tree (ach p addr) cp bs [(current cp, fs)] /\ snippetChains cp = ∅.

(** Writing the blocks of the current chain. *)
Lemma tryInsert_all now addr p cp bs fs ns c' :
  account_at p addr cp bs fs -> fs = bs ++ ns -> NoDup ("" :: (Hash <$> fs)) -> takes addr (bc p) ns c' ->
  exists cp', tryInsert_loop now (length ns) (Z.of_nat (length bs)) p addr cp =
      Ret (set_bc p c', cp', NewSuccessTask) /\
    account_at (set_bc p c') addr cp' fs fs /\ lastestChainIdx cp' = lastestChainIdx cp.
Proof.
  intros Hat Efs Hnd Htk. remember (bc p) as c0 eqn:Ec. revert p cp bs Hat Efs Ec.
  induction Htk as [c0|c0 b ns c1 c2 Hv Hins Htk IH]; intros p cp bs [T Hsn] Efs Ec.
  { exists cp. rewrite app_nil_r in Efs. subst fs c0. cbn [length tryInsert_loop].
    replace (set_bc p (bc p)) with p by (by destruct p). by split_and!. }
  destruct (tree_single _ _ _ _ T) as (c & ms & Hch & Hid & Href & Hx & Hh & Hwf & Efs' & _).
  rewrite Efs in Efs'. apply app_inv_head in Efs'. destruct ms as [|w ms]; [done|]. injection Efs' as -> Ems.
  assert (Hc : chains cp !! current cp = Some c) by (by rewrite Hch, lookup_singleton_eq).
  pose proof (at_heights_head _ _ _ _ (sg_map _ _ _ _ _ _ Hwf)) as Hw.
  replace (fc_tailHeight c + 1) with (Z.of_nat (length bs)) in Hw by lia.
  cbn [length tryInsert_loop]. unfold get_chain at 1. rewrite Hc. cbn [deref]. rewrite bind_ret_l, Hw.
  cbn [deref]. rewrite bind_ret_l. cbv zeta.
  set (w' := reset (val p) w).
  match goal with |- context [put_chain cp ?c1] => change c1 with (revise c (Z.of_nat (length bs)) w') end.
  pose proof (revise_wf c _ w w' ms Hwf eq_refl) as Hwf'.
  replace (fc_tailHeight c + 1) with (Z.of_nat (length bs)) in Hwf' by lia.
  set (c' := revise c (Z.of_nat (length bs)) w') in *.
  assert (T1 : pool_tree (ach p addr) (put_chain cp c') bs [(current cp, fs)]).
  { by apply (tree_revision _ _ _ _ c c' (w :: ms) (w' :: ms)). }
  set (cp1 := put_chain cp c') in *.
  assert (Hc1 : chains cp1 !! current cp1 = Some c').
  { unfold cp1. cbn. by rewrite Hid, lookup_insert_eq. }
  destruct (Hv (val p) now) as (stat & Es & Er). unfold verifyAccount. rewrite <- Ec.
  change (block w') with (block w). rewrite Es, bind_ret_l.
  assert (Hver : checkForkVersion (val p) w' = true) by (by apply bool_decide_eq_true).
  rewrite Hver. cbn [negb]. rewrite Er.
  assert (Hhw : Height (block w) = fc_tailHeight c' + 1).
  { pose proof (sg_linked _ _ _ _ _ _ Hwf) as (_ & Hhw & _). exact Hhw. }
  rewrite decide_True by exact Hhw.
  assert (Ew : rw_insertChain (ach p addr) (block w') (forkVersion w') = Ret (ach (set_bc p c1) addr, None)).
  { change (rw_insertChain (ach p addr) (block w') (forkVersion w')) with
      (ach_insertChain (ach p addr) (block w) (val p)). unfold ach_insertChain.
    cbn [ach ach_version ach_bc ach_address]. rewrite decide_False by (intros Hn; by apply Hn).
    by rewrite <- Ec, Hins. }
  unfold writeToChain. rewrite Ew, !bind_ret_l. cbn [ach ach_bc].
  change (bc (set_bc p c1)) with c1.
  assert (T2 : pool_tree (ach (set_bc p c1) addr) (put_chain cp1 (removeTail c' w')) (bs ++ [block w]) [(current cp, fs)]).
  { apply (tree_write (ach p addr) _ _ _ _ c' w' ms); try done.
    change (Hash w') with (Hash (block w)). rewrite Efs, fmap_app in Hnd. cbn in Hnd.
    apply NoDup_cons in Hnd as [Hn1 Hnd]. apply NoDup_app in Hnd as (_ & Hn2 & _).
    intros [E|Hin]%elem_of_cons; [apply Hn1; rewrite <- E; set_solver|].
    apply (Hn2 _ Hin). by left. }
  destruct (IH (set_bc p c1) (put_chain cp1 (removeTail c' w')) (bs ++ [block w]))
    as (cp' & E & Hat' & Ei); [by split|by rewrite <- app_assoc|done|].
  rewrite length_app in E. cbn [length] in E. rewrite Nat.add_1_r, Nat2Z.inj_succ in E. unfold Z.succ in E.
  exists cp'. split; [exact E|]. by split_and!.
Qed.
End account_pool.

(** ** The account pools of a node *)
Section account_pools.
Context {St : Type} `{Stack St} {L : Type} `{ChainListener L}.
Context (order : forall A, gmap string A -> list (string * A)) (order_ok : forall A, range_order (order A)).
Implicit Types (p : pool St L) (ap : accountPool) (bs ns : list AccountStateBlock) (b : AccountStateBlock).

(** Nothing is loose, in a snippet, or in memory only; the last task is over. *)
Record rests p addr ap bs : Prop := {
  rs_at : account_at p addr (ap_chainpool ap) bs bs;
  rs_free : freeBlocks (ap_blockpool ap) = ∅;
  rs_task : ap_verifyTask ap = None \/ ap_verifyTask ap = Some successTask
}.

Lemma rests_current p addr ap bs :
  rests p addr ap bs ->
  exists c, get_chain (ap_chainpool ap) (current (ap_chainpool ap)) = Ret c /\ size c = 0.
Proof.
  intros [[T _] _ _]. destruct (tree_single _ _ _ _ T) as (c & ms & Hch & _ & _ & _ & _ & Hwf & Efs & _).
  exists c. unfold get_chain. rewrite Hch, lookup_singleton_eq. split; [done|].
  pose proof (segment_length _ _ _ _ _ _ Hwf) as Hl. apply (f_equal length) in Efs.
  rewrite length_app, length_map in Efs. unfold size. lia.
Qed.

Lemma fetch_nil p addr : fetch p addr [] = p.
Proof. unfold fetch, Pools.Fetch. cbn [map]. rewrite app_nil_r. by destruct p. Qed.

(** A pool at rest has nothing to do. *)
Lemma rests_Compact now p addr ap bs : rests p addr ap bs -> Compact order now p addr ap = Ret (p, 0).
Proof. intros R. unfold Compact. rewrite (rs_free _ _ _ _ R), map_size_empty. by rewrite decide_True. Qed.
Lemma rests_TryInsert now p addr ap bs : rests p addr ap bs -> TryInsert now p addr ap = Ret (p, None).
Proof.
  intros R. unfold TryInsert. destruct (rests_current _ _ _ _ R) as (c & -> & Ec).
  rewrite bind_ret_l, Ec. by rewrite decide_True.
Qed.

(** [compacts]: loose blocks become blocks of the current chain. *)
Lemma Compact_run now p addr ap bs ms :
  account_at p addr (ap_chainpool ap) bs bs ->
  map_Forall (fun x q => Hash q = x) (freeBlocks (ap_blockpool ap)) -> loose (ap_blockpool ap) ≡ₚ ms ->
  linked (tip "" (-1) bs).1 (tip "" (-1) bs).2 ms -> ms <> [] ->
  NoDup ("" :: (Hash <$> (bs ++ map block ms))) ->
  lastestChainIdx (ap_chainpool ap) + Z.of_nat (length ms) < 2 ^ 31 ->
  ap_loopTime ap + 200 * Millisecond < now ->
  exists ap' n, Compact order now p addr ap = Ret (set_ac p addr ap', n) /\
    account_at p addr (ap_chainpool ap') bs (bs ++ map block ms) /\ freeBlocks (ap_blockpool ap') = ∅ /\
    ap_verifyTask ap' = ap_verifyTask ap.
Proof using order_ok.
  intros [T Hsn] Hkey Hl Hlink Hne Hnd Hidx Ht. unfold Compact.
  rewrite decide_False. 2: { apply Permutation_length in Hl. unfold loose in Hl.
    rewrite length_fmap, length_map_to_list in Hl. destruct ms; [done|]. cbn in Hl. lia. }
  rewrite decide_True by done. cbn [ap_set_loopTime ap_blockpool ap_chainpool].
  destruct (join_append (order _) (order _) (order _) (ach p addr) (val p) (ap_blockpool ap) (ap_chainpool ap) bs ms)
    as (bp1 & cp1 & n & cp2 & E1 & E2 & Ef & Es & T2); try done.
  rewrite E1, bind_ret_l, E2, bind_ret_l. unfold loopFetchForSnippets. rewrite Es, map_size_empty.
  rewrite decide_True, bind_ret_l by done. rewrite fetch_nil.
  eexists _, _. split; [reflexivity|]. by split_and!.
Qed.

(** Writing what is in memory: the pool is at rest. *)
Lemma TryInsert_run now p addr ap bs ns c' :
  account_at p addr (ap_chainpool ap) bs (bs ++ ns) -> ns <> [] -> freeBlocks (ap_blockpool ap) = ∅ ->
  (ap_verifyTask ap = None \/ ap_verifyTask ap = Some successTask) ->
  NoDup ("" :: (Hash <$> (bs ++ ns))) -> takes addr (bc p) ns c' ->
  exists ap', TryInsert now p addr ap = Ret (set_ac (set_bc p c') addr ap', Some successTask) /\
    rests (set_ac (set_bc p c') addr ap') addr ap' (bs ++ ns).
Proof.
  intros [T Hsn] Hne Hf Hk Hnd Htk. unfold TryInsert, tryInsert_.
  destruct (tree_single _ _ _ _ T) as (c & ms & Hch & _ & _ & _ & Hth & Hwf & Efs & _). apply app_inv_head in Efs.
  assert (Hlen : length ms = length ns) by (by rewrite Efs, length_map).
  pose proof (segment_length _ _ _ _ _ _ Hwf) as Hl.
  assert (Ec : get_chain (ap_chainpool ap) (current (ap_chainpool ap)) = Ret c).
  { unfold get_chain. by rewrite Hch, lookup_singleton_eq. }
  rewrite Ec, bind_ret_l. unfold size. rewrite decide_False by (destruct ns; [done|cbn in *; lia]).
  assert (Hgo : match ap_verifyTask ap with None => (None, false)
     | Some t => let '(t, d) := Task_Done (bc p) (val p) now t in (Some t, negb d) end = (ap_verifyTask ap, false)).
  { by destruct Hk as [-> | ->]. }
  rewrite Hgo. cbn [ap_set_task ap_chainpool]. rewrite Ec, bind_ret_l.
  replace (Z.to_nat (fc_headHeight c - fc_tailHeight c)) with (length ns) by lia.
  replace (fc_tailHeight c + 1) with (Z.of_nat (length bs)) by lia.
  destruct (tryInsert_all now addr p (ap_chainpool ap) bs (bs ++ ns) ns c') as (cp' & E & Hat & _); [by split|done..|].
  rewrite E, bind_ret_l. eexists. split; [reflexivity|]. split; [exact Hat|exact Hf|by right].
Qed.

(** ** The loops over the pools *)

(** The keys of the pools: each once. *)
Lemma pool_keys p : (order _ (pendingAc p)).*1 ≡ₚ (map_to_list (pendingAc p)).*1.
Proof using order_ok. by rewrite (order_ok _ (pendingAc p)). Qed.
Lemma pool_keys_elem p k : k ∈ (order _ (pendingAc p)).*1 -> is_Some (pendingAc p !! k).
Proof using order_ok.
  rewrite pool_keys. intros ([k' ap] & -> & Hk)%list_elem_of_fmap. exists ap. by apply elem_of_map_to_list in Hk.
Qed.
(** The keys before and after that of one pool. *)
Lemma pool_keys_split p addr ap :
  pendingAc p !! addr = Some ap ->
  exists ks1 ks2, (order _ (pendingAc p)).*1 = ks1 ++ addr :: ks2 /\
    forall k, k ∈ ks1 ++ ks2 -> k <> addr /\ is_Some (pendingAc p !! k).
Proof using order_ok.
  intros Ha. assert (Hin : addr ∈ (order _ (pendingAc p)).*1).
  { rewrite pool_keys. apply list_elem_of_fmap. exists (addr, ap). split; [done|]. by apply elem_of_map_to_list. }
  assert (Hnd : NoDup (order _ (pendingAc p)).*1) by (rewrite pool_keys; apply NoDup_fst_map_to_list).
  pose proof (pool_keys_elem p) as Hel.
  apply list_elem_of_split in Hin as (ks1 & ks2 & E). rewrite E in *. exists ks1, ks2. split; [done|].
  rewrite <- Permutation_middle in Hnd. apply NoDup_cons in Hnd as [Hnd _].
  intros k Hk. split; [by intros ->|]. apply Hel. set_solver.
Qed.

Lemma compact_loop_app now p ks1 ks2 sum :
  accountsCompact_loop order now p (ks1 ++ ks2) sum =
  ('(p, sum) ← accountsCompact_loop order now p ks1 sum; accountsCompact_loop order now p ks2 sum).
Proof.
  revert p sum. induction ks1 as [|k ks1 IH]; intros p sum; [done|]. cbn [app accountsCompact_loop].
  destruct (selfPendingAc now p k) as [[p1 a]| |]; [|done..]. rewrite !bind_ret_l.
  destruct (Compact order now p1 k a) as [[p2 n]| |]; [|done..]. rewrite !bind_ret_l. apply IH.
Qed.
Lemma tryInsert_pools_app now p ks1 ks2 sum :
  accountsTryInsert_loop now p (ks1 ++ ks2) sum =
  ('(p, sum) ← accountsTryInsert_loop now p ks1 sum; accountsTryInsert_loop now p ks2 sum).
Proof.
  revert p sum. induction ks1 as [|k ks1 IH]; intros p sum; [done|]. cbn [app accountsTryInsert_loop].
  destruct (selfPendingAc now p k) as [[p1 a]| |]; [|done..]. rewrite !bind_ret_l.
  destruct (TryInsert now p1 k a) as [[p2 [t|]]| |]; [| |done..]; rewrite !bind_ret_l; [|apply IH].
  destruct (fetchForTask now p2 t) as [p3| |]; [|done..]. rewrite !bind_ret_l. apply IH.
Qed.

Definition idle p k : Prop := exists ap bs, pendingAc p !! k = Some ap /\ rests p k ap bs.
Lemma selfPendingAc_known now p k ap : pendingAc p !! k = Some ap -> selfPendingAc now p k = Ret (p, ap).
Proof. unfold selfPendingAc. by intros ->. Qed.
Lemma compact_idle now p ks sum :
  (forall k, k ∈ ks -> idle p k) -> accountsCompact_loop order now p ks sum = Ret (p, sum).
Proof.
  revert sum. induction ks as [|k ks IH]; intros sum Hk; [done|]. cbn [accountsCompact_loop].
  destruct (Hk k) as (ap & bs & Ha & R); [by left|]. rewrite (selfPendingAc_known _ _ _ _ Ha), bind_ret_l.
  rewrite (rests_Compact _ _ _ _ _ R), bind_ret_l, Z.add_0_r. apply IH. intros k' Hk'. apply Hk. by right.
Qed.
Lemma tryInsert_idle now p ks sum :
  (forall k, k ∈ ks -> idle p k) -> accountsTryInsert_loop now p ks sum = Ret (p, sum).
Proof.
  revert sum. induction ks as [|k ks IH]; intros sum Hk; [done|]. cbn [accountsTryInsert_loop].
  destruct (Hk k) as (ap & bs & Ha & R); [by left|]. rewrite (selfPendingAc_known _ _ _ _ Ha), bind_ret_l.
  rewrite (rests_TryInsert _ _ _ _ _ R), bind_ret_l. apply IH. intros k' Hk'. apply Hk. by right.
Qed.

(** A pool stays at rest while the blocks of its account do. *)
Lemma rests_chain p p' addr ap bs :
  rests p addr ap bs -> disk_repr (ach p' addr) bs -> rests p' addr ap bs.
Proof. intros [[T Hsn] Hf Hk] Hd. split; [split; [by eapply tree_disk|done]|done|done]. Qed.

Lemma rests_set_ac p a ap' addr ap bs : rests p addr ap bs -> rests (set_ac p a ap') addr ap bs.
Proof. intros [[T Hsn] Hf Hk]. by split. Qed.

(** One round of the two loops: the loose blocks of the one pool that is not at rest
    are on the chain. *)
Lemma rounds_take tc ti p addr ap bs ms c' :
  pendingAc p !! addr = Some ap -> account_at p addr (ap_chainpool ap) bs bs ->
  map_Forall (fun x q => Hash q = x) (freeBlocks (ap_blockpool ap)) -> loose (ap_blockpool ap) ≡ₚ ms ->
  linked (tip "" (-1) bs).1 (tip "" (-1) bs).2 ms -> ms <> [] ->
  NoDup ("" :: (Hash <$> (bs ++ map block ms))) ->
  lastestChainIdx (ap_chainpool ap) + Z.of_nat (length ms) < 2 ^ 31 ->
  ap_loopTime ap + 200 * Millisecond < tc ->
  (ap_verifyTask ap = None \/ ap_verifyTask ap = Some successTask) ->
  takes addr (bc p) (map block ms) c' ->
  (forall k, k <> addr -> is_Some (pendingAc p !! k) -> idle p k /\ idle (set_bc p c') k) ->
  exists p2 n m ap3, accountsCompact order tc p = Ret (p2, n) /\
    accountsTryInsert order ti p2 = Ret (set_ac (set_bc p c') addr ap3, m) /\
    rests (set_ac (set_bc p c') addr ap3) addr ap3 (bs ++ map block ms).
Proof using order_ok.
  intros Ha Hat Hkey Hl Hlink Hne Hnd Hidx Ht Hk Htk Hidle.
  destruct (Compact_run tc p addr ap bs ms) as (ap2 & n & E & Hat2 & Hf2 & Hk2); try done.
  rewrite <- Hk2 in Hk.
  set (p2 := set_ac p addr ap2).
  assert (Hk' : forall q a', (forall k, k <> addr -> is_Some (pendingAc p !! k) -> idle q k) ->
    forall ks : list string, (forall k, k ∈ ks -> k <> addr /\ is_Some (pendingAc p !! k)) ->
    forall k, k ∈ ks -> idle (set_ac q addr a') k).
  { intros q a' Hq ks Hks k Hin. destruct (Hks k Hin) as [Hka Hs]. destruct (Hq k Hka Hs) as (x & bx & Hx & R).
    exists x, bx. split; [cbn; by rewrite lookup_insert_ne|]. by apply rests_set_ac. }
  assert (Ec : exists sum, accountsCompact order tc p = Ret (p2, sum)).
  { unfold accountsCompact. destruct (pool_keys_split p addr ap Ha) as (ks1 & ks2 & -> & Hks). eexists.
    rewrite compact_loop_app, compact_idle, bind_ret_l.
    2: { intros k Hin. destruct (Hks k) as [? ?]; [set_solver|]. by apply Hidle. }
    cbn [accountsCompact_loop]. rewrite (selfPendingAc_known _ _ _ _ Ha), bind_ret_l, E, bind_ret_l.
    rewrite compact_idle; [reflexivity|]. apply (Hk' p); [by apply Hidle|]. intros k Hin. apply Hks. set_solver. }
  destruct Ec as [sum Ec]. exists p2, sum.
  assert (Ha2 : pendingAc p2 !! addr = Some ap2) by apply lookup_insert_eq.
  destruct (TryInsert_run ti p2 addr ap2 bs (map block ms) c') as (ap3 & E3 & R3); try done; [by destruct ms|].
  assert (E3' : set_ac (set_bc p2 c') addr ap3 = set_ac (set_bc p c') addr ap3).
  { unfold p2, set_ac, set_bc; cbn. by rewrite insert_insert_eq. }
  rewrite E3' in E3, R3. unfold accountsTryInsert.
  destruct (pool_keys_split p2 addr ap2 Ha2) as (ks1 & ks2 & -> & Hks).
  assert (Hks' : forall k, k ∈ ks1 ++ ks2 -> k <> addr /\ is_Some (pendingAc p !! k)).
  { intros k Hin. destruct (Hks k Hin) as [Hka Hs]. split; [done|]. cbn in Hs. by rewrite lookup_insert_ne in Hs. }
  eexists _, ap3. split; [done|]. split; [|exact R3].
  rewrite tryInsert_pools_app, tryInsert_idle, bind_ret_l.
  2: { apply (Hk' p); [by apply Hidle|]. intros k Hin. apply Hks'. set_solver. }
  cbn [accountsTryInsert_loop]. rewrite (selfPendingAc_known _ _ _ _ Ha2), bind_ret_l, E3, bind_ret_l.
  cbn [fetchForTask Task_Requests fetchForTask_loop]. rewrite bind_ret_l.
  rewrite tryInsert_idle; [reflexivity|].
  apply (Hk' (set_bc p c')); [by apply Hidle|]. intros k Hin. apply Hks'. set_solver.
Qed.
End account_pools.

(** ** A node and its chain *)
Section nodes.
Context {St : Type} `{HS : Stack St}.
Context (order : forall A, gmap string A -> list (string * A)) (order_ok : forall A, range_order (order A)).
Implicit Types (p : pool St reqPool) (c : Blockchain.blockchain St reqPool) (b : AccountStateBlock).
Implicit Types (M : string -> list AccountStateBlock) (sn : SnapshotBlock).

Definition head_snapshot c sn : Prop :=
  fst (reader_HeadSnapshot c) = Some sn /\ reader_GetSnapshotByHashH c (hash_height sn) = Some sn.

(** The node holds the accounts [M] under the snapshot head [sn], its account pools
    are at rest. *)
Record node_at p M sn : Prop := {
  na_run : run_inv (bc p) M;
  na_snapshot : head_snapshot (bc p) sn;
  na_hashes addr b : b ∈ M addr -> Hash b <> "";
  na_pools addr ap : pendingAc p !! addr = Some ap -> rests p addr ap (M addr)
}.

(** The chain takes [b] as the next block of the account [addr], and becomes [c']. *)
Record next_block c M sn addr b c' : Prop := {
  nx_nonempty : M addr <> [];
  nx_pre : PreHash b = (tip "" (-1) (M addr)).1;
  nx_height : Height b = Z.of_nat (length (M addr));
  nx_fresh : Hash b ∉ "" :: (Hash <$> M addr);
  nx_verifies : verifies c b;
  nx_insert : Blockchain.InsertAccountBlock c addr b = Ret (c', None);
  nx_run : run_inv c' (extend M addr b);
  nx_snapshot : head_snapshot c' sn
}.

Lemma run_disk p M k : run_inv (bc p) M -> M k <> [] -> disk_repr (ach p k) (M k).
Proof.
  intros I Hne. destruct (M k) as [|b bs] eqn:E; [done|].
  assert (Hk : k <> snapshotHeadKey) by (apply (ri_blocks _ _ I k b); rewrite E; by left).
  rewrite <- E. split; [apply (ri_address _ _ I)|]. by apply (ri_repr _ _ I).
Qed.

Lemma chainPool_init_idx Id (w : accountCh St reqPool) cp :
  chainPool_init Id w = Ret cp -> lastestChainIdx cp = 1.
Proof. unfold chainPool_init. cbn [genChainId incChainIdx]. by intros (hd & _ & [= <-])%bind_ret_inv. Qed.

(** The pool of an account that has blocks, created if it is not there. *)
Lemma pool_for now p M sn addr :
  node_at p M sn -> M addr <> [] ->
  exists ap, selfPendingAc now p addr = Ret (set_ac p addr ap, ap) /\ rests p addr ap (M addr) /\
    (pendingAc p !! addr = Some ap \/
     ap_blockpool ap = newBlockPool /\ ap_loopTime ap = now /\ lastestChainIdx (ap_chainpool ap) = 1).
Proof.
  intros [I _ _ Hp] Hne. unfold selfPendingAc. destruct (pendingAc p !! addr) as [ap|] eqn:Ea.
  - exists ap. split; [|split; [by apply Hp|by left]].
    unfold set_ac. rewrite insert_id by done. by destruct p.
  - destruct (chainPool_init_tree (ach p addr) (M addr) ("accountChainPool-" +:+ addr)) as (cp & E & T & Es);
      [by apply run_disk|done|].
    rewrite E, bind_ret_l. eexists. split; [reflexivity|].
    split; [split; [by split|done|by left]|]. right. split; [done|]. split; [done|].
    by eapply chainPool_init_idx.
Qed.

(** The pools of the other accounts do not notice the new block. *)
Lemma others_rest p M sn addr b c' k ap :
  node_at p M sn -> next_block (bc p) M sn addr b c' -> k <> addr -> pendingAc p !! k = Some ap ->
  rests (set_bc p c') k ap (extend M addr b k).
Proof.
  intros N X Hk Ha. pose proof (na_pools _ _ _ N _ _ Ha) as R. pose proof (pt_nonempty _ _ _ _ (proj1 (rs_at _ _ _ _ R))) as Hne.
  assert (Ek : extend M addr b k = M k) by (unfold extend; by rewrite decide_False).
  rewrite Ek. eapply rests_chain; [exact R|]. rewrite <- Ek. apply run_disk; [apply (nx_run _ _ _ _ _ _ X)|by rewrite Ek].
Qed.

Lemma node_after p M sn addr b c' ap :
  node_at p M sn -> next_block (bc p) M sn addr b c' ->
  rests (set_ac (set_bc p c') addr ap) addr ap (M addr ++ [b]) ->
  node_at (set_ac (set_bc p c') addr ap) (extend M addr b) sn.
Proof.
  intros N X R. split; [apply (nx_run _ _ _ _ _ _ X)|apply (nx_snapshot _ _ _ _ _ _ X)|..].
  { intros k b' Hb'. unfold extend in Hb'. case_decide; [|by eapply (na_hashes _ _ _ N)].
    apply elem_of_app in Hb' as [Hb'| ->%list_elem_of_singleton]; [by eapply (na_hashes _ _ _ N)|].
    intros E. apply (nx_fresh _ _ _ _ _ _ X). rewrite E. by left. }
  intros k ap' Hk. cbn in Hk. destruct (decide (k = addr)) as [->|Hne].
  - rewrite lookup_insert_eq in Hk. injection Hk as <-. by rewrite extend_same.
  - rewrite lookup_insert_ne in Hk by done. apply rests_set_ac. by eapply others_rest.
Qed.

(** A block of the node's own: written at once. *)
Lemma own_block now p M sn addr b c' :
  node_at p M sn -> next_block (bc p) M sn addr b c' ->
  exists ap, AddDirectAccountBlock now p addr b = Ret (set_ac (set_bc p c') addr ap, None) /\
    node_at (set_ac (set_bc p c') addr ap) (extend M addr b) sn.
Proof.
  intros N X. destruct (pool_for now p M sn addr N (nx_nonempty _ _ _ _ _ _ X)) as (ap & E & R & _).
  pose proof R as [[T Hsn] Hf Hk].
  destruct (nx_verifies _ _ _ _ _ _ X (val p) now) as (stat & Es & Er).
  assert (Ew : rw_insertChain (ach p addr) b (val p) = Ret (ach (set_bc p c') addr, None)).
  { change (rw_insertChain (ach p addr) b (val p)) with (ach_insertChain (ach p addr) b (val p)).
    unfold ach_insertChain. cbn [ach ach_version ach_bc ach_address]. rewrite decide_False by (intros Hn; by apply Hn).
    by rewrite (nx_insert _ _ _ _ _ _ X). }
  destruct (direct_run (ach p addr) (ach (set_bc p c') addr) (val p)
    (fun w b => stat ← AccountVerifier.VerifyReferred (val p) now (ach_bc w) b;
                Ret (AccountVerifier.VerifyResult_ stat, AccountVerifier.ErrMsg stat))
    (AccountVerifier.ErrMsg stat) (ap_chainpool ap) (M addr) b T) as (cp' & Ed & T' & Hsn').
  { apply X. } { apply X. } { apply X. } { cbn [ach ach_bc]. by rewrite Es, bind_ret_l, Er. } { exact Ew. }
  unfold AddDirectAccountBlock. rewrite E, bind_ret_l.
  change (val (set_ac p addr ap)) with (val p). change (ach (set_ac p addr ap) addr) with (ach p addr).
  rewrite Ed, bind_ret_l. exists (ap_set_chainpool ap cp').
  assert (Eq : set_ac (set_bc (set_ac p addr ap) (ach_bc (ach (set_bc p c') addr))) addr (ap_set_chainpool ap cp') =
    set_ac (set_bc p c') addr (ap_set_chainpool ap cp')).
  { unfold set_ac, set_bc; cbn. by rewrite insert_insert_eq. }
  rewrite Eq. split; [done|]. apply node_after; [done|done|].
  apply rests_set_ac. split; [split; [exact T'|by etrans]|done|done].
Qed.

(** The pool of the account can take the new block: it has not seen it, its last
    compaction is long enough ago, and there is room for a chain id. *)
Definition ready p addr b (t : Z) : Prop :=
  forall ap, pendingAc p !! addr = Some ap ->
    blockPool_contains (ap_blockpool ap) (Hash b) (Height b) = false /\
    lastestChainIdx (ap_chainpool ap) + 1 < 2 ^ 31 /\ ap_loopTime ap + 200 * Millisecond < t.

(** A block that arrives: after one round of the loops it is on the chain. *)
Lemma peer_block t0 tc ti p M sn addr b c' :
  node_at p M sn -> next_block (bc p) M sn addr b c' -> ready p addr b tc -> t0 + 200 * Millisecond < tc ->
  exists p1 p2 n m ap, AddAccountBlock t0 p addr b = Ret (p1, None) /\
    accountsCompact order tc p1 = Ret (p2, n) /\
    accountsTryInsert order ti p2 = Ret (set_ac (set_bc p c') addr ap, m) /\
    node_at (set_ac (set_bc p c') addr ap) (extend M addr b) sn.
Proof using order_ok.
  intros N X Hr Ht. pose proof (nx_nonempty _ _ _ _ _ _ X) as Hne.
  destruct (pool_for t0 p M sn addr N Hne) as (ap & E & R & Hcase). pose proof R as [Hat Hf Hk].
  assert (Hready : blockPool_contains (ap_blockpool ap) (Hash b) (Height b) = false /\
    lastestChainIdx (ap_chainpool ap) + 1 < 2 ^ 31 /\ ap_loopTime ap + 200 * Millisecond < tc).
  { destruct Hcase as [Ha|(-> & -> & ->)]; [by apply Hr|]. done. }
  destruct Hready as (Hc & Hidx & Hlt).
  set (q := {| block := b; forkVersion := val p |}).
  set (ap1 := ap_set_blockpool ap (AddBlock (val p) (ap_blockpool ap) b)).
  assert (Ebp : ap_blockpool ap1 = putBlock (ap_blockpool ap) (Hash b) q).
  { unfold ap1. cbn. unfold AddBlock. by rewrite Hc. }
  assert (Efree : freeBlocks (ap_blockpool ap1) = {[Hash b := q]}) by (rewrite Ebp; cbn; by rewrite Hf).
  set (p1 := set_ac p addr ap1).
  assert (E1 : AddAccountBlock t0 p addr b = Ret (p1, None)).
  { unfold AddAccountBlock. rewrite E, bind_ret_l. change (val (set_ac p addr ap)) with (val p).
    fold ap1. unfold p1, set_ac; cbn. by rewrite insert_insert_eq. }
  pose proof (pt_disk _ _ _ _ (proj1 Hat)) as Hd.
  destruct (rounds_take order order_ok tc ti p1 addr ap1 (M addr) [q] c') as (p2 & n & m & ap3 & E2 & E3 & R3).
  - apply lookup_insert_eq.
  - exact Hat.
  - rewrite Efree. by apply map_Forall_singleton.
  - unfold loose. by rewrite Efree, map_to_list_singleton.
  - cbn. split; [apply X|]. split; [|done]. change (Height q) with (Height b).
    rewrite (nx_height _ _ _ _ _ _ X), tip_height. lia.
  - done.
  - cbn [map block q]. pose proof (nx_fresh _ _ _ _ _ _ X) as Hfr. apply not_elem_of_cons in Hfr as [Hf1 Hf2].
    rewrite fmap_app. apply NoDup_cons. split.
    + rewrite elem_of_app. intros [(b' & Eb & Hb')%list_elem_of_fmap|Hb'%list_elem_of_singleton]; [|done].
      by apply (na_hashes _ _ _ N _ _ Hb').
    + apply NoDup_app. split; [by apply (disk_nodup _ _ Hd)|]. split; [|apply NoDup_singleton].
      intros x Hx ->%list_elem_of_singleton. done.
  - exact Hidx.
  - exact Hlt.
  - exact Hk.
  - apply (takes_cons _ _ _ _ c'); [apply X|apply X|constructor].
  - intros k Hka Hs. change (is_Some (pendingAc p1 !! k)) in Hs. cbn in Hs. rewrite lookup_insert_ne in Hs by done.
    destruct Hs as [x Hx]. split.
    + exists x, (M k). split; [cbn; by rewrite lookup_insert_ne|]. apply rests_set_ac. by apply (na_pools _ _ _ N).
    + exists x, (extend M addr b k). split; [cbn; by rewrite lookup_insert_ne|].
      eapply rests_chain; [by eapply (others_rest p)|]. apply (pt_disk _ _ _ _ (proj1 (rs_at _ _ _ _ (others_rest p M sn addr b c' k x N X Hka Hx)))).
  - assert (Eq : set_ac (set_bc p1 c') addr ap3 = set_ac (set_bc p c') addr ap3).
    { unfold p1, set_ac, set_bc; cbn. by rewrite insert_insert_eq. }
    rewrite Eq in E3, R3. exists p1, p2, n, m, ap3. split; [done|]. split; [done|]. split; [done|].
    by apply node_after.
Qed.
End nodes.

(** ** The two blocks of a transfer *)
Section blocks.
Context {St : Type} `{HS : Stack St}.
Implicit Types (c : Blockchain.blockchain St reqPool) (l : ledger St) (b : AccountStateBlock).
Implicit Types (M : string -> list AccountStateBlock) (sn : SnapshotBlock).

(** Inserting an account block leaves the snapshot chain alone. *)
Lemma insert_snapshot c M a b c' sn :
  run_inv c M -> Blockchain.InsertAccountBlock c a b = Ret (c', None) -> head_snapshot c sn -> head_snapshot c' sn.
Proof.
  intros I E [H1 H2]. rewrite (InsertAccountBlock_eq _ _ _ _ I) in E. apply bind_ret_inv in E as (rp & _ & [= <-]).
  pose proof (selfAc_fields c a) as (F1 & _). split.
  - cbn in *. by rewrite F1.
  - rewrite <- H2. cbn. unfold Blockchain.GetSnapshotByHashH, SnapshotChain.GetBlockByHashH.
    cbn [Blockchain.put_ac Blockchain.store]. unfold inserted. by destruct (decide (a_BlockType b = RECEIVED)).
Qed.

(** A valid block verifies. *)
Lemma valid_verifies c M sn b :
  run_inv c M -> head_snapshot c sn -> a_SnapshotHash b = Hash sn -> a_SnapshotHeight b = Height sn ->
  a_BlockType b <> GENESIS -> To b <> snapshotHeadKey -> self_valid c b -> from_valid c b -> verifies c b.
Proof.
  intros I [_ Hs] Ex Eh Ht Hk Hself Hfrom v now.
  destruct (VerifyReferred_returns v now c b Ht) as [stat E]; [by eexists; apply (run_source _ _ _ _ I)|].
  exists stat. split; [done|]. apply (VerifyReferred_spec _ _ _ _ _ Ht E). split; [|done].
  exists sn. by rewrite Ex, Eh.
Qed.

(** The block after the last one of an account is where its chain ends. *)
Lemma next_place c M a prev b :
  run_inv c M -> a <> snapshotHeadKey -> last (M a) = Some prev -> Hash b <> "" ->
  GetAccountByHash (Blockchain.store c) (Hash b) = None ->
  M a <> [] /\ Hash b ∉ "" :: (Hash <$> M a).
Proof.
  intros I Hk Hl Hne Hf. split; [by intros E; rewrite E in Hl|]. apply not_elem_of_cons. split; [done|].
  intros (g & E & Hg)%list_elem_of_fmap. destruct (run_elem _ _ _ _ I Hg) as (_ & _ & Eg). by rewrite <- E, Hf in Eg.
Qed.

(** *** The request *)
Definition open_request b : Req :=
  {| ReqHash := Hash b; acc := None; state := 2; req_Amount := ModifiedAmount b; req_From := From b |}.

Lemma requestBlock_more now l M sn from to amount prev b :
  run_inv (lbc l) M -> head_snapshot (lbc l) sn -> from <> snapshotHeadKey -> last (M from) = Some prev ->
  requestBlock now l from to amount = Ret b ->
  a_SnapshotHash b = Hash sn /\ a_SnapshotHeight b = Height sn /\ Amount b = wrap64 (Amount prev + amount).
Proof.
  intros I [Hs _] Hk Hl. unfold requestBlock. rewrite (run_head _ _ _ I Hk), Hl, Hs. cbn [deref].
  rewrite bind_ret_l. intros [= <-]. done.
Qed.

(** Every node that holds the same accounts under the same snapshot takes the request. *)
Lemma request_next now l c M sn from to amount prev s :
  run_inv (lbc l) M -> head_snapshot (lbc l) sn -> run_inv c M -> head_snapshot c sn ->
  from <> snapshotHeadKey -> to <> snapshotHeadKey -> last (M from) = Some prev ->
  a_SnapshotHeight prev <= Height sn -> - 2 ^ 63 < amount <= 0 -> 0 < Amount prev + amount ->
  requestBlock now l from to amount = Ret s -> Hash s <> "" ->
  GetAccountByHash (Blockchain.store c) (Hash s) = None ->
  exists c', next_block c M sn from s c' /\ getReq (Blockchain.listenerState c') to (Hash s) = Some (open_request s).
Proof.
  intros Il Hsl I Hs Hk Hkt Hl Hsh Hm Hpos Es Hne Hf.
  destruct (requestBlock_fields _ _ _ _ _ _ _ Il Hk Es) as (F1 & F2 & F3 & F4 & F5 & F6).
  destruct (requestBlock_more _ _ _ _ _ _ _ _ _ Il Hsl Hk Hl Es) as (F7 & F8 & F9).
  destruct (F6 _ Hl) as [F10 F11].
  destruct (run_last _ _ _ _ I Hk Hl) as (Etip & Eh & Hin).
  destruct (run_elem _ _ _ _ I Hin) as (_ & [_ Hpa _ _] & _).
  rewrite wrap64_id in F9 by (unfold in64; lia).
  assert (Hself : self_valid c s).
  { unfold self_valid. rewrite F4, decide_False by (intros [? _]; done). split; [done|].
    exists prev. rewrite F1, (run_head _ _ _ I Hk), F4, F5, F8, F9. split_and!; try done; [intros _; lia|].
    rewrite wrap64_id; [done|unfold in64; lia]. }
  assert (Hfrom : from_valid c s) by (intros Ht; by rewrite F4 in Ht).
  destruct (next_place c M from prev s I Hk Hl Hne Hf) as [Hn1 Hn2].
  assert (Er : exists rp, blockInsert (Blockchain.listenerState c) s = Ret rp).
  { unfold blockInsert. rewrite decide_True by done. by eexists. }
  destruct Er as [rp' Er].
  pose proof (InsertAccountBlock_eq c M from s I) as Ei. rewrite Er, bind_ret_l in Ei. set (c' := Blockchain.put_ac _ _ _ _ _) in Ei.
  destruct (request_step c M s rp' from c' I Hk F1 F2 F4) as (I' & El & _ & _); try done.
  { rewrite F5. unfold in64. lia. }
  exists c'. split.
  - split; try done.
    + by rewrite F10.
    + lia.
    + apply (valid_verifies c M sn s I Hs F7 F8); [by rewrite F4|by rewrite F3|done|done].
    + by apply (insert_snapshot c M from s c' sn I Ei).
  - rewrite El. unfold blockInsert in Er. rewrite decide_True in Er by done. injection Er as <-.
    unfold getReq, account, reqPool. rewrite <- F3, lookup_insert_eq. by rewrite lookup_insert_eq.
Qed.

(** *** The response *)
Lemma responseBlock_more now l M sn from to x req b :
  run_inv (lbc l) M -> head_snapshot (lbc l) sn -> to <> snapshotHeadKey ->
  responseBlock now l from to x req = Ret b ->
  a_SnapshotHash b = Hash sn /\ a_SnapshotHeight b = Height sn /\ SourceHeight b = Height req.
Proof.
  intros I [Hs _] Hk. unfold responseBlock. rewrite (run_head _ _ _ I Hk), Hs.
  destruct (last (M to)); cbn [deref]; rewrite bind_ret_l; intros [= <-]; done.
Qed.

(** It depends on the chain through the head of the account and the snapshot head. *)
Lemma responseBlock_same now l l' M M' sn from to x req :
  run_inv (lbc l) M -> run_inv (lbc l') M' -> head_snapshot (lbc l) sn -> head_snapshot (lbc l') sn ->
  to <> snapshotHeadKey -> M' to = M to ->
  responseBlock now l' from to x req = responseBlock now l from to x req.
Proof.
  intros I I' [Hs _] [Hs' _] Hk E. unfold responseBlock.
  by rewrite (run_head _ _ _ I Hk), (run_head _ _ _ I' Hk), Hs, Hs', E.
Qed.

(** Every node that holds the request, listed as open, takes its answer. *)
Lemma response_next now l c M Ml sn from to s prev r :
  run_inv (lbc l) Ml -> head_snapshot (lbc l) sn -> Ml to = M to -> run_inv c M -> head_snapshot c sn ->
  to <> snapshotHeadKey -> from <> to -> last (M to) = Some prev -> last (M from) = Some s ->
  a_BlockType s = SEND -> a_SnapshotHeight prev <= Height sn -> a_SnapshotHeight s <= Height sn ->
  0 < Amount prev - ModifiedAmount s < 2 ^ 63 ->
  responseBlock now l from to (Hash s) s = Ret r -> Hash r <> "" ->
  GetAccountByHash (Blockchain.store c) (Hash r) = None ->
  getReq (Blockchain.listenerState c) to (Hash s) = Some (open_request s) ->
  exists c' q, next_block c M sn to r c' /\ getReq (Blockchain.listenerState c') to (Hash s) = Some q /\ state q = 1 /\
    Amount r = Amount prev - ModifiedAmount s.
Proof.
  intros Il Hsl EM I Hs Hkt Hft Hl Hlf Hst Hsh Hsh' Hpos Er Hne Hf Hreq.
  destruct (responseBlock_fields _ _ _ _ _ _ _ _ Il Hkt Er) as (F1 & F2 & F3 & F4 & F5 & F6 & F7 & F8 & F9).
  destruct (responseBlock_more _ _ _ _ _ _ _ _ _ Il Hsl Hkt Er) as (G1 & G2 & G3). rewrite EM in F7, F8, F9.
  assert (Hkf : from <> snapshotHeadKey).
  { apply (ri_blocks _ _ I from s). rewrite last_lookup in Hlf. by eapply list_elem_of_lookup_2. }
  destruct (run_last _ _ _ _ I Hkf Hlf) as (_ & Ehs & Hins).
  destruct (run_elem _ _ _ _ I Hins) as (_ & [_ _ Hgs _] & Eg). destruct (Hgs Hst) as [_ Hms].
  assert (0 <= Height s) by (destruct (M from); [by apply elem_of_nil in Hins|cbn in Ehs; lia]).
  destruct (run_last _ _ _ _ I Hkt Hl) as (_ & Eh & Hin).
  destruct (run_elem _ _ _ _ I Hin) as (_ & [_ Hpa _ _] & _).
  assert (0 <= Height prev) by (destruct (M to); [by apply elem_of_nil in Hin|cbn in Eh; lia]).
  rewrite wrap64_id in F6 by (unfold in64; lia).
  unfold bal in F7. rewrite Hl in F7. cbn [from_option] in F7.
  rewrite wrap64_id in F7 by (unfold in64; lia).
  assert (Hun : unreceived M to (Hash s)).
  { destruct (ri_reqs _ _ I _ _ _ Hreq) as [_ [[_ Hu]|[H1 _]]]; [done|discriminate H1]. }
  assert (Hself : self_valid c r).
  { unfold self_valid. rewrite decide_False by (intros [_ ?]; lia). rewrite F3, F5. split.
    - intros _. rewrite (run_source _ _ _ _ I Hkt). f_equal. apply last_None.
      destruct (filter _ _) as [|g gs] eqn:E; [done|]. exfalso.
      assert (Hg : g ∈ filter (fun b => a_BlockType b = RECEIVED /\ SourceHash b = Hash s) (drop 1 (M to)))
        by (rewrite E; by left).
      apply list_elem_of_filter in Hg as [[Hg1 Hg2] Hg]. apply (Hun g); [|done|done].
      rewrite <- (take_drop 1 (M to)). apply elem_of_app. by right.
    - exists prev. rewrite F1, (run_head _ _ _ I Hkt), F4, F6, F7, G2. rewrite F8, tip_last, Hl.
      split_and!; try done; [intros _; lia| |lia]. rewrite wrap64_id; [lia|unfold in64; lia]. }
  assert (Hfrom : from_valid c r).
  { intros _. exists s. rewrite F2, G3, F5. split_and!; try done.
    - cbn. rewrite GetAccountByHeight_eq. unfold AccountChain.GetBlockByHeight.
      rewrite decide_False by lia. pose proof (ri_repr _ _ I _ Hkf) as R.
      rewrite (ar_height _ _ _ R), decide_False by lia. rewrite last_lookup in Hlf. rewrite <- Hlf. f_equal. lia.
    - by rewrite G2.
    - rewrite F6. rewrite Z.add_opp_diag_r. done.
    - intros s2. cbn. rewrite GetAccountByHash_eq, Eg. by intros [= <-]. }
  destruct (next_place c M to prev r I Hkt Hl Hne Hf) as [Hn1 Hn2].
  assert (Erp : exists rp q, blockInsert (Blockchain.listenerState c) r = Ret rp /\ getReq rp to (Hash s) = Some q /\ state q = 1).
  { unfold blockInsert. rewrite decide_False by (by rewrite F4). rewrite decide_True by done.
    rewrite F3, F5, Hreq. cbn [deref]. rewrite bind_ret_l. eexists _, _. split; [reflexivity|].
    unfold put_req, getReq, account, reqPool in *. destruct (_ !! to) as [m|]; [|done].
    rewrite lookup_insert_eq, lookup_insert_eq. done. }
  destruct Erp as (rp & q & Erp & Hq1 & Hq2).
  pose proof (InsertAccountBlock_eq c M to r I) as Ei. rewrite Erp, bind_ret_l in Ei. set (c' := Blockchain.put_ac _ _ _ _ _) in Ei.
  destruct (response_step c M r rp to s c') as (I' & El & _ & _); try done.
  { by rewrite F2. }
  { by rewrite F5. }
  { rewrite F6, wrap64_id; [done|unfold in64; lia]. }
  { unfold bal. rewrite Hl. cbn [from_option]. rewrite F7, F6, wrap64_id; [done|unfold in64; lia]. }
  { rewrite F5. by apply (unreceived_not_replayed c M). }
  exists c', q. split; [|split; [by rewrite El|split; [done|lia]]]. split; try done.
  - apply (valid_verifies c M sn r I Hs G1 G2); [by rewrite F4|by rewrite F3|done|done].
  - by apply (insert_snapshot c M to r c' sn I Ei).
Qed.
End blocks.

(** ** Two nodes and what travels between them *)
Section network.
Context {D : Type} `{JsonLaws D} {St : Type} `{HS : Stack St}.
Context (order : forall A, gmap string A -> list (string * A)) (order_ok : forall A, range_order (order A)).
Implicit Types (p : pool St reqPool) (b : AccountStateBlock) (M : string -> list AccountStateBlock) (sn : SnapshotBlock).
Notation node := (syncer (list (Msg D)) (pool St reqPool)).
Notation handlers := (MsgHandler D (list (Msg D)) (pool St reqPool)).
Implicit Types (x : node).

(** The ledger of a node, its mutex free. *)
Definition ledger_of p : ledger St := mkLedger p (mkRWMutex false 0) [].

(** The ledger's broadcasts go out through the sender. *)
Definition send_one (n : list (Msg D)) (m : Ledger.broadcast) : outcome (list (Msg D)) :=
  '(n, _) ← match m with
            | Ledger.BroadcastSnapshotBlocks bs => BroadcastSnapshotBlocks n bs
            | Ledger.BroadcastAccountBlocks a bs => BroadcastAccountBlocks n a bs
            end;
  Ret n.
Fixpoint send_all (n : list (Msg D)) (ms : list Ledger.broadcast) : outcome (list (Msg D)) :=
  match ms with [] => Ret n | m :: ms => n ← send_one n m; send_all n ms end.

(** An operation of the node's ledger, and its broadcasts. *)
Definition own_op (op : ledger St -> outcome (ledger St * error)) x : outcome (node * error) :=
  '(l, e) ← op (ledger_of (rw x));
  n ← send_all (net x) (sent l);
  Ret (set_net (set_rw x (bpool l)) n, e).

(** Messages that arrive at the time [now]. *)
Definition arrive now (ordr : gmap string handlers -> list (string * handlers)) (ms : list (Msg D)) x : outcome node :=
  deliver (H4 := pool_PoolWriter now) now ordr ms x.

(** One round of the loops over the account pools. *)
Definition account_round (tc ti : Z) p : outcome (pool St reqPool) :=
  '(p, _) ← accountsCompact order tc p;
  '(p, _) ← accountsTryInsert order ti p;
  Ret p.

Lemma addOwnBlock_at now p addr b p' :
  AddDirectAccountBlock now p addr b = Ret (p', None) ->
  addOwnBlock now (ledger_of p) addr b =
  Ret (mkLedger p' (mkRWMutex false 0) [Ledger.BroadcastAccountBlocks addr [b]], None).
Proof.
  intros E. unfold addOwnBlock, locked_AddDirectAccountBlock. cbn [ledger_of rwMutex bpool].
  unfold RLock. cbn [writer]. rewrite decide_False by done. rewrite bind_ret_l, E, bind_ret_l. done.
Qed.

(** A block that is written is broadcast as one message, which can be read. *)
Lemma own_op_block now op x M sn addr b c' :
  encodable (D := D) -> dated b -> node_at (rw x) M sn -> next_block (bc (rw x)) M sn addr b c' ->
  op (ledger_of (rw x)) = addOwnBlock now (ledger_of (rw x)) addr b ->
  exists ap d, own_op op x = Ret (set_net (set_rw x (set_ac (set_bc (rw x) c') addr ap))
      (net x ++ [mkMsg AccountBlocks (Some d)]), None) /\
    Unmarshal ShAccountBlocks (Some d) = (mkAccountBlocksMsg addr [Some b], None) /\
    node_at (set_ac (set_bc (rw x) c') addr ap) (extend M addr b) sn.
Proof.
  intros He Hd0 N X Hop. destruct (own_block now (rw x) M sn addr b c' N X) as (ap & E & N').
  destruct (He ShAccountBlocks (mkAccountBlocksMsg addr [Some b])) as [d Hd].
  { by intros u [= ->]%list_elem_of_singleton. }
  exists ap, d. unfold own_op. rewrite Hop, (addOwnBlock_at _ _ _ _ _ E), bind_ret_l. cbn [sent send_all send_one].
  unfold send_one, Syncer.BroadcastAccountBlocks, Syncer.broadcast. change (Some <$> [b]) with [Some b]. rewrite Hd. cbn.
  split; [done|]. split; [exact (Unmarshal_Marshal ShAccountBlocks (mkAccountBlocksMsg addr [Some b]) d Hd)|done].
Qed.

(** It arrives at a peer that holds the same accounts. *)
Lemma arrive_block t0 tc ti ordr x M sn addr b c' d :
  range_order ordr -> node_at (rw x) M sn -> next_block (bc (rw x)) M sn addr b c' -> Signer b = addr ->
  ready (rw x) addr b tc -> t0 + 200 * Millisecond < tc ->
  Unmarshal ShAccountBlocks (Some d) = (mkAccountBlocksMsg addr [Some b], None) ->
  exists x' ap, arrive t0 ordr [mkMsg AccountBlocks (Some d)] x = Ret x' /\ net x' = net x /\
    account_round tc ti (rw x') = Ret (set_ac (set_bc (rw x) c') addr ap) /\
    node_at (set_ac (set_bc (rw x) c') addr ap) (extend M addr b) sn.
Proof using order_ok.
  intros Ho N X Hs Hr Ht Hu.
  destruct (peer_block order order_ok t0 tc ti (rw x) M sn addr b c' N X Hr Ht) as (p1 & p2 & n & m & ap & E1 & E2 & E3 & N').
  unfold arrive. rewrite (deliver_one t0 ordr accountBlocksHandler) by (done || by left).
  cbn [inner_Handle]. unfold Handle_accountBlocks. rewrite Hu. cbn [fst abm_Blocks add_accounts deref].
  rewrite bind_ret_l.
  assert (Ew : writer_AddAccountBlock (PoolWriter := pool_PoolWriter t0) (rw (fetcher_done t0 x (Hash b) (Height b)))
    (Signer b) b = Ret (p1, None)) by (rewrite <- E1, Hs; reflexivity).
  unfold pool_writer. rewrite Ew, bind_ret_l.
  eexists _, ap. split; [reflexivity|]. split; [done|]. cbn [set_rw rw].
  unfold account_round. rewrite E2, bind_ret_l, E3, bind_ret_l. done.
Qed.

(** A block crosses from [x] to [y]. *)
Lemma block_crosses now op t tc ordr x y M sn addr b cx cy :
  encodable (D := D) -> dated b -> range_order ordr -> node_at (rw x) M sn -> node_at (rw y) M sn ->
  next_block (bc (rw x)) M sn addr b cx -> next_block (bc (rw y)) M sn addr b cy -> Signer b = addr ->
  op (ledger_of (rw x)) = addOwnBlock now (ledger_of (rw x)) addr b -> net x = [] ->
  ready (rw y) addr b tc -> t + 200 * Millisecond < tc ->
  exists x1 y1 p1, own_op op x = Ret (x1, None) /\ arrive t ordr (net x1) y = Ret y1 /\
    account_round tc tc (rw y1) = Ret p1 /\ net y1 = net y /\ bc (rw x1) = cx /\ bc p1 = cy /\
    node_at (rw x1) (extend M addr b) sn /\ node_at p1 (extend M addr b) sn /\
    forall k, k <> addr -> pendingAc (rw x1) !! k = pendingAc (rw x) !! k.
Proof using order_ok H0.
  intros He Hd0 Ho Nx Ny Xx Xy Hs Hop En Hr Ht.
  destruct (own_op_block now op x M sn addr b cx He Hd0 Nx Xx Hop) as (ap & d & E1 & U & Nx1). rewrite En in E1.
  destruct (arrive_block t tc tc ordr y M sn addr b cy d Ho Ny Xy Hs Hr Ht U) as (y1 & apy & E2 & Ey & E3 & Ny1).
  eexists _, y1, _. split; [exact E1|]. split; [exact E2|]. split; [exact E3|].
  split_and!; try done. intros k Hk. cbn. by rewrite lookup_insert_ne.
Qed.
End network.

(** ** What is listed, what is stored *)
Section listing.
Context {St : Type} `{HS : Stack St}.
Implicit Types (c : Blockchain.blockchain St reqPool).

Lemma getReq_listed ord (rp : reqPool) a x q :
  range_order ord -> getReq rp a x = Some q -> state q <> 1 -> q ∈ getReqs ord rp a.
Proof.
  intros Ho Hq Hst. unfold getReq, getReqs in *. destruct (account rp a) as [m|]; [|done].
  apply list_elem_of_filter. split; [done|]. apply list_elem_of_fmap. exists (x, q). split; [done|].
  by apply (range_order_elem _ _ _ _ Ho).
Qed.

Lemma confirmed_not_listed ord c M a x q r :
  range_order ord -> run_inv c M -> getReq (Blockchain.listenerState c) a x = Some q -> state q = 1 ->
  r ∈ getReqs ord (Blockchain.listenerState c) a -> ReqHash r <> x.
Proof.
  intros Ho I Hq Hst Hr. unfold getReqs in Hr. destruct (account (Blockchain.listenerState c) a) as [m|] eqn:Em;
    [|by apply elem_of_nil in Hr].
  apply list_elem_of_filter in Hr as [Hst' Hr]. apply list_elem_of_fmap in Hr as ([y r'] & -> & Hr). cbn in *.
  apply (range_order_elem _ _ _ _ Ho) in Hr.
  assert (Hg : getReq (Blockchain.listenerState c) a y = Some r') by (unfold getReq; by rewrite Em).
  destruct (ri_reqs _ _ I _ _ _ Hg) as [(a' & s & _ & _ & _ & _ & _ & -> & _) _].
  intros ->. rewrite Hq in Hg. by injection Hg as <-.
Qed.

Lemma insert_hash c M a b c' x :
  run_inv c M -> Blockchain.InsertAccountBlock c a b = Ret (c', None) ->
  GetAccountByHash (Blockchain.store c') x =
  if decide (Hash b = x) then Some b else GetAccountByHash (Blockchain.store c) x.
Proof.
  intros I E. rewrite (InsertAccountBlock_eq _ _ _ _ I) in E. apply bind_ret_inv in E as (rp & _ & [= <-]).
  cbn [Blockchain.put_ac Blockchain.store].
  rewrite (proj1 (proj2 (inserted_lookups (Blockchain.store c) a b))). apply GetAccountByHash_Put.
Qed.
End listing.

(** A hash the chain has not stored. *)
Definition unseen {St} `{Stack St} (c : Blockchain.blockchain St reqPool) (b : AccountStateBlock) : Prop :=
  Hash b <> "" /\ GetAccountByHash (Blockchain.store c) (Hash b) = None.

(** *** The two blocks on one chain *)
Section steps.
Context {St : Type} `{HS : Stack St}.
Implicit Types (c : Blockchain.blockchain St reqPool) (l : ledger St) (p : pool St reqPool).

(** The blocks are computed by ledgers that hold the same accounts as the chain [c]. *)
Lemma transfer_steps t0 t3 la lb c M sn from to amount s r :
  run_inv (lbc la) M -> head_snapshot (lbc la) sn -> run_inv (lbc lb) M -> head_snapshot (lbc lb) sn ->
  run_inv c M -> head_snapshot c sn ->
  from <> to -> M from <> [] -> M to <> [] -> (forall x u, u ∈ M x -> a_SnapshotHeight u <= Height sn) ->
  - 2 ^ 63 < amount < 0 -> 0 < bal (M from) + amount -> bal (M to) - amount < 2 ^ 63 ->
  requestBlock t0 la from to amount = Ret s -> responseBlock t3 lb from to (Hash s) s = Ret r ->
  unseen c s -> unseen c r -> Hash s <> Hash r ->
  exists c1 c2 q, next_block c M sn from s c1 /\ next_block c1 (extend M from s) sn to r c2 /\
    getReq (Blockchain.listenerState c1) to (Hash s) = Some (open_request s) /\
    getReq (Blockchain.listenerState c2) to (Hash s) = Some q /\ state q = 1 /\
    Signer s = from /\ Signer r = to /\ Amount s = bal (M from) + amount /\ Amount r = bal (M to) - amount.
Proof.
  intros Ia Sa Ib Sb I Hsn Hft Hf Ht Hsh Ham Hbf Hbt Es Er [Hns Us] [Hnr Ur] Hsr.
  destruct (last (M from)) as [pf|] eqn:Lf; [|by apply last_None in Lf].
  destruct (last (M to)) as [pt|] eqn:Lt; [|by apply last_None in Lt].
  assert (Hin : forall x u, last (M x) = Some u -> u ∈ M x).
  { intros x u Hl. rewrite last_lookup in Hl. by eapply list_elem_of_lookup_2. }
  destruct (run_elem _ _ _ _ I (Hin _ _ Lf)) as (Kf & [_ Hpf _ _] & _).
  destruct (run_elem _ _ _ _ I (Hin _ _ Lt)) as (Kt & [_ Hpt _ _] & _).
  assert (Bf : bal (M from) = Amount pf) by (unfold bal; by rewrite Lf).
  assert (Bt : bal (M to) = Amount pt) by (unfold bal; by rewrite Lt).
  destruct (requestBlock_fields _ _ _ _ _ _ _ Ia Kf Es) as (F1 & F2 & F3 & F4 & F5 & _).
  destruct (requestBlock_more _ _ _ _ _ _ _ _ _ Ia Sa Kf Lf Es) as (_ & F6 & F7).
  rewrite wrap64_id in F7 by (unfold in64; lia).
  destruct (responseBlock_fields _ _ _ _ _ _ _ _ Ib Kt Er) as (G1 & _).
  destruct (request_next t0 la c M sn from to amount pf s) as (c1 & X1 & Q1);
    try done; [by apply (Hsh from), Hin|lia|lia|].
  assert (EM1 : extend M from s to = M to) by (unfold extend; by rewrite decide_False).
  destruct (response_next t3 lb c1 (extend M from s) M sn from to s pt r) as (c2 & q & X2 & Q2 & Sq & Ar);
    try done; try apply X1; [by rewrite EM1|by rewrite extend_same, last_snoc|by apply (Hsh to), Hin|lia|rewrite F5; lia| |].
  { rewrite (insert_hash _ _ _ _ _ _ I (nx_insert _ _ _ _ _ _ X1)). by rewrite decide_False. }
  exists c1, c2, q. split_and!; try done; lia.
Qed.

(** The node whose chain holds both. *)
Lemma transfer_end ord p M sn from to s r q :
  range_order ord -> node_at p (extend (extend M from s) to r) sn -> from <> to ->
  from <> snapshotHeadKey -> to <> snapshotHeadKey ->
  getReq (Blockchain.listenerState (bc p)) to (Hash s) = Some q -> state q = 1 ->
  GetAccountBalance (ledger_of p) from = Amount s /\ GetAccountBalance (ledger_of p) to = Amount r /\
  forall q, q ∈ ListRequest ord (ledger_of p) to -> ReqHash q <> Hash s.
Proof.
  intros Ho N Hft Kf Kt Hq Hst. pose proof (na_run _ _ _ N) as I.
  rewrite !(run_balance (ledger_of p) _ _ I) by done. rewrite !bal_extend, decide_False, !decide_True by done.
  split; [done|]. split; [done|]. intros q' Hq'. by eapply (confirmed_not_listed _ _ _ _ _ q q' Ho I Hq).
Qed.

(** The answer to a request on the chain. *)
Lemma response_at t l lb M M' sn from to s r :
  run_inv (lbc lb) M -> head_snapshot (lbc lb) sn -> run_inv (lbc l) M' -> head_snapshot (lbc l) sn ->
  to <> snapshotHeadKey -> M' to = M to -> s ∈ M' from -> responseBlock t lb from to (Hash s) s = Ret r ->
  ResponseAccountBlock t l from to (Hash s) = addOwnBlock t l to r.
Proof.
  intros Ib Sb I Hs Kt EM Hin Er. unfold ResponseAccountBlock. destruct (run_elem _ _ _ _ I Hin) as (_ & _ & Eg).
  assert (Eg' : reader_GetAccountByHash (lbc l) from (Hash s) = Some s) by (cbn; by rewrite GetAccountByHash_eq).
  rewrite Eg', decide_False by (intros Hc; by apply Hc).
  by rewrite (responseBlock_same t lb l M M' sn from to (Hash s) s), Er, bind_ret_l.
Qed.
End steps.

(** C1: a transfer completes across two nodes.  Nodes [a] and [b] hold the same
    account chains [M] under the same snapshot head, their account pools at rest.
    At [a], [from] asks for less than it owns to be sent to [to], both with at least
    one block.  Then [a] writes the request and broadcasts it; when the
    message has arrived at [b], one round of [b]'s account loops puts the block on
    [b]'s chain, whatever order the maps are visited in, and [b]'s ledger lists
    the request under its hash; [b] answers it, and broadcasts the answer, which
    one round at [a] puts on [a]'s chain.  In the end both nodes again hold the
    same account chains, with the two blocks added, and their pools are at rest;
    at both, the amount has moved from one balance to the other and the request
    is no longer listed.  The new hashes must be new to the nodes and their pools,
    the times of the two blocks such that they can be encoded, and a compaction of a
    pool needs 200 ms since the one before. *)
Theorem transfer_completes {D} `{JsonLaws D} {St} `{Stack St} order ordA ordB
    (a b : syncer (list (Msg D)) (pool St reqPool)) M sn from to amount s r t0 t1 t2 t3 t4 t5 :
  encodable (D := D) -> (forall A, range_order (order A)) -> range_order ordA -> range_order ordB ->
  node_at (rw a) M sn -> node_at (rw b) M sn -> net a = [] -> net b = [] ->
  from <> to -> M from <> [] -> M to <> [] -> (forall x u, u ∈ M x -> a_SnapshotHeight u <= Height sn) ->
  - 2 ^ 63 < amount < 0 -> 0 < bal (M from) + amount -> bal (M to) - amount < 2 ^ 63 ->
  requestBlock t0 (ledger_of (rw a)) from to amount = Ret s ->
  responseBlock t3 (ledger_of (rw b)) from to (Hash s) s = Ret r -> dated s -> dated r ->
  unseen (bc (rw a)) s -> unseen (bc (rw b)) s -> unseen (bc (rw a)) r -> unseen (bc (rw b)) r -> Hash s <> Hash r ->
  ready (rw b) from s t2 -> t1 + 200 * Millisecond < t2 ->
  ready (rw a) to r t5 -> t4 + 200 * Millisecond < t5 ->
  exists a1 b1 p1 b2 a2 p2,
    own_op (fun l => RequestAccountBlock t0 l from to amount) a = Ret (a1, None) /\
    arrive t1 ordB (net a1) b = Ret b1 /\ account_round order t2 t2 (rw b1) = Ret p1 /\
    open_request s ∈ ListRequest (order Req) (ledger_of p1) to /\
    own_op (fun l => ResponseAccountBlock t3 l from to (Hash s)) (set_rw b1 p1) = Ret (b2, None) /\
    arrive t4 ordA (net b2) (set_net a1 []) = Ret a2 /\ account_round order t5 t5 (rw a2) = Ret p2 /\
    forall p, p = p2 \/ p = rw b2 ->
      node_at p (extend (extend M from s) to r) sn /\
      GetAccountBalance (ledger_of p) from = bal (M from) + amount /\
      GetAccountBalance (ledger_of p) to = bal (M to) - amount /\
      forall q, q ∈ ListRequest (order Req) (ledger_of p) to -> ReqHash q <> Hash s.
Proof.
  intros He Ho HoA HoB Na Nb Ena Enb Hft Hf Ht Hsh Ham Hbf Hbt Es Er Ds Dr Usa Usb Ura Urb Hsr Rs H12 Rr H45.
  pose proof (na_run _ _ _ Na) as Ia. pose proof (na_run _ _ _ Nb) as Ib.
  assert (K : forall x, M x <> [] -> x <> snapshotHeadKey).
  { intros x Hx. destruct (M x) as [|u us] eqn:E; [done|]. apply (ri_blocks _ _ Ia x u). rewrite E. by left. }
  destruct (transfer_steps t0 t3 (ledger_of (rw a)) (ledger_of (rw b)) (bc (rw a)) M sn from to amount s r)
    as (ca & ca2 & qa & Xa & Xa2 & _ & Qa2 & Sa & Gs & Gr & As & Ar); try done; try apply Na; try apply Nb.
  destruct (transfer_steps t0 t3 (ledger_of (rw a)) (ledger_of (rw b)) (bc (rw b)) M sn from to amount s r)
    as (cb & cb2 & qb & Xb & Xb2 & Qb & Qb2 & Sb & _); try done; try apply Na; try apply Nb.
  destruct (block_crosses order Ho t0 (fun l => RequestAccountBlock t0 l from to amount) t1 t2 ordB a b M sn from s ca cb)
    as (a1 & b1 & p1 & E1 & E2 & E3 & Eb1 & Ea1 & Ep1 & Na1 & Np1 & Hka); try done.
  { unfold RequestAccountBlock. by rewrite Es, bind_ret_l. }
  destruct (block_crosses order Ho t3 (fun l => ResponseAccountBlock t3 l from to (Hash s)) t4 t5 ordA
    (set_rw b1 p1) (set_net a1 []) (extend M from s) sn to r cb2 ca2)
    as (b2 & a2 & p2 & E4 & E5 & E6 & _ & Eb2 & Ep2 & Nb2 & Np2 & _); try done.
  { cbn. by rewrite Ep1. }
  { cbn. by rewrite Ea1. }
  { cbn [set_rw rw]. apply (response_at t3 _ (ledger_of (rw b)) M (extend M from s) sn); try done;
      try apply Nb; try apply Np1; [by apply K|unfold extend; by rewrite decide_False|].
    rewrite extend_same. apply elem_of_app. right. by apply list_elem_of_singleton. }
  { cbn. by rewrite Eb1. }
  { intros ap Hap. apply Rr. cbn in Hap. by rewrite Hka in Hap by done. }
  exists a1, b1, p1, b2, a2, p2. split_and!; try done.
  { apply (getReq_listed _ _ _ (Hash s)); [done| |done]. change (lbc (ledger_of p1)) with (bc p1). by rewrite Ep1. }
  assert (Hend : forall p q, node_at p (extend (extend M from s) to r) sn ->
    getReq (Blockchain.listenerState (bc p)) to (Hash s) = Some q -> state q = 1 ->
    node_at p (extend (extend M from s) to r) sn /\ GetAccountBalance (ledger_of p) from = bal (M from) + amount /\
    GetAccountBalance (ledger_of p) to = bal (M to) - amount /\
    forall q, q ∈ ListRequest (order Req) (ledger_of p) to -> ReqHash q <> Hash s).
  { intros p q N Hq Hst. split; [done|]. rewrite <- As, <- Ar.
    apply (transfer_end (order Req) p M sn from to s r q); try done; by apply K. }
  intros p [->| ->]; [apply (Hend _ qa)|apply (Hend _ qb)]; rewrite ?Ep2, ?Eb2; done.
Qed.

(** ** Two genesis nodes

    "jie" sends 10 to "viteshan". *)
Definition genesis_pool : pool (list SnapshotPoint) reqPool := bpool genesis_ledger.
Definition genesis_node : syncer (list (Msg tagged)) (pool (list SnapshotPoint) reqPool) := mkSyncer [] ∅ genesis_pool ∅.
Definition no_block : AccountStateBlock := genesisAccountBlock "".
Definition jie_request : AccountStateBlock := or_else (requestBlock 5 (ledger_of genesis_pool) "jie" "viteshan" (-10)) no_block.
Definition viteshan_response : AccountStateBlock :=
  or_else (responseBlock 7 (ledger_of genesis_pool) "jie" "viteshan" (Hash jie_request) jie_request) no_block.

Lemma genesis_node_at : node_at genesis_pool genesis_blocks SnapshotChain.genesisSnapshot.
Proof.
  destruct (genesis_run genesis_ledger) as [I _]; [apply or_else_Ret; vm_compute; reflexivity|].
  split.
  - exact I.
  - split; vm_compute; reflexivity.
  - intros x b. unfold genesis_blocks. case_decide; [|by intros ?%elem_of_nil].
    intros ->%list_elem_of_singleton. revert H. unfold genesisAccounts.
    rewrite !elem_of_cons, elem_of_nil. intros [->|[->|[]]]; vm_compute; discriminate.
  - intros x ap Hx. assert (E : pendingAc genesis_pool = ∅) by (vm_compute; reflexivity).
    rewrite E, lookup_empty in Hx. discriminate Hx.
Qed.

Definition unseen_b (c : Blockchain.blockchain (list SnapshotPoint) reqPool) (b : AccountStateBlock) : bool :=
  bool_decide (Hash b <> "") && match GetAccountByHash (Blockchain.store c) (Hash b) with None => true | Some _ => false end.
Lemma unseen_b_spec c b : unseen_b c b = true -> unseen c b.
Proof.
  unfold unseen_b, unseen. intros [H1%bool_decide_eq_true H2]%andb_true_iff. split; [done|].
  by destruct (GetAccountByHash _ _).
Qed.

Lemma transfer_completes_witness :
  exists a1 p2 (b2 : syncer (list (Msg tagged)) (pool (list SnapshotPoint) reqPool)),
    own_op (fun l => RequestAccountBlock 5 l "jie" "viteshan" (-10)) genesis_node = Ret (a1, None) /\
    GetAccountBalance (ledger_of p2) "viteshan" = 210 /\ GetAccountBalance (ledger_of (rw b2)) "viteshan" = 210 /\
    node_at p2 (extend (extend genesis_blocks "jie" jie_request) "viteshan" viteshan_response) SnapshotChain.genesisSnapshot.
Proof.
  destruct (transfer_completes dict_order (fun m => map_to_list m) (fun m => map_to_list m) genesis_node genesis_node
    genesis_blocks SnapshotChain.genesisSnapshot "jie" "viteshan" (-10) jie_request viteshan_response
    5 6 Second 7 Second (2 * Second)) as (a1 & b1 & p1 & b2 & a2 & p2 & E1 & _ & _ & _ & _ & _ & _ & Hend).
  - exact tagged_encodable.
  - intros A. apply range_order_map_to_list.
  - apply range_order_map_to_list.
  - apply range_order_map_to_list.
  - exact genesis_node_at.
  - exact genesis_node_at.
  - reflexivity.
  - reflexivity.
  - discriminate.
  - vm_compute. discriminate.
  - vm_compute. discriminate.
  - intros x u. unfold genesis_blocks. destruct (decide _); [|intros Hu; by apply elem_of_nil in Hu].
    intros Hu. apply list_elem_of_singleton in Hu. subst u. vm_compute. discriminate.
  - split; vm_compute; reflexivity.
  - vm_compute. reflexivity.
  - vm_compute. reflexivity.
  - apply or_else_Ret. vm_compute. reflexivity.
  - apply or_else_Ret. vm_compute. reflexivity.
  - split; vm_compute; [discriminate|reflexivity].
  - split; vm_compute; [discriminate|reflexivity].
  - apply unseen_b_spec. vm_compute. reflexivity.
  - apply unseen_b_spec. vm_compute. reflexivity.
  - apply unseen_b_spec. vm_compute. reflexivity.
  - apply unseen_b_spec. vm_compute. reflexivity.
  - apply (bool_decide_unpack (_ <> _)). vm_compute. exact Logic.I.
  - intros ap Hap. assert (E : pendingAc genesis_pool = ∅) by (vm_compute; reflexivity).
    change (pendingAc genesis_pool !! "jie" = Some ap) in Hap. rewrite E, lookup_empty in Hap. discriminate Hap.
  - vm_compute. reflexivity.
  - intros ap Hap. assert (E : pendingAc genesis_pool = ∅) by (vm_compute; reflexivity).
    change (pendingAc genesis_pool !! "viteshan" = Some ap) in Hap. rewrite E, lookup_empty in Hap. discriminate Hap.
  - vm_compute. reflexivity.
  - exists a1, p2, b2. destruct (Hend p2) as (N & _ & B1 & _); [by left|].
    destruct (Hend (rw b2)) as (_ & _ & B2 & _); [by right|].
    split; [exact E1|]. split; [rewrite B1; vm_compute; reflexivity|]. split; [rewrite B2; vm_compute; reflexivity|].
    exact N.
Defined.
