(* ===== verification/Miner.v ===== *)
(** * Miner: the miner and its worker ([miner/*.go])

    The worker is a goroutine that waits in a [select] for the time of a slot or
    for its closing channel; the miner subscribes it to the consensus.  The chain
    is the interface [SnapshotChainRW], which the ledger implements. *)
From S2P Require Import Prelude.
From S2P Require Import Common.
From S2P Require Import Sync.
From S2P Require Import HashCal.
From S2P Require Import Store.
From S2P Require Import Chain.
From S2P Require Import Consensus.
From S2P Require Import Pools.
From S2P Require Import Ledger.

Class SnapshotChainRW (C : Type) := {
  rw_MiningSnapshotBlock : C -> string -> Z -> outcome (C * error)
}.

Section miner.
Context {C : Type} `{SnapshotChainRW C}.

(** ** The worker

    [updateCh]: the channel that ends the newest goroutine; [closed]: the channels
    that have been closed; [running]: the goroutines that have not returned, by
    their channel, and whether they are inside a call of the chain that does not
    return (and hold [mu]). *)
Record worker := mkWorker {
  w_S : Z;
  w_chain : C;
  w_coinbase : Address;
  updateCh : option nat;
  closed : gset nat;
  running : gmap nat bool
}.
Implicit Types (self : worker).

Definition newWorker (c : C) (coinbase : Address) : worker :=
  {| w_S := 0; w_chain := c; w_coinbase := coinbase; updateCh := None; closed := ∅; running := ∅ |}.

Definition set_S self (s : Z) : worker :=
  {| w_S := s; w_chain := w_chain self; w_coinbase := w_coinbase self; updateCh := updateCh self;
     closed := closed self; running := running self |}.
Definition set_running self (c : C) (m : gmap nat bool) : worker :=
  {| w_S := w_S self; w_chain := c; w_coinbase := w_coinbase self; updateCh := updateCh self;
     closed := closed self; running := m |}.

Definition worker_Init self : outcome worker :=
  s ← Lifecycle.PreInit (w_S self);
  s ← Lifecycle.PostInit s;
  Ret (set_S self s).

(** [Start]: the results of [PreStart] and [PostStart] are not looked at.  The new
    channel is one that no goroutine uses and that is not closed. *)
Definition worker_Start self : worker :=
  let '(s, _) := MinerLifecycle.PreStart (w_S self) in
  let ch := fresh (dom (running self) ∪ closed self) in
  let '(s, _) := MinerLifecycle.PostStart s in
  {| w_S := s; w_chain := w_chain self; w_coinbase := w_coinbase self; updateCh := Some ch;
     closed := closed self; running := <[ch := false]> (running self) |}.

(** [updateWg.Wait()]: a goroutine that waits on an open channel, or is stuck in
    the chain, never returns: the status it looks at is not yet "stopped". *)
Definition all_return (cl : gset nat) (m : gmap nat bool) : bool :=
  forallb (fun '(ch, stuck) => negb stuck && bool_decide (ch ∈ cl)) (map_to_list m).

Definition worker_Stop self : outcome worker :=
  s ← Lifecycle.PreStop (w_S self);
  ch ← deref (updateCh self) "close of nil channel";
  if decide (ch ∈ closed self) then Panic "close of closed channel"
  else
    let cl := {[ch]} ∪ closed self in
    if all_return cl (running self) then
      s ← Lifecycle.PostStop s;
      Ret {| w_S := s; w_chain := w_chain self; w_coinbase := w_coinbase self; updateCh := Some ch;
             closed := cl; running := ∅ |}
    else Diverge.

(** What the [select] of [update] takes: a time (or the closed work channel), or
    its own closed channel. *)
Inductive work := Work (t : Z) | WorkClosed | ChClosed.

(** [genAndInsert]: nobody else holds [mu] if no goroutine is stuck; a call that
    does not return leaves the goroutine stuck. *)
Definition genAndInsert self (g : nat) (t : Z) : outcome worker :=
  if existsb (fun '(_, stuck) => stuck) (map_to_list (running self)) then
    Ret (set_running self (w_chain self) (<[g := true]> (running self)))
  else
    match rw_MiningSnapshotBlock (w_chain self) (Address_String (w_coinbase self)) (Unix t) with
    | Ret (c, _) => Ret (set_running self c (running self))
    | Panic w => Panic w
    | Diverge => Ret (set_running self (w_chain self) (<[g := true]> (running self)))
    end.

(** One iteration of [update], in goroutine [g]. *)
Definition update_iter self (g : nat) (e : work) : outcome worker :=
  if Lifecycle.Stopped (w_S self) then Ret (set_running self (w_chain self) (delete g (running self)))
  else
    match e with
    | Work t => genAndInsert self g t
    | WorkClosed => Ret self
    | ChClosed => Ret (set_running self (w_chain self) (delete g (running self)))
    end.

(** ** The miner

    [m_bus]: the event of the first synchronisation is still awaited. *)
Record miner := mkMiner {
  m_S : Z;
  m_worker : worker;
  m_consensus : Committee;
  m_mem : SubscribeMem;
  m_bus : bool
}.
Implicit Types (m : miner).

Definition NewMiner (c : C) (coinbase : Address) (con : Committee) : miner :=
  {| m_S := 0; m_worker := newWorker c coinbase; m_consensus := con; m_mem := mkSubscribeMem coinbase;
     m_bus := false |}.

Definition upd m (s : Z) (w : worker) (con : Committee) : miner :=
  {| m_S := s; m_worker := w; m_consensus := con; m_mem := m_mem m; m_bus := m_bus m |}.

Definition miner_Init m : outcome miner :=
  s ← Lifecycle.PreInit (m_S m);
  w ← worker_Init (m_worker m);
  s ← Lifecycle.PostInit s;
  Ret {| m_S := s; m_worker := w; m_consensus := m_consensus m; m_mem := m_mem m; m_bus := true |}.

(** [dwlDownFn], called by the bus at most once. *)
Definition dwlDownFn m : miner :=
  if m_bus m then
    {| m_S := m_S m; m_worker := m_worker m; m_consensus := Subscribe (m_consensus m) (Some (m_mem m));
       m_mem := m_mem m; m_bus := false |}
  else m.

(** [done]: the answer of [syncStatus.Done()]. *)
Definition miner_Start (done : bool) m : miner :=
  let '(s, _) := MinerLifecycle.PreStart (m_S m) in
  let con := if done then Subscribe (m_consensus m) (Some (m_mem m)) else m_consensus m in
  let w := worker_Start (m_worker m) in
  let '(s, _) := MinerLifecycle.PostStart s in
  upd m s w con.

Definition miner_Stop m : outcome miner :=
  s ← Lifecycle.PreStop (m_S m);
  w ← worker_Stop (m_worker m);
  let con := Subscribe (m_consensus m) None in
  s ← Lifecycle.PostStop s;
  Ret (upd m s w con).

Definition miner_Destroy m : miner :=
  let '(s, _) := MinerLifecycle.PreDestroy (m_S m) in
  let '(s, _) := MinerLifecycle.PostDestroy s in
  upd m s (m_worker m) (m_consensus m).
End miner.
Arguments worker C : clear implicits.
Arguments miner C : clear implicits.

(** The ledger as the miner's chain. *)
#[export] Instance ledger_SnapshotChainRW {St} `{Stack St} order (now : Z) : SnapshotChainRW (ledger St) := {|
  rw_MiningSnapshotBlock self address t := MiningSnapshotBlock order now self address t
|}.
