(* ===== verification/MinerSpec.v ===== *)
(** * MinerSpec: the miner's cycles

    [Start] and [Stop] can be repeated for ever, every notification of the
    consensus mines once; a second [Start] without a [Stop] makes the next [Stop]
    hang; over the ledger, the first notification wedges the miner. *)
From S2P Require Import Prelude.
From S2P Require Import Common.
From S2P Require Import Sync.
From S2P Require Import HashCal.
From S2P Require Import Store.
From S2P Require Import Chain.
From S2P Require Import Consensus.
From S2P Require Import Pools.
From S2P Require Import Ledger.
From S2P Require Import LedgerSpec.
From S2P Require Import Miner.

(** ** A miner's life as its owner drives it *)
Section runs.
Context {C : Type} `{SnapshotChainRW C}.

Definition set_worker (m : miner C) (w : worker C) : miner C := upd m (m_S m) w (m_consensus m).

(** The notifications [ts] arrive while goroutine [g] waits. *)
Fixpoint slots (ts : list Z) (g : nat) (w : worker C) : outcome (worker C) :=
  match ts with
  | [] => Ret w
  | t :: ts => w ← update_iter w g (Work t); slots ts g w
  end.

(** [Start], the notifications for the newest goroutine, [Stop]. *)
Definition cycle (done : bool) (ts : list Z) (m : miner C) : outcome (miner C) :=
  let m := miner_Start done m in
  g ← deref (updateCh (m_worker m)) "not started";
  w ← slots ts g (m_worker m);
  miner_Stop (set_worker m w).

Fixpoint cycles (l : list (bool * list Z)) (m : miner C) : outcome (miner C) :=
  match l with
  | [] => Ret m
  | (done, ts) :: l => m ← cycle done ts m; cycles l m
  end.

(** The calls the chain sees. *)
Fixpoint mine_all (coinbase : Address) (ts : list Z) (c : C) : outcome C :=
  match ts with
  | [] => Ret c
  | t :: ts =>
      '(c, _) ← rw_MiningSnapshotBlock c (Address_String coinbase) (Unix t);
      mine_all coinbase ts c
  end.

(** The same with one notification and no more, on a new miner. *)
Definition notify_then_stop (chain : C) coinbase (con : Committee) (done : bool) (t : Z) : outcome (miner C) :=
  m ← miner_Init (NewMiner chain coinbase con);
  let m := miner_Start done m in
  g ← deref (updateCh (m_worker m)) "not started";
  w ← update_iter (m_worker m) g (Work t);
  miner_Stop (set_worker m w).

(** The miner is ready to be started: initialised or stopped, no goroutine left. *)
Definition ready (m : miner C) : Prop :=
  (m_S m = 2 \/ m_S m = 6) /\ (w_S (m_worker m) = 2 \/ w_S (m_worker m) = 6) /\ running (m_worker m) = ∅.

(** [Start] adds a goroutine on a channel of its own, also when the worker runs already. *)
Lemma Start_adds (w : worker C) :
  w_S w = 2 \/ w_S w = 4 \/ w_S w = 6 ->
  exists ch, updateCh (worker_Start w) = Some ch /\ ch ∉ closed w /\ running w !! ch = None /\
    w_S (worker_Start w) = 4 /\ running (worker_Start w) = <[ch := false]> (running w) /\
    closed (worker_Start w) = closed w /\
    w_chain (worker_Start w) = w_chain w /\ w_coinbase (worker_Start w) = w_coinbase w.
Proof.
  intros Hs. unfold worker_Start. pose proof (is_fresh (dom (running w) ∪ closed w)) as F.
  apply not_elem_of_union in F as [F1 F2]. apply not_elem_of_dom in F1.
  destruct Hs as [-> | [-> | ->]]; cbn; (eexists; split_and!; [reflexivity | exact F2 | exact F1 | reflexivity ..]).
Qed.

Lemma Start_ready (w : worker C) :
  w_S w = 2 \/ w_S w = 6 -> running w = ∅ ->
  exists ch, updateCh (worker_Start w) = Some ch /\ ch ∉ closed w /\ w_S (worker_Start w) = 4 /\
    running (worker_Start w) = {[ch := false]} /\ closed (worker_Start w) = closed w /\
    w_chain (worker_Start w) = w_chain w /\ w_coinbase (worker_Start w) = w_coinbase w.
Proof.
  intros Hs Hr. destruct (Start_adds w) as (ch & E1 & E2 & _ & E3 & E4 & E5); [tauto|].
  exists ch. rewrite Hr in E4. rewrite insert_empty in E4. tauto.
Qed.

Lemma genAndInsert_alone (w : worker C) g t c e :
  running w = {[g := false]} ->
  rw_MiningSnapshotBlock (w_chain w) (Address_String (w_coinbase w)) (Unix t) = Ret (c, e) ->
  genAndInsert w g t = Ret (set_running w c (running w)).
Proof. intros Hr Hc. unfold genAndInsert. rewrite Hr, map_to_list_singleton. cbn [existsb orb]. by rewrite Hc. Qed.

Lemma slots_mine ts g (w : worker C) c :
  w_S w = 4 -> running w = {[g := false]} ->
  mine_all (w_coinbase w) ts (w_chain w) = Ret c ->
  slots ts g w = Ret (set_running w c (running w)).
Proof.
  revert w. induction ts as [|t ts IH]; intros w Hs Hr Hc.
  - injection Hc as <-. by destruct w.
  - cbn [slots mine_all] in *. unfold update_iter. rewrite Hs. cbn [Lifecycle.Stopped Z.eqb Pos.eqb].
    apply bind_ret_inv in Hc as ([c1 e1] & E1 & Hc).
    rewrite (genAndInsert_alone _ _ _ _ _ Hr E1), bind_ret_l. by rewrite (IH (set_running w c1 (running w))).
Qed.

Lemma PreStop_started : Lifecycle.PreStop 4 = Ret 5.
Proof. reflexivity. Qed.

(** A worker stops as soon as its only goroutine, waiting on the newest channel, is told to. *)
Lemma worker_Stop_alone (w : worker C) g :
  w_S w = 4 -> updateCh w = Some g -> g ∉ closed w -> running w = {[g := false]} ->
  worker_Stop w = Ret {| w_S := 6; w_chain := w_chain w; w_coinbase := w_coinbase w; updateCh := Some g;
    closed := {[g]} ∪ closed w; running := ∅ |}.
Proof.
  intros Hs Hu Hc Hr. unfold worker_Stop. rewrite Hs, PreStop_started, bind_ret_l, Hu.
  cbn [deref]. rewrite bind_ret_l, decide_False by done.
  unfold all_return. rewrite Hr, map_to_list_singleton. cbn [forallb negb andb].
  rewrite bool_decide_eq_true_2 by set_solver. done.
Qed.

(** [Stop] waits for ever if a goroutine is stuck or waits on a channel it does not close. *)
Lemma worker_Stop_hangs (w : worker C) h g stuck :
  w_S w = 4 -> updateCh w = Some h -> h ∉ closed w -> running w !! g = Some stuck ->
  stuck = true \/ (g <> h /\ g ∉ closed w) -> worker_Stop w = Diverge.
Proof.
  intros Hs Hu Hc Hg Hw. unfold worker_Stop. rewrite Hs, PreStop_started, bind_ret_l, Hu.
  cbn [deref]. rewrite bind_ret_l, decide_False by done.
  assert (all_return ({[h]} ∪ closed w) (running w) = false) as ->; [|done].
  apply not_true_is_false. unfold all_return. rewrite forallb_forall. intros Hall.
  specialize (Hall (g, stuck)). cbn in Hall. rewrite <- list_elem_of_In, elem_of_map_to_list in Hall.
  specialize (Hall Hg). apply andb_true_iff in Hall as [H1 H2%bool_decide_eq_true]. destruct Hw as [-> | [Hw1 Hw2]]; [done|].
  set_solver.
Qed.

Lemma cycle_spec done ts (m : miner C) c :
  ready m -> mine_all (w_coinbase (m_worker m)) ts (w_chain (m_worker m)) = Ret c ->
  exists m', cycle done ts m = Ret m' /\ ready m' /\ m_S m' = 6 /\ w_S (m_worker m') = 6 /\
    w_chain (m_worker m') = c /\ w_coinbase (m_worker m') = w_coinbase (m_worker m) /\
    subscribeMem (m_consensus m') = None.
Proof.
  intros (Hm & Hw & Hr) Hc.
  destruct (Start_ready _ Hw Hr) as (g & Eu & Hg & Es & Er & Ec & Eh & Ea).
  unfold cycle. assert (ES : m_worker (miner_Start done m) = worker_Start (m_worker m)
    /\ m_S (miner_Start done m) = 4).
  { unfold miner_Start. destruct Hm as [-> | ->]; done. }
  destruct ES as [Ew Em]. rewrite Ew, Eu. cbn [deref]. rewrite bind_ret_l.
  rewrite <- Ea, <- Eh in Hc. rewrite (slots_mine _ _ _ _ Es Er Hc), bind_ret_l.
  unfold miner_Stop. cbn [set_worker upd m_S m_worker]. rewrite Em, PreStop_started.
  rewrite bind_ret_l, (worker_Stop_alone _ g) by (cbn [set_running w_S updateCh closed running]; congruence || done).
  rewrite bind_ret_l. eexists. split; [reflexivity|]. split; [|done].
  split; [right; done|]. split; [right; done | done].
Qed.

Lemma mine_all_app coinbase ts1 ts2 (c c' : C) :
  mine_all coinbase (ts1 ++ ts2) c = Ret c' ->
  exists c1, mine_all coinbase ts1 c = Ret c1 /\ mine_all coinbase ts2 c1 = Ret c'.
Proof.
  revert c. induction ts1 as [|t ts1 IH]; intros c E; [by exists c|]. cbn [mine_all app] in *.
  apply bind_ret_inv in E as ([c1 e] & E1 & E). rewrite E1, bind_ret_l. by apply IH.
Qed.

(** C37: the miner can be started and stopped any number of times, and mines exactly
    what the consensus tells it to.  Over any chain, for any number of rounds of
    [Start], any notifications, and [Stop] -- whatever [syncStatus.Done] answers at
    each start -- if the chain's calls return, every [Stop] returns; the chain has
    seen one call per notification, in their order, with the coinbase; at the end
    the miner and the worker are stopped, no goroutine is left and (after one round
    or more) nobody is subscribed to the consensus. *)
Theorem start_stop_cycles (chain : C) coinbase con (l : list (bool * list Z)) c :
  mine_all coinbase (concat (snd <$> l)) chain = Ret c ->
  exists m, (m ← miner_Init (NewMiner chain coinbase con); cycles l m) = Ret m /\
    w_chain (m_worker m) = c /\ running (m_worker m) = ∅ /\
    (l <> [] -> m_S m = 6 /\ w_S (m_worker m) = 6 /\ subscribeMem (m_consensus m) = None).
Proof.
  intros Hc. set (m0 := {| m_S := 2; m_worker := set_S (newWorker chain coinbase) 2; m_consensus := con;
    m_mem := mkSubscribeMem coinbase; m_bus := true |}).
  change (miner_Init (NewMiner chain coinbase con)) with (Ret m0). rewrite bind_ret_l.
  change chain with (w_chain (m_worker m0)) in Hc. change coinbase with (w_coinbase (m_worker m0)) in Hc.
  assert (Hr : ready m0) by (split_and!; [by left | by left | done]). clearbody m0. clear chain coinbase con.
  revert m0 Hc Hr. induction l as [|[done ts] l IH]; intros m Hc Hr.
  - injection Hc as <-. exists m. split; [done|]. split; [done|]. split; [apply Hr | done].
  - rewrite fmap_cons in Hc. cbn [snd concat] in Hc. apply mine_all_app in Hc as (c1 & E1 & E2).
    destruct (cycle_spec done _ _ _ Hr E1) as (m1 & Ec & Hr1 & Es & Ew & Eh & Ea & Eb).
    cbn [cycles]. rewrite Ec, bind_ret_l. rewrite <- Ea, <- Eh in E2.
    destruct (IH m1 E2 Hr1) as (m2 & E3 & E4 & E5 & E6). exists m2. split_and!; try done. intros _.
    destruct l as [|x l]; [|by apply E6]. injection E3 as <-. done.
Qed.
(** A second [Start] makes the next [Stop] hang.  [Start] does not look at the
    answer of [PreStart], so it starts a second goroutine on a new channel; [Stop]
    closes only the newest channel and waits for both goroutines. *)
Theorem double_start_hangs (chain : C) coinbase con done1 done2 :
  (m ← miner_Init (NewMiner chain coinbase con);
   miner_Stop (miner_Start done2 (miner_Start done1 m))) = Diverge.
Proof.
  set (w0 := set_S (newWorker chain coinbase) 2).
  set (m0 := {| m_S := 2; m_worker := w0; m_consensus := con;
    m_mem := mkSubscribeMem coinbase; m_bus := true |}).
  change (miner_Init (NewMiner chain coinbase con)) with (Ret m0). rewrite bind_ret_l.
  destruct (Start_adds w0) as (g & _ & Hg & _ & Es & Er & Ec & _); [by left|].
  destruct (Start_adds (worker_Start w0)) as (h & Eu & Hh & Hn & Es' & Er' & Ec' & _); [auto|].
  unfold miner_Stop. change (m_S (miner_Start done2 (miner_Start done1 m0))) with 4.
  rewrite PreStop_started, bind_ret_l.
  change (m_worker (miner_Start done2 (miner_Start done1 m0))) with (worker_Start (worker_Start w0)).
  assert (g <> h) as Hgh.
  { intros ->. by rewrite Er, lookup_insert_eq in Hn. }
  rewrite (worker_Stop_hangs _ h g false); rewrite ?Ec', ?Ec in *; try done.
  - rewrite Er', lookup_insert_ne, Er by done. apply lookup_insert_eq.
  - right. done.
Qed.
End runs.

(** ** Over the ledger *)

(** Over the ledger the first notification wedges the miner.  Mining holds the
    mutex and waits for it, so the worker's goroutine never returns to its
    [select]; a [Stop] then closes the channel and waits for that goroutine, for
    any ledger, any time and any consensus. *)
Theorem notified_miner_never_stops {St} `{Stack St} order now (self : ledger St) coinbase con done t :
  ~ returns (notify_then_stop (H := ledger_SnapshotChainRW order now) self coinbase con done t).
Proof.
  unfold notify_then_stop. set (w0 := set_S (newWorker self coinbase) 2).
  set (m0 := {| m_S := 2; m_worker := w0; m_consensus := con;
    m_mem := mkSubscribeMem coinbase; m_bus := true |}).
  change (miner_Init (NewMiner self coinbase con)) with (Ret m0). rewrite bind_ret_l. cbv zeta.
  change (m_worker (miner_Start done m0)) with (worker_Start w0).
  destruct (Start_ready w0) as (g & Eu & Hg & Es & Er & Ec & Eh & _); [by left | done |].
  rewrite Eu. cbn [deref]. rewrite bind_ret_l. unfold update_iter. rewrite Es. cbn [Lifecycle.Stopped Z.eqb Pos.eqb].
  unfold genAndInsert. rewrite Er, map_to_list_singleton. cbn [existsb orb].
  destruct (rw_MiningSnapshotBlock _ _ _) as [[c e]|why|] eqn:E.
  - by apply mining_not_ret in E.
  - by intros [r X].
  - rewrite bind_ret_l. intros [r X]. unfold miner_Stop in X.
    apply bind_ret_inv in X as (s & _ & X). apply bind_ret_inv in X as (w & X & _).
    cbn [set_worker upd m_worker] in X. rewrite (worker_Stop_hangs _ g g true) in X; try done.
    + cbn. apply lookup_insert_eq.
    + by left.
Qed.

(** ** Concrete runs *)

(** A chain that keeps the times it mined at. *)
#[local] Instance times_SnapshotChainRW : SnapshotChainRW (list Z) := {|
  rw_MiningSnapshotBlock c address t := Ret (c ++ [t], None)
|}.

(** Two rounds, three notifications: at 1 s, 2.5 s and 7 s. *)
Lemma start_stop_cycles_witness :
  exists m, (m ← miner_Init (NewMiner [] [] (NewCommittee 0 1 1));
      cycles [(true, [1000000000; 2500000000]); (false, [7000000000])] m) = Ret m /\
    w_chain (m_worker m) = [1; 2; 7] /\ m_S m = 6.
Proof.
  destruct (start_stop_cycles (C := list Z) [] [] (NewCommittee 0 1 1)
    [(true, [1000000000; 2500000000]); (false, [7000000000])] [1; 2; 7]) as (m & E1 & E2 & _ & E3).
  - vm_compute. reflexivity.
  - exists m. split; [exact E1|]. split; [exact E2|]. apply E3. discriminate.
Defined.
