(* ===== verification/Node.v ===== *)
(** * Node: the components wired together ([node/node.go])

    A node owns one ledger and one consensus, which its miner shares by pointer:
    here they are lent to the miner's operations ([lend]) and taken back
    ([take_back]).  Loops of the pool and of the synchroniser end when their
    channels are closed, which the record keeps as flags: closing one twice
    panics. *)
From S2P Require Import Prelude.
From S2P Require Import Common.
From S2P Require Import Sync.
From S2P Require Import Store.
From S2P Require Import Chain.
From S2P Require Import Consensus.
From S2P Require Import Ledger.
From S2P Require Import P2p.
From S2P Require Import Syncer.
From S2P Require Import Miner.

(** [config.Node]; the coinbase is [MinerCfg.HexCoinbase]. *)
Record NodeCfg := mkNodeCfg {
  NodeId : string;
  Port : Z;
  NetId : Z;
  LinkBootAddr : string;
  Interval : Z;
  MemCnt : Z;
  Enabled : bool;
  HexCoinbase : string
}.

Section node.
Context {St D : Type}.
(** [n_first]: the task of the first synchronisation; [n_syncClosed],
    [n_scClosed], [n_poolClosed], [n_closed]: the channels of the synchroniser's
    state, of the snapshot pool, of the pool and of the node. *)
Record node := mkNode {
  n_cfg : NodeCfg;
  n_p2p : p2p D handState;
  n_first : FirstSync.syncTask;
  n_ledger : ledger St;
  n_conS : Z;
  n_con : Committee;
  n_miner : option (miner (ledger St));
  n_wallet : option Wallet.wallet;
  n_syncClosed : bool;
  n_scClosed : bool;
  n_poolClosed : bool;
  n_closed : bool
}.
Implicit Types (self : node).

Definition set_p2p self (p : p2p D handState) : node :=
  {| n_cfg := n_cfg self; n_p2p := p; n_first := n_first self; n_ledger := n_ledger self;
     n_conS := n_conS self; n_con := n_con self; n_miner := n_miner self; n_wallet := n_wallet self;
     n_syncClosed := n_syncClosed self; n_scClosed := n_scClosed self; n_poolClosed := n_poolClosed self;
     n_closed := n_closed self |}.
Definition set_conS self (s : Z) : node :=
  {| n_cfg := n_cfg self; n_p2p := n_p2p self; n_first := n_first self; n_ledger := n_ledger self;
     n_conS := s; n_con := n_con self; n_miner := n_miner self; n_wallet := n_wallet self;
     n_syncClosed := n_syncClosed self; n_scClosed := n_scClosed self; n_poolClosed := n_poolClosed self;
     n_closed := n_closed self |}.
Definition set_wallet self (cfg : NodeCfg) (w : option Wallet.wallet) : node :=
  {| n_cfg := cfg; n_p2p := n_p2p self; n_first := n_first self; n_ledger := n_ledger self;
     n_conS := n_conS self; n_con := n_con self; n_miner := n_miner self; n_wallet := w;
     n_syncClosed := n_syncClosed self; n_scClosed := n_scClosed self; n_poolClosed := n_poolClosed self;
     n_closed := n_closed self |}.
Definition set_closed self (sync sc pool closed : bool) : node :=
  {| n_cfg := n_cfg self; n_p2p := n_p2p self; n_first := n_first self; n_ledger := n_ledger self;
     n_conS := n_conS self; n_con := n_con self; n_miner := n_miner self; n_wallet := n_wallet self;
     n_syncClosed := sync; n_scClosed := sc; n_poolClosed := pool; n_closed := closed |}.

(** The miner [m] with the node's ledger and consensus; and the node after it. *)
Definition lend self (m : miner (ledger St)) : miner (ledger St) :=
  {| m_S := m_S m; m_worker := set_running (m_worker m) (n_ledger self) (running (m_worker m));
     m_consensus := n_con self; m_mem := m_mem m; m_bus := m_bus m |}.
Definition take_back self (m : miner (ledger St)) : node :=
  {| n_cfg := n_cfg self; n_p2p := n_p2p self; n_first := n_first self; n_ledger := w_chain (m_worker m);
     n_conS := n_conS self; n_con := m_consensus m; n_miner := Some m; n_wallet := n_wallet self;
     n_syncClosed := n_syncClosed self; n_scClosed := n_scClosed self; n_poolClosed := n_poolClosed self;
     n_closed := n_closed self |}.

(** [NewNode].  [l]: the ledger that [NewLedger] and its [Init] make (nothing uses
    it in between); [genesisTime]: the time of the genesis block, in nanoseconds. *)
Definition NewNode (cfg : NodeCfg) (l : ledger St) (genesisTime : Z) : node :=
  let con := NewConsensus genesisTime (Interval cfg) (MemCnt cfg) in
  {| n_cfg := cfg; n_p2p := NewP2P (NodeId cfg) (Port cfg) (NetId cfg) (LinkBootAddr cfg);
     n_first := FirstSync.start; n_ledger := l; n_conS := Lifecycle.Origin; n_con := con;
     n_miner :=
       if Enabled cfg then
         if decide (Address_String (HexToAddress (HexCoinbase cfg)) = "") then None
         else Some (NewMiner l (HexToAddress (HexCoinbase cfg)) con)
       else None;
     n_wallet := None; n_syncClosed := false; n_scClosed := false; n_poolClosed := false; n_closed := false |}.

(** The life cycle of the committee. *)
Definition Committee_Init (s : Z) : outcome Z := s ← Lifecycle.PreInit s; Lifecycle.PostInit s.
Definition Committee_Start (s : Z) : outcome Z := s ← Lifecycle.PreStart s; Lifecycle.PostStart s.
Definition Committee_Stop (s : Z) : outcome Z := s ← Lifecycle.PreStop s; Lifecycle.PostStop s.

(** [Stop] of the synchroniser, of the pools and of the ledger over them: their
    goroutines end when the channels are closed ([PoolLife]). *)
Definition syncer_Stop (closed : bool) : outcome bool := close_chan closed.
Definition snapshotPool_Stop (sc : bool) : outcome bool := close_chan sc.
Definition pool_Stop (sc po : bool) : outcome (bool * bool) :=
  sc ← snapshotPool_Stop sc; po ← close_chan po; Ret (sc, po).
Definition ledger_Stop (sc po : bool) : outcome (bool * bool) := pool_Stop sc po.

(** [Init]: the synchroniser registers with the network before this is initialised. *)
Definition node_Init self : outcome node :=
  p ← SetHandlerFn (n_p2p self);
  p ← SetHandShaker p;
  s ← Committee_Init (n_conS self);
  p ← P2p.Init p;
  let self := set_conS (set_p2p self p) s in
  self ← match n_miner self with
         | Some m => m ← miner_Init (lend self m); Ret (take_back self m)
         | None => Ret self
         end;
  Ret (set_wallet self (n_cfg self) (Some Wallet.NewWallet)).

(** [syncer.Done], as the miner asks it. *)
Definition node_syncDone self : bool := FirstSync.syncDone (n_first self).

Definition node_Start self : outcome node :=
  p ← P2p.Start (n_p2p self);
  s ← Committee_Start (n_conS self);
  let self := set_conS (set_p2p self p) s in
  match n_miner self with
  | Some m => Ret (take_back self (miner_Start (node_syncDone self) (lend self m)))
  | None => Ret self
  end.

Definition StopMiner self : outcome node :=
  match n_miner self with
  | Some m => m ← miner_Stop (lend self m); Ret (take_back self m)
  | None => Ret self
  end.

(** [Stop]; the miner first, as in [StopMiner]. *)
Definition node_Stop self : outcome node :=
  c ← close_chan (n_closed self);
  self ← StopMiner (set_closed self (n_syncClosed self) (n_scClosed self) (n_poolClosed self) c);
  s ← Committee_Stop (n_conS self);
  sy ← syncer_Stop (n_syncClosed self);
  '(sc, po) ← ledger_Stop (n_scClosed self) (n_poolClosed self);
  p ← P2p.Stop (n_p2p self);
  Ret (set_closed (set_p2p (set_conS self s) p) sy sc po c).

(** [StartMiner] makes a miner for the wallet's coinbase if there is none. *)
Definition StartMiner self : outcome node :=
  '(self, m) ←
    match n_miner self with
    | Some m => Ret (self, m)
    | None =>
        w ← deref (n_wallet self) "nil dereference";
        let '(w, coinbase) := Wallet.CoinBase w in
        let cfg := n_cfg self in
        let cfg := {| NodeId := NodeId cfg; Port := Port cfg; NetId := NetId cfg;
                      LinkBootAddr := LinkBootAddr cfg; Interval := Interval cfg; MemCnt := MemCnt cfg;
                      Enabled := Enabled cfg; HexCoinbase := coinbase |} in
        let self := set_wallet self cfg (Some w) in
        m ← miner_Init (NewMiner (n_ledger self) (HexToAddress coinbase) (n_con self));
        Ret (self, m)
    end;
  Ret (take_back self (miner_Start (node_syncDone self) (lend self m))).

(** The bus tells the miner, if it still waits for it, that the first
    synchronisation is done. *)
Definition node_DwlDone self : node :=
  match n_miner self with
  | Some m => take_back self (dwlDownFn (lend self m))
  | None => self
  end.
End node.
Arguments node St D : clear implicits.

(** The committee tells the miner that its slot [t] has come: it sends to the channel
    that the miner's goroutines receive from.  [pick]: the one of the waiting
    goroutines that receives; if none waits, the send times out.  Whether the miner is
    subscribed is not asked: [update] reads the subscription before it sleeps until the
    slot, and sends to what it read. *)
Definition picks (pick : gmap nat bool -> option nat) : Prop :=
  forall m, match pick m with Some g => m !! g = Some false | None => forall g, m !! g <> Some false end.

Definition node_notify {St D} `{Stack St} order (now : Z) (pick : gmap nat bool -> option nat) (t : Z)
    (self : node St D) : outcome (node St D) :=
  match n_miner self with
  | None => Ret self
  | Some m =>
      let m := lend self m in
      match pick (running (m_worker m)) with
      | None => Ret self
      | Some g =>
          w ← update_iter (H := ledger_SnapshotChainRW order now) (m_worker m) g (Work t);
          Ret (take_back self (upd m (m_S m) w (m_consensus m)))
      end
  end.
