(* ===== verification/NodeSpec.v ===== *)
(** * NodeSpec: the life of a node under its operator's commands

    The miner of a running node as a machine of five states; the node refines it,
    whatever the synchroniser and the committee tell the miner in between: it
    stops cleanly when the machine says so, panics or hangs when it says so. *)
From S2P Require Import Prelude.
From S2P Require Import Common.
From S2P Require Import Sync.
From S2P Require Import Store.
From S2P Require Import Chain.
From S2P Require Import ChainSpec.
From S2P Require Import BCPool.
From S2P Require Import BCPoolSpec.
From S2P Require Import PoolChains.
From S2P Require Import PoolRun.
From S2P Require Import Pools.
From S2P Require Import Consensus.
From S2P Require Import Ledger.
From S2P Require Import P2p.
From S2P Require Import Syncer.
From S2P Require Import LedgerSpec.
From S2P Require Import Miner.
From S2P Require Import MinerSpec.
From S2P Require Import Node.

(** ** The abstract machine

    What happens to the miner of a node: the operator starts or stops it, the bus
    tells it that the first synchronisation is done, the committee that its slot at
    [t] has come. *)
Inductive command := CStartMiner | CStopMiner | CDwlDone | CNotify (t : Z).

(** No miner yet; one goroutine mines; stopped; a second goroutine was started; a
    goroutine is inside a call of the ledger that does not return. *)
Inductive mining := MOff | MRun | MStopped | MDouble | MWedged.

Definition spec_start (m : mining) : mining :=
  match m with MOff | MStopped => MRun | MRun | MDouble => MDouble | MWedged => MWedged end.
Definition spec_stop (m : mining) : outcome mining :=
  match m with
  | MOff => Ret MOff
  | MRun => Ret MStopped
  | MStopped => Panic "PreStop fail. status:6"
  | MDouble | MWedged => Diverge
  end.
Definition spec_notify (m : mining) : mining :=
  match m with MRun | MDouble | MWedged => MWedged | MOff | MStopped => m end.
Definition spec_cmd (c : command) (m : mining) : outcome mining :=
  match c with
  | CStartMiner => Ret (spec_start m)
  | CStopMiner => spec_stop m
  | CDwlDone => Ret m
  | CNotify _ => Ret (spec_notify m)
  end.
Fixpoint spec_run (cs : list command) (m : mining) : outcome mining :=
  match cs with
  | [] => spec_stop m
  | c :: cs => m ← spec_cmd c m; spec_run cs m
  end.

Section node.
Context {St D : Type} `{HS : Stack St}.
Implicit Types (n : node St D) (m : miner (ledger St)).
Context (order : gmap string (AccountChain.accountChain St) -> list (string * AccountChain.accountChain St))
  (now : Z) (pick : gmap nat bool -> option nat).

(** One of these, and a run of them with [Stop] at its end. *)
Definition happen (c : command) n : outcome (node St D) :=
  match c with
  | CStartMiner => StartMiner n
  | CStopMiner => StopMiner n
  | CDwlDone => Ret (node_DwlDone n)
  | CNotify t => node_notify order now pick t n
  end.
Fixpoint operate (cs : list command) n : outcome (node St D) :=
  match cs with
  | [] => node_Stop n
  | c :: cs => n ← happen c n; operate cs n
  end.

(** The accounts of the next snapshot can be collected from the ledger. *)
Definition minable (l : ledger St) : Prop := returns (Blockchain.NextAccountSnapshot order (lbc l)).

Definition miner_state m (a : mining) : Prop :=
  let w := m_worker m in
  match a with
  | MOff => False
  | MRun => m_S m = 4 /\ w_S w = 4 /\ exists g, updateCh w = Some g /\ g ∉ closed w /\ running w = {[g := false]}
  | MStopped => m_S m = 6 /\ w_S w = 6 /\ running w = ∅
  | MDouble => m_S m = 4 /\ w_S w = 4 /\
      exists h g, updateCh w = Some h /\ h ∉ closed w /\ g <> h /\ g ∉ closed w /\ running w !! g = Some false
  | MWedged => m_S m = 4 /\ w_S w = 4 /\
      exists h g, updateCh w = Some h /\ h ∉ closed w /\ running w !! g = Some true
  end.

(** A started node whose miner is in the state [a]. *)
Definition node_state n (a : mining) : Prop :=
  status (n_p2p n) = 4 /\ n_conS n = 4 /\ is_Some (n_wallet n) /\ n_syncClosed n = false /\
  n_scClosed n = false /\ n_poolClosed n = false /\ n_closed n = false /\
  minable (n_ledger n) /\
  match n_miner n with Some m => miner_state m a | None => a = MOff end.

(** Everything has stopped: the statuses, the channels, the goroutines. *)
Definition all_stopped n : Prop :=
  status (n_p2p n) = 6 /\ p2p_closed (n_p2p n) = true /\ n_conS n = 6 /\ n_syncClosed n = true /\
  n_scClosed n = true /\ n_poolClosed n = true /\ n_closed n = true /\
  match n_miner n with
  | Some m => m_S m = 6 /\ w_S (m_worker m) = 6 /\ running (m_worker m) = ∅
  | None => True
  end.

Lemma lend_state n m a : miner_state m a -> miner_state (lend n m) a.
Proof. by destruct a. Qed.

Lemma Start_fresh m done :
  (m_S m = 2 \/ m_S m = 6) -> (w_S (m_worker m) = 2 \/ w_S (m_worker m) = 6) -> running (m_worker m) = ∅ ->
  miner_state (miner_Start done m) MRun.
Proof.
  intros Hm Hw Hr. destruct (Start_ready (m_worker m) Hw Hr) as (g & E1 & E2 & E3 & E4 & E5 & _).
  assert (Em : m_S (miner_Start done m) = 4 /\ m_worker (miner_Start done m) = worker_Start (m_worker m)).
  { unfold miner_Start. by destruct Hm as [-> | ->]. }
  destruct Em as [Em Ew]. unfold miner_state. rewrite Em, Ew. split; [done|]. split; [done|].
  exists g. by rewrite E5.
Qed.

Lemma miner_Start_state m done a : miner_state m a -> miner_state (miner_Start done m) (spec_start a).
Proof.
  assert (Hdbl : forall g, m_S m = 4 -> w_S (m_worker m) = 4 -> g ∉ closed (m_worker m) ->
    running (m_worker m) !! g = Some false -> miner_state (miner_Start done m) MDouble).
  { intros g Hm Hw Hg Hr. destruct (Start_adds (m_worker m)) as (h & E1 & E2 & E3 & E4 & E5 & E6 & _); [auto|].
    assert (Em : m_S (miner_Start done m) = 4 /\ m_worker (miner_Start done m) = worker_Start (m_worker m)).
    { unfold miner_Start. by rewrite Hm. }
    destruct Em as [Em Ew]. unfold miner_state. rewrite Em, Ew. split; [done|]. split; [done|].
    exists h, g. rewrite E5, E6. assert (g <> h) by (intros ->; congruence).
    split_and!; try done. by rewrite lookup_insert_ne. }
  destruct a; cbn [spec_start].
  - done.
  - intros (Hm & Hw & g & Hu & Hg & Hr). apply (Hdbl g); try done. rewrite Hr. apply lookup_insert_eq.
  - intros (Hm & Hw & Hr). apply Start_fresh; auto.
  - intros (Hm & Hw & h & g & Hu & Hh & Hne & Hg & Hr). by apply (Hdbl g).
  - intros (Hm & Hw & h & g & Hu & Hh & Hr).
    destruct (Start_adds (m_worker m)) as (h' & E1 & E2 & E3 & E4 & E5 & E6 & _); [auto|].
    assert (Em : m_S (miner_Start done m) = 4 /\ m_worker (miner_Start done m) = worker_Start (m_worker m)).
    { unfold miner_Start. by rewrite Hm. }
    destruct Em as [Em Ew]. unfold miner_state. rewrite Em, Ew. split; [done|]. split; [done|].
    exists h', g. rewrite E5, E6. split_and!; try done. rewrite lookup_insert_ne; [done|]. intros ->. congruence.
Qed.

(** A notification to one of the goroutines that wait. *)
Lemma notify_wedges (w : worker (ledger St)) g t h :
  minable (w_chain w) -> w_S w = 4 -> updateCh w = Some h ->
  update_iter (H := ledger_SnapshotChainRW order now) w g (Work t) =
    Ret (set_running w (w_chain w) (<[g := true]> (running w))).
Proof.
  intros Hl Hs Hu. unfold update_iter. rewrite Hs. cbn [Lifecycle.Stopped Z.eqb Pos.eqb].
  unfold genAndInsert. destruct (existsb _ _); [done|].
  cbn [rw_MiningSnapshotBlock ledger_SnapshotChainRW]. by rewrite mining_diverges.
Qed.

Lemma miner_Stop_state m a :
  miner_state m a ->
  match spec_stop a with
  | Ret a' => exists m', miner_Stop m = Ret m' /\ miner_state m' a'
  | Panic w => miner_Stop m = Panic w
  | Diverge => miner_Stop m = Diverge
  end.
Proof.
  destruct a; cbn [spec_stop].
  - done.
  - intros (Hm & Hw & g & Hu & Hg & Hr). unfold miner_Stop.
    rewrite Hm, PreStop_started, bind_ret_l, (worker_Stop_alone _ g) by done.
    rewrite bind_ret_l. eexists. split; [reflexivity|]. done.
  - intros (Hm & Hw & Hr). unfold miner_Stop. rewrite Hm. reflexivity.
  - intros (Hm & Hw & h & g & Hu & Hh & Hne & Hg & Hr). unfold miner_Stop.
    rewrite Hm, PreStop_started, bind_ret_l, (worker_Stop_hangs _ h g false); auto.
  - intros (Hm & Hw & h & g & Hu & Hh & Hr). unfold miner_Stop.
    rewrite Hm, PreStop_started, bind_ret_l, (worker_Stop_hangs _ h g true); auto.
Qed.

(** Starting and stopping keeps the ledger. *)
Lemma worker_Start_chain (w : worker (ledger St)) : w_chain (worker_Start w) = w_chain w.
Proof.
  unfold worker_Start. destruct (MinerLifecycle.PreStart (w_S w)) as [s b].
  by destruct (MinerLifecycle.PostStart s).
Qed.
Lemma miner_Start_chain done m : w_chain (m_worker (miner_Start done m)) = w_chain (m_worker m).
Proof.
  unfold miner_Start. destruct (MinerLifecycle.PreStart (m_S m)) as [s b].
  destruct (MinerLifecycle.PostStart s). apply worker_Start_chain.
Qed.
Lemma miner_Stop_chain m m' : miner_Stop m = Ret m' -> w_chain (m_worker m') = w_chain (m_worker m).
Proof.
  unfold miner_Stop. intros (s & _ & E)%bind_ret_inv. apply bind_ret_inv in E as (w & Ew & E).
  apply bind_ret_inv in E as (s' & _ & [= <-]). cbn [upd m_worker]. unfold worker_Stop in Ew.
  apply bind_ret_inv in Ew as (s1 & _ & Ew). apply bind_ret_inv in Ew as (ch & _ & Ew). case_decide; [done|].
  destruct (all_return _ _); [|done]. by apply bind_ret_inv in Ew as (s2 & _ & [= <-]).
Qed.

Lemma StartMiner_state n a :
  node_state n a -> exists n', StartMiner n = Ret n' /\ node_state n' (spec_start a).
Proof.
  intros (H1 & H2 & [w Hw] & H4 & H5 & H6 & H7 & Hl & H8). unfold StartMiner.
  destruct (n_miner n) as [m|] eqn:Em.
  - rewrite bind_ret_l. eexists. split; [reflexivity|]. split_and!; try done.
    + cbn [take_back n_ledger]. by rewrite miner_Start_chain.
    + cbn. apply miner_Start_state, lend_state, H8.
  - subst a. rewrite Hw. cbn [deref]. rewrite bind_ret_l. destruct (Wallet.CoinBase w) as [w' cb].
    eexists. split; [reflexivity|]. split_and!; try done.
    cbn [take_back n_miner spec_start]. apply Start_fresh; cbn; auto.
Qed.

Lemma StopMiner_state n a :
  node_state n a ->
  match spec_stop a with
  | Ret a' => exists n', StopMiner n = Ret n' /\ node_state n' a'
  | Panic w => StopMiner n = Panic w
  | Diverge => StopMiner n = Diverge
  end.
Proof.
  intros (H1 & H2 & H3 & H4 & H5 & H6 & H7 & Hl & H8). unfold StopMiner.
  destruct (n_miner n) as [m|] eqn:Em.
  - pose proof (miner_Stop_state (lend n m) a (lend_state n m a H8)) as Hs.
    destruct (spec_stop a) as [a'|w|]; [|by rewrite Hs..].
    destruct Hs as (m' & E & Hs). rewrite E. eexists. split; [reflexivity|]. split_and!; try done.
    cbn [take_back n_ledger]. by rewrite (miner_Stop_chain _ _ E).
  - subst a. exists n. split; [done|]. split_and!; try done. by rewrite Em.
Qed.

Lemma node_Stop_state n a :
  node_state n a ->
  match spec_stop a with
  | Ret _ => exists n', node_Stop n = Ret n' /\ all_stopped n'
  | Panic w => node_Stop n = Panic w
  | Diverge => node_Stop n = Diverge
  end.
Proof.
  intros (H1 & H2 & H3 & H4 & H5 & H6 & H7 & Hl & H8).
  set (n1 := set_closed n (n_syncClosed n) (n_scClosed n) (n_poolClosed n) true).
  assert (E : node_Stop n = (self ← StopMiner n1;
    s ← Committee_Stop (n_conS self);
    sy ← syncer_Stop (n_syncClosed self); '(sc, po) ← ledger_Stop (n_scClosed self) (n_poolClosed self);
    p ← P2p.Stop (n_p2p self); Ret (set_closed (set_p2p (set_conS self s) p) sy sc po true))).
  { unfold node_Stop. rewrite H7. reflexivity. }
  assert (Hrest : forall (n2 : node St D) (m2 : option (miner (ledger St))), n_p2p n2 = n_p2p n -> n_conS n2 = 4 -> n_syncClosed n2 = false -> n_scClosed n2 = false ->
    n_poolClosed n2 = false -> n_closed n2 = true -> n_miner n2 = m2 ->
    match m2 with Some m => m_S m = 6 /\ w_S (m_worker m) = 6 /\ running (m_worker m) = ∅ | None => True end ->
    exists n', (s ← Committee_Stop (n_conS n2);
      sy ← syncer_Stop (n_syncClosed n2); '(sc, po) ← ledger_Stop (n_scClosed n2) (n_poolClosed n2);
      p ← P2p.Stop (n_p2p n2); Ret (set_closed (set_p2p (set_conS n2 s) p) sy sc po true)) = Ret n' /\ all_stopped n').
  { intros n2 m2 Ep -> -> -> -> Ec Em Hm. rewrite Ep. unfold P2p.Stop. rewrite H1. eexists. split; [reflexivity|].
    unfold all_stopped. cbn. rewrite Em. split_and!; try done.
    generalize (map_to_list (peers (n_p2p n))). intros l.
    assert (Es : forall p : p2p D handState, status (foldl (fun self '(_, o) => close_obj self o) p l) = status p).
    { induction l as [|[i o] l IH]; intros p; [done|]. cbn. by rewrite IH. }
    by rewrite Es. }
  rewrite E. destruct (n_miner n) as [m|] eqn:Em.
  - pose proof (miner_Stop_state (lend n1 m) a (lend_state n1 m a H8)) as Hs.
    unfold StopMiner. change (n_miner n1) with (n_miner n). rewrite Em.
    destruct (spec_stop a) as [a'|w|] eqn:Ea; [|by rewrite Hs..].
    destruct Hs as (m' & -> & Hs). rewrite !bind_ret_l.
    eapply Hrest; [done|done|done|done|done|done|reflexivity|]. cbn.
    destruct a; try done; injection Ea as <-; apply Hs.
  - subst a. unfold StopMiner. change (n_miner n1) with (n_miner n). rewrite Em, bind_ret_l.
    eapply Hrest; [done|done|done|done|done|done|exact Em|done].
Qed.

(** What the bus and the committee tell the miner. *)
Lemma DwlDone_state n a : node_state n a -> node_state (node_DwlDone n) a.
Proof.
  intros (H1 & H2 & H3 & H4 & H5 & H6 & H7 & Hl & H8). unfold node_DwlDone, dwlDownFn.
  destruct (n_miner n) as [m|] eqn:Em; [|split_and!; try done; by rewrite Em].
  destruct (m_bus (lend n m)); (split_and!; try done); by destruct a.
Qed.

Context (Hpick : picks pick).

Lemma notify_state t n a :
  node_state n a -> exists n', node_notify order now pick t n = Ret n' /\ node_state n' (spec_notify a).
Proof using Hpick.
  intros Hn. pose proof Hn as (H1 & H2 & H3 & H4 & H5 & H6 & H7 & Hl & H8). unfold node_notify.
  destruct (n_miner n) as [m|] eqn:Em; [|by subst a; exists n].
  set (m1 := lend n m). pose proof (lend_state n m a H8 : miner_state m1 a) as Hs.
  pose proof (Hpick (running (m_worker m1))) as Hp.
  assert (Hwedge : forall g h, w_S (m_worker m1) = 4 -> m_S m1 = 4 -> updateCh (m_worker m1) = Some h ->
    h ∉ closed (m_worker m1) -> pick (running (m_worker m1)) = Some g -> spec_notify a = MWedged ->
    exists n', (w ← update_iter (H := ledger_SnapshotChainRW order now) (m_worker m1) g (Work t);
      Ret (take_back n (upd m1 (m_S m1) w (m_consensus m1)))) = Ret n' /\ node_state n' (spec_notify a)).
  { intros g h Hw Hm Hu Hh _ ->. rewrite (notify_wedges (m_worker m1) g t h Hl Hw Hu), bind_ret_l.
    eexists. split; [reflexivity|]. split_and!; try done. cbn [take_back n_miner upd].
    split; [done|]. split; [done|]. exists h, g. cbn. by rewrite lookup_insert_eq. }
  destruct a; cbn [spec_notify] in *.
  - done.
  - destruct Hs as (Hm & Hw & g & Hu & Hg & Hr). destruct (pick _) as [g'|] eqn:Ep; [by eapply Hwedge|].
    destruct (Hp g). rewrite Hr. apply lookup_insert_eq.
  - destruct Hs as (Hm & Hw & Hr). rewrite Hr in Hp |- *. destruct (pick ∅); [done|]. by exists n.
  - destruct Hs as (Hm & Hw & h & g & Hu & Hh & Hne & Hg & Hr).
    destruct (pick _) as [g'|] eqn:Ep; [by eapply Hwedge|]. by destruct (Hp g).
  - destruct Hs as (Hm & Hw & h & g & Hu & Hh & Hr). destruct (pick _) as [g'|] eqn:Ep; [by eapply Hwedge|].
    by exists n.
Qed.

(** Each step follows the machine. *)
Lemma happen_state c n a :
  node_state n a ->
  match spec_cmd c a with
  | Ret a' => exists n', happen c n = Ret n' /\ node_state n' a'
  | Panic w => happen c n = Panic w
  | Diverge => happen c n = Diverge
  end.
Proof using Hpick.
  destruct c; cbn [happen spec_cmd]; intros Hn.
  - by apply StartMiner_state.
  - by apply StopMiner_state.
  - eexists. split; [reflexivity|]. by apply DwlDone_state.
  - by apply notify_state.
Qed.

Lemma operate_state cs n a :
  node_state n a ->
  match spec_run cs a with
  | Ret _ => exists n', operate cs n = Ret n' /\ all_stopped n'
  | Panic w => operate cs n = Panic w
  | Diverge => operate cs n = Diverge
  end.
Proof using Hpick.
  revert n a. induction cs as [|c cs IH]; intros n a Hn; [by apply node_Stop_state|].
  cbn [operate spec_run]. pose proof (happen_state c n a Hn) as Hs.
  destruct (spec_cmd c a) as [a'|w|]; [|by rewrite Hs..].
  destruct Hs as (n' & -> & Hn'). rewrite !bind_ret_l. by apply IH.
Qed.

(** The machine at the start: a configured miner mines. *)
Definition spec_init (cfg : NodeCfg) : mining :=
  if Enabled cfg then if decide (HexCoinbase cfg = "") then MOff else MRun else MOff.

(** A node that has been initialised. *)
Definition node_inited n (a : mining) : Prop :=
  status (n_p2p n) = 2 /\ n_conS n = 2 /\ is_Some (n_wallet n) /\ n_syncClosed n = false /\
  n_scClosed n = false /\ n_poolClosed n = false /\ n_closed n = false /\
  minable (n_ledger n) /\
  match n_miner n with
  | Some m => a = MRun /\ m_S m = 2 /\ w_S (m_worker m) = 2 /\ running (m_worker m) = ∅
  | None => a = MOff
  end.

Lemma NewNode_inited cfg (l : ledger St) g :
  minable l ->
  exists n : node St D, node_Init (NewNode cfg l g) = Ret n /\ node_inited n (spec_init cfg).
Proof.
  intros Hl. unfold NewNode, spec_init. rewrite Address_String_HexToAddress.
  destruct (Enabled cfg); [destruct (decide (HexCoinbase cfg = ""))|];
    (eexists; split; [reflexivity|]; by split_and!).
Qed.

Lemma node_Start_state n a :
  node_inited n a -> exists n', node_Start n = Ret n' /\ node_state n' a.
Proof.
  intros (H1 & H2 & H3 & H4 & H5 & H6 & H7 & Hl & H8). unfold node_Start, P2p.Start. rewrite H1, H2.
  change (Lifecycle.PreStart 2) with (Ret 3). rewrite !bind_ret_l.
  change (Lifecycle.PostStart 3) with (Ret 4). rewrite !bind_ret_l.
  change (Committee_Start 2) with (Ret 4). rewrite !bind_ret_l.
  set (n1 := set_conS (set_p2p n (set_status (n_p2p n) 4)) 4). change (n_miner n1) with (n_miner n).
  destruct (n_miner n) as [m|] eqn:Em.
  - destruct H8 as (-> & Hm & Hw & Hr). eexists. split; [reflexivity|]. split_and!; try done.
    { cbn [take_back n_ledger]. by rewrite miner_Start_chain. }
    cbn [take_back n_miner]. apply Start_fresh; cbn [lend m_S m_worker set_running w_S running]; auto.
  - eexists. split; [reflexivity|]. split_and!; try done. change (n_miner n1) with (n_miner n). by rewrite Em.
Qed.
End node.

(** The ledger of a new node is one from which a snapshot can be collected. *)
Lemma genesis_minable {St} `{Stack St} order :
  range_order order -> exists l : ledger St, NewLedger_Init = Ret l /\ minable order l.
Proof.
  intros Ho. unfold NewLedger_Init, Blockchain.NewChain.
  destruct (genesis_repr SnapshotChain.GetGenesisSnapshot) as (st & sc & -> & R & _).
  rewrite !bind_ret_l. unfold NewPool_Init.
  match goal with |- context [mkSnapshotCh ?b 0] =>
    destruct (chainPool_init_tree (mkSnapshotCh b 0) [SnapshotChain.genesisSnapshot] "snapshotPool") as (cp & E & _) end;
    [exact R|done|].
  rewrite E. eexists. split; [reflexivity|]. unfold minable, Blockchain.NextAccountSnapshot. cbn.
  assert (En : order ∅ = []).
  { apply Permutation_nil. symmetry. rewrite <- (map_to_list_empty (M := gmap string)). apply Ho. }
  rewrite En. cbn [foldl]. rewrite bind_ret_l. rewrite (sr_head _ _ _ _ R). cbn. by eexists.
Qed.

(** A choice among the goroutines that wait. *)
Definition pick_first (m : gmap nat bool) : option nat :=
  fst <$> hd_error (filter (fun p => p.2 = false) (map_to_list m)).
Lemma pick_first_ok : picks pick_first.
Proof.
  intros m. unfold pick_first. destruct (filter _ _) as [|[g b] l] eqn:E; cbn.
  - intros g Hg. assert (Hin : (g, false) ∈ filter (fun p : nat * bool => p.2 = false) (map_to_list m)).
    { apply list_elem_of_filter. split; [done|]. by apply elem_of_map_to_list. }
    rewrite E in Hin. by apply elem_of_nil in Hin.
  - assert (Hin : (g, b) ∈ filter (fun p : nat * bool => p.2 = false) (map_to_list m)) by (rewrite E; left).
    apply list_elem_of_filter in Hin as [Hb Hin]. cbn in Hb. subst b. by apply elem_of_map_to_list.
Qed.

(** C19: a node under its operator's commands follows the machine of its miner.
    Create, initialise and start a node with any configuration, any genesis time and any
    ledger from which the accounts of the next snapshot can be collected; then, in any
    order, let the operator start and stop its miner, the bus report that the first
    synchronisation is done, and the committee notify the miner of slots; then stop
    the node.  A notification reaches any one goroutine that waits for it, if there is
    one, at any time: the committee may have read the subscription before it changed.
    The node returns, with every component stopped, every channel closed once and no
    mining goroutine left, exactly when the machine of five states says so.  It
    panics when the machine does: a stopped miner is stopped again, by the
    operator or by [Stop] itself.  It hangs when the machine does: a miner is stopped
    that was started twice, or that has been notified while it ran, since mining
    a block over the ledger never returns. *)
Theorem node_follows_machine {St D} `{Stack St} order now pick cfg (l : ledger St) genesisTime (cs : list command) :
  picks pick -> minable order l ->
  let run : outcome (node St D) :=
    n ← node_Init (NewNode cfg l genesisTime); n ← node_Start n; operate order now pick cs n in
  match spec_run cs (spec_init cfg) with
  | Ret _ => exists n, run = Ret n /\ all_stopped n
  | Panic w => run = Panic w
  | Diverge => run = Diverge
  end.
Proof.
  intros Hp Hl. destruct (NewNode_inited (D := D) order cfg l genesisTime Hl) as (n0 & -> & Hn0).
  destruct (node_Start_state order n0 _ Hn0) as (n & E & Hn). rewrite bind_ret_l, E, bind_ret_l.
  by apply operate_state.
Qed.

(** A node that is stopped after its miner panics. *)
Example stop_after_StopMiner :
  spec_run [CStartMiner; CStopMiner] MOff = Panic "PreStop fail. status:6" /\
  spec_run [CStartMiner; CStopMiner; CStartMiner] MOff = Ret MStopped /\
  spec_run [CStartMiner; CStartMiner] MOff = Diverge /\
  spec_run [CStartMiner; CDwlDone; CNotify 7] MOff = Diverge.
Proof. by split_and!. Qed.

(** A miner that was told of a slot hangs the node. *)
Lemma node_follows_machine_witness :
  let order := fun m : gmap string (AccountChain.accountChain (list SnapshotPoint)) => map_to_list m in
  let cfg := mkNodeCfg "a" 8080 0 "localhost:8000" 1 2 true "c" in
  exists l : ledger (list SnapshotPoint), NewLedger_Init = Ret l /\
    let run cs : outcome (node _ unit) :=
      n ← node_Init (NewNode cfg l 0); n ← node_Start n; operate order 5 pick_first cs n in
    run [CDwlDone; CNotify 7] = Diverge /\
    exists n, run [CDwlDone; CStopMiner; CNotify 7; CStartMiner] = Ret n /\ all_stopped n.
Proof.
  intros order cfg. destruct (genesis_minable order) as (l & El & Hl); [intros m; done|].
  exists l. split; [exact El|]. split.
  - exact (node_follows_machine (D := unit) order 5 pick_first cfg l 0 [CDwlDone; CNotify 7] pick_first_ok Hl).
  - exact (node_follows_machine (D := unit) order 5 pick_first cfg l 0 [CDwlDone; CStopMiner; CNotify 7; CStartMiner]
      pick_first_ok Hl).
Defined.
