(* ===== verification/Shell.v ===== *)
(** * Shell: the command line ([cmd/node/main.go])

    The interactive shell keeps a boot node, a node and the process's counters;
    every command is a function of this state, of its arguments and of the lines
    typed while it runs.  What is printed is a list of lines; values that are
    printed through a format of their own (JSON, times, floats) are kept as values.
    The shell itself ([ishell]), the sockets and the name service are not under
    [src/]. *)
From Stdlib Require Import Ascii.
From S2P Require Import Prelude.
From S2P Require Import Common.
From S2P Require Import Sync.
From S2P Require Import Monitor.
From S2P Require Import Store.
From S2P Require Import Chain.
From S2P Require Import Reader.
From S2P Require Import BCPool.
From S2P Require Import Pools.
From S2P Require Import Consensus.
From S2P Require Import Ledger.
From S2P Require Import P2p.
From S2P Require Import Boot.
From S2P Require Import Syncer.
From S2P Require Import Miner.
From S2P Require Import Node.

(** ** [strconv.Atoi]

    A value comes with an error too: 0 when the string is not a number, the nearest
    [int] when it is out of range.  The commands drop the error. *)
Definition digit (c : ascii) : option Z :=
  let n := Z.of_nat (nat_of_ascii c) - 48 in
  if decide (0 <= n <= 9) then Some n else None.

Inductive numError := ErrSyntax | ErrRange.

(** The loop of [ParseUint] in base 10; the range is checked at every digit. *)
Fixpoint ParseUint_loop (n : Z) (s : string) : Z * option numError :=
  match s with
  | EmptyString => (n, None)
  | String c s =>
      match digit c with
      | None => (0, Some ErrSyntax)
      | Some d =>
          if decide (2 ^ 64 <= 10 * n + d) then (2 ^ 64 - 1, Some ErrRange)
          else ParseUint_loop (10 * n + d) s
      end
  end.
Definition ParseUint (s : string) : Z * option numError :=
  match s with EmptyString => (0, Some ErrSyntax) | _ => ParseUint_loop 0 s end.

Definition Atoi (s : string) : Z * option numError :=
  let '(neg, digits) :=
    match s with
    | String "-" s' => (true, s')
    | String "+" s' => (false, s')
    | _ => (false, s)
    end in
  let '(un, err) := ParseUint digits in
  match err with
  | Some ErrSyntax => (0, Some ErrSyntax)
  | _ =>
      if neg then if decide (2 ^ 63 < un) then (- 2 ^ 63, Some ErrRange) else (- un, err)
      else if decide (2 ^ 63 <= un) then (2 ^ 63 - 1, Some ErrRange) else (un, err)
  end.

(** What a command prints. *)
Inductive out :=
| Text (s : string)
| AccountJson (b : option AccountStateBlock)
| SnapshotJson (b : option SnapshotBlock)
| SnapshotRow (height : Z) (hash preHash : string) (accountLen : nat) (time : Z)
| PeerRow (id remoteAddr : string) (state : option handState)
| StatRow (CntMean Avg : spec_float) (cnt cap : Z).

Section shell.
Context {St D : Type} `{Stack St}.

(** [released]: the nodes the shell has dropped, which nobody refers to any more;
    [serving]: the profilers that listen. *)
Record shell := mkShell {
  bootNode : option (Bootnode.bootnode D handState);
  node_ : option (node St D);
  released : list (node St D);
  stat_monitor : Counters.monitor;
  serving : list string
}.
Implicit Types (sh : shell).

Definition start_shell (m : Counters.monitor) : shell :=
  {| bootNode := None; node_ := None; released := []; stat_monitor := m; serving := [] |}.
Definition set_boot sh (b : option (Bootnode.bootnode D handState)) : shell :=
  {| bootNode := b; node_ := node_ sh; released := released sh; stat_monitor := stat_monitor sh;
     serving := serving sh |}.
Definition set_node sh (n : option (node St D)) : shell :=
  {| bootNode := bootNode sh; node_ := n; released := released sh; stat_monitor := stat_monitor sh;
     serving := serving sh |}.
(** [node = nil] *)
Definition drop_node sh (n : node St D) : shell :=
  {| bootNode := bootNode sh; node_ := None; released := released sh ++ [n]; stat_monitor := stat_monitor sh;
     serving := serving sh |}.

(** The orders of map ranges, the clock, the name service, and the remote address
    of a connection; [lines]: what is typed at the prompts of the command. *)
Context (order : forall A, gmap string A -> list (string * A)) (peerOrder : gmap string nat -> list (string * nat))
  (now : Z) (resolve : string -> option string) (remote : nat -> string).
Arguments order {A} _.

Definition result : Type := outcome (shell * list out).
Definition say sh (s : string) : result := Ret (sh, [Text s]).

Definition defaultBootAddr : string := "localhost:8000".

(** ** [boot] *)
Definition startBoot (bootAddr : string) : option (Bootnode.bootnode D handState) := Bootnode.NewBoot bootAddr.

Definition boot_start (lines : nat -> string) sh : result :=
  match bootNode sh with
  | Some _ => say sh "boot has started."
  | None =>
      let bootAddr := lines 0%nat in
      let bootAddr := if decide (bootAddr = "") then defaultBootAddr else bootAddr in
      Ret (set_boot sh (startBoot bootAddr),
           [Text "BootAddr: "; Text ("boot start for[" +:+ bootAddr +:+ "] successfully.")])
  end.

Definition boot_stop sh : result :=
  match bootNode sh with
  | None => say sh "boot has stopped."
  | Some b => _ ← Bootnode.Stop b; say (set_boot sh None) "boot stop successfully."
  end.

Definition boot_list sh : result :=
  match bootNode sh with
  | None => say sh "boot should be started."
  | Some b =>
      Ret (sh, Text "-----boot links -----" :: Text "Id	Addr" ::
        map (fun p => Text (bl_Id p +:+ "	" +:+ bl_Addr p)) (Bootnode.All peerOrder b))
  end.

(** ** [node] *)
Definition startNode (bootAddr : string) (port : Z) (nodeId : string) : outcome (node St D) :=
  let cfg := {| NodeId := nodeId; Port := port; NetId := 0; LinkBootAddr := bootAddr; Interval := 1;
                MemCnt := Z.of_nat (length DefaultMembers); Enabled := false; HexCoinbase := "" |} in
  l ← NewLedger_Init;
  n ← node_Init (NewNode cfg l (Timestamp SnapshotChain.GetGenesisSnapshot));
  node_Start n.

Definition node_start (lines : nat -> string) sh : result :=
  match node_ sh with
  | Some _ => say sh "node has started."
  | None =>
      let id := lines 0%nat in
      let '(port, _) := Atoi (lines 1%nat) in
      let bootAddr := lines 2%nat in
      let '(bootAddr, msg) :=
        match resolve bootAddr, decide (bootAddr = "") with
        | Some addr, right _ => (addr, [])
        | _, _ => (defaultBootAddr, [Text ("input boot address error, use default bootAddr[" +:+ defaultBootAddr +:+ "].")])
        end in
      n ← startNode bootAddr port id;
      Ret (set_node sh (Some n),
           [Text "NodeId: "; Text "Port: "; Text "BootAddr: "] ++ msg ++
           [Text ("node start for[" +:+ bootAddr +:+ "] successfully.")])
  end.

Definition node_stop sh : result :=
  match node_ sh with
  | None => say sh "node has stopped."
  | Some n => n ← node_Stop n; say (drop_node sh n) "node stop successfully."
  end.

Definition node_peers sh : result :=
  match node_ sh with
  | None => say sh "node must be started."
  | Some n =>
      let '(peers, _) := AllPeer peerOrder (n_p2p n) in
      rows ← mapM (fun o =>
        p ← deref (objs (n_p2p n) !! o) "nil dereference";
        Ret (PeerRow (peerId p) (remote o) (peer_state p))) peers;
      Ret (sh, Text "-----net peers -----" :: Text "Id	Remote	State" :: rows)
  end.

(** ** The wallet and the ledger of the node *)
Definition put_wallet (n : node St D) (w : Wallet.wallet) : node St D := set_wallet n (n_cfg n) (Some w).
Definition put_ledger (n : node St D) (l : ledger St) : node St D :=
  {| n_cfg := n_cfg n; n_p2p := n_p2p n; n_first := n_first n; n_ledger := l;
     n_conS := n_conS n; n_con := n_con n; n_miner := n_miner n; n_wallet := n_wallet n;
     n_syncClosed := n_syncClosed n; n_scClosed := n_scClosed n; n_poolClosed := n_poolClosed n;
     n_closed := n_closed n |}.

(** [node.Wallet().CoinBase()] *)
Definition coinBase (n : node St D) : outcome (node St D * string) :=
  w ← deref (n_wallet n) "nil dereference";
  let '(w, base) := Wallet.CoinBase w in
  Ret (put_wallet n w, base).

(** A command that needs a node; [msg] is printed when there is none. *)
Definition with_node sh (msg : string) (f : node St D -> outcome (node St D * list out)) : result :=
  match node_ sh with
  | None => say sh msg
  | Some n => '(n, o) ← f n; Ret (set_node sh (Some n), o)
  end.

(** ** [miner] *)
Definition miner_start sh : result :=
  with_node sh "node should be started." (fun n =>
    '(n, base) ← coinBase n;
    if decide (base = "") then Ret (n, [Text "please set coinBase."])
    else n ← StartMiner n; Ret (n, [Text "miner start successfully."])).

(** The node is set to nil although it runs on. *)
Definition miner_stop sh : result :=
  match node_ sh with
  | None => say sh "node should be stopped."
  | Some n => n ← StopMiner n; say (drop_node sh n) "miner stop successfully."
  end.

(** ** [account] *)
Definition account_set (args : list string) (lines : nat -> string) sh : result :=
  with_node sh "node should be started." (fun n =>
    let '(address, o) :=
      match args with [a] => (a, []) | _ => (lines 0%nat, [Text "Address: "]) end in
    if decide (address = "") then Ret (n, o ++ [Text "address is empty."])
    else
      w ← deref (n_wallet n) "nil dereference";
      Ret (put_wallet n (Wallet.SetCoinBase w address), o ++ [Text "set address successfully."])).

Definition account_create (lines : nat -> string) sh : result :=
  with_node sh "node should be stopped." (fun n =>
    let address := lines 0%nat in
    if decide (address = "") then Ret (n, [Text "Address: "; Text "address is empty."])
    else
      w ← deref (n_wallet n) "nil dereference";
      Ret (put_wallet n (fst (Wallet.CreateAccount w address)),
           [Text "Address: "; Text "create address successfully."])).

Definition account_balance sh : result :=
  with_node sh "node should be started." (fun n =>
    '(n, base) ← coinBase n;
    if decide (base = "") then Ret (n, [Text "please set current address."])
    else Ret (n, [Text ("balance is  " +:+ Itoa (GetAccountBalance (n_ledger n) base))])).

Definition answer (err : error) (ok fail : string) : out :=
  match err with None => Text ok | Some e => Text (fail +:+ " " +:+ e) end.

(** [-amount] wraps for the smallest integer. *)
Definition account_send (lines : nat -> string) sh : result :=
  with_node sh "node should be stopped." (fun n =>
    '(n, base) ← coinBase n;
    if decide (base = "") then Ret (n, [Text "please set coinBase."])
    else
      let toAddress := lines 0%nat in
      if decide (toAddress = "") then Ret (n, [Text "to Address: "; Text "to address is empty."])
      else
        let '(amount, _) := Atoi (lines 1%nat) in
        '(n, base) ← coinBase n;
        '(l, err) ← RequestAccountBlock now (n_ledger n) base toAddress (wrap64 (- amount));
        Ret (put_ledger n l, [Text "to Address: "; Text "to Amount: ";
                              answer err "send tx success." "send tx fail."])).

Definition account_receive (lines : nat -> string) sh : result :=
  with_node sh "node should be started." (fun n =>
    '(n, base) ← coinBase n;
    if decide (base = "") then Ret (n, [Text "please set coinBase."])
    else
      let fromAddress := lines 0%nat in
      if decide (fromAddress = "") then Ret (n, [Text "from Address: "; Text "from address is empty."])
      else
        let reqHash := lines 1%nat in
        if decide (reqHash = "")
        then Ret (n, [Text "from Address: "; Text "from block hash: "; Text "from hash is empty."])
        else
          '(n, base) ← coinBase n;
          '(l, err) ← ResponseAccountBlock now (n_ledger n) fromAddress base reqHash;
          Ret (put_ledger n l, [Text "from Address: "; Text "from block hash: ";
                                answer err "receive tx success." "receive tx fail."])).

(** ** [ablock] *)
Definition row (height : Z) (hash preHash : string) : out :=
  Text (Itoa height +:+ "	" +:+ hash +:+ "	" +:+ preHash).

(** The coinbase, unless an address is given. *)
Definition address_arg (args : list string) (n : node St D) : outcome (node St D * string) :=
  '(n, base) ← coinBase n;
  Ret (n, match args with [a] => a | _ => base end).

Definition ablock_list (args : list string) sh : result :=
  with_node sh "node should be started." (fun n =>
    '(n, addr) ← address_arg args n;
    rows ← mapM (fun b => b ← deref b "nil dereference"; Ret (row (Height b) (Hash b) (PreHash b)))
             (ListAccountBlock (n_ledger n) addr);
    Ret (n, Text ("-----address[" +:+ addr +:+ "] blocks-----") :: Text "Height	Hash	PrevHash" :: rows)).

Definition head_info (height : Z) (hash preHash : string) : out :=
  Text ("head info, height:" +:+ Itoa height +:+ ", hash:" +:+ hash +:+ ", prev:" +:+ preHash).

Definition ablock_head (args : list string) sh : result :=
  with_node sh "node should be stopped." (fun n =>
    '(n, addr) ← address_arg args n;
    Ret (n, match fst (reader_HeadAccount (lbc (n_ledger n)) addr) with
            | Some head => [head_info (Height head) (Hash head) (PreHash head)]
            | None => [Text "head is empty."]
            end)).

Definition ablock_reqs (args : list string) sh : result :=
  with_node sh "node should be stopped." (fun n =>
    '(n, addr) ← address_arg args n;
    Ret (n, Text ("-----address[" +:+ addr +:+ "] request blocks-----") :: Text "From	Amount	ReqHash" ::
      map (fun b => Text (req_From b +:+ "	" +:+ Itoa (req_Amount b) +:+ "	" +:+ ReqHash b))
        (ListRequest order (n_ledger n) addr))).

Definition ablock_detail (args : list string) sh : result :=
  with_node sh "node should be stopped." (fun n =>
    '(n, base) ← coinBase n;
    let '(addr, height) := match args with [a; h] => (a, fst (Atoi h)) | _ => (base, -1) end in
    Ret (n, [AccountJson (reader_GetAccountByHeight (lbc (n_ledger n)) addr height)])).

(** ** [sblock] *)

(** No test for a node. *)
Definition sblock_list sh : result :=
  n ← deref (node_ sh) "nil dereference";
  blocks ← ListSnapshotBlock (n_ledger n);
  rows ← mapM (fun b => b ← deref b "nil dereference";
                 Ret (SnapshotRow (Height b) (Hash b) (PreHash b) (length (Accounts b)) (Timestamp b))) blocks;
  Ret (sh, Text "-----snapshot blocks-----" :: Text "Height	Hash	PrevHash	AccountLen	Time" :: rows).

Definition sblock_head sh : result :=
  with_node sh "node should be stopped." (fun n =>
    head ← deref (fst (reader_HeadSnapshot (lbc (n_ledger n)))) "nil dereference";
    Ret (n, [head_info (Height head) (Hash head) (PreHash head)])).

Definition sblock_detail (args : list string) sh : result :=
  with_node sh "node should be stopped." (fun n =>
    let height := match args with [h] => fst (Atoi h) | _ => -1 end in
    block ← reader_GetSnapshotByHeight (lbc (n_ledger n)) height;
    Ret (n, [SnapshotJson block])).

(** ** [pool], [monitor], [profile] *)
Definition put_pool (l : ledger St) (p : pool St reqPool) : ledger St := send l p (rwMutex l) [].

Definition pool_sprint sh : result :=
  with_node sh "node should be started." (fun n =>
    '(p, info) ← Info now (bpool (n_ledger n)) "";
    Ret (put_ledger n (put_pool (n_ledger n) p), [Text info])).

Definition pool_aprint (args : list string) sh : result :=
  with_node sh "node should be stopped." (fun n =>
    match args with
    | [addr] =>
        '(p, info) ← Info now (bpool (n_ledger n)) addr;
        Ret (put_ledger n (put_pool (n_ledger n) p), [Text info])
    | _ => Ret (n, [Text "aprint [addr]"])
    end).

Definition monitor_stat sh : result :=
  stats ← Counters.Stats order order (stat_monitor sh);
  Ret (sh, concat (map (fun v =>
    if decide (0 < Counters.st_Cnt v) then
      [Text (Counters.st_Type v +:+ "-" +:+ Counters.st_Name v);
       StatRow (Counters.st_CntMean v) (Counters.st_Avg v) (Counters.st_Cnt v) (Counters.st_Cap v)]
    else []) stats)).

Definition profile_start (args : list string) sh : result :=
  let port := match args with [p] => p | _ => "6060" end in
  Ret ({| bootNode := bootNode sh; node_ := node_ sh; released := released sh; stat_monitor := stat_monitor sh;
          serving := serving sh ++ ["localhost:" +:+ port] |}, []).

(** ** The shell

    The names of the commands; the arguments and the lines of each are those of the
    operator. *)
Inductive cmd :=
| CBootStart | CBootStop | CBootList
| CNodeStart | CNodeStop | CNodePeers
| CMinerStart | CMinerStop
| CAccountSet | CAccountCreate | CAccountBalance | CAccountSend | CAccountReceive
| CABlockList | CABlockHead | CABlockReqs | CABlockDetail
| CSBlockList | CSBlockHead | CSBlockDetail
| CPoolSprint | CPoolAprint | CMonitorStat | CProfileStart.

Record input := mkInput { in_cmd : cmd; in_args : list string; in_lines : nat -> string }.

Definition exec (i : input) sh : result :=
  let args := in_args i in
  let lines := in_lines i in
  match in_cmd i with
  | CBootStart => boot_start lines sh
  | CBootStop => boot_stop sh
  | CBootList => boot_list sh
  | CNodeStart => node_start lines sh
  | CNodeStop => node_stop sh
  | CNodePeers => node_peers sh
  | CMinerStart => miner_start sh
  | CMinerStop => miner_stop sh
  | CAccountSet => account_set args lines sh
  | CAccountCreate => account_create lines sh
  | CAccountBalance => account_balance sh
  | CAccountSend => account_send lines sh
  | CAccountReceive => account_receive lines sh
  | CABlockList => ablock_list args sh
  | CABlockHead => ablock_head args sh
  | CABlockReqs => ablock_reqs args sh
  | CABlockDetail => ablock_detail args sh
  | CSBlockList => sblock_list sh
  | CSBlockHead => sblock_head sh
  | CSBlockDetail => sblock_detail args sh
  | CPoolSprint => pool_sprint sh
  | CPoolAprint => pool_aprint args sh
  | CMonitorStat => monitor_stat sh
  | CProfileStart => profile_start args sh
  end.

(** [shell.Run] on the inputs of a session. *)
Fixpoint Run (ins : list input) sh : outcome shell :=
  match ins with
  | [] => Ret sh
  | i :: ins => '(sh, _) ← exec i sh; Run ins sh
  end.
End shell.
Arguments shell St D : clear implicits.
