(* ===== verification/ShellSpec.v ===== *)
(** * ShellSpec: a session at the command line

    What an operator can do to the life of boot node, node and miner, as a machine
    on an abstract view of the shell; the shell follows it, whatever the network
    and the pools do and the miners are told in between.  [strconv.Atoi] reads what [strconv.Itoa] writes. *)
From Stdlib Require Import Ascii.
From S2P Require Import Prelude.
From S2P Require Import Common.
From S2P Require Import Sync.
From S2P Require Import Monitor.
From S2P Require Import Store.
From S2P Require Import Chain.
From S2P Require Import ChainSpec.
From S2P Require Import Reader.
From S2P Require Import BCPool.
From S2P Require Import BCPoolSpec.
From S2P Require Import PoolChains.
From S2P Require Import PoolRun.
From S2P Require Import Pools.
From S2P Require Import Consensus.
From S2P Require Import Ledger.
From S2P Require Import P2p.
From S2P Require Import Boot.
From S2P Require Import Syncer.
From S2P Require Import Miner.
From S2P Require Import Node.
From S2P Require Import NodeSpec.
From S2P Require Import Shell.

(** ** The abstract machine

    A node is its miner's state, and whether its wallet has an account; a node the
    shell has dropped is [None] when it has stopped, [Some m] when it still runs. *)
Record view := mkView {
  v_boot : bool;
  v_node : option (mining * bool);
  v_released : list (option mining)
}.
Definition view0 : view := mkView false None [].

(** The commands of the machine: those that read only the shell, the node's life
    and the wallet. *)
Definition control (c : cmd) : bool :=
  match c with
  | CBootStart | CBootStop | CBootList | CNodeStart | CNodeStop | CMinerStart | CMinerStop
  | CAccountSet | CAccountCreate | CAccountBalance | CABlockHead | CSBlockDetail | CProfileStart => true
  | _ => false
  end.

(** The address that [account set] and [account create] take. *)
Definition typed_address (i : input) : string :=
  match in_cmd i, in_args i with CAccountSet, [a] => a | _, _ => in_lines i 0%nat end.

(** A height below zero ends the process. *)
Definition typed_height (i : input) : Z := match in_args i with [h] => fst (Atoi h) | _ => -1 end.

Definition v_exec (i : input) (v : view) : outcome view :=
  match in_cmd i with
  | CBootStart => Ret (mkView true (v_node v) (v_released v))
  | CBootStop => Ret (mkView false (v_node v) (v_released v))
  | CNodeStart =>
      match v_node v with
      | None => Ret (mkView (v_boot v) (Some (MOff, false)) (v_released v))
      | Some _ => Ret v
      end
  | CNodeStop =>
      match v_node v with
      | Some (m, _) => _ ← spec_stop m; Ret (mkView (v_boot v) None (v_released v ++ [None]))
      | None => Ret v
      end
  | CMinerStart =>
      match v_node v with
      | Some (m, true) => Ret (mkView (v_boot v) (Some (spec_start m, true)) (v_released v))
      | _ => Ret v
      end
  | CMinerStop =>
      match v_node v with
      | Some (m, _) => m ← spec_stop m; Ret (mkView (v_boot v) None (v_released v ++ [Some m]))
      | None => Ret v
      end
  | CAccountSet | CAccountCreate =>
      match v_node v with
      | Some (m, acct) => Ret (if decide (typed_address i = "") then v
                               else mkView (v_boot v) (Some (m, true)) (v_released v))
      | None => Ret v
      end
  | CSBlockDetail =>
      match v_node v with
      | Some _ =>
          if decide (typed_height i < 0) then Panic ("height:" +:+ Itoa (typed_height i)) else Ret v
      | None => Ret v
      end
  | _ => Ret v
  end.

(** What the machine sees: a command, or a miner that the bus or the committee tells
    something; it is the miner of the shell's node, or of the [k]-th it has dropped. *)
Inductive event := Typed (i : input) | Told (who : option nat) (c : command).

(** What a miner is told; to start and to stop it is the operator's. *)
Definition heard (c : command) : bool :=
  match c with CDwlDone | CNotify _ => true | CStartMiner | CStopMiner => false end.

Definition v_tell (who : option nat) (c : command) (v : view) : outcome view :=
  match who with
  | None =>
      match v_node v with
      | Some (m, acct) => m ← spec_cmd c m; Ret (mkView (v_boot v) (Some (m, acct)) (v_released v))
      | None => Ret v
      end
  | Some k =>
      match v_released v !! k with
      | Some (Some m) => m ← spec_cmd c m; Ret (mkView (v_boot v) (v_node v) (<[k := Some m]> (v_released v)))
      | _ => Ret v
      end
  end.
Definition v_step (e : event) (v : view) : outcome view :=
  match e with Typed i => v_exec i v | Told who c => v_tell who c v end.
Fixpoint v_run (es : list event) (v : view) : outcome view :=
  match es with [] => Ret v | e :: es => v ← v_step e v; v_run es v end.

(** ** The wallet *)
Definition wallet_ok (w : Wallet.wallet) (acct : bool) : Prop :=
  Wallet.accounts w !! "" = None /\
  (acct = true <-> Wallet.accounts w <> ∅) /\
  (Wallet.current w <> "" -> acct = true).

Lemma Accounts_elem w a : a ∈ Wallet.Accounts w <-> is_Some (Wallet.accounts w !! a).
Proof.
  unfold Wallet.Accounts. rewrite merge_sort_Permutation. split.
  - intros ([k v] & -> & Hk)%list_elem_of_fmap. exists v. by apply elem_of_map_to_list.
  - intros [v Hv]. apply list_elem_of_fmap. exists (a, v). split; [done|]. by apply elem_of_map_to_list.
Qed.

Lemma CoinBase_ok w acct :
  wallet_ok w acct ->
  exists w' base, Wallet.CoinBase w = (w', base) /\ wallet_ok w' acct /\ (base = "" <-> acct = false).
Proof.
  intros (H1 & H2 & H3). unfold Wallet.CoinBase. case_decide as Hc.
  - destruct (Wallet.Accounts w) as [|a l] eqn:E.
    + exists w, "". split; [done|]. split; [done|]. split; [intros _|done].
      destruct acct; [|done]. destruct (proj1 H2 eq_refl). apply map_empty. intros i.
      apply eq_None_not_Some. intros Hi%Accounts_elem. rewrite E in Hi. by apply elem_of_nil in Hi.
    + assert (Ha : is_Some (Wallet.accounts w !! a)) by (apply Accounts_elem; rewrite E; left).
      assert (Hne : a <> "") by (intros ->; rewrite H1 in Ha; by destruct Ha).
      assert (Hacct : acct = true).
      { apply H2. intros E0. rewrite E0, lookup_empty in Ha. by destruct Ha. }
      exists (Wallet.mkWallet (Wallet.accounts w) a), a. split; [done|]. split; [by split_and!|].
      split; [done|]. intros ->. done.
  - exists w, (Wallet.current w). split; [done|]. split; [done|]. split; [done|]. intros ->. by specialize (H3 Hc).
Qed.

Lemma SetCoinBase_ok w acct a : wallet_ok w acct -> a <> "" -> wallet_ok (Wallet.SetCoinBase w a) true.
Proof.
  intros (H1 & _) Ha. split; [|split; [|done]]; cbn.
  - by rewrite lookup_insert_ne.
  - split; [intros _; apply insert_non_empty|done].
Qed.
Lemma CreateAccount_ok w acct a : wallet_ok w acct -> a <> "" -> wallet_ok (fst (Wallet.CreateAccount w a)) true.
Proof.
  intros (H1 & _) Ha. split; [|split; [|done]]; cbn.
  - by rewrite lookup_insert_ne.
  - split; [intros _; apply insert_non_empty|done].
Qed.

(** ** The relation, and what happens between the commands *)
Section session.
Context {St D : Type} `{HS : Stack St}.
Implicit Types (sh : shell St D) (n : node St D).
Context (order : forall A, gmap string A -> list (string * A)) (peerOrder : gmap string nat -> list (string * nat))
  (now : Z) (resolve : string -> option string) (remote : nat -> string) (pick : gmap nat bool -> option nat).
Context (Hord : forall A, range_order (order A)) (Hpick : picks pick).
Notation node_state := (NodeSpec.node_state (order _)).

Definition node_view n (a : mining * bool) : Prop :=
  node_state n a.1 /\ exists w, n_wallet n = Some w /\ wallet_ok w a.2.
Definition released_view n (o : option mining) : Prop :=
  match o with None => all_stopped n | Some m => node_state n m end.

Definition view_of sh (v : view) : Prop :=
  (if v_boot v then exists b, bootNode sh = Some b /\ Bootnode.closed b = false else bootNode sh = None) /\
  match node_ sh, v_node v with
  | Some n, Some a => node_view n a
  | None, None => True
  | _, _ => False
  end /\
  Forall2 released_view (released sh) (v_released v).

(** The world changes peers, ledger, consensus and synchronisation of a node, but
    not its life: statuses, channels, wallet and miner; and the accounts of the next
    snapshot can still be collected. *)
Definition quiet n n' : Prop :=
  status (n_p2p n') = status (n_p2p n) /\ p2p_closed (n_p2p n') = p2p_closed (n_p2p n) /\
  n_conS n' = n_conS n /\ n_wallet n' = n_wallet n /\ n_miner n' = n_miner n /\
  n_syncClosed n' = n_syncClosed n /\ n_scClosed n' = n_scClosed n /\
  n_poolClosed n' = n_poolClosed n /\ n_closed n' = n_closed n /\
  (minable (order _) (n_ledger n) -> minable (order _) (n_ledger n')).

Lemma quiet_state n n' a : quiet n n' -> node_state n a -> node_state n' a.
Proof.
  intros (Q1 & Q2 & Q3 & Q4 & Q5 & Q6 & Q7 & Q8 & Q9 & Q10). unfold NodeSpec.node_state.
  rewrite Q1, Q3, Q4, Q5, Q6, Q7, Q8, Q9. intros (?&?&?&?&?&?&?&?&?). split_and!; auto.
Qed.
Lemma quiet_stopped n n' : quiet n n' -> all_stopped n -> all_stopped n'.
Proof.
  intros (Q1 & Q2 & Q3 & Q4 & Q5 & Q6 & Q7 & Q8 & Q9 & _). unfold all_stopped. rewrite Q1, Q2, Q3, Q5, Q6, Q7, Q8, Q9. done.
Qed.
Lemma quiet_view n n' a : quiet n n' -> node_view n a -> node_view n' a.
Proof.
  intros Q [Hn Hw]. split; [by eapply quiet_state|]. destruct Q as (_ & _ & _ & -> & _). done.
Qed.

(** What a stopped node is told changes nothing that is alive. *)
Lemma heard_stopped c n :
  heard c = true -> all_stopped n ->
  exists n', happen (order _) now pick c n = Ret n' /\ all_stopped n'.
Proof using Hpick.
  intros Hc Hn. pose proof Hn as (H1 & H2 & H3 & H4 & H5 & H6 & H7 & H8).
  destruct c as [| | |t]; try done; cbn [happen].
  - eexists. split; [reflexivity|]. unfold node_DwlDone, dwlDownFn.
    destruct (n_miner n) as [m|] eqn:Em; [|done].
    destruct (m_bus (lend n m)); by split_and!.
  - unfold node_notify. destruct (n_miner n) as [m|] eqn:Em; [|by exists n].
    destruct H8 as (_ & _ & Hr). change (running (m_worker (lend n m))) with (running (m_worker m)). rewrite Hr.
    pose proof (Hpick ∅) as Hp. destruct (pick ∅); [done|]. by exists n.
Qed.

(** An event, or a change of the world. *)
Inductive happening := Event (e : event) | World (f : node St D -> node St D).
Definition seen (h : happening) : option event := match h with Event e => Some e | World _ => None end.
Definition admissible (h : happening) : Prop :=
  match h with
  | Event (Typed i) => control (in_cmd i) = true
  | Event (Told _ c) => heard c = true
  | World f => forall n, quiet n (f n)
  end.

Notation exec := (exec order peerOrder now resolve remote).

Definition change (f : node St D -> node St D) sh : shell St D :=
  {| bootNode := bootNode sh; node_ := f <$> node_ sh; released := f <$> released sh;
     stat_monitor := stat_monitor sh; serving := serving sh |}.

(** The miner of a node is told something. *)
Definition tell (who : option nat) (c : command) sh : outcome (shell St D) :=
  match who with
  | None =>
      match node_ sh with
      | Some n => n ← happen (order _) now pick c n; Ret (set_node sh (Some n))
      | None => Ret sh
      end
  | Some k =>
      match released sh !! k with
      | Some n =>
          n ← happen (order _) now pick c n;
          Ret {| bootNode := bootNode sh; node_ := node_ sh; released := <[k := n]> (released sh);
                 stat_monitor := stat_monitor sh; serving := serving sh |}
      | None => Ret sh
      end
  end.

Fixpoint session (hs : list happening) sh : outcome (shell St D) :=
  match hs with
  | [] => Ret sh
  | Event (Typed i) :: hs => '(sh, _) ← exec i sh; session hs sh
  | Event (Told who c) :: hs => sh ← tell who c sh; session hs sh
  | World f :: hs => session hs (change f sh)
  end.

Lemma change_view f sh v : (forall n, quiet n (f n)) -> view_of sh v -> view_of (change f sh) v.
Proof.
  intros Q (H1 & H2 & H3). split; [done|]. split.
  - cbn. destruct (node_ sh) as [n|], (v_node v); cbn; try done. by eapply quiet_view.
  - cbn. revert H3. generalize (released sh), (v_released v). induction 1 as [|n o ns os Hr _ IH]; [constructor|].
    constructor; [|done]. destruct o; cbn in *; [by eapply quiet_state|by eapply quiet_stopped].
Qed.

(** ** The commands *)
Lemma startNode_state bootAddr port i :
  exists n, startNode bootAddr port i = Ret n /\ node_view n (MOff, false).
Proof using Hord.
  unfold startNode. destruct (genesis_minable (order _) (Hord _)) as (l & El & Hl). rewrite El, bind_ret_l.
  match goal with |- context [NewNode ?c l ?g] => set (cfg := c); set (gt := g) end.
  assert (Ei : exists n : node St D, node_Init (NewNode cfg l gt) = Ret n /\ node_inited (order _) n MOff /\
    n_wallet n = Some Wallet.NewWallet).
  { eexists. split; [reflexivity|]. split; [|done]. by split_and!. }
  destruct Ei as (n0 & -> & Hn0 & Hw0). rewrite bind_ret_l.
  assert (Em : n_miner n0 = None).
  { destruct Hn0 as (_ & _ & _ & _ & _ & _ & _ & _ & Hm). destruct (n_miner n0); [|done]. by destruct Hm. }
  destruct (node_Start_state _ n0 _ Hn0) as (n & E & Hn). exists n. split; [done|]. split; [done|].
  exists Wallet.NewWallet. split.
  - unfold node_Start in E. apply bind_ret_inv in E as (p & _ & E). apply bind_ret_inv in E as (s & _ & E).
    change (n_miner (set_conS (set_p2p n0 p) s)) with (n_miner n0) in E. rewrite Em in E. injection E as <-. exact Hw0.
  - split; [apply lookup_empty|]. split; [|done]. split; [done|]. by intros H%(fun H => H eq_refl).
Qed.

(** The wallet changes, the rest of the node's life does not. *)
Lemma put_wallet_view n m acct w acct' :
  node_view n (m, acct) -> wallet_ok w acct' -> node_view (put_wallet n w) (m, acct').
Proof.
  intros [(H1 & H2 & H3 & H4) _] Hw. split; [|by exists w]. split; [done|]. split; [done|]. by split.
Qed.

Lemma coinBase_view n m acct :
  node_view n (m, acct) ->
  exists n' base, coinBase n = Ret (n', base) /\ node_view n' (m, acct) /\ (base = "" <-> acct = false).
Proof.
  intros Hn. pose proof Hn as (_ & w & Ew & Hw). destruct (CoinBase_ok _ _ Hw) as (w' & base & Ec & Hw' & Hb).
  exists (put_wallet n w'), base. unfold coinBase. rewrite Ew. cbn [deref]. rewrite bind_ret_l, Ec.
  split; [done|]. split; [|done]. by eapply put_wallet_view.
Qed.

(** A command does what the machine does. *)
Definition follows (r : outcome (shell St D * list out)) (v : outcome view) : Prop :=
  match v with
  | Ret v => exists sh o, r = Ret (sh, o) /\ view_of sh v
  | Panic w => r = Panic w
  | Diverge => r = Diverge
  end.

Lemma with_node_none sh v msg f :
  view_of sh v -> v_node v = None -> follows (with_node sh msg f) (Ret v).
Proof.
  intros Hv E. pose proof Hv as (_ & H2 & _). rewrite E in H2. unfold with_node.
  destruct (node_ sh) as [n|]; [done|]. by exists sh, [Text msg].
Qed.

Lemma with_node_some sh v msg f a a' :
  view_of sh v -> v_node v = Some a ->
  (forall n, node_view n a -> exists n' o, f n = Ret (n', o) /\ node_view n' a') ->
  follows (with_node sh msg f) (Ret (mkView (v_boot v) (Some a') (v_released v))).
Proof.
  intros (H1 & H2 & H3) E Hf. rewrite E in H2. unfold with_node.
  destruct (node_ sh) as [n|] eqn:En; [|done]. destruct (Hf n H2) as (n' & o & -> & Hn').
  rewrite bind_ret_l. exists (set_node sh (Some n')), o. split; [done|]. by split_and!.
Qed.

Lemma view_id v a : v_node v = Some a -> mkView (v_boot v) (Some a) (v_released v) = v.
Proof. by destruct v; cbn; intros ->. Qed.

(** The view itself, when the command leaves it. *)
Lemma with_node_same sh v msg f :
  view_of sh v ->
  (forall n a, v_node v = Some a -> node_view n a -> exists n' o, f n = Ret (n', o) /\ node_view n' a) ->
  follows (with_node sh msg f) (Ret v).
Proof.
  intros Hv Hf. destruct (v_node v) as [a|] eqn:E; [|by apply with_node_none].
  rewrite <- (view_id v a E). apply (with_node_some sh v msg f a a); [done..|]. intros n. by apply Hf.
Qed.

Lemma miner_start_follows sh v :
  view_of sh v ->
  follows (miner_start sh)
    (match v_node v with
     | Some (m, true) => Ret (mkView (v_boot v) (Some (spec_start m, true)) (v_released v))
     | _ => Ret v
     end).
Proof.
  intros Hv. unfold miner_start. destruct (v_node v) as [[m [|]]|] eqn:E; [| |by apply with_node_none].
  - apply (with_node_some sh v _ _ (m, true)); [done..|]. intros n Hn.
    destruct (coinBase_view n m true Hn) as (n1 & base & -> & [Hn1 (w & Ew & Hw)] & Hb). rewrite bind_ret_l.
    rewrite decide_False by (intros Hc; by apply Hb in Hc). destruct (StartMiner_state _ n1 m Hn1) as (n2 & E2 & Hn2).
    rewrite E2, bind_ret_l. do 2 eexists. split; [done|]. split; [exact Hn2|].
    cbn [snd]. revert E2. unfold StartMiner. destruct (n_miner n1) as [mi|].
    + rewrite bind_ret_l. intros [= <-]. by exists w.
    + rewrite Ew. cbn [deref]. rewrite bind_ret_l. destruct (CoinBase_ok _ _ Hw) as (w' & base' & -> & Hw' & _).
      intros ([n3 m3] & Enm & [= <-])%bind_ret_inv. apply bind_ret_inv in Enm as (mi & _ & [= <- <-]). by exists w'.
  - apply with_node_same; [done|]. intros n a Ea Hn. rewrite E in Ea. injection Ea as <-.
    destruct (coinBase_view n m false Hn) as (n1 & base & -> & Hn1 & Hb). rewrite bind_ret_l.
    rewrite (proj2 Hb eq_refl), decide_True by done. by do 2 eexists.
Qed.

(** A node that is dropped, stopped or running. *)
Lemma drop_follows sh v m acct n (op : node St D -> outcome (node St D)) msg g :
  view_of sh v -> node_ sh = Some n -> v_node v = Some (m, acct) ->
  match spec_stop m with
  | Ret m' => exists n', op n = Ret n' /\ released_view n' (g m')
  | Panic w => op n = Panic w
  | Diverge => op n = Diverge
  end ->
  follows (n ← op n; (say (drop_node sh n) msg : outcome (shell St D * list out)))
    (m ← spec_stop m; Ret (mkView (v_boot v) None (v_released v ++ [g m]))).
Proof.
  intros (H1 & _ & H3) En Ev Ho. destruct (spec_stop m) as [m'|w|]; cbn; [|by rewrite Ho..].
  destruct Ho as (n' & -> & Hr). rewrite bind_ret_l. eexists _, _. split; [reflexivity|].
  split; [done|]. split; [done|]. cbn. apply Forall2_app; [done|]. by constructor.
Qed.

Lemma node_stop_follows sh v :
  view_of sh v ->
  follows (node_stop sh)
    (match v_node v with
     | Some (m, _) => _ ← spec_stop m; Ret (mkView (v_boot v) None (v_released v ++ [None]))
     | None => Ret v
     end).
Proof.
  intros Hv. pose proof Hv as (_ & H2 & _). unfold node_stop.
  destruct (node_ sh) as [n|] eqn:En, (v_node v) as [[m acct]|] eqn:Ev; try done; [|by exists sh, [Text "node has stopped."]].
  apply (drop_follows sh v m acct n node_Stop _ (fun _ => None)); [done..|]. apply (node_Stop_state (order _)), H2.
Qed.

Lemma miner_stop_follows sh v :
  view_of sh v ->
  follows (miner_stop sh)
    (match v_node v with
     | Some (m, _) => m ← spec_stop m; Ret (mkView (v_boot v) None (v_released v ++ [Some m]))
     | None => Ret v
     end).
Proof.
  intros Hv. pose proof Hv as (_ & H2 & _). unfold miner_stop.
  destruct (node_ sh) as [n|] eqn:En, (v_node v) as [[m acct]|] eqn:Ev; try done;
    [|by exists sh, [Text "node should be stopped."]].
  apply (drop_follows sh v m acct n StopMiner _ Some); [done..|]. apply StopMiner_state, H2.
Qed.

Lemma node_start_follows lines sh v :
  view_of sh v ->
  follows (node_start resolve lines sh)
    (match v_node v with
     | None => Ret (mkView (v_boot v) (Some (MOff, false)) (v_released v))
     | Some _ => Ret v
     end).
Proof.
  intros Hv. pose proof Hv as (H1 & H2 & H3). unfold node_start.
  destruct (node_ sh) as [n|] eqn:En, (v_node v) as [a|] eqn:Ev; try done; [by exists sh, [Text "node has started."]|].
  destruct (Atoi (lines 1%nat)) as [port _].
  match goal with |- context [let '(_, _) := ?x in _] => destruct x as [bootAddr msg] end.
  destruct (startNode_state bootAddr port (lines 0%nat)) as (n & -> & Hn). rewrite bind_ret_l.
  eexists _, _. split; [reflexivity|]. by split_and!.
Qed.

Lemma account_set_follows i sh v :
  in_cmd i = CAccountSet -> view_of sh v ->
  follows (account_set (in_args i) (in_lines i) sh)
    (match v_node v with
     | Some (m, acct) => Ret (if decide (typed_address i = "") then v
                              else mkView (v_boot v) (Some (m, true)) (v_released v))
     | None => Ret v
     end).
Proof.
  intros Ec Hv. unfold account_set, typed_address. rewrite Ec.
  destruct (v_node v) as [[m acct]|] eqn:E; [|by apply with_node_none].
  set (ao := match in_args i with [a] => (a, []) | _ => (in_lines i 0%nat, [Text "Address: "]) end).
  replace (match in_args i with [a] => a | _ => in_lines i 0%nat end) with ao.1
    by (unfold ao; by destruct (in_args i) as [|? [|]]).
  destruct ao as [address o]. cbn [fst]. case_decide as Ha.
  - apply with_node_same; [done|]. intros n a _ Hn. by do 2 eexists.
  - apply (with_node_some sh v _ _ (m, acct)); [done..|]. intros n Hn. pose proof Hn as (_ & w & Ew & Hw).
    rewrite Ew. cbn [deref]. rewrite bind_ret_l. do 2 eexists. split; [done|].
    eapply put_wallet_view; [done|]. by eapply SetCoinBase_ok.
Qed.

Lemma account_create_follows i sh v :
  in_cmd i = CAccountCreate -> view_of sh v ->
  follows (account_create (in_lines i) sh)
    (match v_node v with
     | Some (m, acct) => Ret (if decide (typed_address i = "") then v
                              else mkView (v_boot v) (Some (m, true)) (v_released v))
     | None => Ret v
     end).
Proof.
  intros Ec Hv. unfold account_create, typed_address. rewrite Ec.
  destruct (v_node v) as [[m acct]|] eqn:E; [|by apply with_node_none]. case_decide as Ha.
  - apply with_node_same; [done|]. intros n a _ Hn. by do 2 eexists.
  - apply (with_node_some sh v _ _ (m, acct)); [done..|]. intros n Hn. pose proof Hn as (_ & w & Ew & Hw).
    rewrite Ew. cbn [deref]. rewrite bind_ret_l. do 2 eexists. split; [done|].
    eapply put_wallet_view; [done|]. by eapply CreateAccount_ok.
Qed.

(** The boot node. *)
Lemma boot_follows i sh v :
  (in_cmd i = CBootStart \/ in_cmd i = CBootStop \/ in_cmd i = CBootList) -> view_of sh v ->
  follows (exec i sh) (v_exec i v).
Proof.
  intros Hc Hv. pose proof Hv as (H1 & H2 & H3). unfold v_exec, Shell.exec.
  destruct Hc as [-> | [-> | ->]]; unfold boot_start, boot_stop, boot_list.
  - destruct (bootNode sh) as [b|] eqn:Eb.
    + do 2 eexists. split; [reflexivity|]. split; [|by split].
      destruct (v_boot v); [|done]. destruct H1 as (b' & Eb' & Hb'). cbn. rewrite Eb. by exists b'.
    + do 2 eexists. split; [reflexivity|]. split; [|by split]. cbn. unfold startBoot, Bootnode.NewBoot.
      case_decide as E0; [case_decide; done|]. by eexists.
  - destruct (bootNode sh) as [b|] eqn:Eb.
    + destruct (v_boot v); [|done]. destruct H1 as (b' & [= <-] & Hb'). unfold Bootnode.Stop. rewrite Hb'.
      rewrite bind_ret_l. do 2 eexists. split; [reflexivity|]. by split.
    + do 2 eexists. split; [reflexivity|]. split; [done|by split].
  - destruct (bootNode sh) as [b|] eqn:Eb; do 2 eexists; (split; [reflexivity|exact Hv]).
Qed.

Lemma exec_follows i sh v :
  control (in_cmd i) = true -> view_of sh v -> follows (exec i sh) (v_exec i v).
Proof.
  intros Hc Hv. destruct (in_cmd i) eqn:Ec; try done; try (apply boot_follows; [tauto|done]);
    unfold v_exec, Shell.exec; rewrite Ec.
  - by apply node_start_follows.
  - by apply node_stop_follows.
  - by apply miner_start_follows.
  - by apply miner_stop_follows.
  - by apply account_set_follows.
  - by apply account_create_follows.
  - apply with_node_same; [done|]. intros n [m acct] _ Hn.
    destruct (coinBase_view n m acct Hn) as (n1 & base & -> & Hn1 & _). rewrite bind_ret_l.
    case_decide; by do 2 eexists.
  - apply with_node_same; [done|]. intros n [m acct] _ Hn. unfold address_arg.
    destruct (coinBase_view n m acct Hn) as (n1 & base & -> & Hn1 & _). rewrite !bind_ret_l.
    by do 2 eexists.
  - unfold sblock_detail. fold (typed_height i).
    destruct (v_node v) as [a|] eqn:Ev; [|by apply with_node_none]. case_decide as Hh.
    + pose proof Hv as (_ & H2 & _). rewrite Ev in H2. unfold with_node. destruct (node_ sh); [|done].
      cbn. unfold Blockchain.GetSnapshotByHeight_, SnapshotChain.GetBlockHeight. by rewrite decide_True.
    + apply with_node_same; [done|]. intros n a' _ Hn. cbn.
      unfold Blockchain.GetSnapshotByHeight_, SnapshotChain.GetBlockHeight. rewrite decide_False by done.
      by do 2 eexists.
  - do 2 eexists. split; [reflexivity|exact Hv].
Qed.

(** What a miner is told. *)
Lemma tell_node c n m acct :
  heard c = true -> node_view n (m, acct) ->
  exists n' m', happen (order _) now pick c n = Ret n' /\ spec_cmd c m = Ret m' /\ node_view n' (m', acct).
Proof using Hpick.
  intros Hc [Hn (w & Ew & Hw)]. pose proof (happen_state (order _) now pick Hpick c n m Hn) as Hs.
  assert (Em : exists m', spec_cmd c m = Ret m') by (destruct c; try done; by eexists).
  destruct Em as [m' Em]. rewrite Em in Hs. destruct Hs as (n' & E & Hn'). exists n', m'. split; [done|]. split; [done|].
  split; [done|]. exists w. split; [|done]. rewrite <- Ew.
  destruct c as [| | |t]; try done; cbn [happen] in E.
  - injection E as <-. unfold node_DwlDone. by destruct (n_miner n).
  - unfold node_notify in E. destruct (n_miner n); [|by injection E as <-]. destruct (pick _); [|by injection E as <-].
    by apply bind_ret_inv in E as (w' & _ & [= <-]).
Qed.

Lemma tell_follows who c sh v :
  heard c = true -> view_of sh v ->
  exists sh' v', tell who c sh = Ret sh' /\ v_tell who c v = Ret v' /\ view_of sh' v'.
Proof using Hpick.
  intros Hc Hv. pose proof Hv as (H1 & H2 & H3). destruct who as [k|]; unfold tell, v_tell.
  - destruct (released sh !! k) as [n|] eqn:En.
    + destruct (Forall2_lookup_l _ _ _ _ _ H3 En) as (o & Eo & Hn). rewrite Eo. destruct o as [m|].
      * pose proof (happen_state (order _) now pick Hpick c n m Hn) as Hs.
        assert (Em : exists m', spec_cmd c m = Ret m') by (destruct c; try done; by eexists).
        destruct Em as [m' Em]. rewrite Em in Hs. destruct Hs as (n' & E & Hn'). rewrite E, Em, !bind_ret_l.
        do 2 eexists. split; [done|]. split; [done|]. split; [done|]. split; [done|]. by apply Forall2_insert.
      * destruct (heard_stopped c n Hc Hn) as (n' & E & Hn'). rewrite E, bind_ret_l.
        do 2 eexists. split; [done|]. split; [done|]. split; [done|]. split; [done|]. cbn.
        rewrite <- (list_insert_id (v_released v) k None) by done. by apply Forall2_insert.
    + assert (Eo : v_released v !! k = None) by (apply lookup_ge_None; rewrite <- (Forall2_length _ _ _ H3); by apply lookup_ge_None).
      rewrite Eo. by exists sh, v.
  - destruct (node_ sh) as [n|] eqn:En, (v_node v) as [[m acct]|] eqn:Ev; try done; [|by exists sh, v].
    destruct (tell_node c n m acct Hc H2) as (n' & m' & -> & -> & Hn'). rewrite !bind_ret_l.
    do 2 eexists. split; [done|]. split; [done|]. by split_and!.
Qed.

Lemma session_follows hs sh v :
  Forall admissible hs -> view_of sh v ->
  match v_run (omap seen hs) v with
  | Ret v => exists sh', session hs sh = Ret sh' /\ view_of sh' v
  | Panic w => session hs sh = Panic w
  | Diverge => session hs sh = Diverge
  end.
Proof using Hord Hpick.
  revert sh v. induction hs as [|[[i|who c]|f] hs IH]; intros sh v Ha Hv; cbn [session omap list_omap seen v_run v_step].
  - by exists sh.
  - apply Forall_cons in Ha as [Hi Ha]. pose proof (exec_follows i sh v Hi Hv) as F.
    destruct (v_exec i v) as [v1|w|]; [|cbn in F; by rewrite F..].
    destruct F as (sh1 & o & -> & Hv1). rewrite !bind_ret_l. by apply IH.
  - apply Forall_cons in Ha as [Hc Ha]. destruct (tell_follows who c sh v Hc Hv) as (sh1 & v1 & -> & -> & Hv1).
    rewrite !bind_ret_l. by apply IH.
  - apply Forall_cons in Ha as [Hf Ha]. apply IH; [done|]. by apply change_view.
Qed.
End session.


(** Inputs without arguments, with one typed line. *)
Definition type (c : cmd) (line : string) : event := Typed (mkInput c [] (fun _ => line)).

(** A node whose miner was stopped runs on, unknown to the shell; a miner that was
    started twice, or notified, makes [node stop] hang; [sblock detail] without a
    height ends the process. *)
Example session_examples :
  v_run [type CNodeStart "a"; type CAccountSet "a"; type CMinerStart ""; type CMinerStop ""; type CNodeStop ""] view0
    = Ret (mkView false None [Some MStopped]) /\
  v_run [type CNodeStart "a"; type CAccountSet "a"; type CMinerStart ""; type CMinerStart ""; type CNodeStop ""] view0
    = Diverge /\
  v_run [type CNodeStart "a"; type CAccountSet "a"; type CMinerStart ""; Told None (CNotify 7); type CMinerStop ""] view0
    = Diverge /\
  v_run [type CNodeStart "a"; type CSBlockDetail ""] view0 = Panic "height:-1" /\
  v_run [type CNodeStart "a"; type CMinerStart ""; type CNodeStop ""; type CNodeStart "b"] view0
    = Ret (mkView false (Some (MOff, false)) [None]).
Proof. by split_and!. Qed.


(** [sblock list] is the one command that does not look whether there is a node. *)
Lemma sblock_list_panics {St D} `{Stack St} (m : Counters.monitor) :
  sblock_list (start_shell m : shell St D) = Panic "nil dereference".
Proof. reflexivity. Qed.

(** ** Numbers typed at the prompt *)
Lemma digits_cases (P : N -> Prop) :
  P 0%N -> P 1%N -> P 2%N -> P 3%N -> P 4%N -> P 5%N -> P 6%N -> P 7%N -> P 8%N -> P 9%N ->
  forall d, (d < 10)%N -> P d.
Proof.
  intros. destruct (decide (d = 0)%N); [by subst|]. destruct (decide (d = 1)%N); [by subst|].
  destruct (decide (d = 2)%N); [by subst|]. destruct (decide (d = 3)%N); [by subst|].
  destruct (decide (d = 4)%N); [by subst|]. destruct (decide (d = 5)%N); [by subst|].
  destruct (decide (d = 6)%N); [by subst|]. destruct (decide (d = 7)%N); [by subst|].
  destruct (decide (d = 8)%N); [by subst|]. by replace d with 9%N by lia.
Qed.

Lemma div_mod_10 n : (0 < n -> n / 10 < n)%N /\ (n mod 10 < 10)%N /\ (n = 10 * (n / 10) + n mod 10)%N.
Proof.
  split_and!; [intros; by apply N.div_lt; lia|by apply N.mod_lt|by apply N.div_mod].
Qed.

Lemma digit_char d : (d < 10)%N -> digit (pretty_N_char d) = Some (Z.of_N d).
Proof. revert d. by apply digits_cases. Qed.

Lemma ParseUint_loop_pretty n s :
  Z.of_N n < 2 ^ 64 -> ParseUint_loop 0 (pretty_N_go n s) = ParseUint_loop (Z.of_N n) s.
Proof.
  revert s. induction (N.lt_wf_0 n) as [n _ IH]; intros s Hn.
  destruct (decide (n = 0)%N) as [->|H0]; [by rewrite pretty_N_go_0|].
  destruct (div_mod_10 n) as (Hd & Hm & E). rewrite pretty_N_go_step by lia.
  rewrite IH by lia. cbn [ParseUint_loop]. rewrite digit_char by done.
  replace (10 * Z.of_N (n / 10) + Z.of_N (n mod 10)) with (Z.of_N n) by lia.
  by rewrite decide_False by lia.
Qed.

Lemma pretty_N_go_first n s :
  (0 < n)%N -> exists d s', (d < 10)%N /\ pretty_N_go n s = String (pretty_N_char d) s'.
Proof.
  revert s. induction (N.lt_wf_0 n) as [n _ IH]; intros s Hn.
  destruct (div_mod_10 n) as (Hd & Hm & _). rewrite pretty_N_go_step by done.
  destruct (decide (n / 10 = 0)%N) as [->|H0].
  - rewrite pretty_N_go_0. by exists (n mod 10)%N, s.
  - apply IH; [by apply Hd|]. by destruct (n / 10)%N.
Qed.

(** [Atoi] on a string of digits, and after a minus sign. *)
Lemma Atoi_digits p :
  Z.pos p < 2 ^ 64 ->
  Atoi (pretty (N.pos p)) = (if decide (2 ^ 63 <= Z.pos p) then (2 ^ 63 - 1, Some ErrRange) else (Z.pos p, None)) /\
  Atoi (String "-" (pretty (N.pos p))) =
    (if decide (2 ^ 63 < Z.pos p) then (- 2 ^ 63, Some ErrRange) else (Z.neg p, None)).
Proof.
  intros Hp. assert (E : pretty (N.pos p) = pretty_N_go (N.pos p) "") by done. rewrite E.
  pose proof (ParseUint_loop_pretty (N.pos p) "" Hp) as El. cbn [ParseUint_loop Z.of_N] in El.
  destruct (pretty_N_go_first (N.pos p) "") as (d & s' & Hd & Es); [lia|]. rewrite Es in *.
  assert (Eu : ParseUint (String (pretty_N_char d) s') = (Z.pos p, None)) by exact El.
  unfold Atoi. split; [|by rewrite Eu].
  assert (Em : match String (pretty_N_char d) s' with
    | String "-" s'0 => (true, s'0) | String "+" s'0 => (false, s'0) | _ => (false, String (pretty_N_char d) s') end
    = (false, String (pretty_N_char d) s')) by (clear - Hd; revert d Hd; by apply digits_cases).
  rewrite Em, Eu. done.
Qed.

(** What is printed can be typed.  [Atoi] gives back every number that [Itoa]
    prints, without an error, over the whole range of [int]. *)
Theorem Atoi_Itoa z : in64 z -> Atoi (Itoa z) = (z, None).
Proof.
  intros Hz. unfold in64 in Hz. destruct z as [|p|p]; [done| |].
  - destruct (Atoi_digits p) as [E _]; [lia|]. unfold Itoa. change (pretty (Z.pos p)) with (pretty (N.pos p)).
    by rewrite E, decide_False by lia.
  - destruct (Atoi_digits p) as [_ E]; [lia|]. unfold Itoa.
    change (pretty (Z.neg p)) with (String "-" (pretty (N.pos p))). by rewrite E, decide_False by lia.
Qed.
Lemma Atoi_Itoa_witness : Atoi (Itoa (-9223372036854775808)) = (-9223372036854775808, None).
Proof. apply Atoi_Itoa. split; [discriminate|reflexivity]. Defined.

(** What is not a number is read as a number too. *)
Example Atoi_errors :
  Atoi "12x" = (0, Some ErrSyntax) /\ Atoi "" = (0, Some ErrSyntax) /\ Atoi "+7" = (7, None) /\
  Atoi "99999999999999999999" = (2 ^ 63 - 1, Some ErrRange).
Proof. by vm_compute. Qed.
