(* ===== verification/V0_1.v ===== *)
(** * V0_1: the first version of the chain ([examples/v0_1.go])

    A self-contained server: the accounts and the snapshot chain are global maps,
    transactions travel over unbuffered channels between goroutines.  The first part
    of this file is the data and the functions, the second the goroutines as a
    machine with one labelled step per blocking point. *)
From Stdlib Require Import Ascii.
From S2P Require Import Prelude.
From S2P Require Import Common.
From S2P Require Import HashCal.
From S2P Require Import Shell.

(** ** Data *)
Record Tx := mkTx {
  TxType : Z; (* 1: send  2: received *)
  AccountNonce : Z;
  tx_Amount : Z;
  From : string;
  To : string;
  tx_Hash : string;
  Source : string;
  tx_Signer : string
}.

Record AccountStateBlock := mkAccount {
  Nonce : Z;
  Timestamp : string;
  Amount : Z;
  Hash : string;
  PreHash : string;
  Signer : string;
  SnapshotHeight : Z;
  SnapshotHash : string;
  block_Tx : option Tx
}.

Record SnapshotBlock := mkSnapshot {
  Height : Z;
  s_Timestamp : string;
  s_PreHash : string;
  s_Signer : string;
  AccountsHash : string;
  s_Hash : string
}.

#[export] Instance Tx_eq_dec : EqDecision Tx.
Proof. solve_decision. Defined.
#[export] Instance AccountStateBlock_eq_dec : EqDecision AccountStateBlock.
Proof. solve_decision. Defined.

(** The zero values, which a map answers for a missing key. *)
Definition zero_account : AccountStateBlock := mkAccount 0 "" 0 "" "" "" 0 "" None.
Definition zero_snapshot : SnapshotBlock := mkSnapshot 0 "" "" "" "" "".

(** The variables of the package.  A channel of a node is named by the connection
    that made it. *)
Record globals := mkGlobals {
  accountStateBlockChain : gmap string AccountStateBlock;
  snapshotBlockChain : SnapshotBlock;
  txDB : gmap string Tx;
  stateBlockDB : gmap string AccountStateBlock;
  nodes : gmap string nat;
  snapshotAccountMap : gmap string (gmap string string);
  snapshotDB : gmap string SnapshotBlock;
  stateSnapshotMap : gmap string bool
}.

Definition empty_globals : globals := mkGlobals ∅ zero_snapshot ∅ ∅ ∅ ∅ ∅ ∅.
Definition set_chain g c db txs : globals :=
  mkGlobals c (snapshotBlockChain g) txs db (nodes g) (snapshotAccountMap g) (snapshotDB g) (stateSnapshotMap g).
Definition set_nodes g ns c db : globals :=
  mkGlobals c (snapshotBlockChain g) (txDB g) db ns (snapshotAccountMap g) (snapshotDB g) (stateSnapshotMap g).

(** ** Hashes

    [string(n)] of an integer is the UTF-8 form of the character [n]; what is not a
    character is U+FFFD. *)
Definition byte_char (n : Z) : ascii := ascii_of_nat (Z.to_nat n).
Definition rune_string (n : Z) : string :=
  let tail k := byte_char (128 + (n / 2 ^ k) `mod` 64) in
  if decide (n < 0 \/ 0x10FFFF < n \/ 0xD800 <= n <= 0xDFFF)
  then String (byte_char 0xEF) (String (byte_char 0xBF) (String (byte_char 0xBD) ""))
  else if decide (n < 0x80) then String (byte_char n) ""
  else if decide (n < 0x800) then String (byte_char (192 + n / 2 ^ 6)) (String (tail 0) "")
  else if decide (n < 0x10000)
  then String (byte_char (224 + n / 2 ^ 12)) (String (tail 6) (String (tail 0) ""))
  else String (byte_char (240 + n / 2 ^ 18)) (String (tail 12) (String (tail 6) (String (tail 0) ""))).

Definition calculateHash (s : string) : string :=
  Sha256.EncodeToString (Sha256.sum256 (Sha256.bytes_of_string s)).

Definition calculateTxHash (tx : Tx) : string :=
  calculateHash (rune_string (tx_Amount tx) +:+ rune_string (AccountNonce tx) +:+ From tx +:+ To tx +:+
                 Source tx +:+ tx_Signer tx).

Definition accountRecord (block : AccountStateBlock) : string :=
  rune_string (Nonce block) +:+ Timestamp block +:+ rune_string (Amount block) +:+ PreHash block +:+
  Signer block +:+ SnapshotHash block +:+ rune_string (SnapshotHeight block).

Definition calculateAccountBlockHash (block : AccountStateBlock) : string :=
  match block_Tx block with
  | None => calculateHash (accountRecord block)
  | Some tx => calculateHash (accountRecord block +:+ tx_Hash tx)
  end.

Definition calculateSnapshotHash (block : SnapshotBlock) : string :=
  calculateHash (s_Timestamp block +:+ s_Signer block +:+ s_PreHash block +:+ AccountsHash block).

(** ** Signing and validating *)
Definition signTx (tx : Tx) (from : string) : Tx :=
  let tx := mkTx (TxType tx) (AccountNonce tx) (tx_Amount tx) (From tx) (To tx) (tx_Hash tx) (Source tx) from in
  mkTx (TxType tx) (AccountNonce tx) (tx_Amount tx) (From tx) (To tx) (calculateTxHash tx) (Source tx) from.

Definition with_signer (block : AccountStateBlock) (signer hash : string) : AccountStateBlock :=
  mkAccount (Nonce block) (Timestamp block) (Amount block) hash (PreHash block) signer
    (SnapshotHeight block) (SnapshotHash block) (block_Tx block).
Definition signAccountStateBlock (block : AccountStateBlock) (address : string) : AccountStateBlock :=
  let block := with_signer block address (Hash block) in
  with_signer block address (calculateAccountBlockHash block).

Definition signSnapshotBlock (signer : string) (block : SnapshotBlock) : SnapshotBlock :=
  let block := mkSnapshot (Height block) (s_Timestamp block) (s_PreHash block) signer (AccountsHash block) (s_Hash block) in
  mkSnapshot (Height block) (s_Timestamp block) (s_PreHash block) signer (AccountsHash block)
    (calculateSnapshotHash block).

Definition validateTx (tx : Tx) : bool := bool_decide (tx_Hash tx = calculateTxHash tx).

(** The transaction is a pointer; a block that has none panics once its hash is right. *)
Definition validateAccountStateBlock (block : AccountStateBlock) : outcome bool :=
  if decide (Hash block = calculateAccountBlockHash block)
  then tx ← deref (block_Tx block) "nil dereference"; Ret (validateTx tx)
  else Ret false.

Definition validateSnapshotBlock (block : SnapshotBlock) : bool :=
  bool_decide (s_Hash block = calculateSnapshotHash block).

(** ** The maps *)
Section operations.
Implicit Types (g : globals).

Definition myAccountBlockChain g (node : string) : AccountStateBlock :=
  default zero_account (accountStateBlockChain g !! node).
Definition existsAccountBlockChain g (node : string) : bool :=
  bool_decide (is_Some (accountStateBlockChain g !! node)).
Definition getAccountState g (hash : string) : AccountStateBlock := default zero_account (stateBlockDB g !! hash).
Definition getSnapshotBlock g (hash : string) : SnapshotBlock := default zero_snapshot (snapshotDB g !! hash).

(** ** Building transactions and blocks; [now] is the clock in its printed form. *)
Definition generateSendTx g (from to : string) (amount : Z) : Tx :=
  mkTx 1 (wrap64 (Nonce (myAccountBlockChain g from) + 1)) amount from to "" "" "".
Definition generateReceivedTx g (send : Tx) : Tx :=
  mkTx 2 (wrap64 (Nonce (myAccountBlockChain g (To send)) + 1)) (tx_Amount send) (From send) (To send) ""
    (tx_Hash send) "".

Definition generateFromAccountStateBlock (now : string) (oldBlock : AccountStateBlock) (tx : Tx)
    (snapshotHeight : Z) (snapshotHash : string) : AccountStateBlock :=
  mkAccount (wrap64 (Nonce oldBlock + 1)) now (wrap64 (Amount oldBlock - tx_Amount tx)) "" (Hash oldBlock) ""
    snapshotHeight snapshotHash (Some tx).
Definition generateToAccountStateBlock (now : string) (oldBlock : AccountStateBlock) (tx : Tx)
    (snapshotHeight : Z) (snapshotHash : string) : AccountStateBlock :=
  mkAccount (wrap64 (Nonce oldBlock + 1)) now (wrap64 (Amount oldBlock + tx_Amount tx)) "" (Hash oldBlock) ""
    snapshotHeight snapshotHash (Some tx).
Definition generateGenesisAccountStateBlock (now : string) (initBalance : Z) (address : string)
    (snapshotHeight : Z) (snapshotHash : string) : AccountStateBlock :=
  mkAccount 0 now initBalance "" "" address snapshotHeight snapshotHash None.

(** [initNode] and [destoryNode]: the account begins again with every connection. *)
Definition genesis_of (now : string) g (node : string) : AccountStateBlock :=
  signAccountStateBlock
    (generateGenesisAccountStateBlock now 100 node (Height (snapshotBlockChain g)) (s_Hash (snapshotBlockChain g))) node.
Definition initNode (now : string) g (node : string) (ch : nat) : globals :=
  let block := genesis_of now g node in
  set_nodes g (<[node := ch]> (nodes g)) (<[node := block]> (accountStateBlockChain g))
    (<[Hash block := block]> (stateBlockDB g)).
Definition destoryNode g (node : string) : globals :=
  set_nodes g (delete node (nodes g)) (delete node (accountStateBlockChain g)) (stateBlockDB g).

Definition appendAccountStateBlockChain g (node : string) (block : AccountStateBlock) : outcome (globals * bool) :=
  valid ← validateAccountStateBlock block;
  if negb valid then Ret (g, false)
  else
    let current := myAccountBlockChain g node in
    if decide (Hash current = PreHash block) then
      tx ← deref (block_Tx block) "nil dereference";
      Ret (set_chain g (<[node := block]> (accountStateBlockChain g)) (<[Hash block := block]> (stateBlockDB g))
             (<[tx_Hash tx := tx]> (txDB g)), true)
    else Ret (g, false).

(** [submitTx] and the body of [receiveTx] up to the append. *)
Definition send_block (now : string) g (from to : string) (amount : Z) : AccountStateBlock :=
  let chain := myAccountBlockChain g from in
  let tx := signTx (generateSendTx g from to amount) from in
  signAccountStateBlock
    (generateFromAccountStateBlock now chain tx (Height (snapshotBlockChain g)) (s_Hash (snapshotBlockChain g))) from.
Definition receive_block (now : string) g (node : string) (send : Tx) : AccountStateBlock :=
  let receiveTx := signTx (generateReceivedTx g send) node in
  let chain := myAccountBlockChain g node in
  signAccountStateBlock
    (generateToAccountStateBlock now chain receiveTx (Height (snapshotBlockChain g)) (s_Hash (snapshotBlockChain g))) node.

(** The walk along the previous hashes has no bound in the code. *)
Fixpoint lookup_loop (fuel : nat) g (sourceHash : string) (block : AccountStateBlock) : outcome bool :=
  match fuel with
  | O => Diverge
  | S fuel =>
      let repeated :=
        match block_Tx block with
        | Some tx => bool_decide (TxType tx = 2 /\ sourceHash = Source tx)
        | None => false
        end in
      if repeated then Ret true
      else if decide (PreHash block = "") then Ret false
      else lookup_loop fuel g sourceHash (getAccountState g (PreHash block))
  end.
Definition lookupOtherReceiveTx g (node : string) (sendTx : Tx) : outcome bool :=
  let chain := myAccountBlockChain g node in
  lookup_loop (S (S (size (stateBlockDB g)))) g (tx_Hash sendTx) chain.

(** ** The snapshot chain

    [marshal] is [json.Marshal] of a map; the block and its map do not depend on the
    order in which the accounts are visited. *)
Context (marshal : gmap string string -> string).

Definition generateGenesisSnapshotBlock : SnapshotBlock * gmap string string :=
  let accounts := ∅ in (mkSnapshot 0 "today" "" "" (marshal accounts) "", accounts).

Definition snapshotted g (hash : string) : bool := default false (stateSnapshotMap g !! hash).
Definition generateSnapshotBlock (now : string) g (current : SnapshotBlock) : SnapshotBlock * gmap string string :=
  let accounts := Hash <$> filter (fun p => snapshotted g (Hash p.2) = false) (accountStateBlockChain g) in
  (mkSnapshot (wrap64 (Height current + 1)) now (s_Hash current) "" (marshal accounts) "", accounts).

(** Up to the send on [broadcastSnapshotBlock], which is a step of the machine below. *)
Definition appendSnapshotBlockChain g (block : SnapshotBlock) (accounts : gmap string string) : globals * bool :=
  if negb (validateSnapshotBlock block) then (g, false)
  else if decide (Height block <> 0 /\ s_Hash (snapshotBlockChain g) <> s_PreHash block) then (g, false)
  else (mkGlobals (accountStateBlockChain g) block (txDB g) (stateBlockDB g) (nodes g)
          (<[AccountsHash block := accounts]> (snapshotAccountMap g)) (<[s_Hash block := block]> (snapshotDB g))
          (map_fold (fun _ accountHash m => <[accountHash := true]> m) (stateSnapshotMap g) accounts), true).

Definition snapshotChain (now : string) g (address : string) : globals * bool :=
  let current := snapshotBlockChain g in
  let '(block, accounts) := generateSnapshotBlock now g current in
  appendSnapshotBlockChain g (signSnapshotBlock address block) accounts.

Definition initSnapshotChain g : globals :=
  let '(block, accounts) := generateGenesisSnapshotBlock in
  fst (appendSnapshotBlockChain g (signSnapshotBlock "God" block) accounts).

(** ** The reports, printed every ten seconds *)
Fixpoint print_loop (fuel : nat) g (result : string) (tmp : AccountStateBlock) : outcome string :=
  match fuel with
  | O => Diverge
  | S fuel =>
      let result := Itoa (Amount tmp) +:+ result in
      if decide (PreHash tmp = "") then Ret result
      else print_loop fuel g ("->" +:+ result) (getAccountState g (PreHash tmp))
  end.
Definition nl : string := String (ascii_of_nat 10) "".
Definition printAccountBlockChain (order : gmap string AccountStateBlock -> list (string * AccountStateBlock)) g
    (blocks : gmap string AccountStateBlock) : outcome string :=
  foldl (fun r p =>
    result ← r;
    result ← print_loop (S (S (size (stateBlockDB g)))) g result p.2;
    Ret (nl +:+ (p.1 +:+ ":" +:+ result))) (Ret "") (order blocks).

Definition printSnapshotBlock (order : gmap string string -> list (string * string)) g (block : SnapshotBlock) : string :=
  let hash := AccountsHash block in
  let accounts := default ∅ (snapshotAccountMap g !! hash) in
  let result := foldl (fun result p =>
    let state := getAccountState g p.2 in p.1 +:+ "->" +:+ Itoa (Amount state) +:+ "," +:+ result) "" (order accounts) in
  nl +:+ Itoa (Height block) +:+ ":" +:+ result.
Fixpoint printSnapshot_loop (fuel : nat) (order : gmap string string -> list (string * string)) g (result : string)
    (tmp : SnapshotBlock) : outcome string :=
  match fuel with
  | O => Diverge
  | S fuel =>
      let result := printSnapshotBlock order g tmp +:+ result in
      if decide (s_PreHash tmp = "") then Ret result
      else printSnapshot_loop fuel order g result (getSnapshotBlock g (s_PreHash tmp))
  end.
Definition printSnapshotBlockChain (order : gmap string string -> list (string * string)) g (block : SnapshotBlock)
    : outcome string :=
  printSnapshot_loop (S (S (size (snapshotDB g)))) order g "" block.

(** ** The goroutines

    Each of them stops at a channel operation, at the mutex or at the next line of
    its connection; between two stops it is one step.  The reads that precede an
    append are such a step of their own: the code does not lock them. *)

(** The goroutine of a connection. *)
Inductive pc :=
| AskRole
| AskTo                              (* [sendTx], first prompt *)
| AskAmount (to : string)            (* [sendTx], second prompt *)
| Submit (block : AccountStateBlock) (* before [appendAccountStateBlockChain] *)
| Announce (block : AccountStateBlock) (* [broadcastAccountBlock <- block] *)
| SnapshotWait                       (* before [snapshotChain] *)
| SnapshotSend (block : SnapshotBlock) (* [broadcastSnapshotBlock <- block], with the mutex *)
| Parked                             (* [closedChan <- true]: nobody receives *)
| Ended.

(** The goroutine [receiveTx] of a connection. *)
Inductive rpc :=
| RWait
| RGot (tx : Tx)
| RFresh (tx : Tx)
| RAppend (tx : Tx) (block : AccountStateBlock)
| RAnnounce (block : AccountStateBlock).

Record conn := mkConn { address : string; c_pc : pc; receiver : option rpc }.

(** The goroutine that receives account blocks. *)
Inductive bpc := BWait | BSend (tx : Tx) (ch : nat).

Record machine := mkMachine {
  glob : globals;
  conns : list conn;
  broadcaster : bpc;
  chainmutex : bool;
  closedChans : gset nat
}.
Implicit Types (m : machine).

Definition set_glob m g : machine := mkMachine g (conns m) (broadcaster m) (chainmutex m) (closedChans m).
Definition set_conn m (i : nat) (c : conn) : machine :=
  mkMachine (glob m) (<[i := c]> (conns m)) (broadcaster m) (chainmutex m) (closedChans m).
Definition set_broadcaster m b : machine := mkMachine (glob m) (conns m) b (chainmutex m) (closedChans m).
Definition set_mutex m b : machine := mkMachine (glob m) (conns m) (broadcaster m) b (closedChans m).
Definition with_pc (c : conn) p : conn := mkConn (address c) p (receiver c).
Definition with_receiver (c : conn) r : conn := mkConn (address c) (c_pc c) (Some r).

Definition start : machine := mkMachine (initSnapshotChain empty_globals) [] BWait false ∅.

(** A step: what happens, with the clock or the line it reads. *)
Inductive event :=
| EConnect (addr now : string)
| ERole (i : nat) (line : option string) (* [None]: the connection ended *)
| ETo (i : nat) (line : string)
| EAmount (i : nat) (line : option string) (now : string)
| ESubmit (i : nat)
| EAnnounce (i : nat)
| ESnapshot (i : nat) (now : string)
| ESnapshotSent (i : nat)
| EForward
| ELookup (i : nat)
| EReceive (i : nat) (now : string)
| EReceived (i : nat)
| EReceiverAnnounce (i : nat).

(** The body of the loop over [nodes]: the names are distinct, so at most one
    node is the recipient. *)
Definition forward g (block : AccountStateBlock) : bpc :=
  match block_Tx block with
  | Some tx =>
      if decide (TxType tx = 1) then
        match nodes g !! To tx with Some ch => BSend tx ch | None => BWait end
      else BWait
  | None => BWait
  end.

(** The account goroutine receives a block. *)
Definition broadcast m (block : AccountStateBlock) : outcome machine :=
  valid ← validateAccountStateBlock block;
  Ret (if valid : bool then set_broadcaster m (forward (glob m) block) else m).

(** [handleConn] up to [initNode] *)
Definition handleConn (addr : string) (now : string) m : option (outcome machine) :=
  if chainmutex m then None else
  Some (Ret (mkMachine (initNode now (glob m) addr (length (conns m))) (conns m ++ [mkConn addr AskRole None])
               (broadcaster m) (chainmutex m) (closedChans m))).

(** [handleConn]: the role; a line that is not a number ends the connection. *)
Definition handleConn_role (i : nat) (line : option string) m : option (outcome machine) :=
  match conns m !! i with
  | Some (mkConn addr AskRole r as c) =>
      match line with
      | None => Some (Ret (set_conn m i (with_pc c Parked)))
      | Some line =>
          let '(role, err) := Atoi line in
          match err with
          | Some _ =>
              if chainmutex m then None else
              if decide (i ∈ closedChans m) then Some (Panic "close of closed channel") else
              Some (Ret (mkMachine (destoryNode (glob m) addr) (<[i := with_pc c Ended]> (conns m)) (broadcaster m)
                           (chainmutex m) ({[i]} ∪ closedChans m)))
          | None =>
              if decide (role = 1) then Some (Ret (set_conn m i (mkConn addr AskTo (Some RWait))))
              else if decide (role = 2) then Some (Ret (set_conn m i (with_pc c SnapshotWait)))
              else Some (Ret (set_conn m i (with_pc c Parked)))
          end
      end
  | _ => None
  end.

(** [sendTx], the first line ... *)
Definition sendTx_to (i : nat) (line : string) m : option (outcome machine) :=
  match conns m !! i with
  | Some (mkConn addr AskTo r as c) =>
      Some (Ret (if existsAccountBlockChain (glob m) line then set_conn m i (with_pc c (AskAmount line)) else m))
  | _ => None
  end.

(** ... and the second, up to the append of [submitTx]. *)
Definition sendTx_amount (i : nat) (line : option string) (now : string) m : option (outcome machine) :=
  match conns m !! i with
  | Some (mkConn addr (AskAmount to) r as c) =>
      match line with
      | None => Some (Ret (set_conn m i (with_pc c AskTo)))
      | Some line =>
          let '(toAmount, err) := Atoi line in
          match err with
          | Some _ => Some (Ret (set_conn m i (with_pc c AskTo)))
          | None => Some (Ret (set_conn m i (with_pc c (Submit (send_block now (glob m) addr to toAmount)))))
          end
      end
  | _ => None
  end.

(** [submitTx]: the append, under the mutex, ... *)
Definition submitTx_append (i : nat) m : option (outcome machine) :=
  match conns m !! i with
  | Some (mkConn addr (Submit block) r as c) =>
      if chainmutex m then None else
      Some ('(g, ok) ← appendAccountStateBlockChain (glob m) addr block;
            Ret (set_conn (set_glob m g) i (with_pc c (if ok : bool then Announce block else AskTo))))
  | _ => None
  end.

(** ... and the send to the broadcaster. *)
Definition submitTx_announce (i : nat) m : option (outcome machine) :=
  match conns m !! i, broadcaster m with
  | Some (mkConn addr (Announce block) r as c), BWait => Some (broadcast (set_conn m i (with_pc c AskTo)) block)
  | _, _ => None
  end.

(** [snapshot]: a round of the loop up to the send, with the mutex ... *)
Definition snapshot (i : nat) (now : string) m : option (outcome machine) :=
  match conns m !! i with
  | Some (mkConn addr SnapshotWait r as c) =>
      if chainmutex m then None else
      let '(g, ok) := snapshotChain now (glob m) addr in
      Some (Ret (if ok : bool
                 then set_mutex (set_conn (set_glob m g) i (with_pc c (SnapshotSend (snapshotBlockChain g)))) true
                 else set_glob m g))
  | _ => None
  end.

(** ... and the receipt of the block by the other goroutine, which is always ready. *)
Definition snapshot_sent (i : nat) m : option (outcome machine) :=
  match conns m !! i with
  | Some (mkConn addr (SnapshotSend block) r as c) =>
      Some (Ret (set_mutex (set_conn m i (with_pc c SnapshotWait)) false))
  | _ => None
  end.

(** [Run_0_1]: the broadcaster hands a transfer to a receiver. *)
Definition broadcaster_send m : option (outcome machine) :=
  match broadcaster m with
  | BWait => None
  | BSend tx ch =>
      if decide (ch ∈ closedChans m) then Some (Panic "send on closed channel") else
      match conns m !! ch with
      | Some (mkConn addr p (Some RWait) as c) =>
          Some (Ret (set_broadcaster (set_conn m ch (with_receiver c (RGot tx))) BWait))
      | _ => None
      end
  end.

(** [receiveTx]: was the transfer received before? ... *)
Definition receiveTx_lookup (i : nat) m : option (outcome machine) :=
  match conns m !! i with
  | Some (mkConn addr p (Some (RGot tx)) as c) =>
      Some (repeated ← lookupOtherReceiveTx (glob m) addr tx;
            Ret (set_conn m i (with_receiver c (if repeated : bool then RWait else RFresh tx))))
  | _ => None
  end.

(** ... the block that receives it, ... *)
Definition receiveTx_build (i : nat) (now : string) m : option (outcome machine) :=
  match conns m !! i with
  | Some (mkConn addr p (Some (RFresh tx)) as c) =>
      Some (Ret (set_conn m i (with_receiver c (RAppend tx (receive_block now (glob m) addr tx)))))
  | _ => None
  end.

(** ... its append, under the mutex, ... *)
Definition receiveTx_append (i : nat) m : option (outcome machine) :=
  match conns m !! i with
  | Some (mkConn addr p (Some (RAppend tx block)) as c) =>
      if chainmutex m then None else
      Some ('(g, ok) ← appendAccountStateBlockChain (glob m) addr block;
            Ret (set_conn (set_glob m g) i (with_receiver c (if ok : bool then RAnnounce block else RWait))))
  | _ => None
  end.

(** ... and the send to the broadcaster. *)
Definition receiveTx_announce (i : nat) m : option (outcome machine) :=
  match conns m !! i, broadcaster m with
  | Some (mkConn addr p (Some (RAnnounce block)) as c), BWait =>
      Some (broadcast (set_conn m i (with_receiver c RWait)) block)
  | _, _ => None
  end.

(** [step e m]: [None] when the event cannot happen in this state. *)
Definition step (e : event) m : option (outcome machine) :=
  match e with
  | EConnect addr now => handleConn addr now m
  | ERole i line => handleConn_role i line m
  | ETo i line => sendTx_to i line m
  | EAmount i line now => sendTx_amount i line now m
  | ESubmit i => submitTx_append i m
  | EAnnounce i => submitTx_announce i m
  | ESnapshot i now => snapshot i now m
  | ESnapshotSent i => snapshot_sent i m
  | EForward => broadcaster_send m
  | ELookup i => receiveTx_lookup i m
  | EReceive i now => receiveTx_build i now m
  | EReceived i => receiveTx_append i m
  | EReceiverAnnounce i => receiveTx_announce i m
  end.

(** A run: [None] when some event cannot happen. *)
Fixpoint run (es : list event) m : option (outcome machine) :=
  match es with
  | [] => Some (Ret m)
  | e :: es =>
      match step e m with
      | Some (Ret m) => run es m
      | r => r
      end
  end.
End operations.
