(* ===== verification/V0_1Spec.v ===== *)
(** * V0_1Spec: what the first version keeps, and where it stops

    Over every interleaving of the goroutines the value of the accounts and of the
    transfers on their way is accounted for; but the channels of the server can form
    a cycle in which nobody moves any more. *)
From S2P Require Import Prelude.
From S2P Require Import HashCal.
From S2P Require Import Shell.
From S2P Require Import V0_1.

(** ** Equality of balances: [int] wraps *)
Definition eq64 (x y : Z) : Prop := exists k, x = y + k * 2 ^ 64.

Lemma eq64_refl x : eq64 x x.
Proof. exists 0. lia. Qed.
Lemma eq64_trans x y z : eq64 x y -> eq64 y z -> eq64 x z.
Proof. intros [j ->] [k ->]. exists (j + k). lia. Qed.
Lemma eq64_add x y a : eq64 x y -> eq64 (x + a) (y + a).
Proof. intros [k ->]. exists k. lia. Qed.
Lemma eq64_wrap z : eq64 (wrap64 z) z.
Proof.
  pose proof (wrap_mod 64 z ltac:(lia)) as E. fold (wrap64 z) in E.
  pose proof (Z.div_mod (wrap64 z) (2 ^ 64) ltac:(lia)). pose proof (Z.div_mod z (2 ^ 64) ltac:(lia)).
  exists (wrap64 z / 2 ^ 64 - z / 2 ^ 64). lia.
Qed.
Lemma wrap64_eq64 x y : eq64 x y -> wrap64 x = wrap64 y.
Proof. intros [k ->]. apply wrap_congr. by rewrite Z.mod_add by lia. Qed.

(** ** The accounts *)
Definition holdings (chain : gmap string AccountStateBlock) : Z :=
  zsum ((fun p => Amount p.2) <$> map_to_list chain).

Lemma holdings_delete chain a :
  holdings (delete a chain) = holdings chain - Amount (default zero_account (chain !! a)).
Proof.
  destruct (chain !! a) as [b|] eqn:E.
  - unfold holdings. pose proof (map_to_list_delete chain a b E) as P.
    rewrite <- (zsum_perm _ _ (fmap_Permutation (fun p => Amount p.2) _ _ P)). unfold zsum; cbn. lia.
  - rewrite delete_id by done. cbn. lia.
Qed.
Lemma holdings_insert chain a b :
  holdings (<[a:=b]> chain) = holdings chain - Amount (default zero_account (chain !! a)) + Amount b.
Proof.
  rewrite <- insert_delete_eq. pose proof (holdings_delete chain a) as E. rewrite <- E.
  unfold holdings. rewrite (zsum_perm _ _ (fmap_Permutation (fun p => Amount p.2) _ _
    (map_to_list_insert (delete a chain) a b (lookup_delete_eq chain a)))). unfold zsum; cbn. lia.
Qed.

(** ** Hashes and signatures *)
Lemma calculateHash_nonempty s : calculateHash s <> "".
Proof.
  unfold calculateHash. intros E. pose proof (length_EncodeToString (Sha256.sum256 (Sha256.bytes_of_string s))) as H.
  by rewrite length_sum256, E in H.
Qed.

Lemma sign_valid block a tx :
  block_Tx block = Some tx -> tx_Hash tx = calculateTxHash tx ->
  validateAccountStateBlock (signAccountStateBlock block a) = Ret true.
Proof.
  intros Htx Hh. unfold validateAccountStateBlock. rewrite decide_True by done. cbn. rewrite Htx. cbn.
  unfold validateTx. by rewrite bool_decide_true.
Qed.

Lemma sign_hash block a : Hash (signAccountStateBlock block a) <> "".
Proof. cbn. unfold calculateAccountBlockHash. case_match; apply calculateHash_nonempty. Qed.

(** ** What holds of the maps

    [walk db b n]: the way from [b] along the previous hashes ends after [n] blocks. *)
Inductive walk (db : gmap string AccountStateBlock) : AccountStateBlock -> nat -> Prop :=
| walk_end b : PreHash b = "" -> walk db b 0
| walk_step b b' n : PreHash b <> "" -> db !! PreHash b = Some b' -> walk db b' n -> walk db b (S n).

Lemma walk_mono db db' b n : db ⊆ db' -> walk db b n -> walk db' b n.
Proof.
  intros Hs. induction 1 as [b|b b' n ?? ? IH]; [by constructor|].
  econstructor; [done| |exact IH]. by eapply lookup_weaken.
Qed.

Record maps_ok (g : globals) : Prop := {
  stored_hash : forall h b, stateBlockDB g !! h = Some b -> Hash b = h /\ h <> "";
  heads_stored : forall a b, accountStateBlockChain g !! a = Some b -> stateBlockDB g !! Hash b = Some b;
  walks_end : forall h b, stateBlockDB g !! h = Some b ->
    exists n, walk (stateBlockDB g) b n /\ (n < size (stateBlockDB g))%nat
}.

(** [known db old]: what [myAccountBlockChain] can have answered. *)
Definition known (db : gmap string AccountStateBlock) (old : AccountStateBlock) : Prop :=
  old = zero_account \/ db !! Hash old = Some old.

Lemma my_known g a : maps_ok g -> known (stateBlockDB g) (myAccountBlockChain g a).
Proof.
  intros H. unfold known, myAccountBlockChain.
  destruct (accountStateBlockChain g !! a) eqn:E; cbn; [right|by left]. by eapply heads_stored.
Qed.

Lemma known_eq g old old' :
  maps_ok g -> known (stateBlockDB g) old -> known (stateBlockDB g) old' -> Hash old = Hash old' -> old = old'.
Proof.
  intros H [->|Ho] [->|Ho'] E; [done|..].
  - rewrite <- E in Ho'. by apply (stored_hash g H) in Ho' as [_ Hn].
  - rewrite E in Ho. by apply (stored_hash g H) in Ho as [_ Hn].
  - rewrite E in Ho. congruence.
Qed.

(** The walk of a known block, within the fuel. *)
Lemma lookup_loop_returns g h b n fuel :
  walk (stateBlockDB g) b n -> (n < fuel)%nat -> returns (lookup_loop fuel g h b).
Proof.
  intros Hw. revert fuel. induction Hw as [b E|b b' n E Hb _ IH]; intros [|fuel] Hf; [lia| |lia|]; cbn [lookup_loop].
  - rewrite (decide_True _ _ E). case_match; by eexists.
  - case_match; [by eexists|]. rewrite decide_False by done. unfold getAccountState. rewrite Hb. cbn. apply IH. lia.
Qed.

Lemma lookup_returns g a tx : maps_ok g -> returns (lookupOtherReceiveTx g a tx).
Proof.
  intros H. unfold lookupOtherReceiveTx. destruct (my_known g a H) as [->|E].
  - eapply lookup_loop_returns; [by apply walk_end|lia].
  - destruct (walks_end g H _ _ E) as (n & Hw & Hn). eapply lookup_loop_returns; [exact Hw|lia].
Qed.

(** A fresh block on top of a known one. *)
Lemma store_ok g a block old :
  maps_ok g -> known (stateBlockDB g) old -> PreHash block = Hash old -> Hash block <> "" ->
  stateBlockDB g !! Hash block = None ->
  forall g', accountStateBlockChain g' = <[a := block]> (accountStateBlockChain g) ->
    stateBlockDB g' = <[Hash block := block]> (stateBlockDB g) -> maps_ok g'.
Proof.
  intros H Ho Hpre Hne Hf g' Ec Ed.
  assert (Hs : stateBlockDB g ⊆ stateBlockDB g') by (rewrite Ed; by apply insert_subseteq).
  assert (Hsz : size (stateBlockDB g') = S (size (stateBlockDB g))) by (rewrite Ed; by apply map_size_insert_None).
  split.
  - intros h b Hb. rewrite Ed in Hb. apply lookup_insert_Some in Hb as [[<- <-]|[_ Hb]]; [done|].
    by apply (stored_hash g H).
  - intros a' b Hb. rewrite Ec in Hb. apply lookup_insert_Some in Hb as [[<- <-]|[_ Hb]].
    + by rewrite Ed, lookup_insert_eq.
    + eapply lookup_weaken; [|exact Hs]. by eapply heads_stored.
  - intros h b Hb. rewrite Hsz. rewrite Ed in Hb. apply lookup_insert_Some in Hb as [[<- <-]|[_ Hb]].
    + destruct Ho as [->|Ho]; [exists 0%nat; split; [by constructor|lia]|].
      destruct (walks_end g H _ _ Ho) as (n & Hw & Hn).
      exists (S n). split; [|lia]. econstructor; [|rewrite Hpre; by eapply lookup_weaken|by eapply walk_mono].
      rewrite Hpre. by destruct (stored_hash g H _ _ Ho).
    + destruct (walks_end g H _ _ Hb) as (n & Hw & Hn). exists n. split; [by eapply walk_mono|lia].
Qed.

(** ** Blocks on their way

    [pending db d block]: a signed block that changes the balance of a known block
    by [d]. *)
Record pending (db : gmap string AccountStateBlock) (tp d : Z) (block : AccountStateBlock) (tx : Tx) : Prop := {
  p_tx : block_Tx block = Some tx;
  p_type : TxType tx = tp;
  p_valid : validateAccountStateBlock block = Ret true;
  p_hash : Hash block <> "";
  p_old : exists old, known db old /\ PreHash block = Hash old /\ Amount block = wrap64 (Amount old + d)
}.

Lemma known_mono db db' old : db ⊆ db' -> known db old -> known db' old.
Proof. intros Hs [?|?]; [by left|right]. by eapply lookup_weaken. Qed.
Lemma pending_mono db db' tp d block tx : db ⊆ db' -> pending db tp d block tx -> pending db' tp d block tx.
Proof.
  intros Hs [? ? ? ? (old & ? & ?)]. split; try done. exists old. split; [by eapply known_mono|done].
Qed.

Lemma send_pending now g from to amount :
  maps_ok g -> exists tx, To tx = to /\ tx_Amount tx = amount /\
    pending (stateBlockDB g) 1 (- amount) (send_block now g from to amount) tx.
Proof.
  intros H. exists (signTx (generateSendTx g from to amount) from). split; [done|]. split; [done|].
  split; [reflexivity|reflexivity|..].
  - by eapply sign_valid.
  - apply sign_hash.
  - exists (myAccountBlockChain g from). split; [by apply my_known|done].
Qed.

Lemma receive_pending now g a send :
  maps_ok g -> exists tx, pending (stateBlockDB g) 2 (tx_Amount send) (receive_block now g a send) tx.
Proof.
  intros H. eexists. split; [reflexivity|reflexivity|..].
  - by eapply sign_valid.
  - apply sign_hash.
  - exists (myAccountBlockChain g a). split; [by apply my_known|done].
Qed.

(** Appending a pending block either changes nothing or moves the balance by [d]. *)
Lemma append_pending g a tp d block tx :
  maps_ok g -> pending (stateBlockDB g) tp d block tx ->
  if decide (Hash (myAccountBlockChain g a) = PreHash block)
  then exists g', appendAccountStateBlockChain g a block = Ret (g', true) /\
    accountStateBlockChain g' = <[a := block]> (accountStateBlockChain g) /\
    stateBlockDB g' = <[Hash block := block]> (stateBlockDB g) /\
    nodes g' = nodes g /\
    eq64 (holdings (accountStateBlockChain g')) (holdings (accountStateBlockChain g) + d)
  else appendAccountStateBlockChain g a block = Ret (g, false).
Proof.
  intros H Hp. unfold appendAccountStateBlockChain. rewrite (p_valid _ _ _ _ _ Hp). cbn.
  rewrite (p_tx _ _ _ _ _ Hp). cbn. case_decide as E; [|done].
  eexists. split; [reflexivity|]. cbn. split_and!; try done. rewrite holdings_insert.
  destruct (p_old _ _ _ _ _ Hp) as (old & Ho & Hpre & Ha).
  assert (myAccountBlockChain g a = old) as Eo
    by (apply (known_eq g); [done|by apply my_known|done|congruence]).
  unfold myAccountBlockChain in Eo. rewrite Eo, Ha. destruct (eq64_wrap (Amount old + d)) as [k ->]. exists k. lia.
Qed.

Lemma append_ok g a tp d block tx g' :
  maps_ok g -> pending (stateBlockDB g) tp d block tx -> stateBlockDB g !! Hash block = None ->
  accountStateBlockChain g' = <[a := block]> (accountStateBlockChain g) ->
  stateBlockDB g' = <[Hash block := block]> (stateBlockDB g) -> maps_ok g'.
Proof.
  intros H Hp Hf. destruct (p_old _ _ _ _ _ Hp) as (old & Ho & Hpre & _).
  eapply store_ok; [done..|apply Hp|done].
Qed.

(** ** The machine *)
Ltac unfold_step E :=
  cbv delta [V0_1.step handleConn handleConn_role sendTx_to sendTx_amount
    submitTx_append submitTx_announce snapshot snapshot_sent broadcaster_send
    receiveTx_lookup receiveTx_build receiveTx_append receiveTx_announce] beta iota in E.

Section machine.
Context (marshal : gmap string string -> string).
Abbreviation step := (step marshal).
Abbreviation run := (run marshal).

(** What a transfer that left its account is worth until it arrives. *)
Definition sent (block : AccountStateBlock) : Z := from_option tx_Amount 0 (block_Tx block).
Definition pc_flight (p : pc) : Z := match p with Announce block => sent block | _ => 0 end.
Definition rpc_flight (r : option rpc) : Z :=
  match r with Some (RGot tx) | Some (RFresh tx) | Some (RAppend tx _) => tx_Amount tx | _ => 0 end.
Definition conn_flight (c : conn) : Z := pc_flight (c_pc c) + rpc_flight (receiver c).
Definition bpc_flight (b : bpc) : Z := match b with BSend tx _ => tx_Amount tx | BWait => 0 end.
Definition in_flight (m : machine) : Z := zsum (conn_flight <$> conns m) + bpc_flight (broadcaster m).
Definition worth (m : machine) : Z := holdings (accountStateBlockChain (glob m)) + in_flight m.

(** The block that a step stores; a run is [fresh] when no two have one hash. *)
Definition accepts (m : machine) (a : string) (block : AccountStateBlock) : bool :=
  bool_decide (Hash (myAccountBlockChain (glob m) a) = PreHash block).
Definition stored (e : event) (m : machine) : option AccountStateBlock :=
  match e with
  | EConnect addr now => Some (genesis_of now (glob m) addr)
  | ESubmit i =>
      match conns m !! i with
      | Some (mkConn addr (Submit block) _) => if accepts m addr block then Some block else None
      | _ => None
      end
  | EReceived i =>
      match conns m !! i with
      | Some (mkConn addr _ (Some (RAppend _ block))) => if accepts m addr block then Some block else None
      | _ => None
      end
  | _ => None
  end.
Definition fresh_step (e : event) (m : machine) : bool :=
  match stored e m with Some b => bool_decide (stateBlockDB (glob m) !! Hash b = None) | None => true end.
Fixpoint fresh (es : list event) (m : machine) : bool :=
  match es with
  | [] => true
  | e :: es =>
      fresh_step e m && match step e m with Some (Ret m) => fresh es m | _ => true end
  end.

(** What a step brings into the accounts: every connection starts with 100, in
    place of what its address had; ... *)
Definition issued (e : event) (m : machine) : Z :=
  match e with
  | EConnect addr _ => 100 - Amount (myAccountBlockChain (glob m) addr)
  | ERole i (Some line) =>
      match conns m !! i, Atoi line with
      | Some (mkConn addr AskRole _), (_, Some _) => - Amount (myAccountBlockChain (glob m) addr)
      | _, _ => 0
      end
  | _ => 0
  end.
(** ... and what it loses: a transfer to a name that is not connected, one that
    looks like an earlier one, and one whose receiver lost the race for the
    head of its account. *)
Definition lost (e : event) (m : machine) : Z :=
  match e with
  | EAnnounce i =>
      match conns m !! i with
      | Some (mkConn _ (Announce block) _) =>
          match block_Tx block with
          | Some tx => if nodes (glob m) !! To tx then 0 else tx_Amount tx
          | None => 0
          end
      | _ => 0
      end
  | ELookup i =>
      match conns m !! i with
      | Some (mkConn addr _ (Some (RGot tx))) =>
          if decide (lookupOtherReceiveTx (glob m) addr tx = Ret true) then tx_Amount tx else 0
      | _ => 0
      end
  | EReceived i =>
      match conns m !! i with
      | Some (mkConn addr _ (Some (RAppend tx block))) => if accepts m addr block then 0 else tx_Amount tx
      | _ => 0
      end
  | _ => 0
  end.
Fixpoint balance_sheet (es : list event) (m : machine) : Z :=
  match es with
  | [] => 0
  | e :: es => issued e m - lost e m + match step e m with Some (Ret m) => balance_sheet es m | _ => 0 end
  end.

(** ** The invariant *)
Definition pc_ok (db : gmap string AccountStateBlock) (p : pc) : Prop :=
  match p with
  | Submit block => exists tx, pending db 1 (- tx_Amount tx) block tx
  | Announce block => exists tx d, pending db 1 d block tx
  | _ => True
  end.
Definition rpc_ok (db : gmap string AccountStateBlock) (r : option rpc) : Prop :=
  match r with
  | Some (RAppend tx block) => exists tx', pending db 2 (tx_Amount tx) block tx'
  | Some (RAnnounce block) => exists tx d, pending db 2 d block tx
  | _ => True
  end.
Definition conn_ok (db : gmap string AccountStateBlock) (c : conn) : Prop :=
  pc_ok db (c_pc c) /\ rpc_ok db (receiver c) /\ (c_pc c = AskRole -> receiver c = None).
Record inv (m : machine) : Prop := {
  i_maps : maps_ok (glob m);
  i_conns : Forall (conn_ok (stateBlockDB (glob m))) (conns m);
  i_closed : forall i, i ∈ closedChans m -> exists c, conns m !! i = Some c /\ c_pc c = Ended
}.

Lemma pc_ok_mono db db' p : db ⊆ db' -> pc_ok db p -> pc_ok db' p.
Proof.
  intros Hs H. destruct p; try done; cbn in *.
  - destruct H as [tx ?]. exists tx. by eapply pending_mono.
  - destruct H as (tx & d & ?). exists tx, d. by eapply pending_mono.
Qed.
Lemma rpc_ok_mono db db' r : db ⊆ db' -> rpc_ok db r -> rpc_ok db' r.
Proof.
  intros Hs H. destruct r as [[| | |tx b|b]|]; try done; cbn in *.
  - destruct H as [tx' ?]. exists tx'. by eapply pending_mono.
  - destruct H as (tx & d & ?). exists tx, d. by eapply pending_mono.
Qed.
Lemma conn_ok_mono db db' c : db ⊆ db' -> conn_ok db c -> conn_ok db' c.
Proof. intros Hs (? & ? & ?). split_and!; [by eapply pc_ok_mono|by eapply rpc_ok_mono|done]. Qed.

(** A connection moves from [c] to [c']. *)
Lemma update_conn m i c c' g b mu cl D :
  inv m -> conns m !! i = Some c -> maps_ok g -> stateBlockDB (glob m) ⊆ stateBlockDB g ->
  conn_ok (stateBlockDB g) c' -> (c_pc c = Ended -> c_pc c' = Ended) ->
  (forall j, j ∈ cl -> j ∈ closedChans m \/ j = i /\ c_pc c' = Ended) ->
  eq64 (holdings (accountStateBlockChain g) + bpc_flight b + conn_flight c')
       (holdings (accountStateBlockChain (glob m)) + bpc_flight (broadcaster m) + conn_flight c + D) ->
  let m' := mkMachine g (<[i := c']> (conns m)) b mu cl in
  inv m' /\ eq64 (worth m') (worth m + D).
Proof.
  intros H Hi Hg Hs Hc He Hcl Hw m'. split; [split; [done|..]|].
  - apply Forall_insert; [|done]. eapply Forall_impl; [exact (i_conns m H)|].
    intros x. by apply conn_ok_mono.
  - intros j Hj. cbn in *. destruct (decide (j = i)) as [->|Hn].
    + rewrite list_lookup_insert_eq by by eapply lookup_lt_Some. exists c'. split; [done|].
      apply Hcl in Hj as [Hj|[_ Hj]]; [|done].
      apply He. destruct (i_closed m H i Hj) as (x & Hx & Hp). congruence.
    + apply Hcl in Hj as [Hj|[Hj _]]; [|done]. destruct (i_closed m H j Hj) as (x & Hx & Hp).
      rewrite list_lookup_insert_ne by done. by exists x.
  - destruct Hw as [k Hk]. exists k. unfold worth, in_flight. cbn.
    rewrite (zsum_insert conn_flight _ _ _ _ Hi). lia.
Qed.

(** The outcome of a step. *)
Definition step_ok (e : event) (m : machine) (r : outcome machine) : Prop :=
  match r with
  | Ret m' => inv m' /\ eq64 (worth m') (worth m + (issued e m - lost e m))
  | Panic w => w = "send on closed channel"
  | Diverge => False
  end.

(** Steps that change one connection, and neither the accounts nor the broadcaster. *)
Lemma local_ok e m i c c' :
  inv m -> conns m !! i = Some c -> conn_ok (stateBlockDB (glob m)) c' -> (c_pc c = Ended -> c_pc c' = Ended) ->
  conn_flight c' = conn_flight c + (issued e m - lost e m) ->
  step_ok e m (Ret (set_conn m i c')).
Proof.
  intros H Hi Hc He Hw. apply (update_conn m i c c' (glob m) (broadcaster m) (chainmutex m) (closedChans m)); try done.
  - apply H.
  - by left.
  - exists 0. lia.
Qed.

Lemma conn_at m i c : inv m -> conns m !! i = Some c -> conn_ok (stateBlockDB (glob m)) c.
Proof. intros H Hi. by eapply Forall_lookup_1; [apply H|]. Qed.

Lemma connect_ok m addr now r :
  inv m -> fresh_step (EConnect addr now) m = true -> step (EConnect addr now) m = Some r ->
  step_ok (EConnect addr now) m r.
Proof.
  intros H Hf E. unfold_step E. destruct (chainmutex m); [done|]. injection E as <-.
  unfold fresh_step in Hf. cbn [stored] in Hf. apply bool_decide_eq_true in Hf.
  set (g := initNode now (glob m) addr (length (conns m))).
  assert (Hg : maps_ok g).
  { eapply (store_ok (glob m) addr (genesis_of now (glob m) addr) zero_account);
      [apply H|by left|done|apply sign_hash|exact Hf|done|done]. }
  split; [split; [done|..]|].
  - apply Forall_app. split; [|by repeat constructor]. eapply Forall_impl; [exact (i_conns m H)|].
    intros x. apply conn_ok_mono. by apply insert_subseteq.
  - intros j Hj. destruct (i_closed m H j Hj) as (x & Hx & Hp). exists x. split; [|done].
    cbn. by apply lookup_app_l_Some.
  - exists 0. unfold worth, in_flight. cbn. rewrite zsum_app, holdings_insert.
    change (zsum (conn_flight <$> [mkConn addr AskRole None])) with 0.
    change (Amount (genesis_of now (glob m) addr)) with 100. unfold myAccountBlockChain. lia.
Qed.

Lemma destoryNode_ok g a : maps_ok g -> maps_ok (destoryNode g a).
Proof.
  intros H. split; try apply H. intros a' b Hb. cbn in Hb. apply lookup_delete_Some in Hb as [_ Hb].
  exact (heads_stored g H a' b Hb).
Qed.

Lemma role_ok m i line r : inv m -> step (ERole i line) m = Some r -> step_ok (ERole i line) m r.
Proof.
  intros H E. unfold_step E. destruct (conns m !! i) as [[a p rc]|] eqn:Hi; [|done].
  destruct p; try done. pose proof (conn_at m i _ H Hi) as (_ & _ & Hr). specialize (Hr eq_refl). cbn in Hr. subst rc.
  destruct line as [line|].
  - destruct (Atoi line) as [role [err|]] eqn:Ea.
    + destruct (chainmutex m); [done|]. case_decide as Hc.
      { destruct (i_closed m H i Hc) as (c & Hx & Hp). rewrite Hi in Hx. by injection Hx as <-. }
      injection E as <-. cbn [step_ok issued lost]. rewrite Hi, Ea.
      eapply (update_conn m i _ (mkConn a Ended None) (destoryNode (glob m) a)); try done.
      * apply destoryNode_ok, H.
      * intros j Hj. apply elem_of_union in Hj as [Hj%elem_of_singleton|Hj]; [by right|by left].
      * exists 0. cbn. rewrite holdings_delete. unfold myAccountBlockChain, conn_flight. cbn. lia.
    + destruct (decide (role = 1)); [|destruct (decide (role = 2))]; injection E as <-;
        (eapply local_ok; [done|exact Hi|done|done|]; unfold conn_flight; cbn; rewrite Hi, Ea; lia).
  - injection E as <-. eapply local_ok; [done|exact Hi|done|done|]. unfold conn_flight. cbn. lia.
Qed.

Lemma to_ok m i line r : inv m -> step (ETo i line) m = Some r -> step_ok (ETo i line) m r.
Proof.
  intros H E. unfold_step E. destruct (conns m !! i) as [[a p rc]|] eqn:Hi; [|done].
  destruct p; try done. pose proof (conn_at m i _ H Hi) as (_ & Hr & _). injection E as <-.
  destruct (existsAccountBlockChain (glob m) line).
  - eapply local_ok; [done|exact Hi|done|done|]. unfold conn_flight. cbn. lia.
  - split; [done|]. exists 0. cbn. lia.
Qed.

Lemma amount_ok m i line now r : inv m -> step (EAmount i line now) m = Some r -> step_ok (EAmount i line now) m r.
Proof.
  intros H E. unfold_step E. destruct (conns m !! i) as [[a p rc]|] eqn:Hi; [|done].
  destruct p as [| |to| | | | | |]; try done. pose proof (conn_at m i _ H Hi) as (_ & Hr & _).
  destruct line as [line|]; [destruct (Atoi line) as [n [err|]]|]; injection E as <-;
    (eapply local_ok; [done|exact Hi| |done|unfold conn_flight; cbn; lia]); split_and!; try done; cbn.
  destruct (send_pending now (glob m) a to n) as (tx & _ & En & Hp); [apply H|]. exists tx. by rewrite En.
Qed.

(** What an append of a pending block does to the machine. *)
Lemma block_append_step m a tp d block tx :
  inv m -> pending (stateBlockDB (glob m)) tp d block tx ->
  (accepts m a block = true -> stateBlockDB (glob m) !! Hash block = None) ->
  exists g, appendAccountStateBlockChain (glob m) a block = Ret (g, accepts m a block) /\ maps_ok g /\
    stateBlockDB (glob m) ⊆ stateBlockDB g /\
    eq64 (holdings (accountStateBlockChain g))
         (holdings (accountStateBlockChain (glob m)) + if accepts m a block then d else 0).
Proof.
  intros H Hp Hf. pose proof (append_pending (glob m) a tp d block tx (i_maps m H) Hp) as E.
  unfold accepts in *. case_decide as Hh.
  - rewrite bool_decide_true in * by done. specialize (Hf eq_refl).
    destruct E as (g & E & Ec & Ed & _ & Hw). exists g. split; [done|]. split_and!; [|by rewrite Ed; apply insert_subseteq|done].
    eapply append_ok; [apply H|done..].
  - rewrite bool_decide_false in * by done. exists (glob m). split; [done|]. split_and!; [apply H|done|].
    exists 0. lia.
Qed.

Lemma fresh_stored e m b : fresh_step e m = true -> stored e m = Some b -> stateBlockDB (glob m) !! Hash b = None.
Proof. unfold fresh_step. intros Hf E. rewrite E in Hf. by apply bool_decide_eq_true in Hf. Qed.

Lemma submit_ok m i r :
  inv m -> fresh_step (ESubmit i) m = true -> step (ESubmit i) m = Some r -> step_ok (ESubmit i) m r.
Proof.
  intros H Hf E. unfold_step E. destruct (conns m !! i) as [[a p rc]|] eqn:Hi; [|done].
  destruct p as [| | |block| | | | |]; try done. destruct (chainmutex m); [done|]. injection E as <-.
  pose proof (conn_at m i _ H Hi) as ((tx & Hp) & Hr & _). cbn in Hr.
  destruct (block_append_step m a _ _ _ _ H Hp) as (g & E & Hg & Hs & Hw).
  { intros Ha. apply (fresh_stored _ _ _ Hf). cbn. by rewrite Hi, Ha. }
  rewrite E. cbn [mbind outcome_bind step_ok issued lost].
  eapply (update_conn m i _ (mkConn a (if accepts m a block then Announce block else AskTo) rc) g); try done.
  - split_and!; [|by apply (rpc_ok_mono _ _ _ Hs)|by destruct (accepts m a block)]. cbn.
    destruct (accepts m a block); cbn; [|done]. exists tx, (- tx_Amount tx). by eapply pending_mono.
  - by left.
  - destruct Hw as [k Hw]. exists k. unfold conn_flight. cbn. rewrite Hw.
    destruct (accepts m a block); cbn; unfold sent; try rewrite (p_tx _ _ _ _ _ Hp); cbn; lia.
Qed.

Lemma received_ok m i r :
  inv m -> fresh_step (EReceived i) m = true -> step (EReceived i) m = Some r -> step_ok (EReceived i) m r.
Proof.
  intros H Hf E. unfold_step E. destruct (conns m !! i) as [[a p rc]|] eqn:Hi; [|done].
  destruct rc as [[| | |tx block|]|]; try done. destruct (chainmutex m); [done|]. injection E as <-.
  pose proof (conn_at m i _ H Hi) as (Hpc & (tx' & Hp) & Hask). cbn in Hpc, Hask.
  destruct (block_append_step m a _ _ _ _ H Hp) as (g & E & Hg & Hs & Hw).
  { intros Ha. apply (fresh_stored _ _ _ Hf). cbn. by rewrite Hi, Ha. }
  rewrite E. cbn [mbind outcome_bind step_ok issued lost]. rewrite Hi.
  eapply (update_conn m i _ (mkConn a p (Some (if accepts m a block then RAnnounce block else RWait))) g); try done.
  - split_and!; [by apply (pc_ok_mono _ _ _ Hs)| |by intros ?%Hask]. cbn.
    destruct (accepts m a block); cbn; [|done]. exists tx', (tx_Amount tx). by eapply pending_mono.
  - by left.
  - destruct Hw as [k Hw]. exists k. unfold conn_flight. cbn. rewrite Hw.
    destruct (accepts m a block); cbn; lia.
Qed.

(** The broadcaster takes a block whose transaction is worth [tx_Amount tx]. *)
Lemma forward_flight g block tx :
  block_Tx block = Some tx ->
  bpc_flight (forward g block) =
    if decide (TxType tx = 1) then if nodes g !! To tx then tx_Amount tx else 0 else 0.
Proof. intros E. unfold forward. rewrite E. by repeat case_match. Qed.

Lemma announce_ok m i r : inv m -> step (EAnnounce i) m = Some r -> step_ok (EAnnounce i) m r.
Proof.
  intros H E. unfold_step E. destruct (conns m !! i) as [[a p rc]|] eqn:Hi; [|done].
  destruct p as [| | | |block| | | |]; try done. destruct (broadcaster m) eqn:Hb; [|done]. injection E as <-.
  pose proof (conn_at m i _ H Hi) as ((tx & d & Hp) & Hr & _). cbn in Hr.
  unfold broadcast. rewrite (p_valid _ _ _ _ _ Hp). cbn [mbind outcome_bind step_ok issued lost].
  rewrite Hi, (p_tx _ _ _ _ _ Hp).
  eapply (update_conn m i _ (mkConn a AskTo rc) (glob m) (forward (glob m) block)); try done.
  - apply H.
  - by left.
  - exists 0. rewrite (forward_flight _ _ _ (p_tx _ _ _ _ _ Hp)), decide_True by apply Hp.
    unfold conn_flight. cbn. rewrite Hb. unfold sent. rewrite (p_tx _ _ _ _ _ Hp). cbn.
    destruct (nodes (glob m) !! To tx); lia.
Qed.

Lemma receiverAnnounce_ok m i r :
  inv m -> step (EReceiverAnnounce i) m = Some r -> step_ok (EReceiverAnnounce i) m r.
Proof.
  intros H E. unfold_step E. destruct (conns m !! i) as [[a p rc]|] eqn:Hi; [|done].
  destruct rc as [[| | | |block]|]; try done. destruct (broadcaster m) eqn:Hb; [|done]. injection E as <-.
  pose proof (conn_at m i _ H Hi) as (Hpc & (tx & d & Hp) & Hask). cbn in Hpc, Hask.
  unfold broadcast. rewrite (p_valid _ _ _ _ _ Hp). cbn [mbind outcome_bind step_ok issued lost].
  eapply (update_conn m i _ (mkConn a p (Some RWait)) (glob m) (forward (glob m) block)); try done.
  - apply H.
  - split_and!; [done|done|by intros ?%Hask].
  - by left.
  - exists 0. rewrite (forward_flight _ _ _ (p_tx _ _ _ _ _ Hp)), decide_False by (rewrite (p_type _ _ _ _ _ Hp); lia).
    unfold conn_flight. cbn. rewrite Hb. cbn. lia.
Qed.

Lemma appendSnapshot_maps g b accounts :
  let g' := fst (appendSnapshotBlockChain g b accounts) in
  accountStateBlockChain g' = accountStateBlockChain g /\ stateBlockDB g' = stateBlockDB g.
Proof. unfold appendSnapshotBlockChain. destruct (validateSnapshotBlock b); [|done]. cbn. by case_decide. Qed.
Lemma snapshotChain_maps now g a g' ok :
  snapshotChain marshal now g a = (g', ok) ->
  accountStateBlockChain g' = accountStateBlockChain g /\ stateBlockDB g' = stateBlockDB g.
Proof.
  unfold snapshotChain. destruct (generateSnapshotBlock _ _ _ _) as [b accounts]. intros E.
  pose proof (appendSnapshot_maps g (signSnapshotBlock a b) accounts) as H. by rewrite E in H.
Qed.

Lemma maps_ok_eq g g' :
  accountStateBlockChain g' = accountStateBlockChain g -> stateBlockDB g' = stateBlockDB g -> maps_ok g -> maps_ok g'.
Proof. intros Ec Ed []. by split; rewrite ?Ec, ?Ed. Qed.

Lemma snapshot_ok m i now r : inv m -> step (ESnapshot i now) m = Some r -> step_ok (ESnapshot i now) m r.
Proof.
  intros H E. unfold_step E. destruct (conns m !! i) as [[a p rc]|] eqn:Hi; [|done].
  destruct p; try done. destruct (chainmutex m); [done|].
  pose proof (conn_at m i _ H Hi) as (_ & Hr & _). cbn in Hr.
  destruct (snapshotChain marshal now (glob m) a) as [g ok] eqn:Es.
  apply snapshotChain_maps in Es as [Ec Ed]. pose proof (maps_ok_eq _ _ Ec Ed (i_maps m H)) as Hg.
  injection E as <-. destruct ok.
  - eapply (update_conn m i _ (mkConn a (SnapshotSend (snapshotBlockChain g)) rc) g); try done.
    + by rewrite Ed.
    + by rewrite Ed.
    + by left.
    + exists 0. rewrite Ec. unfold conn_flight. cbn. lia.
  - split; [split; [done|cbn; rewrite Ed; apply H|apply H]|].
    exists 0. unfold worth, in_flight, set_glob. cbn [glob conns broadcaster issued lost]. rewrite Ec. lia.
Qed.

Lemma snapshotSent_ok m i r : inv m -> step (ESnapshotSent i) m = Some r -> step_ok (ESnapshotSent i) m r.
Proof.
  intros H E. unfold_step E. destruct (conns m !! i) as [[a p rc]|] eqn:Hi; [|done].
  destruct p; try done. injection E as <-. pose proof (conn_at m i _ H Hi) as (_ & Hr & _). cbn in Hr.
  eapply (update_conn m i _ (mkConn a SnapshotWait rc) (glob m)); try done.
  - apply H.
  - by left.
  - exists 0. unfold conn_flight. cbn. lia.
Qed.

Lemma forward_ok m r : inv m -> step EForward m = Some r -> step_ok EForward m r.
Proof.
  intros H E. unfold_step E. destruct (broadcaster m) as [|tx ch] eqn:Hb; [done|].
  case_decide; [by injection E as <-|].
  destruct (conns m !! ch) as [[a p [[| | | |]|]]|] eqn:Hi; try done. injection E as <-.
  pose proof (conn_at m ch _ H Hi) as (Hpc & _ & Hask). cbn in Hpc, Hask.
  eapply (update_conn m ch _ (mkConn a p (Some (RGot tx))) (glob m) BWait); try done.
  - apply H.
  - split_and!; [done|done|by intros ?%Hask].
  - by left.
  - exists 0. rewrite Hb. unfold conn_flight. cbn. lia.
Qed.

Lemma lookup_ok m i r : inv m -> step (ELookup i) m = Some r -> step_ok (ELookup i) m r.
Proof.
  intros H E. unfold_step E. destruct (conns m !! i) as [[a p rc]|] eqn:Hi; [|done].
  destruct rc as [[|tx| | |]|]; try done. injection E as <-.
  pose proof (conn_at m i _ H Hi) as (Hpc & _ & Hask). cbn in Hpc, Hask.
  destruct (lookup_returns (glob m) a tx (i_maps m H)) as [b El]. rewrite El. cbn [mbind outcome_bind].
  eapply local_ok; [done|exact Hi| |done|].
  - split_and!; [done|by destruct b|by intros ?%Hask].
  - unfold conn_flight. cbn [issued lost]. rewrite Hi, El. destruct b; cbn; [rewrite decide_True by done|rewrite decide_False by done]; lia.
Qed.

Lemma receive_ok m i now r : inv m -> step (EReceive i now) m = Some r -> step_ok (EReceive i now) m r.
Proof.
  intros H E. unfold_step E. destruct (conns m !! i) as [[a p rc]|] eqn:Hi; [|done].
  destruct rc as [[| |tx| |]|]; try done. injection E as <-.
  pose proof (conn_at m i _ H Hi) as (Hpc & _ & Hask). cbn in Hpc, Hask.
  eapply local_ok; [done|exact Hi| |done|unfold conn_flight; cbn; lia].
  split_and!; [done|apply receive_pending, H|by intros ?%Hask].
Qed.

Lemma machine_step_inv e m r : inv m -> fresh_step e m = true -> step e m = Some r -> step_ok e m r.
Proof.
  intros H Hf E. destruct e.
  - by apply connect_ok.
  - by apply role_ok.
  - by apply to_ok.
  - by apply amount_ok.
  - by apply submit_ok.
  - by apply announce_ok.
  - by apply snapshot_ok.
  - by apply snapshotSent_ok.
  - by apply forward_ok.
  - by apply lookup_ok.
  - by apply receive_ok.
  - by apply received_ok.
  - by apply receiverAnnounce_ok.
Qed.

Lemma run_inv es m r :
  inv m -> fresh es m = true -> run es m = Some r ->
  match r with
  | Ret m' => inv m' /\ eq64 (worth m') (worth m + balance_sheet es m)
  | Panic w => w = "send on closed channel"
  | Diverge => False
  end.
Proof.
  revert m. induction es as [|e es IH]; intros m H Hf E.
  - injection E as <-. split; [done|]. exists 0. cbn. lia.
  - cbn in Hf, E. apply andb_prop in Hf as [Hf Hfs]. destruct (step e m) as [r'|] eqn:Es; [|done].
    pose proof (machine_step_inv e m r' H Hf Es) as Hok. destruct r' as [m1|w|]; [|by injection E as <-..].
    destruct Hok as [H1 Hw]. specialize (IH m1 H1 Hfs E). destruct r as [m'| |]; [|done..].
    destruct IH as [H' Hw']. split; [done|]. cbn. rewrite Es.
    destruct Hw as [j Hw], Hw' as [k Hw']. exists (j + k). lia.
Qed.

Lemma start_inv : inv (start marshal) /\ worth (start marshal) = 0.
Proof.
  destruct (appendSnapshot_maps empty_globals (signSnapshotBlock "God" (fst (generateGenesisSnapshotBlock marshal)))
    (snd (generateGenesisSnapshotBlock marshal))) as [Ec Ed].
  set (g := fst _) in Ec, Ed. change (start marshal) with (mkMachine g [] BWait false ∅). split.
  - split; [|constructor|intros i Hi; by apply elem_of_empty in Hi]. by split; cbn; rewrite ?Ec, ?Ed.
  - unfold worth. cbn [glob]. by rewrite Ec.
Qed.

(** C22: the books of the first version balance.  For every run of its goroutines from
    the start, in any interleaving and with any lines typed, in which no two stored
    blocks have one hash: what the accounts hold and what is on its way is, modulo
    the width of [int], what the connections brought in less what was lost on the
    three ways that [lost] lists.  Such a run ends the process in one way only: the
    broadcaster sends to a node that has left.  No walk through the blocks is endless,
    and no block without a transaction is dereferenced. *)
Theorem first_version_balances es r :
  fresh es (start marshal) = true -> run es (start marshal) = Some r ->
  match r with
  | Ret m => wrap64 (worth m) = wrap64 (balance_sheet es (start marshal))
  | Panic w => w = "send on closed channel"
  | Diverge => False
  end.
Proof.
  intros Hf E. destruct start_inv as [H Hw]. pose proof (run_inv es _ r H Hf E) as Hr.
  destruct r as [m| |]; [|done..]. destruct Hr as [_ Hr]. rewrite Hw in Hr. by apply wrap64_eq64.
Qed.
End machine.

(** ** The cycle

    The broadcaster hands a transfer to the receiver of a node, and the receiver
    hands a block to the broadcaster: each waits for the other. *)
Definition cycle (m : machine) : Prop :=
  exists tx ch c block, broadcaster m = BSend tx ch /\ conns m !! ch = Some c /\ c_pc c <> AskRole /\
    receiver c = Some (RAnnounce block) /\ ch ∉ closedChans m.

(** The steps that use a channel of accounts. *)
Definition delivers (e : event) : bool :=
  match e with EAnnounce _ | EForward | EReceiverAnnounce _ => true | _ => false end.

Section cycle.
Context (marshal : gmap string string -> string).
Abbreviation step := (step marshal).
Abbreviation run := (run marshal).

(** A connection that keeps its receiver and does not return to its first question. *)
Lemma cycle_conn m tx ch c block i c1 c' g mu cl :
  broadcaster m = BSend tx ch -> conns m !! ch = Some c -> c_pc c <> AskRole -> receiver c = Some (RAnnounce block) ->
  ch ∉ cl -> conns m !! i = Some c1 ->
  (i = ch -> receiver c' = receiver c1 /\ c_pc c' <> AskRole) ->
  cycle (mkMachine g (<[i := c']> (conns m)) (broadcaster m) mu cl).
Proof.
  intros Hb Hc Hp Hr Hcl Hi Hn. destruct (decide (i = ch)) as [->|Hne].
  - destruct Hn as [Er Hp']; [done|]. exists tx, ch, c', block. split_and!; try done.
    + cbn. apply list_lookup_insert_eq. by eapply lookup_lt_Some.
    + rewrite Er. congruence.
  - exists tx, ch, c, block. split_and!; try done. cbn. by rewrite list_lookup_insert_ne.
Qed.

(** The connection of a step is the one of the cycle only if its receiver waits
    and it is past its first question. *)
Ltac cycle_case :=
  match goal with K : forall i c1, _, Hi : conns _ !! _ = Some _ |- cycle _ =>
    eapply K; [exact Hi|done|intros ->; simplify_eq/=; try done; by case_match]
  end.

Lemma cycle_step e m m' : cycle m -> step e m = Some (Ret m') -> cycle m' /\ delivers e = false.
Proof.
  intros (tx & ch & c & block & Hb & Hc & Hp & Hr & Hcl) E.
  assert (K : forall i c1 c' g mu cl, conns m !! i = Some c1 -> ch ∉ cl ->
    (i = ch -> receiver c' = receiver c1 /\ c_pc c' <> AskRole) ->
    cycle (mkMachine g (<[i := c']> (conns m)) (broadcaster m) mu cl)) by (intros; by eapply cycle_conn).
  assert (K0 : forall g mu, cycle (mkMachine g (conns m) (broadcaster m) mu (closedChans m)))
    by (intros; by exists tx, ch, c, block).
  destruct e as [addr now|i line|i line|i line now|i|i|i now|i| |i|i now|i|i]; unfold_step E;
    try (destruct (conns m !! i) as [[a p rc]|] eqn:Hi; [|done]); cbn [delivers]; try (split; [|done]).
  - destruct (chainmutex m); [done|]. simplify_eq. exists tx, ch, c, block. split_and!; try done.
    cbn. by apply lookup_app_l_Some.
  - destruct p; try done. assert (i <> ch) by (intros ->; by simplify_eq).
    destruct line as [line|]; [destruct (Atoi line) as [role [err|]]|].
    + destruct (chainmutex m); [done|]. case_decide; [done|]. simplify_eq.
      eapply K; [done|set_solver|done].
    + repeat case_decide; simplify_eq; cycle_case.
    + simplify_eq. cycle_case.
  - destruct p; try done. simplify_eq. destruct (existsAccountBlockChain _ _); [cycle_case|by destruct m].
  - destruct p; try done. destruct line as [line|]; [destruct (Atoi line) as [n [err|]]|]; simplify_eq; cycle_case.
  - destruct p; try done. destruct (chainmutex m); [done|]. injection E as E.
    apply bind_ret_inv in E as ([g ok] & _ & E). simplify_eq/=. cycle_case.
  - destruct p; try done. by rewrite Hb in E.
  - destruct p; try done. destruct (chainmutex m); [done|]. destruct (snapshotChain _ _ _ _) as [g ok].
    destruct ok; simplify_eq; [cycle_case|apply K0].
  - destruct p; try done. simplify_eq. cycle_case.
  - rewrite Hb in E. case_decide; [done|]. rewrite Hc in E. destruct c as [a p rc]. cbn in Hr. by subst.
  - destruct rc as [[|tx'| | |]|]; try done. injection E as E.
    apply bind_ret_inv in E as (b & _ & E). simplify_eq/=. cycle_case.
  - destruct rc as [[| |tx'| |]|]; try done. simplify_eq. cycle_case.
  - destruct rc as [[| | |tx' b|]|]; try done. destruct (chainmutex m); [done|]. injection E as E.
    apply bind_ret_inv in E as ([g ok] & _ & E). simplify_eq/=. cycle_case.
  - destruct rc as [[| | | |b]|]; try done. by rewrite Hb in E.
Qed.

(** C23: the first version can stop for good.  Once the broadcaster waits for the
    receiver of a node while that receiver waits for the broadcaster, they wait
    through every further run: whatever the connections do, no account block is
    announced and no transfer is handed over any more. *)
Theorem cycle_is_forever m es m' :
  cycle m -> run es m = Some (Ret m') -> cycle m' /\ Forall (fun e => delivers e = false) es.
Proof.
  revert m. induction es as [|e es IH]; intros m H E; cbn in E.
  - by injection E as <-.
  - destruct (step e m) as [[m1| |]|] eqn:Es; try done. destruct (cycle_step e m m1 H Es) as [H1 He].
    destruct (IH m1 H1 E) as [H' Hes]. split; [done|by constructor].
Qed.
End cycle.

(** ** Runs *)
Definition no_json : gmap string string -> string := fun _ => "{}".

(** A run with its books, every step taken once. *)
Fixpoint audit (es : list event) (m : machine) : bool * Z * option (outcome machine) :=
  match es with
  | [] => (true, 0, Some (Ret m))
  | e :: es =>
      match step no_json e m with
      | Some (Ret m') =>
          let '(f, z, r) := audit es m' in (fresh_step e m && f, issued e m - lost e m + z, r)
      | r => (fresh_step e m, issued e m - lost e m, r)
      end
  end.
Lemma audit_eq es m : audit es m = (fresh no_json es m, balance_sheet no_json es m, run no_json es m).
Proof.
  revert m. induction es as [|e es IH]; intros m; [done|]. cbn.
  destruct (step no_json e m) as [[m'| |]|]; [by rewrite IH|..]; by rewrite andb_true_r, Z.add_0_r.
Qed.
Definition held (m : machine) (a : string) : Z := Amount (myAccountBlockChain (glob m) a).
(** Whether the run is fresh, its books, and what some accounts hold in the end. *)
Definition report (es : list event) (accts : list string) : bool * Z * list Z :=
  let '(f, z, r) := audit es (start no_json) in
  (f, z, match r with Some (Ret m) => held m <$> accts | _ => [] end).
Abbreviation run0 es := (run no_json es (start no_json)).
Lemma report_inv es accts f z x l :
  report es accts = (f, z, x :: l) ->
  fresh no_json es (start no_json) = f /\ balance_sheet no_json es (start no_json) = z /\
  exists m, run0 es = Some (Ret m) /\ held m <$> accts = x :: l.
Proof.
  unfold report. rewrite audit_eq. destruct (run no_json es (start no_json)) as [[m| |]|]; try done.
  intros [= -> -> Hl]. split_and!; [done..|]. by exists m.
Qed.

(** Two connections, the first with the account of Alice, the second of Bob. *)
Definition two_nodes : list event :=
  [EConnect "alice" "t0"; ERole 0 (Some "1"); EConnect "bob" "t1"; ERole 1 (Some "1")].
(** A transfer up to the broadcaster, from there to the receiver, and its receipt. *)
Definition send (i : nat) (to amount now : string) : list event :=
  [ETo i to; EAmount i (Some amount) now; ESubmit i; EAnnounce i].
Definition receive (i : nat) (now : string) : list event := [EForward; ELookup i; EReceive i now; EReceived i].

Definition transfer : list event :=
  two_nodes ++ send 0 "bob" "30" "t2" ++ receive 1 "t3" ++ [EReceiverAnnounce 1].

Lemma first_version_balances_witness :
  exists m, run0 transfer = Some (Ret m) /\ wrap64 (worth m) = 200 /\ held m "alice" = 70 /\ held m "bob" = 130.
Proof.
  assert (H : report transfer ["alice"; "bob"] = (true, 200, [70; 130])) by (vm_compute; reflexivity).
  destruct (report_inv _ _ _ _ _ _ H) as (Hf & Hb & m & E & Hl).
  injection Hl as Ha Hc. exists m. split; [exact E|]. split; [|by split].
  pose proof (first_version_balances no_json transfer (Ret m) Hf E) as Hw. cbv beta iota in Hw.
  rewrite Hb in Hw. exact Hw.
Defined.

(** Alice sends twice in a row: the broadcaster has taken the second transfer when
    the receiver of Bob wants to announce the first.  Her third one is appended, and
    is never announced. *)
Definition after (es : list event) : machine := match run0 es with Some (Ret m) => m | _ => start no_json end.
Definition both_wait : list event :=
  two_nodes ++ send 0 "bob" "1" "t2" ++ receive 1 "t3" ++ send 0 "bob" "2" "t4".
Definition third : list event := [ETo 0 "bob"; EAmount 0 (Some "3") "t5"; ESubmit 0].

Definition cycleb (m : machine) : bool :=
  match broadcaster m with
  | BSend _ ch =>
      match conns m !! ch with
      | Some (mkConn _ AskRole _) => false
      | Some (mkConn _ _ (Some (RAnnounce _))) => bool_decide (ch ∉ closedChans m)
      | _ => false
      end
  | BWait => false
  end.
Lemma cycleb_cycle m : cycleb m = true -> cycle m.
Proof.
  unfold cycleb, cycle. intros H. destruct (broadcaster m) as [|tx ch]; [done|].
  destruct (conns m !! ch) as [[a p r]|] eqn:E; [|done].
  destruct p, r as [[]|]; try done; apply bool_decide_eq_true in H; by eexists _, _, _, _.
Qed.

(** Whether a state is in a cycle, and what an account holds after a further run. *)
Definition in_cycle (m : machine) (es : list event) (a : string) : bool * Z :=
  (cycleb m, match run no_json es m with Some (Ret m') => held m' a | _ => 0 end).
Lemma in_cycle_inv m es a v :
  in_cycle m es a = (true, v) -> v <> 0 ->
  cycle m /\ exists m', run no_json es m = Some (Ret m') /\ held m' a = v.
Proof.
  unfold in_cycle. intros [= Hc Hr] Hv. split; [by apply cycleb_cycle|].
  destruct (run no_json es m) as [[m'| |]|]; [by exists m'|congruence..].
Qed.

Lemma cycle_is_forever_witness :
  exists m', run no_json third (after both_wait) = Some (Ret m') /\ cycle m' /\ held m' "alice" = 94.
Proof.
  assert (H : in_cycle (after both_wait) third "alice" = (true, 94)) by (vm_compute; reflexivity).
  destruct (in_cycle_inv _ _ _ _ H) as (Hc & m' & E & Ha); [lia|].
  exists m'. split; [exact E|]. split; [|exact Ha].
  destruct (cycle_is_forever no_json (after both_wait) third m' Hc E) as [H' _]. exact H'.
Defined.

(** Bob sends while he receives: the receipt is built on a head that has changed, and
    the transfer is lost.  Carol leaves while a transfer to her waits: the process
    ends.  Alice connects again: she has 100 again. *)
Definition race : list event :=
  two_nodes ++ send 0 "bob" "30" "t2" ++ [EForward; ELookup 1; EReceive 1 "t3"] ++
  send 1 "alice" "10" "t4" ++ [EReceived 1].
Definition leave : list event :=
  [EConnect "alice" "t0"; ERole 0 (Some "1"); EConnect "carol" "t1"] ++ send 0 "carol" "5" "t2" ++
  [ERole 1 (Some "bye"); EForward].
Definition again : list event := two_nodes ++ send 0 "bob" "30" "t2" ++ [EConnect "alice" "t3"].

Example race_loses_transfer : report race ["alice"; "bob"] = (true, 170, [70; 90]).
Proof. vm_compute; reflexivity. Qed.
Example leaving_ends_process :
  match run0 leave with Some (Panic w) => w | _ => "" end = "send on closed channel".
Proof. vm_compute; reflexivity. Qed.
Example connecting_again_restores : report again ["alice"; "bob"] = (true, 230, [100; 100]).
Proof. vm_compute; reflexivity. Qed.

(** Every amount that is not a character is hashed alike, so the hash of a transfer
    does not bind its amount. *)
Lemma negative_amounts_collide tx a b :
  a < 0 -> b < 0 ->
  calculateTxHash (mkTx (TxType tx) (AccountNonce tx) a (From tx) (To tx) (tx_Hash tx) (Source tx) (tx_Signer tx)) =
  calculateTxHash (mkTx (TxType tx) (AccountNonce tx) b (From tx) (To tx) (tx_Hash tx) (Source tx) (tx_Signer tx)).
Proof.
  assert (E : forall n, n < 0 -> rune_string n = rune_string (-1)).
  { intros n Hn. unfold rune_string. by rewrite !decide_True by lia. }
  intros Ha Hb. unfold calculateTxHash. cbn [tx_Amount AccountNonce From To Source tx_Signer].
  by rewrite (E a Ha), (E b Hb).
Qed.

(** ** Snapshots

    A snapshot always succeeds, is linked to the one before, lists the heads that no
    snapshot has, and leaves none without: every head is listed once. *)
Lemma mark_all (accounts : gmap string string) (m : gmap string bool) h :
  default false (map_fold (fun _ accountHash m => <[accountHash := true]> m) m accounts !! h) = true <->
  (exists a, accounts !! a = Some h) \/ default false (m !! h) = true.
Proof.
  apply (map_fold_weak_ind (fun r acc => default false (r !! h) = true <->
    (exists a, acc !! a = Some h) \/ default false (m !! h) = true)).
  - split; [by right|]. intros [[a Ha]|?]; [by rewrite lookup_empty in Ha|done].
  - intros a x acc r Ha IH. destruct (decide (x = h)) as [->|Hn].
    + rewrite lookup_insert_eq. split; [|done]. intros _. left. exists a. by rewrite lookup_insert_eq.
    + rewrite lookup_insert_ne, IH by done. split; intros [[b Hb]|?]; [left|by right|left|by right]; exists b.
      * rewrite lookup_insert_ne; [done|]. intros ->. by rewrite Ha in Hb.
      * apply lookup_insert_Some in Hb as [[_ Hb]|[_ Hb]]; [by subst|done].
Qed.

Lemma snapshot_lists_new_heads marshal now g a g' ok :
  snapshotChain marshal now g a = (g', ok) ->
  ok = true /\ s_PreHash (snapshotBlockChain g') = s_Hash (snapshotBlockChain g) /\
  exists accounts,
    snapshotAccountMap g' !! AccountsHash (snapshotBlockChain g') = Some accounts /\
    (forall addr h, accounts !! addr = Some h <->
       exists b, accountStateBlockChain g !! addr = Some b /\ Hash b = h /\ snapshotted g h = false) /\
    (forall addr b, accountStateBlockChain g' !! addr = Some b -> snapshotted g' (Hash b) = true).
Proof.
  unfold snapshotChain, generateSnapshotBlock. set (accounts := Hash <$> _). cbn beta iota.
  unfold appendSnapshotBlockChain, validateSnapshotBlock. rewrite bool_decide_true by done. cbn [negb].
  rewrite decide_False by (intros [_ Hn]; by apply Hn). intros [= <- <-]. split; [done|]. split; [done|].
  assert (Ha : forall addr h, accounts !! addr = Some h <->
    exists b, accountStateBlockChain g !! addr = Some b /\ Hash b = h /\ snapshotted g h = false).
  { intros addr h. unfold accounts. rewrite lookup_fmap, fmap_Some. split.
    - intros (b & Hb & ->). apply map_lookup_filter_Some in Hb as [Hb Hs]. by exists b.
    - intros (b & Hb & <- & Hs). exists b. split; [|done]. by apply map_lookup_filter_Some. }
  exists accounts. split; [apply lookup_insert_eq|]. split; [exact Ha|].
  intros addr b Hb. apply mark_all. destruct (snapshotted g (Hash b)) eqn:E; [by right|].
  left. exists addr. apply Ha. by exists b.
Qed.
